(* ===== verification/_CoqProject ===== *)
-Q . S2P
Prelude.v
Event.v
Convert.v
EventThm.v
DList.v
Iface.v
Timer.v
TimerInv.v
TimerOps.v
TimerPoll.v
TimerSpec.v
TimerThm.v
TimerWakeup.v
ReadyQueue.v
QueueInv.v
QueueOps.v
QueuePoll.v
Poll.v
PollThm.v
QueueConc.v
QueueConcThm.v
QueueConcEx.v
Handles.v
Channel.v
ChannelThm.v
ChannelConc.v
ChannelBlock.v
Epoll.v
EpollThm.v
Kqueue.v
KqueueThm.v
KqReg.v
UnixIo.v
UnixThm.v
EpollReg.v
UnixSock.v
UnixSockThm.v
UnixSockEx.v
NetApi.v
SysUtil.v
EventLoop.v
EventLoopThm.v
LoopInv.v
LoopOps.v
LoopPoll.v
LoopNew.v
LoopThm.v
LoopEx.v
Windows.v
WindowsThm.v
WinAwake.v
WinSock.v
WinSockInv.v
WinTcp.v
WinTcpInv.v
WinTcpThm.v
WinListener.v
WinListenerThm.v
WinUdp.v
WinUdpThm.v
WinDemo.v
WinTcpEx.v
WinListenerEx.v
WinUdpEx.v
WinPoll.v
WinLoop.v
IosDeploy.v
SourceTests.v
