(* ===== verification/Prelude.v ===== *)
(** * A verification of mio (non-blocking I/O event queue, version 0.6)

    ** The program

    mio turns the readiness of sockets, timers and channels into a stream of
    events.  [Poll] (src/src/poll.rs) joins two sources: the selector of the
    platform (src/src/sys/unix/epoll.rs, kqueue.rs, src/src/sys/windows/selector.rs),
    which asks the kernel, and the readiness queue, an intrusive linked list of
    nodes on which any thread may put a [Registration] by setting its readiness.
    A poll that finds the queue empty leaves a sleep token in it; whoever puts a
    node on the queue then, finds the token and signals the [Awakener], which
    interrupts the selector.  The timer (src/src/timer.rs, a hashed timing wheel
    with a wakeup thread of its own) and the channel (src/src/channel.rs, a
    counter next to a queue of the standard library) are users of the readiness
    queue.  The event loop (src/src/deprecated/event_loop.rs) runs a [Poll], a
    [Timer] and a channel for notifications, and calls a handler.

    ** The files

    - [Prelude]: machine integers, outcomes, the state monad [M] with its
      notation, [wp] and its rules, tactics, hint databases and generic lemmas.
    - [Event], [Convert], [EventThm]: event.rs, token.rs ([Ready], [PollOpt],
      [Event], [Token]: the newtypes over [usize] with every operator), and the
      module [convert] of lib.rs ([millis]).
    - [DList]: representation predicates of singly and doubly linked lists whose
      cells live in a finite map; used by the wheel and by the readiness queue.
    - [Iface]: the interfaces between components and those of the crates [slab]
      and [lazycell], with their laws and concrete instances.  The timer and the
      channel are verified against [ReadinessOps] and [ReadinessLaws]; [Poll]
      discharges these for the readiness queue.
    - [Timer]: timer.rs, one definition per function; [TimerInv]: the invariant
      of wheel and slab; [TimerOps], [TimerPoll]: the operations preserve it;
      [TimerSpec]: the abstract timer and the refinement; [TimerThm]: theorems;
      [TimerWakeup]: the owner and the wakeup thread as a step relation.
    - [ReadyQueue]: the readiness queue of poll.rs on an explicit heap, where
      following a dangling pointer is [Panic]; [QueueInv], [QueueOps],
      [QueuePoll]: its invariant and the rules of its operations; [Poll]: [Poll],
      [Events] and the interfaces of selector and event buffer; [PollThm]:
      theorems.
    - [QueueConc]: the same queue with one step per atomic access, the polling
      thread next to any number of threads with handles; [QueueConcThm]: its
      invariant and theorems; [QueueConcEx]: runs, and two races.
    - [Channel]: channel.rs, one operation at a time, over a model of
      [std::sync::mpsc]; [ChannelThm]; [ChannelConc]: the same protocol with one
      step per atomic access, any number of senders and the receiver;
      [ChannelBlock]: threads that block in [SyncSender::send].
    - [Epoll], [EpollThm], [Kqueue], [KqueueThm]: the two Unix selectors over
      interfaces of the kernel and of the constants of libc; [KqReg]: the changes
      that kqueue's registrations submit, against what kevent(2) documents.
    - [UnixIo], [UnixThm]: the helpers of io.rs, the pipe awakener
      (sys/unix/awakener.rs), [EventedFd] and the association of a socket with a
      selector (net/mod.rs, sys/unix/tcp.rs, udp.rs); [EpollReg]: [Poll] with epoll
      and descriptors as sources, against an abstract map of registrations.
    - [UnixSock], [UnixSockThm], [UnixSockEx]: how sockets and pipes are made,
      adopted, cloned and accepted on Unix (net/tcp.rs, net/udp.rs,
      sys/unix/tcp.rs, udp.rs, uds.rs, io.rs, mod.rs, deprecated/unix.rs), with
      the descriptors they own; addresses of Unix sockets; passing descriptors.
      [NetApi]: the rest of the public socket types (reading and writing, clones,
      raw descriptors) and programs that register sockets with several polls.
    - [SysUtil]: the buffers of vectored I/O (iovec.rs, sys/unix/iovec.rs,
      sys/windows/iovec.rs) and the look-up of functions of libc
      (sys/unix/dlsym.rs) by several threads.
    - [EventLoop], [EventLoopThm]: the event loop, composed of the above; the
      handler is an arbitrary record of functions on the state of the loop.
    - The loop as a whole: [LoopInv]: the readiness queue with the handles the
      loop's channel and timer own, and rules for its operations; [LoopOps]: the
      invariant [LoopOk] of channel, timer, queue and events to be handled, and
      that everything a handler can call keeps it; [LoopPoll]: what other threads
      may do during the selector call, and that a poll keeps it; [LoopNew]:
      [configured]; [LoopThm]: a small logic for handlers, iterations and
      sequences of them; [LoopEx]: the two Unix selectors as platforms, and runs.
    - [Windows], [WindowsThm]: the completion-port selector, bindings, the pool
      of buffers and [FromRawArc]; [WinAwake]: making selectors, bindings of
      handles, and the awakener (sys/windows/awakener.rs).
    - [WinSock]: what the Windows sockets share: their boxes, counted and on a
      heap, the registrations, the pools, and the kernel with its operations in
      flight; [WinSockInv]: ownership of the boxes and rules of the shared code.
      [WinTcp], [WinTcpInv], [WinTcpThm]: streams; [WinListener],
      [WinListenerThm]: listeners (both sys/windows/tcp.rs); [WinUdp],
      [WinUdpThm]: sys/windows/udp.rs.  The owner's calls and the completions are
      events in any order; between them the rest of the program may do whatever
      leaves this socket's box and operations alone.  [WinDemo]: a concrete
      kernel; [WinTcpEx], [WinListenerEx], [WinUdpEx]: runs on it.
      [WinPoll]: [Poll::poll] over the Windows selector and these sockets, on the
      readiness queue itself; [WinLoop]: the event loop over these polls.
    - [Handles]: the Windows sockets are verified against [HandleLaws] of [Iface]
      (what owning a [Registration] and a [SetReadiness] entitles to); this file
      discharges them for the readiness queue.
    - [SourceTests]: the unit tests inside timer.rs, poll.rs and
      sys/windows/from_raw_arc.rs, call by call, run on the model.
    - [IosDeploy]: the script of the continuous integration that runs tests on the
      iOS simulator (src/ci/ios/deploy_and_run_on_ios_simulator.rs), in a monad with
      early exits and a trace of what it asks of the host.

    ** What the theorems show

    - Event loop as a whole: an iteration with well-behaved handlers does not
      panic, keeps the invariant and hands over messages in order, whatever other
      threads and the selector do (C2); messages that wait get through within a
      bounded number of iterations (C3), and, if the handler leaves the timer alone,
      so do timeouts that were announced (C4); [configured] establishes the
      invariant (C5); handling the timer's event ends with a handler that only
      records the timeouts (C37); when [run] returns ([EventLoopThm.run_returns]).  On Windows, where a poll runs the callbacks of
      completed operations, iterations do the same (C24).
    - Timer: sequences of operations refine an abstract map from tokens to
      (tick, state) with a current tick (C1); polling delivers exactly the due
      timeouts in order (C6); the handle of a fired timeout is dead (C7).  In every
      interleaving with the wakeup thread no wakeup is lost; the thread sleeps for a
      duration, counted from when it parks (C8).
    - Readiness queue and [Poll]: sequential programs over handles are memory safe
      with exact reference counts (C9) and leak nothing (C11); what a poll reports and
      leaves queued (C10); a sleeping poll is woken ([PollThm.sleeper_is_woken]);
      the results of [Poll] (C15).  Over epoll, registrations and polls refine a
      map from descriptors to registrations, which determines every answer from
      what the kernel answers and the queue holds (C16).  Under every interleaving
      of atomic steps the queue stays memory safe, if the polling thread drops the
      last handles and the selector does not fail (C12); under these provisos a
      sleeping poll has missed nothing (C13) and gets its signal within a bounded
      number of steps of the other threads, in whatever order they go on (C14); the steps implement the
      sequential operation ([QueueConcThm.pre_run_is_queue_for_processing]).
    - Channel: order, exactly-once delivery and readiness (C17), threads blocked in
      a send get through (C18), and readiness under every interleaving of atomic
      steps, once the receiver is registered (C19, [ChannelConc.receiver_gets_ready]), which implement the sequential operations
      ([ChannelConc.steps_are_inc_dec]).
    - Windows sockets: the box of a socket is never touched after it was freed
      and is freed in the end, under every order of calls and completions (C20,
      C25, C26); bytes and datagrams are transferred in order and none twice
      (C21, C27); a registered socket is ready or has an operation in flight that
      will make it so (C22, [WinListenerThm.listener_progress],
      [WinUdpThm.udp_read_progress]), and the poll that takes the completion of
      that operation reports it (C23, and for listeners
      and UDP sockets [WinPoll.accept_completion_reported] and
      [WinPoll.udp_completion_reported]); receiving on every branch (C28).
    - Selectors: timeouts (C29), translation of events (C30), what registrations
      with kqueue do to the filters of a queue (C36).
    - Awakeners of Unix (C31) and Windows (C32).
    - Descriptors: whatever fails while a socket is made, no descriptor leaks,
      and those handed out do not block and do not survive an exec (C33);
      addresses of Unix sockets (C34); on Linux no socket gets into the interest lists of two
      selectors (C35).
    - Readiness sets of users stay free of the internal flag (C38);
      [FromRawArc] (C39).
    - The deployment script succeeds exactly if all its calls and the tests do (C40),
      boots the simulator from every state, and always shuts it down again
      ([IosDeploy.start_simulator_boots], [IosDeploy.launched_then_shut_down]).

    Theorems without a number are about further functions (registration guards,
    errors of a poll, [select], ids, durations, the output of sets, reading from
    Windows streams, pipes, adopted descriptors, messages with descriptors,
    look-up of libc's functions), or exhibit behaviour of the code that its comments do not
    promise, on concrete runs: [TimerThm.idle_polls_fire_early],
    [TimerThm.stale_next_tick], [TimerThm.cancelled_handle_reused],
    [PollThm.update_after_failed_poll_panics], [QueueConcEx.drop_races_with_poll],
    [QueueConcEx.update_after_failed_select],
    [ChannelConc.register_races_with_send], [ChannelConc.readable_but_empty],
    [ChannelBlock.rendezvous_sends_block] (for all runs),
    [EpollThm.pushed_error_is_lost], [KqueueThm.failed_changes_are_resubmitted],
    [KqReg.deregister_after_oneshot] and [KqReg.kq_reregister_adds] (for all runs),
    [NetApi.converted_socket_has_no_selector],
    [WindowsThm.pooled_buffer_too_small], [UnixSockThm.send_fd_passes_stdin_too],
    [SysUtil.empty_iovec_is_null], [IosDeploy.output_of_a_test_hides_failure], and the last examples of [WinTcpEx],
    [WinListenerEx] and [WinUdpEx].

    ** Conventions, bounds and fuel

    Fallible code returns [result]; code that can panic, follow a bad pointer or
    run out of fuel returns an outcome, [Done], [Panic] or [OutOfFuel]; stateful
    code is in the monad [M] of functions from a state to an outcome.  The target
    is a 64-bit one.  Plain arithmetic of the source panics when it overflows, so
    a theorem that excludes [Panic] excludes overflow; atomic [fetch_add] and
    [fetch_sub] wrap.

    Loops that are not structural take fuel, and the theorems show that the fuel
    given suffices: [poll_to] gets [poll_fuel], which bounds the ticks to pass
    and the entries to visit; [queue_poll] one more than the number of nodes of
    the heap; the compare-and-swap loops one or two rounds, as nobody interferes within
    an operation of the sequential models; [cleanup] one more than the bytes
    waiting; the loop of [schedule_write] one more than the bytes to write, since
    every round that goes on has transferred some.  The fuel of [timer_process] is a parameter that C37 requires to
    exceed the number of pending timeouts, and C4 the capacity of the timer; C2
    does not need it except to show that an iteration returns.  The rounds of [run]
    are a parameter because the loop need not end, and [EventLoopThm.run_returns] says exactly
    when it does.  [LoopOk] counts the events handled so far, as the tick of the timer can
    move by one with each of them ([TimerThm.idle_polls_fire_early]); the theorems
    on the loop ask this count to stay below the largest tick.

    ** What is not modelled

    Memory orderings weaker than sequential consistency are not modelled anywhere.
    Interleavings inside an operation are modelled for the readiness queue, the
    timer's wakeup, the channel and the look-up of functions; the models of [Poll]
    and of the event loop, which use the sequential queue, let other threads act
    as a whole during the selector call.
    What the kernel, miow, net2 and [std::net] do is an interface with their
    documented behaviour; the calls that only forward to them are one definition
    per type.  The implementations for references repeat those for values.  The
    lines of net/tcp.rs that only Windows runs, most [Debug] implementations,
    logging, and the shell scripts and container definitions under ci/ are not
    modelled; what is left of the sources is imports, re-exports, markers and
    accessors. *)

From Stdlib Require Export ZArith Lia.
From stdpp Require Export base tactics numbers strings gmap list.

#[export] Set Warnings "-clear-no-such-hyp".
Open Scope Z_scope.

(** ** Machine integers

    The modelled target is a 64-bit one: [usize] and [u64] are both integers in
    [[0, 2^64)], written as [Z].  Arithmetic that the source writes with a plain
    operator panics on overflow in a build with overflow checks; the checked
    operators below return [Panic] there, so that a theorem which rules [Panic]
    out holds for the wrapping (release) build as well. *)

Definition U64_MAX : Z := 18446744073709551615.
Definition U32_MAX : Z := 4294967295.
Definition I32_MAX : Z := 2147483647.
Definition USIZE_MAX : Z := U64_MAX.
Definition ISIZE_MAX : Z := 9223372036854775807.

Definition is_u64 (x : Z) : Prop := 0 <= x <= U64_MAX.
Definition is_u32 (x : Z) : Prop := 0 <= x <= U32_MAX.

(** Reduction modulo [2^64]: what [as usize], [fetch_add] and [fetch_sub] do. *)
Definition wrap64 (x : Z) : Z := x mod 18446744073709551616.

(** Bitwise complement of a [usize]. *)
Definition not64 (x : Z) : Z := Z.lxor x U64_MAX.

Definition saturating_add (a b : Z) : Z := Z.min U64_MAX (a + b).
Definition saturating_mul (a b : Z) : Z := Z.min U64_MAX (a * b).
Definition checked_mul (a b : Z) : option Z :=
  if a * b <=? U64_MAX then Some (a * b) else None.

(** ** Outcomes of Rust code

    [Done a]: the code returned [a].  [Panic]: it panicked (index out of range,
    [unwrap] of [None], checked overflow, division by zero).  [OutOfFuel]: the
    fuel given to a loop was not enough; no theorem counts it as a result. *)

Inductive outcome (A : Type) : Type :=
  | Done (a : A)
  | Panic
  | OutOfFuel.
Arguments Done {A} _.
Arguments Panic {A}.
Arguments OutOfFuel {A}.

#[export] Instance outcome_ret : MRet outcome := λ A a, Done a.
#[export] Instance outcome_bind : MBind outcome := λ A B f m,
  match m with Done a => f a | Panic => Panic | OutOfFuel => OutOfFuel end.
#[export] Instance outcome_fmap : FMap outcome := λ A B f m,
  match m with Done a => Done (f a) | Panic => Panic | OutOfFuel => OutOfFuel end.

Lemma bind_done {A B} (m : outcome A) (f : A → outcome B) r :
  (m ≫= f) = Done r ↔ ∃ a, m = Done a ∧ f a = Done r.
Proof. destruct m; cbn; naive_solver. Qed.

(** [x.unwrap()] and [x.expect(..)]. *)
Definition unwrap {A} (o : option A) : outcome A :=
  match o with Some a => Done a | None => Panic end.

(** Checked addition of two [u64]/[usize] values. *)
Definition add64 (a b : Z) : outcome Z :=
  if a + b <=? U64_MAX then Done (a + b) else Panic.

(** Integer division: a zero divisor panics. *)
Definition div64 (a b : Z) : outcome Z :=
  if b =? 0 then Panic else Done (a / b).

(** [std::result::Result]. *)
Inductive result (E A : Type) : Type :=
  | Ok (a : A)
  | Err (e : E).
Arguments Ok {E A} _.
Arguments Err {E A} _.

Definition is_ok {E A} (r : result E A) : bool :=
  match r with Ok _ => true | Err _ => false end.

Definition result_map {E A B} (f : A → B) (r : result E A) : result E B :=
  match r with Ok a => Ok (f a) | Err e => Err e end.

(** ** Stateful code

    [M S A]: code that reads and writes a state [S], may panic and otherwise
    returns an [A].  Do-notation is stdpp's ([x ← m; k]); [try!] is [x ←? m; k]. *)

Definition M (S A : Type) : Type := S → outcome (A * S).

#[export] Instance M_ret {S} : MRet (M S) := λ A a s, Done (a, s).
#[export] Instance M_bind {S} : MBind (M S) := λ A B f m s,
  match m s with
  | Done (a, s') => f a s'
  | Panic => Panic
  | OutOfFuel => OutOfFuel
  end.

Declare Scope rust_scope.
Delimit Scope rust_scope with rust.
Open Scope rust_scope.

Notation "x ←? m ; k" :=
  (mbind (λ r, match r with Ok x => k | Err e => mret (Err e) end) m)
  (at level 100, m at next level, k at level 200, right associativity) : rust_scope.
Notation "'try!' m ; k" :=
  (mbind (λ r, match r with Ok _ => k | Err e => mret (Err e) end) m)
  (at level 100, m at next level, k at level 200, right associativity) : rust_scope.

Definition get {S} : M S S := λ s, Done (s, s).
Definition gets {S A} (f : S → A) : M S A := λ s, Done (f s, s).
Definition put {S} (s' : S) : M S unit := λ _, Done (tt, s').
Definition modify {S} (f : S → S) : M S unit := λ s, Done (tt, f s).
Definition lift {S A} (o : outcome A) : M S A := λ s,
  match o with Done a => Done (a, s) | Panic => Panic | OutOfFuel => OutOfFuel end.
Definition panic {S A} : M S A := λ _, Panic.
Definition out_of_fuel {S A} : M S A := λ _, OutOfFuel.

(** ** Weakest preconditions (total: they exclude panics and lack of fuel) *)

Definition wp {S A} (m : M S A) (Q : A → S → Prop) (s : S) : Prop :=
  match m s with Done (a, s') => Q a s' | Panic => False | OutOfFuel => False end.

Section wp_rules.
Context {S : Type}.

Lemma wp_ret {A} (a : A) (Q : A → S → Prop) s : Q a s → wp (mret a) Q s.
Proof. done. Qed.

Lemma wp_bind {A B} (m : M S A) (f : A → M S B) (Q : B → S → Prop) s :
  wp m (λ a s', wp (f a) Q s') s → wp (m ≫= f) Q s.
Proof. unfold wp, mbind, M_bind. by destruct (m s) as [[a s']| |]. Qed.

Lemma wp_mono {A} (m : M S A) (Q R : A → S → Prop) s :
  wp m Q s → (∀ a s', Q a s' → R a s') → wp m R s.
Proof. unfold wp. destruct (m s) as [[a s']| |]; naive_solver. Qed.

Lemma wp_done {A} (m : M S A) (Q : A → S → Prop) s :
  wp m Q s ↔ ∃ a s', m s = Done (a, s') ∧ Q a s'.
Proof. unfold wp. destruct (m s) as [[a s']| |]; naive_solver. Qed.

Lemma wp_of_eq {A} (m : M S A) (Q : A → S → Prop) s a s' :
  m s = Done (a, s') → Q a s' → wp m Q s.
Proof. intros Hm HQ. apply wp_done. eauto. Qed.

Lemma wp_gets {A} (f : S → A) (Q : A → S → Prop) s : Q (f s) s → wp (gets f) Q s.
Proof. done. Qed.

Lemma wp_modify (f : S → S) (Q : unit → S → Prop) s : Q tt (f s) → wp (modify f) Q s.
Proof. done. Qed.

Lemma wp_put (s' : S) (Q : unit → S → Prop) s : Q tt s' → wp (put s') Q s.
Proof. done. Qed.

Lemma wp_lift {A} (o : outcome A) a (Q : A → S → Prop) s :
  o = Done a → Q a s → wp (lift o) Q s.
Proof. by intros ->. Qed.
End wp_rules.

Create HintDb mio discriminated.

(** One symbolic step of a program under [wp]. *)
Ltac wp_step :=
  lazymatch goal with
  | |- wp (mbind _ _) _ _ => apply wp_bind
  | |- wp (mret _) _ _ => apply wp_ret
  | |- wp (gets _) _ _ => apply wp_gets
  | |- wp (modify _) _ _ => apply wp_modify
  | |- wp (put _) _ _ => apply wp_put
  | |- wp (lift (Done ?a)) _ _ => apply (wp_lift _ a); [reflexivity|]
  end.
Ltac wp_steps := repeat (wp_step; cbn beta iota).

(** Take apart the equations [m = Done r] of the context, step by step. *)
Ltac inv_done :=
  repeat match goal with
  | H : mbind _ _ = Done _ |- _ =>
      let a := fresh "a" in let Ha := fresh "Ha" in
      apply bind_done in H as (a & Ha & H); cbv beta in H
  | H : Done _ = Done _ |- _ => injection H as H; subst
  | H : mret _ = Done _ |- _ => injection H as H; subst
  | H : Panic = Done _ |- _ => discriminate H
  | H : OutOfFuel = Done _ |- _ => discriminate H
  | H : (if ?b then _ else _) = Done _ |- _ => destruct b eqn:?
  end.

(** Two runs of the same code have the same result. *)
Ltac same_done :=
  repeat match goal with
  | H1 : ?e = Done _, H2 : ?e = Done _ |- _ => rewrite H1 in H2; simplify_eq
  end.

(** Reflect the boolean comparisons of the source in context and goal. *)
Ltac zbool :=
  repeat match goal with
  | H : (_ <=? _) = true |- _ => apply Z.leb_le in H
  | H : (_ <=? _) = false |- _ => apply Z.leb_gt in H
  | H : (_ <? _) = true |- _ => apply Z.ltb_lt in H
  | H : (_ <? _) = false |- _ => apply Z.ltb_ge in H
  | H : (_ =? _) = true |- _ => apply Z.eqb_eq in H
  | H : (_ =? _) = false |- _ => apply Z.eqb_neq in H
  | H : negb _ = true |- _ => apply negb_true_iff in H
  | H : negb _ = false |- _ => apply negb_false_iff in H
  | H : _ && _ = true |- _ => apply andb_true_iff in H; destruct H
  | H : _ || _ = false |- _ => apply orb_false_iff in H; destruct H
  end.

(** ** Bit-level lemmas *)

Lemma U64_MAX_ones : U64_MAX = Z.ones 64.
Proof. reflexivity. Qed.

Lemma not64_spec x i :
  0 <= i < 64 → Z.testbit (not64 x) i = negb (Z.testbit x i).
Proof.
  intros Hi. unfold not64. rewrite Z.lxor_spec, U64_MAX_ones, Z.ones_spec_low by lia.
  apply xorb_true_r.
Qed.

Lemma testbit_u64_high x i : is_u64 x → 64 <= i → Z.testbit x i = false.
Proof.
  intros [Hx HM] Hi. destruct (decide (x = 0)) as [->|Hne]; [apply Z.bits_0|].
  apply Z.bits_above_log2; [lia|]. apply Z.log2_lt_pow2; [lia|].
  apply Z.le_lt_trans with U64_MAX; [done|].
  apply Z.lt_le_trans with (2 ^ 64); [reflexivity|]. apply Z.pow_le_mono_r; lia.
Qed.

Lemma u64_of_bits x :
  0 <= x → (∀ i, 64 <= i → Z.testbit x i = false) → is_u64 x.
Proof.
  intros Hx Hhigh. split; [done|].
  assert (x mod 2 ^ 64 = x) as Hm.
  { rewrite <- Z.land_ones by lia. apply Z.bits_inj'. intros i Hi.
    rewrite Z.land_spec. destruct (decide (i < 64)).
    - rewrite Z.ones_spec_low by lia. apply andb_true_r.
    - rewrite Z.ones_spec_high, andb_false_r, Hhigh by lia. done. }
  rewrite <- Hm. pose proof (Z.mod_pos_bound x (2 ^ 64) ltac:(reflexivity)) as Hb.
  change (2 ^ 64) with (U64_MAX + 1) in Hb |- *. lia.
Qed.

Lemma land_u64 a b : is_u64 a → 0 <= b → is_u64 (Z.land a b).
Proof.
  intros Ha Hb. apply u64_of_bits; [apply Z.land_nonneg; auto|].
  intros i Hi. by rewrite Z.land_spec, testbit_u64_high.
Qed.

Lemma lor_u64 a b : is_u64 a → is_u64 b → is_u64 (Z.lor a b).
Proof.
  intros Ha Hb. apply u64_of_bits; [apply Z.lor_nonneg; unfold is_u64 in *; lia|].
  intros i Hi. by rewrite Z.lor_spec, !testbit_u64_high.
Qed.

Lemma lxor_u64 a b : is_u64 a → is_u64 b → is_u64 (Z.lxor a b).
Proof.
  intros Ha Hb. apply u64_of_bits; [apply Z.lxor_nonneg; unfold is_u64 in *; lia|].
  intros i Hi. by rewrite Z.lxor_spec, !testbit_u64_high.
Qed.

Lemma not64_u64 a : is_u64 a → is_u64 (not64 a).
Proof. intros Ha. apply lxor_u64; [done|]. unfold is_u64, U64_MAX. lia. Qed.

Lemma wrap64_u64 x : is_u64 (wrap64 x).
Proof.
  unfold wrap64, is_u64, U64_MAX.
  pose proof (Z.mod_pos_bound x 18446744073709551616 ltac:(lia)). lia.
Qed.

Lemma wrap64_id x : is_u64 x → wrap64 x = x.
Proof. unfold wrap64, is_u64, U64_MAX. intros. apply Z.mod_small. lia. Qed.

#[export] Hint Resolve land_u64 lor_u64 lxor_u64 not64_u64 wrap64_u64 : mio.
