(* ===== verification/Event.v ===== *)
(** * event.rs and token.rs: option sets, readiness sets, events, tokens

    [PollOpt] and [Ready] are the newtypes over [usize] of [src/src/event.rs];
    every method and operator is the bitwise operation of the source.  The
    theorems relate them to the sets of flags they stand for. *)

From S2P Require Import Prelude.

(** ** Tokens ([token.rs]) *)

Record Token : Type := mkToken { token_0 : Z }.
#[export] Instance Token_eq_dec : EqDecision Token.
Proof. solve_decision. Defined.
#[export] Instance Token_countable : Countable Token.
Proof. refine (inj_countable' token_0 mkToken _). by intros []. Defined.

Definition token_from_usize (val : Z) : Token := mkToken val.
Definition usize_from_token (val : Token) : Z := token_0 val.

Lemma token_roundtrip (t : Token) : token_from_usize (usize_from_token t) = t.
Proof. by destruct t. Qed.

(** ** Polling options *)

Module PollOpt.

Record t : Type := mk { val : Z }.
#[global] Instance t_eq_dec : EqDecision t.
Proof. solve_decision. Defined.

Definition edge : t := mk 0x020.
Definition empty : t := mk 0.
Definition level : t := mk 0x040.
Definition oneshot : t := mk 0x080.
Definition urgent : t := mk 0x100.

Definition bits (o : t) : Z := val o.
Definition bitor (a b : t) : t := mk (Z.lor (bits a) (bits b)).
Definition bitxor (a b : t) : t := mk (Z.lxor (bits a) (bits b)).
Definition bitand (a b : t) : t := mk (Z.land (bits a) (bits b)).
Definition sub (a b : t) : t := mk (Z.land (bits a) (not64 (bits b))).

Definition all : t := bitor (bitor edge level) oneshot.
Definition not (a : t) : t := mk (Z.land (not64 (bits a)) (bits all)).

Definition contains (a other : t) : bool := bool_decide (bitand a other = other).
Definition is_edge (o : t) : bool := contains o edge.
Definition is_level (o : t) : bool := contains o level.
Definition is_oneshot (o : t) : bool := contains o oneshot.
Definition is_urgent (o : t) : bool := contains o urgent.
Definition insert (a other : t) : t := mk (Z.lor (val a) (val other)).
Definition remove (a other : t) : t := mk (Z.land (val a) (not64 (val other))).

(** The loop of the [Debug] implementations: the names of the contained flags,
    separated by a bar; [one] tells whether a name was already written. *)
Fixpoint fmt_flags {F} (has : F → bool) (one : bool) (flags : list (F * string)) : string :=
  match flags with
  | [] => ""
  | (flag, msg) :: rest =>
      if has flag
      then ((if one then " | " else "") +:+ msg +:+ fmt_flags has true rest)%string
      else fmt_flags has one rest
  end.

Definition fmt (o : t) : string :=
  fmt_flags (contains o) false
    [(edge, "Edge-Triggered"); (level, "Level-Triggered"); (oneshot, "OneShot")]%string.

End PollOpt.

(** ** Readiness sets *)

Module Ready.

Record t : Type := mk { val : Z }.
#[global] Instance t_eq_dec : EqDecision t.
Proof. solve_decision. Defined.

Definition none : t := mk 0.
Definition readable : t := mk 0x001.
Definition writable : t := mk 0x002.
Definition error : t := mk 0x004.
Definition hup : t := mk 0x008.
Definition drop : t := mk 0x10.

Definition bits (r : t) : Z := val r.
Definition bitor (a b : t) : t := mk (Z.lor (bits a) (bits b)).
Definition bitxor (a b : t) : t := mk (Z.lxor (bits a) (bits b)).
Definition bitand (a b : t) : t := mk (Z.land (bits a) (bits b)).
Definition sub (a b : t) : t := mk (Z.land (bits a) (not64 (bits b))).

Definition all : t := bitor (bitor (bitor readable writable) hup) error.
Definition not (a : t) : t := mk (Z.land (not64 (bits a)) (bits all)).

Definition contains (a other : t) : bool := bool_decide (bitand a other = other).
Definition is_none (r : t) : bool := bool_decide (bitand r (not drop) = none).
Definition is_readable (r : t) : bool := contains r readable.
Definition is_writable (r : t) : bool := contains r writable.
Definition is_error (r : t) : bool := contains r error.
Definition is_hup (r : t) : bool := contains r hup.
Definition insert (a other : t) : t := mk (Z.lor (val a) (val other)).
Definition remove (a other : t) : t := mk (Z.land (val a) (not64 (val other))).

Definition fmt (r : t) : string :=
  ("Ready {" +:+
   PollOpt.fmt_flags (contains r) false
     [(readable, "Readable"); (writable, "Writable"); (error, "Error");
      (hup, "Hup"); (drop, "Drop")] +:+ "}")%string.

End Ready.

Notation "a |ᵣ b" := (Ready.bitor a b) (at level 50, left associativity) : rust_scope.
Notation "a &ᵣ b" := (Ready.bitand a b) (at level 40, left associativity) : rust_scope.
Notation "a |ₒ b" := (PollOpt.bitor a b) (at level 50, left associativity) : rust_scope.

(** ** Events *)

Module Event.

Record t : Type := mk { kind_field : Ready.t; token_field : Token }.
#[global] Instance t_eq_dec : EqDecision t.
Proof. solve_decision. Defined.

Definition new (kind : Ready.t) (token : Token) : t := mk kind token.
Definition kind (e : t) : Ready.t := kind_field e.
Definition token (e : t) : Token := token_field e.

End Event.

(** ** Helpers internal to mio *)

Definition as_usize (events : Ready.t) : Z := Ready.val events.
Definition from_usize (events : Z) : Ready.t := Ready.mk events.
Definition is_empty (events : Ready.t) : bool := Ready.val events =? 0.
Definition is_drop (events : Ready.t) : bool := Ready.contains events Ready.drop.
Definition event_drop : Ready.t := Ready.drop.

(** [kind_mut(event)] hands out the field for a mutation [f]. *)
Definition kind_mut (f : Ready.t → Ready.t) (event : Event.t) : Event.t :=
  Event.mk (f (Event.kind_field event)) (Event.token_field event).

(** ** What the bit operations mean *)

(** Bit [i] of a readiness set. *)
Definition rbit (r : Ready.t) (i : Z) : bool := Z.testbit (Ready.val r) i.

Lemma Ready_ext (a b : Ready.t) :
  (∀ i, 0 <= i → rbit a i = rbit b i) → a = b.
Proof. destruct a as [a], b as [b]. intros H. f_equal. by apply Z.bits_inj'. Qed.

Lemma rbit_bitor a b i : rbit (a |ᵣ b) i = rbit a i || rbit b i.
Proof. apply Z.lor_spec. Qed.
Lemma rbit_bitand a b i : rbit (a &ᵣ b) i = rbit a i && rbit b i.
Proof. apply Z.land_spec. Qed.
Lemma rbit_insert a b i : rbit (Ready.insert a b) i = rbit a i || rbit b i.
Proof. apply Z.lor_spec. Qed.
Lemma rbit_remove a b i : 0 <= i < 64 → rbit (Ready.remove a b) i = rbit a i && negb (rbit b i).
Proof. intros Hi. unfold rbit. cbn. by rewrite Z.land_spec, not64_spec. Qed.

(** [contains] is inclusion of the sets of flags. *)
Lemma contains_bits a b :
  Ready.contains a b = true ↔ ∀ i, 0 <= i → rbit b i = true → rbit a i = true.
Proof.
  unfold Ready.contains. rewrite bool_decide_eq_true. split.
  - intros H i Hi Hb. rewrite <- H in Hb. rewrite rbit_bitand in Hb.
    by apply andb_true_iff in Hb as [? _].
  - intros H. apply Ready_ext. intros i Hi. rewrite rbit_bitand.
    destruct (rbit b i) eqn:Hb; [by rewrite H | by rewrite andb_false_r].
Qed.

(** A one-bit flag is contained exactly when its bit is set. *)
Lemma contains_flag a n :
  0 <= n → Ready.contains a (Ready.mk (2 ^ n)) = rbit a n.
Proof.
  intros Hn. apply eq_true_iff_eq. rewrite contains_bits. split.
  - intros H. apply H; [done|]. unfold rbit. cbn. by apply Z.pow2_bits_true.
  - intros Ha i Hi. unfold rbit at 1. cbn. rewrite Z.pow2_bits_eqb by done.
    intros He%Z.eqb_eq. by subst.
Qed.

Lemma is_readable_bit a : Ready.is_readable a = rbit a 0.
Proof. by apply (contains_flag a 0). Qed.
Lemma is_writable_bit a : Ready.is_writable a = rbit a 1.
Proof. by apply (contains_flag a 1). Qed.
Lemma is_error_bit a : Ready.is_error a = rbit a 2.
Proof. by apply (contains_flag a 2). Qed.
Lemma is_hup_bit a : Ready.is_hup a = rbit a 3.
Proof. by apply (contains_flag a 3). Qed.
Lemma is_drop_bit a : is_drop a = rbit a 4.
Proof. by apply (contains_flag a 4). Qed.

Lemma rbit_flag k n : 0 <= k → rbit (Ready.mk (2 ^ k)) n = bool_decide (k = n).
Proof.
  intros Hk. unfold rbit. cbn. rewrite Z.pow2_bits_eqb by done.
  apply eq_true_iff_eq. by rewrite Z.eqb_eq, bool_decide_eq_true.
Qed.

Lemma rbit_not a i : 0 <= i < 64 → rbit (Ready.not a) i = negb (rbit a i) && (i <? 4).
Proof.
  intros Hi. unfold rbit. cbn -[Z.land]. rewrite Z.land_spec, not64_spec by done. f_equal.
  change (Z.lor _ 4) with (Z.ones 4). rewrite Z.testbit_ones_nonneg by lia. done.
Qed.

Lemma rbit_not_high a i : 4 <= i → rbit (Ready.not a) i = false.
Proof.
  intros Hi. unfold rbit. cbn -[Z.land]. rewrite Z.land_spec.
  change (Z.lor _ 4) with (Z.ones 4). rewrite Z.ones_spec_high by lia. apply andb_false_r.
Qed.

Lemma rbit_none i : rbit Ready.none i = false.
Proof. apply Z.bits_0. Qed.

(** The four flags a user can name. *)
Lemma is_none_flags r :
  Ready.is_none r = negb (Ready.is_readable r || Ready.is_writable r || Ready.is_error r || Ready.is_hup r).
Proof.
  rewrite is_readable_bit, is_writable_bit, is_error_bit, is_hup_bit.
  apply eq_true_iff_eq. unfold Ready.is_none. rewrite bool_decide_eq_true, negb_true_iff. split.
  - intros H.
    assert (∀ i, 0 <= i < 4 → rbit r i = false) as Hb.
    { intros i Hi. pose proof (f_equal (λ x, rbit x i) H) as Hr. cbv beta in Hr.
      rewrite rbit_none, rbit_bitand, rbit_not in Hr by lia.
      assert (rbit Ready.drop i = false) as Hd
        by (assert (i = 0 ∨ i = 1 ∨ i = 2 ∨ i = 3) as [->|[->|[->| ->]]] by lia; reflexivity).
      rewrite Hd in Hr. replace (i <? 4) with true in Hr by lia. cbn in Hr.
      by rewrite andb_true_r in Hr. }
    by rewrite !Hb by lia.
  - intros H. apply orb_false_iff in H as [H H3]. apply orb_false_iff in H as [H H2].
    apply orb_false_iff in H as [H0 H1]. apply Ready_ext. intros i Hi.
    rewrite rbit_none, rbit_bitand. destruct (decide (i < 4)).
    + assert (i = 0 ∨ i = 1 ∨ i = 2 ∨ i = 3) as [->|[->|[->| ->]]] by lia;
        by rewrite ?H0, ?H1, ?H2, ?H3.
    + rewrite rbit_not_high, andb_false_r by lia. done.
Qed.

(** All 32 readiness sets made of the five flags of the source. *)
Definition all_ready_sets : list Ready.t := Ready.mk ∘ Z.of_nat <$> seq 0 32.

Lemma all_ready_sets_complete v : 0 <= v < 32 → Ready.mk v ∈ all_ready_sets.
Proof.
  intros Hv. apply list_elem_of_fmap. exists (Z.to_nat v). split.
  - unfold compose. f_equal. lia.
  - apply elem_of_seq. lia.
Qed.
