(* ===== verification/Convert.v ===== *)
(** * lib.rs, module [convert]: durations to milliseconds

    [millis] is the only conversion of durations in mio: the timer derives its
    ticks from it and the epoll selector its timeout. *)

From S2P Require Import Prelude.

(** [std::time::Duration]: whole seconds and the nanoseconds below one second. *)
Record Duration : Type := mkDuration { as_secs : Z; subsec_nanos : Z }.

Definition NANOS_PER_SEC : Z := 1000000000.

(** The invariant the standard library keeps on durations. *)
Definition Duration_wf (d : Duration) : Prop :=
  is_u64 (as_secs d) ∧ 0 <= subsec_nanos d < NANOS_PER_SEC.
#[export] Instance Duration_wf_dec d : Decision (Duration_wf d).
Proof. unfold Duration_wf, is_u64. apply _. Defined.

(** [Duration::from_millis]. *)
Definition from_millis (ms : Z) : Duration :=
  mkDuration (ms / 1000) (ms mod 1000 * 1000000).

(** [Duration + Duration]; panics when the seconds overflow. *)
Definition duration_add (a b : Duration) : outcome Duration :=
  secs ← add64 (as_secs a) (as_secs b);
  let nanos := subsec_nanos a + subsec_nanos b in
  if NANOS_PER_SEC <=? nanos
  then secs ← add64 secs 1; mret (mkDuration secs (nanos - NANOS_PER_SEC))
  else mret (mkDuration secs nanos).

Definition total_nanos (d : Duration) : Z := as_secs d * NANOS_PER_SEC + subsec_nanos d.

Definition NANOS_PER_MILLI : Z := 1000000.
Definition MILLIS_PER_SEC : Z := 1000.

(** [duration.subsec_nanos() + NANOS_PER_MILLI - 1] is [u32] arithmetic. *)
Definition add32 (a b : Z) : outcome Z :=
  if a + b <=? U32_MAX then Done (a + b) else Panic.

Definition millis (duration : Duration) : outcome Z :=
  n ← add32 (subsec_nanos duration) NANOS_PER_MILLI;
  let millis := (n - 1) / NANOS_PER_MILLI in
  mret (saturating_add (saturating_mul (as_secs duration) MILLIS_PER_SEC) millis).

(** The rounding [millis] performs: up to the next millisecond. *)
Definition ceil_div (a b : Z) : Z := (a + b - 1) / b.

Lemma ceil_div_spec a b : 0 < b → a <= b * ceil_div a b < a + b.
Proof.
  intros Hb. unfold ceil_div.
  pose proof (Z.div_mod (a + b - 1) b ltac:(lia)).
  pose proof (Z.mod_pos_bound (a + b - 1) b Hb). lia.
Qed.

Lemma millis_value d :
  Duration_wf d →
  millis d = Done (Z.min U64_MAX (ceil_div (total_nanos d) NANOS_PER_MILLI)).
Proof.
  intros [Hs Hn]. unfold millis, add32, ceil_div, total_nanos in *.
  unfold NANOS_PER_SEC, NANOS_PER_MILLI, MILLIS_PER_SEC, U32_MAX, is_u64 in *.
  replace (subsec_nanos d + 1000000 <=? 4294967295) with true by lia.
  cbn [mbind outcome_bind mret outcome_ret]. f_equal. unfold saturating_add, saturating_mul.
  replace (as_secs d * 1000000000 + subsec_nanos d + 1000000 - 1)
    with (subsec_nanos d + 1000000 - 1 + as_secs d * 1000 * 1000000) by lia.
  rewrite Z.div_add by lia.
  assert (0 <= (subsec_nanos d + 1000000 - 1) / 1000000) by (apply Z.div_pos; lia). lia.
Qed.

Lemma millis_u64 d m : Duration_wf d → millis d = Done m → is_u64 m.
Proof.
  intros Hwf. rewrite millis_value by done. intros [= <-].
  destruct Hwf as [[Hs _] Hn]. unfold is_u64, U64_MAX, ceil_div, total_nanos, NANOS_PER_SEC, NANOS_PER_MILLI in *.
  assert (0 <= (as_secs d * 1000000000 + subsec_nanos d + 1000000 - 1) / 1000000) by (apply Z.div_pos; lia).
  lia.
Qed.

(** A duration given in milliseconds converts back to that number. *)
Lemma millis_from_millis ms : is_u64 ms → millis (from_millis ms) = Done ms.
Proof.
  intros Hms. unfold is_u64, U64_MAX in Hms.
  pose proof (Z.div_mod ms 1000 ltac:(lia)). pose proof (Z.mod_pos_bound ms 1000 ltac:(lia)).
  rewrite millis_value.
  - f_equal. unfold total_nanos, from_millis, NANOS_PER_SEC, NANOS_PER_MILLI. cbn [as_secs subsec_nanos].
    assert (ceil_div (ms * 1000000) 1000000 = ms) as Hc.
    { pose proof (ceil_div_spec (ms * 1000000) 1000000 ltac:(lia)). lia. }
    replace (ms / 1000 * 1000000000 + ms mod 1000 * 1000000) with (ms * 1000000) by lia.
    rewrite Hc. unfold U64_MAX. lia.
  - unfold Duration_wf, is_u64, U64_MAX, NANOS_PER_SEC, from_millis. cbn [as_secs subsec_nanos].
    assert (0 <= ms / 1000 <= ms) by (split; [apply Z.div_pos; lia | apply Z.div_le_upper_bound; lia]).
    lia.
Qed.

#[export] Hint Resolve millis_u64 : mio.

(** ** Instants

    [std::time::Instant] as a reading of the monotonic clock in nanoseconds;
    [elapsed start now] is [start.elapsed()] when the clock shows [now]. *)
Definition Instant : Type := Z.

Definition elapsed (start now : Instant) : Duration :=
  mkDuration ((now - start) / NANOS_PER_SEC) ((now - start) mod NANOS_PER_SEC).
