(* ===== verification/EventThm.v ===== *)
(** * Theorems about readiness sets and durations *)

From S2P Require Import Prelude Event Convert.

(** ** What users can build *)

(** The values of [Ready] that the public constructors, operators and methods
    produce; the drop flag has no public constructor. *)
Inductive user_ready : Ready.t → Prop :=
  | ur_none : user_ready Ready.none
  | ur_readable : user_ready Ready.readable
  | ur_writable : user_ready Ready.writable
  | ur_error : user_ready Ready.error
  | ur_hup : user_ready Ready.hup
  | ur_all : user_ready Ready.all
  | ur_bitor a b : user_ready a → user_ready b → user_ready (Ready.bitor a b)
  | ur_bitxor a b : user_ready a → user_ready b → user_ready (Ready.bitxor a b)
  | ur_bitand a b : user_ready a → user_ready b → user_ready (Ready.bitand a b)
  | ur_sub a b : user_ready a → user_ready b → user_ready (Ready.sub a b)
  | ur_not a : user_ready a → user_ready (Ready.not a)
  | ur_insert a b : user_ready a → user_ready b → user_ready (Ready.insert a b)
  | ur_remove a b : user_ready a → user_ready b → user_ready (Ready.remove a b).

(** All values of four bits satisfy a decidable property. *)
Lemma nibbles (P : Z → Prop) `{∀ v, Decision (P v)} :
  bool_decide (Forall P (Z.of_nat <$> seq 0 16)) = true → ∀ v, 0 <= v < 16 → P v.
Proof.
  intros HP v Hv. apply bool_decide_eq_true, Forall_forall with (x := v) in HP; [done|].
  apply list_elem_of_fmap. exists (Z.to_nat v). split; [lia|]. apply elem_of_seq. lia.
Qed.

Definition closed2 (f : Ready.t → Ready.t → Ready.t) : Prop :=
  ∀ a, 0 <= a < 16 → ∀ b, 0 <= b < 16 → 0 <= Ready.val (f (Ready.mk a) (Ready.mk b)) < 16.

Lemma closed2_check f :
  bool_decide (Forall (λ a, Forall (λ b, 0 <= Ready.val (f (Ready.mk a) (Ready.mk b)) < 16) (Z.of_nat <$> seq 0 16)) (Z.of_nat <$> seq 0 16)) = true →
  closed2 f.
Proof.
  intros Hf a Ha. apply bool_decide_eq_true, Forall_forall with (x := a) in Hf.
  - intros b Hb. apply (nibbles (λ b, 0 <= Ready.val (f (Ready.mk a) (Ready.mk b)) < 16)); [by apply bool_decide_eq_true|done].
  - apply list_elem_of_fmap. exists (Z.to_nat a). split; [lia|]. apply elem_of_seq. lia.
Qed.

Lemma nibble_no_drop v : 0 <= v < 16 → is_drop (Ready.mk v) = false.
Proof. by apply (nibbles (λ v, is_drop (Ready.mk v) = false)). Qed.

Lemma user_ready_nibble r : user_ready r → 0 <= Ready.val r < 16.
Proof.
  induction 1 as [| | | | | |a b _ Ha _ Hb|a b _ Ha _ Hb|a b _ Ha _ Hb|a b _ Ha _ Hb|a _ Ha|a b _ Ha _ Hb|a b _ Ha _ Hb];
    try (vm_compute; split; congruence); destruct a as [a]; try destruct b as [b]; cbn [Ready.val] in Ha; try cbn [Ready.val] in Hb.
  - by apply (closed2_check Ready.bitor).
  - by apply (closed2_check Ready.bitxor).
  - by apply (closed2_check Ready.bitand).
  - by apply (closed2_check Ready.sub).
  - by apply (closed2_check (λ a _, Ready.not a) ltac:(vm_compute; reflexivity) a Ha 0).
  - by apply (closed2_check Ready.insert).
  - by apply (closed2_check Ready.remove).
Qed.

(** C38: whatever a program builds with the public constructors and operators of
    [Ready] is one of the sixteen sets of the four public flags; in particular it
    never carries the flag by which the readiness queue marks dropped nodes. *)
Theorem user_ready_no_drop (r : Ready.t) : user_ready r → is_drop r = false ∧ Ready.contains Ready.all r = true.
Proof.
  intros Hr%user_ready_nibble. destruct r as [v]. cbn in Hr. split; [by apply nibble_no_drop|].
  by apply (nibbles (λ v, Ready.contains Ready.all (Ready.mk v) = true)).
Qed.

Lemma user_ready_no_drop_witness :
  is_drop (Ready.not (Ready.sub Ready.all Ready.hup)) = false ∧
  Ready.contains Ready.all (Ready.not (Ready.sub Ready.all Ready.hup)) = true.
Proof. apply (user_ready_no_drop (Ready.not (Ready.sub Ready.all Ready.hup))). repeat constructor. Defined.

(** ** Printing *)

(** the [Debug] output of [Ready] tells apart all sets of its five flags. *)
Theorem ready_fmt_injective (a b : Z) :
  0 <= a < 32 → 0 <= b < 32 → Ready.fmt (Ready.mk a) = Ready.fmt (Ready.mk b) → a = b.
Proof.
  intros Ha Hb E.
  assert (NoDup (Ready.fmt <$> all_ready_sets)) as Hnd by (apply (bool_decide_unpack _); vm_compute; exact I).
  apply all_ready_sets_complete in Ha, Hb. apply list_elem_of_lookup in Ha as [i Hi], Hb as [j Hj].
  assert (i = j) as ->.
  { apply (NoDup_lookup _ i j (Ready.fmt (Ready.mk a)) Hnd); rewrite list_lookup_fmap; [by rewrite Hi|]. by rewrite Hj, E. }
  congruence.
Qed.

Lemma ready_fmt_injective_witness : 3 = 3 ∧ Ready.fmt (Ready.mk 3) = "Ready {Readable | Writable}"%string.
Proof. split; [|vm_compute; reflexivity]. apply (ready_fmt_injective 3 3); [lia|lia|reflexivity]. Defined.

(** ** Durations *)

(** converting a duration to milliseconds neither overflows nor panics; it
    rounds up to the next millisecond and saturates, and whole milliseconds are
    converted exactly. *)
Theorem millis_rounds_up (d : Duration) (ms : Z) :
  Duration_wf d → is_u64 ms →
  (∃ m, millis d = Done m ∧ is_u64 m ∧
    (m = U64_MAX ∨ total_nanos d <= m * NANOS_PER_MILLI < total_nanos d + NANOS_PER_MILLI)) ∧
  millis (from_millis ms) = Done ms.
Proof.
  intros Hd Hms. split; [|by apply millis_from_millis]. eexists. split; [by apply millis_value|].
  split; [eapply millis_u64; [done|by apply millis_value]|].
  pose proof (ceil_div_spec (total_nanos d) NANOS_PER_MILLI ltac:(done)). lia.
Qed.

Lemma millis_rounds_up_witness : ∃ m, millis (mkDuration 2 1) = Done m ∧ m = 2001 ∧ millis (from_millis 77) = Done 77.
Proof.
  destruct (millis_rounds_up (mkDuration 2 1) 77) as [(m & H1 & _) H2].
  - apply (bool_decide_unpack _). vm_compute. exact I.
  - unfold is_u64, U64_MAX. lia.
  - exists m. split; [exact H1|]. split; [|exact H2]. vm_compute in H1. congruence.
Defined.
