(* ===== verification/DList.v ===== *)
(** * Linked lists threaded through a finite map

    Two data structures of mio are linked lists whose cells live in a store: the
    slots of the timer wheel (cells in the slab of timeouts, [timer.rs]) and the
    list of all readiness nodes (cells on the heap, [poll.rs]); the readiness
    queue itself is singly linked.  This file has their representation
    predicates and the effect of insertion at the head and of unlinking. *)

From S2P Require Import Prelude.

Section dlist.
Context {K V : Type} `{Countable K}.
(** The link fields of a cell; [None] is the null pointer of the source. *)
Context (nxt prv : V → option K).

Definition cell_ok (h : gmap K V) (l1 : list K) (x : K) (l2 : list K) : Prop :=
  ∃ v, h !! x = Some v ∧ nxt v = head l2 ∧ prv v = last l1.

(** [h] stores the doubly linked list of keys [l] whose first cell is [hd]. *)
Definition dlist (h : gmap K V) (hd : option K) (l : list K) : Prop :=
  NoDup l ∧ hd = head l ∧ ∀ l1 x l2, l = l1 ++ x :: l2 → cell_ok h l1 x l2.

Lemma dlist_nil h : dlist h None [].
Proof. split; [constructor|]. split; [done|]. intros [] ? ? [=]. Qed.

Lemma dlist_lookup h hd l x : dlist h hd l → x ∈ l → ∃ v, h !! x = Some v.
Proof.
  intros (_ & _ & Hc) (l1 & l2 & ->)%list_elem_of_split.
  destruct (Hc l1 x l2 eq_refl) as (v & ? & _). eauto.
Qed.

Lemma dlist_cell h hd l1 x l2 v :
  dlist h hd (l1 ++ x :: l2) → h !! x = Some v → nxt v = head l2 ∧ prv v = last l1.
Proof. intros (_ & _ & Hc) Hx. destruct (Hc _ _ _ eq_refl) as (v' & ? & ? & ?). naive_solver. Qed.

Lemma dlist_hd h hd l : dlist h hd l → hd = head l.
Proof. by intros (_ & ? & _). Qed.

Lemma dlist_NoDup h hd l : dlist h hd l → NoDup l.
Proof. by intros (? & _). Qed.

(** The list is determined by the store and the head. *)
Lemma dlist_frame h h' hd l :
  dlist h hd l →
  (∀ x v, x ∈ l → h !! x = Some v → ∃ v', h' !! x = Some v' ∧ nxt v' = nxt v ∧ prv v' = prv v) →
  dlist h' hd l.
Proof.
  intros (Hnd & Hhd & Hc) Hfr. split; [done|]. split; [done|].
  intros l1 x l2 ->. destruct (Hc _ _ _ eq_refl) as (v & Hv & Hn & Hp).
  destruct (Hfr x v) as (v' & ? & ? & ?); [set_solver|done|].
  exists v'. split; [done|]. split; congruence.
Qed.

Lemma dlist_frame_eq h h' hd l :
  dlist h hd l → (∀ x, x ∈ l → h' !! x = h !! x) → dlist h' hd l.
Proof. intros Hd Heq. eapply dlist_frame; [done|]. intros x v Hx Hv. exists v. by rewrite Heq. Qed.

(** A new cell in front: it points to the old head, whose back link is set. *)
Lemma dlist_push h h' hd l x v :
  dlist h hd l → x ∉ l →
  h' !! x = Some v → nxt v = hd → prv v = None →
  (∀ y w, y ∈ l → h !! y = Some w →
     ∃ w', h' !! y = Some w' ∧ nxt w' = nxt w ∧
       prv w' = if decide (hd = Some y) then Some x else prv w) →
  dlist h' (Some x) (x :: l).
Proof.
  intros (Hnd & Hhd & Hc) Hx Hv Hnv Hpv Hfr. split; [by constructor|]. split; [done|].
  intros [|z l1] y l2 Heq; cbn in Heq; simplify_eq.
  { exists v. rewrite Hnv. auto. }
  destruct (Hc l1 y l2 eq_refl) as (w & Hw & Hn & Hp).
  destruct (Hfr y w) as (w' & Hw' & Hn' & Hp'); [set_solver|done|].
  exists w'. split; [done|]. split; [congruence|]. rewrite Hp'.
  destruct l1 as [|a l1]; cbn.
  - rewrite decide_True by done. done.
  - rewrite decide_False.
    + rewrite Hp. cbn. destruct (last l1) eqn:E; [done|]. done.
    + intros [= ->]. apply NoDup_cons in Hnd as [Hn1 _]. apply Hn1. set_solver.
Qed.

Lemma split_two (l1 l2 m1 m2 : list K) y :
  l1 ++ l2 = m1 ++ y :: m2 →
  (∃ k, l1 = m1 ++ y :: k ∧ m2 = k ++ l2) ∨ (∃ k, l2 = k ++ y :: m2 ∧ m1 = l1 ++ k).
Proof.
  intros [(k & -> & E)|(k & -> & E)]%app_eq_inv.
  - destruct k as [|z k]; cbn in E; simplify_eq.
    + right. exists []. by rewrite !app_nil_r.
    + left. exists k. done.
  - right. exists k. done.
Qed.

Lemma head_app_ne (k l : list K) : k ≠ [] → head (k ++ l) = head k.
Proof. by destruct k. Qed.

Lemma last_app_ne (k l : list K) : l ≠ [] → last (k ++ l) = last l.
Proof. intros Hl. rewrite last_app. destruct (last l) eqn:E; [done|]. by apply last_None in E. Qed.

(** Unlinking a cell: its neighbours are linked to each other. *)
Lemma dlist_unlink h h' hd l1 x l2 :
  dlist h hd (l1 ++ x :: l2) →
  (∀ y w, y ∈ l1 ++ l2 → h !! y = Some w →
     ∃ w', h' !! y = Some w' ∧
       nxt w' = (if decide (last l1 = Some y) then head l2 else nxt w) ∧
       prv w' = (if decide (head l2 = Some y) then last l1 else prv w)) →
  dlist h' (head (l1 ++ l2)) (l1 ++ l2).
Proof.
  intros (Hnd & Hhd & Hc) Hfr.
  assert (NoDup (l1 ++ l2)) as Hnd'.
  { apply NoDup_app in Hnd as (? & Hd & Hnd2). apply NoDup_cons in Hnd2 as [? ?].
    apply NoDup_app. split_and!; [done| |done]. intros z Hz Hz2. by apply (Hd z Hz), elem_of_cons; right. }
  split; [done|]. split; [done|]. intros m1 y m2 Heq.
  assert (y ∈ l1 ++ l2) as Hin by (rewrite Heq; set_solver).
  destruct (split_two _ _ _ _ _ Heq) as [(k & -> & ->)|(k & -> & ->)].
  - destruct (Hc m1 y (k ++ x :: l2)) as (w & Hw & Hn & Hp); [by rewrite <- app_assoc|].
    destruct (Hfr y w Hin Hw) as (w' & Hw' & Hn' & Hp'). exists w'. split; [done|].
    assert (head l2 ≠ Some y) as Hh.
    { intros Hy. destruct l2 as [|z l2]; [done|]. cbn in Hy. simplify_eq.
      apply NoDup_app in Hnd' as (_ & Hd & _). apply (Hd y); set_solver. }
    rewrite (decide_False _ _ Hh) in Hp'. split; [|congruence]. rewrite Hn'.
    destruct k as [|z k].
    + by rewrite last_snoc, decide_True.
    + rewrite decide_False; [by rewrite Hn|].
      rewrite last_app_cons. change (last (y :: z :: k)) with (last (z :: k)).
      intros Hz%last_Some_elem_of. clear -Hz Hnd'.
      rewrite <- app_assoc in Hnd'. cbn in Hnd'.
      apply NoDup_app in Hnd' as (_ & _ & Hnd'). apply NoDup_cons in Hnd' as [Hn _].
      apply Hn. set_solver.
  - destruct (Hc (l1 ++ x :: k) y m2) as (w & Hw & Hn & Hp); [by rewrite <- app_assoc|].
    destruct (Hfr y w Hin Hw) as (w' & Hw' & Hn' & Hp'). exists w'. split; [done|].
    assert (last l1 ≠ Some y) as Hl.
    { intros Hy%last_Some_elem_of. apply NoDup_app in Hnd' as (_ & Hd & _). apply (Hd y); set_solver. }
    rewrite (decide_False _ _ Hl) in Hn'. split; [congruence|]. rewrite Hp'.
    destruct k as [|z k]; cbn [app head].
    + by rewrite app_nil_r, decide_True.
    + rewrite decide_False.
      * rewrite Hp. by rewrite !last_app_ne by done.
      * intros [= ->]. clear -Hnd'. apply NoDup_app in Hnd' as (_ & _ & Hnd').
        apply NoDup_cons in Hnd' as [Hn _]. apply Hn. set_solver.
Qed.

End dlist.

(** ** Singly linked chains *)

Section chain.
Context {K V : Type} `{Countable K} (nxt : V → option K).

Fixpoint chain (h : gmap K V) (p : option K) (l : list K) : Prop :=
  match l with
  | [] => p = None
  | x :: l' => p = Some x ∧ ∃ v, h !! x = Some v ∧ chain h (nxt v) l'
  end.

Lemma chain_frame h h' p l :
  chain h p l →
  (∀ x v, x ∈ l → h !! x = Some v → ∃ v', h' !! x = Some v' ∧ nxt v' = nxt v) →
  chain h' p l.
Proof.
  revert p. induction l as [|x l IH]; intros p Hch Hfr; [done|].
  destruct Hch as (-> & v & Hv & Hch). split; [done|].
  destruct (Hfr x v) as (v' & Hv' & Hn); [set_solver|done|].
  exists v'. split; [done|]. rewrite Hn. apply IH; [done|]. intros. apply Hfr; [set_solver|done].
Qed.

Lemma chain_lookup h p l x : chain h p l → x ∈ l → ∃ v, h !! x = Some v.
Proof.
  revert p. induction l as [|y l IH]; intros p Hch Hx; [set_solver|].
  destruct Hch as (-> & v & Hv & Hch). apply elem_of_cons in Hx as [->|Hx]; eauto.
Qed.

End chain.
