(* ===== verification/Iface.v ===== *)
(** * Interfaces between components, and of the crates mio calls

    - [SlabOps]/[SlabLaws]: the [slab] crate (0.3), the store of the timer's
      entries; it is not part of the repository, so the timer is modelled over
      any implementation that satisfies its documented behaviour.
    - [LazyCellOps]/[LazyCellLaws]: the [lazycell] crate (0.4), a cell that can
      be filled once.
    - [ReadinessOps]/[ReadinessLaws] and [RegistrationOps]: what [poll.rs]
      promises to the users of [SetReadiness] and [Registration] (the timer and
      the channel); [Poll.v] provides the instance.

    The instances at the end of the file show that the laws can be satisfied and
    make the models executable. *)

From S2P Require Import Prelude Event.

(** ** io::Error *)

Inductive ErrorKind : Type := Other | WouldBlock | Interrupted | InvalidInput | Uncategorized.
#[export] Instance ErrorKind_eq_dec : EqDecision ErrorKind.
Proof. solve_decision. Defined.

(** An error built with a kind and a message, or from an OS error number. *)
Inductive io_error : Type :=
  | io_custom (k : ErrorKind) (msg : string)
  | io_os (code : Z).
#[export] Instance io_error_eq_dec : EqDecision io_error.
Proof. solve_decision. Defined.

Abbreviation io_result A := (result io_error A).

(** ** The slab crate *)

Class SlabOps (S : Type → Type) : Type := {
  slab_with_capacity {A} : Z → S A;
  slab_len {A} : S A → Z;
  slab_get {A} : S A → Token → option A;
  (** [slab.insert(v)]: a token, or the value back when the slab is full. *)
  slab_insert {A} : A → S A → result A Token * S A;
  (** [slab[tok] = f(slab[tok])]; [None] when there is no such entry (panic). *)
  slab_index_mut {A} : Token → (A → A) → S A → option (S A);
  slab_remove {A} : Token → S A → option A * S A }.

Class SlabSpec (S : Type → Type) : Type := {
  slab_map {A} : S A → gmap Token A;
  slab_capacity {A} : S A → Z }.

Class SlabLaws (S : Type → Type) `{SlabOps S, SlabSpec S} : Prop := {
  slab_new_map {A} n : slab_map (slab_with_capacity (A:=A) n) = ∅;
  slab_new_capacity {A} n : slab_capacity (slab_with_capacity (A:=A) n) = n;
  slab_len_size {A} (s : S A) : slab_len s = Z.of_nat (size (slab_map s));
  slab_get_map {A} (s : S A) i : slab_get s i = slab_map s !! i;
  slab_insert_ok {A} (s : S A) v :
    Z.of_nat (size (slab_map s)) < slab_capacity s →
    ∃ i s', slab_insert v s = (Ok i, s') ∧ slab_map s !! i = None ∧
      slab_map s' = <[i := v]> (slab_map s) ∧ slab_capacity s' = slab_capacity s ∧
      0 <= token_0 i < slab_capacity s;
  slab_insert_full {A} (s : S A) v :
    slab_capacity s <= Z.of_nat (size (slab_map s)) →
    slab_insert v s = (Err v, s);
  slab_index_mut_some {A} (s : S A) i f v :
    slab_map s !! i = Some v →
    ∃ s', slab_index_mut i f s = Some s' ∧ slab_map s' = <[i := f v]> (slab_map s) ∧
      slab_capacity s' = slab_capacity s;
  slab_index_mut_none {A} (s : S A) i f :
    slab_map s !! i = None → slab_index_mut i f s = None;
  slab_remove_map {A} (s : S A) i :
    ∃ s', slab_remove i s = (slab_map s !! i, s') ∧ slab_map s' = delete i (slab_map s) ∧
      slab_capacity s' = slab_capacity s }.

(** ** The lazycell crate *)

Class LazyCellOps (C : Type → Type) : Type := {
  lazy_new {A} : C A;
  (** [cell.fill(v)]: [Err(v)] when it was already filled. *)
  lazy_fill {A} : A → C A → result A unit * C A;
  lazy_borrow {A} : C A → option A }.

Class LazyCellLaws (C : Type → Type) `{LazyCellOps C} : Prop := {
  lazy_borrow_new {A} : lazy_borrow (lazy_new (A:=A)) = None;
  lazy_fill_empty {A} (c : C A) v :
    lazy_borrow c = None →
    ∃ c', lazy_fill v c = (Ok tt, c') ∧ lazy_borrow c' = Some v;
  lazy_fill_full {A} (c : C A) v w :
    lazy_borrow c = Some w → lazy_fill v c = (Err v, c) }.

(** ** What poll.rs offers to the types built on [Registration] *)

(** [W]: the state of the readiness queue; [H]: [SetReadiness] handles. *)
Class ReadinessOps (W H : Type) : Type := {
  rd_set_readiness : H → Ready.t → M W (io_result unit);
  rd_readiness : H → M W Ready.t;
  rd_clone : H → M W H }.

(** [R]: [Registration] handles; [P]: references to a [Poll]. *)
Class RegistrationOps (W R H P : Type) : Type := {
  reg_new : P → Token → Ready.t → PollOpt.t → M W (R * H);
  reg_update : R → P → Token → Ready.t → PollOpt.t → M W (io_result unit);
  reg_deregister : R → P → M W (io_result unit) }.

(** [rd_ok w]: the queue is well formed; [rd_live w h]: the handle [h] refers to
    a node that is not freed; [rd_current w h]: the readiness last stored through
    a handle of that node. *)
Class ReadinessSpec (W H : Type) : Type := {
  rd_ok : W → Prop;
  rd_live : W → H → Prop;
  rd_current : W → H → Ready.t }.

Class ReadinessLaws (W H : Type) `{ReadinessOps W H, ReadinessSpec W H} : Prop := {
  rd_set_ok w h r :
    rd_live w h → is_drop r = false →
    ∃ res w', rd_set_readiness h r w = Done (res, w') ∧ rd_current w' h = r ∧
      (∀ h', rd_live w h' → rd_live w' h') ∧ (is_empty r = true → res = Ok tt);
  rd_get_ok w h :
    rd_live w h → rd_readiness h w = Done (rd_current w h, w) }.

(** A new registration is live and not ready. *)
Class RegistrationLaws (W R H P : Type) `{ReadinessSpec W H, RegistrationOps W R H P} : Prop := {
  reg_new_ok w p token interest opts :
    rd_ok w →
    ∃ r h w', reg_new p token interest opts w = Done ((r, h), w') ∧ rd_live w' h ∧ rd_current w' h = Ready.none }.

(** Dropping the handles of poll.rs. *)
Class HandleDropOps (W R H : Type) : Type := {
  reg_drop : R → M W unit;
  rd_drop : H → M W unit }.

(** Ownership of handles.  [rd_own w l]: the queue [w] is well formed, and [l] are
    all the handles on it, each listed once for every owner it has; [rd_awake w]:
    no poll sleeps on it.  Owned handles can be used, registrations only be
    changed while the queue is awake; a handle can be dropped once for each time it
    is owned.  Waking the poll does not fail. *)
Class HandleSpec (W R H : Type) : Type := {
  rd_own : W → list (R + H) → Prop;
  rd_awake : W → Prop }.

Class HandleLaws (W R H P : Type) `{ReadinessOps W H, RegistrationOps W R H P, HandleDropOps W R H,
    ReadinessSpec W H, HandleSpec W R H} : Prop := {
  own_perm w l l' : l ≡ₚ l' → rd_own w l → rd_own w l';
  own_nodrop w l h : rd_own w l → inr h ∈ l → is_drop (rd_current w h) = false;
  own_get w l h : rd_own w l → inr h ∈ l → rd_readiness h w = Done (rd_current w h, w);
  own_set w l h r :
    rd_own w l → inr h ∈ l → is_drop r = false →
    ∃ w', rd_set_readiness h r w = Done (Ok tt, w') ∧ rd_own w' l ∧ rd_current w' h = r;
  own_new w l p token interest opts :
    rd_own w l →
    ∃ r h w', reg_new p token interest opts w = Done ((r, h), w') ∧
      rd_own w' (inl r :: inr h :: l) ∧ rd_current w' h = Ready.none;
  own_update w l r p token interest opts :
    rd_own w l → rd_awake w → inl r ∈ l →
    ∃ res w', reg_update r p token interest opts w = Done (res, w') ∧ rd_own w' l ∧
      ∀ h, inr h ∈ l → rd_current w' h = rd_current w h;
  own_deregister w l r p :
    rd_own w l → rd_awake w → inl r ∈ l →
    ∃ res w', reg_deregister r p w = Done (res, w') ∧ rd_own w' l ∧
      ∀ h, inr h ∈ l → rd_current w' h = rd_current w h;
  own_drop_reg w l r :
    rd_own w (inl r :: l) →
    ∃ w', reg_drop r w = Done (tt, w') ∧ rd_own w' l ∧ ∀ h, inr h ∈ l → rd_current w' h = rd_current w h;
  own_drop_rd w l h :
    rd_own w (inr h :: l) →
    ∃ w', rd_drop h w = Done (tt, w') ∧ rd_own w' l ∧ ∀ h', inr h' ∈ l → rd_current w' h' = rd_current w h' }.

(** ** std *)

(** [std::net::SocketAddr]. *)
Inductive SocketAddr : Type :=
  | V4 (ip : Z * Z * Z * Z) (port : Z)
  | V6 (ip : list Z) (port flowinfo scope_id : Z).

(** ** Executable instances *)

(** The slab as a finite map: the smallest free index is handed out. *)
Record map_slab (A : Type) : Type := mkMapSlab { ms_map : gmap Token A; ms_cap : Z }.
Arguments mkMapSlab {A} _ _.
Arguments ms_map {A} _.
Arguments ms_cap {A} _.

Definition ms_free {A} (s : map_slab A) : option Token :=
  snd <$> list_find (λ i, ms_map s !! i = None) (mkToken ∘ Z.of_nat <$> seq 0 (Z.to_nat (ms_cap s))).

#[export] Instance map_slab_ops : SlabOps map_slab := {
  slab_with_capacity A n := mkMapSlab ∅ n;
  slab_len A s := Z.of_nat (size (ms_map s));
  slab_get A s i := ms_map s !! i;
  slab_insert A v s :=
    if ms_cap s <=? Z.of_nat (size (ms_map s)) then (Err v, s) else
    match ms_free s with
    | Some i => (Ok i, mkMapSlab (<[i := v]> (ms_map s)) (ms_cap s))
    | None => (Err v, s)
    end;
  slab_index_mut A i f s :=
    (λ v, mkMapSlab (<[i := f v]> (ms_map s)) (ms_cap s)) <$> ms_map s !! i;
  slab_remove A i s := (ms_map s !! i, mkMapSlab (delete i (ms_map s)) (ms_cap s)) }.
#[export] Instance map_slab_spec : SlabSpec map_slab := {
  slab_map A s := ms_map s; slab_capacity A s := ms_cap s }.

Lemma ms_free_some {A} (s : map_slab A) :
  Z.of_nat (size (ms_map s)) < ms_cap s →
  ∃ i, ms_free s = Some i ∧ ms_map s !! i = None ∧ 0 <= token_0 i < ms_cap s.
Proof.
  intros Hsz. unfold ms_free.
  set (idx := mkToken ∘ Z.of_nat <$> seq 0 (Z.to_nat (ms_cap s))).
  destruct (list_find _ idx) as [[n i]|] eqn:E.
  - apply list_find_Some in E as (Hn & Hi & _). exists i. split; [done|]. split; [done|].
    apply list_elem_of_lookup_2 in Hn. apply list_elem_of_fmap in Hn as (k & -> & Hk).
    apply elem_of_seq in Hk. cbn. lia.
  - exfalso. apply list_find_None in E.
    assert (length idx = Z.to_nat (ms_cap s)) as Hlen by (by unfold idx; rewrite length_fmap, length_seq).
    assert (NoDup idx) as Hnd.
    { apply NoDup_fmap_2; [|apply NoDup_seq]. intros a b [= Hab]. lia. }
    assert (size (list_to_set idx : gset Token) ≤ size (dom (ms_map s)))%nat as Hle.
    { apply subseteq_size. intros x Hx%elem_of_list_to_set. apply elem_of_dom.
      rewrite Forall_forall in E. destruct (ms_map s !! x) eqn:Hx'; [eauto|]. by apply E in Hx. }
    rewrite size_list_to_set, size_dom in Hle by done. lia.
Qed.

#[export] Instance map_slab_laws : SlabLaws map_slab.
Proof.
  split; intros; cbn.
  - done.
  - done.
  - done.
  - done.
  - cbn in *. replace (ms_cap s <=? _) with false by lia.
    destruct (ms_free_some s ltac:(lia)) as (i & -> & Hi & Hb). eauto 10.
  - cbn in *. by replace (ms_cap s <=? _) with true by lia.
  - cbn in *. simplify_option_eq. eauto.
  - cbn in *. by simplify_option_eq.
  - eauto.
Qed.

(** The lazy cell as an option. *)
#[export] Instance option_lazy_ops : LazyCellOps option := {
  lazy_new A := None;
  lazy_fill A v c := match c with None => (Ok tt, Some v) | Some _ => (Err v, c) end;
  lazy_borrow A c := c }.

#[export] Instance option_lazy_laws : LazyCellLaws option.
Proof. split; intros; cbn in *; simplify_eq; eauto. Qed.

(** A readiness queue with a single node: the state is its readiness. *)
#[export] Instance cell_readiness_ops : ReadinessOps Ready.t unit := {
  rd_set_readiness _ r := λ _, Done (Ok tt, r);
  rd_readiness _ := λ w, Done (w, w);
  rd_clone _ := λ w, Done (tt, w) }.
#[export] Instance cell_registration_ops : RegistrationOps Ready.t unit unit unit := {
  reg_new _ _ _ _ := λ _, Done ((tt, tt), Ready.none);
  reg_update _ _ _ _ _ := λ w, Done (Ok tt, w);
  reg_deregister _ _ := λ w, Done (Ok tt, w) }.
#[export] Instance cell_readiness_spec : ReadinessSpec Ready.t unit := {
  rd_ok _ := True;
  rd_live _ _ := True;
  rd_current w _ := w }.
#[export] Instance cell_readiness_laws : ReadinessLaws Ready.t unit.
Proof. split; cbn; eauto 10. Qed.
#[export] Instance cell_registration_laws : RegistrationLaws Ready.t unit unit unit.
Proof. split. cbn. eauto 10. Qed.
#[export] Instance cell_drop_ops : HandleDropOps Ready.t unit unit := {
  reg_drop _ := λ w, Done (tt, w);
  rd_drop _ := λ w, Done (tt, w) }.
#[export] Instance cell_handle_spec : HandleSpec Ready.t unit unit := {
  rd_own w _ := is_drop w = false;
  rd_awake _ := True }.
#[export] Instance cell_handle_laws : HandleLaws Ready.t unit unit unit.
Proof. split; cbn; intros; eauto 10. Qed.
