(* ===== verification/Timer.v ===== *)
(** * timer.rs: the hashed timing wheel

    The data and operations of [src/src/timer.rs].  [entries] is a slab (any
    implementation of [SlabOps]); [inner] a lazy cell.  Operations that only
    touch the timer are functions on [Timer]; those that also reach the wakeup
    state or the readiness queue are functions on [Sys], the timer together
    with the atomic it shares with its wakeup thread and the state of the
    readiness queue its registration belongs to.  The clock is an argument. *)

From S2P Require Import Prelude Event Convert Iface.

Definition TICK_MAX : Z := U64_MAX.
Definition TERMINATE_THREAD : Z := 0.
Definition EMPTY : Token := mkToken USIZE_MAX.

Inductive TimerErrorKind : Type := TimerOverflow.
Record TimerError : Type := mkTimerError { err_kind : TimerErrorKind; err_desc : string }.

Definition TimerError_overflow : TimerError := mkTimerError TimerOverflow "too many timer entries".
Definition TimerErrorKind_fmt (k : TimerErrorKind) : string :=
  match k with TimerOverflow => "TimerOverflow" end.
Definition TimerError_fmt (e : TimerError) : string :=
  (TimerErrorKind_fmt (err_kind e) +:+ ": " +:+ err_desc e)%string.

Definition TimerError_description (e : TimerError) : string := err_desc e.

Record Timeout : Type := mkTimeout { to_token : Token; to_tick : Z }.

Record WheelEntry : Type := mkWheelEntry { w_next_tick : Z; w_head : Token }.

Record EntryLinks : Type := mkLinks { l_tick : Z; l_prev : Token; l_next : Token }.

Record Entry (T : Type) : Type := mkEntry { e_state : T; e_links : EntryLinks }.
Arguments mkEntry {T} _ _.
Arguments e_state {T} _.
Arguments e_links {T} _.

Definition Entry_new {T} (state : T) (tick : Z) (next : Token) : Entry T :=
  mkEntry state (mkLinks tick EMPTY next).

(** The part of [Inner] that is not shared with the wakeup thread. *)
Record Inner (R H : Type) : Type := mkInner { i_registration : R; i_set_readiness : H }.
Arguments mkInner {R H} _ _.
Arguments i_registration {R H} _.
Arguments i_set_readiness {R H} _.

(** [Inner::wakeup_state] and the park token of [Inner::wakeup_thread]. *)
Record Shared : Type := mkShared { wakeup_state : Z; unparked : bool }.

(** [usize::next_power_of_two]; overflow panics. *)
Definition next_power_of_two (n : Z) : outcome Z :=
  let p := if n <=? 1 then 1 else 2 ^ Z.log2_up n in
  if p <=? USIZE_MAX then Done p else Panic.

Definition duration_to_tick (elapsed : Duration) (tick_ms : Z) : outcome Z :=
  elapsed_ms ← millis elapsed;
  div64 (saturating_add elapsed_ms (tick_ms / 2)) tick_ms.

Definition current_tick (start now : Instant) (tick_ms : Z) : outcome Z :=
  duration_to_tick (elapsed start now) tick_ms.

Section timer.
Context {S : Type → Type} {slab_ops : SlabOps S}.
Context {C : Type → Type} {cell_ops : LazyCellOps C}.
Context {T R H P W : Type} {rd_ops : ReadinessOps W H} {reg_ops : RegistrationOps W R H P}.

Record Timer : Type := mkTimer {
  tick_ms : Z;
  entries : S (Entry T);
  wheel : list WheelEntry;
  start : Instant;
  tick : Z;
  next : Token;
  mask : Z;
  inner : C (Inner R H) }.

Definition set_entries (t : Timer) es :=
  mkTimer (tick_ms t) es (wheel t) (start t) (tick t) (next t) (mask t) (inner t).
Definition set_wheel (t : Timer) w :=
  mkTimer (tick_ms t) (entries t) w (start t) (tick t) (next t) (mask t) (inner t).
Definition set_tick (t : Timer) k :=
  mkTimer (tick_ms t) (entries t) (wheel t) (start t) k (next t) (mask t) (inner t).
Definition set_next (t : Timer) n :=
  mkTimer (tick_ms t) (entries t) (wheel t) (start t) (tick t) n (mask t) (inner t).
Definition set_inner (t : Timer) i :=
  mkTimer (tick_ms t) (entries t) (wheel t) (start t) (tick t) (next t) (mask t) i.

(** [self.wheel[slot]] and [self.wheel[slot] = e]. *)
Definition wheel_at (t : Timer) (slot : nat) : outcome WheelEntry := unwrap (wheel t !! slot).
Definition wheel_put (t : Timer) (slot : nat) (e : WheelEntry) : outcome Timer :=
  if decide (slot < length (wheel t))%nat then Done (set_wheel t (<[slot := e]> (wheel t))) else Panic.

(** [self.entries[tok]] and a mutation of [self.entries[tok].links]. *)
Definition entry_at (t : Timer) (tok : Token) : outcome (Entry T) := unwrap (slab_get (entries t) tok).
Definition map_links (f : EntryLinks → EntryLinks) (e : Entry T) : Entry T :=
  mkEntry (e_state e) (f (e_links e)).
Definition links_set_prev (p : Token) (l : EntryLinks) : EntryLinks := mkLinks (l_tick l) p (l_next l).
Definition links_set_next (n : Token) (l : EntryLinks) : EntryLinks := mkLinks (l_tick l) (l_prev l) n.
Definition entry_mut (tok : Token) (f : EntryLinks → EntryLinks) (t : Timer) : outcome Timer :=
  es ← unwrap (slab_index_mut tok (map_links f) (entries t)); Done (set_entries t es).

Definition Timer_new (tick_ms num_slots capacity : Z) (start : Instant) : outcome Timer :=
  num_slots ← next_power_of_two num_slots;
  capacity ← next_power_of_two capacity;
  let mask := num_slots - 1 in
  let wheel := replicate (Z.to_nat num_slots) (mkWheelEntry TICK_MAX EMPTY) in
  mret (mkTimer tick_ms (slab_with_capacity capacity) wheel start 0 EMPTY mask lazy_new).

Definition slot_for (t : Timer) (tick : Z) : nat := Z.to_nat (Z.land (mask t) tick).

(** The timer, what it shares with its wakeup thread, and the readiness queue. *)
Record Sys : Type := mkSys { timer : Timer; shared : Shared; world : W }.
Definition with_timer (s : Sys) (t : Timer) : Sys := mkSys t (shared s) (world s).
Definition with_shared (s : Sys) (sh : Shared) : Sys := mkSys (timer s) sh (world s).
Definition with_world (s : Sys) (w : W) : Sys := mkSys (timer s) (shared s) w.

(** The compare-and-swap loop of [schedule_readiness]. *)
Fixpoint schedule_loop (fuel : nat) (curr tick : Z) (sh : Shared) : outcome Shared :=
  match fuel with
  | O => OutOfFuel
  | Datatypes.S fuel =>
      if curr <=? tick then Done sh
      else
        let actual := wakeup_state sh in
        let sh := if actual =? curr then mkShared (wrap64 tick) (unparked sh) else sh in
        if actual =? curr then Done (mkShared (wakeup_state sh) true)
        else schedule_loop fuel actual tick sh
  end.

Definition schedule_readiness (tick : Z) (s : Sys) : outcome Sys :=
  match lazy_borrow (inner (timer s)) with
  | Some _ =>
      sh ← schedule_loop 2 (wakeup_state (shared s)) tick (shared s);
      Done (with_shared s sh)
  | None => Done s
  end.

(** [insert] up to the call of [schedule_readiness]: the new head of its slot. *)
Definition insert_entry (tick : Z) (state : T) (t : Timer) : outcome (result TimerError Timeout * Timer) :=
  let slot := Z.to_nat (Z.land tick (mask t)) in
  curr ← wheel_at t slot;
  match slab_insert (Entry_new state tick (w_head curr)) (entries t) with
  | (Err _, es) => Done (Err TimerError_overflow, set_entries t es)
  | (Ok token, es) =>
      let t := set_entries t es in
      t ← (if decide (w_head curr = EMPTY) then Done t
           else entry_mut (w_head curr) (links_set_prev token) t);
      t ← wheel_put t slot (mkWheelEntry (Z.min tick (w_next_tick curr)) token);
      Done (Ok (mkTimeout token tick), t)
  end.

Definition insert (tick : Z) (state : T) (s : Sys) : outcome (result TimerError Timeout * Sys) :=
  '(r, t) ← insert_entry tick state (timer s);
  match r with
  | Err e => Done (Err e, with_timer s t)
  | Ok timeout => s ← schedule_readiness tick (with_timer s t); Done (Ok timeout, s)
  end.

Definition set_timeout_at (delay_from_start : Duration) (state : T) (s : Sys)
    : outcome (result TimerError Timeout * Sys) :=
  let t := timer s in
  tick' ← duration_to_tick delay_from_start (tick_ms t);
  tick' ← (if tick' <=? tick t then add64 (tick t) 1 else Done tick');
  insert tick' state s.

Definition set_timeout (now : Instant) (delay_from_now : Duration) (state : T) (s : Sys)
    : outcome (result TimerError Timeout * Sys) :=
  delay_from_start ← duration_add (elapsed (start (timer s)) now) delay_from_now;
  set_timeout_at delay_from_start state s.

Definition unlink (links : EntryLinks) (token : Token) (t : Timer) : outcome Timer :=
  t ← (if decide (l_prev links = EMPTY)
       then
         let slot := slot_for t (l_tick links) in
         we ← wheel_at t slot;
         wheel_put t slot (mkWheelEntry (w_next_tick we) (l_next links))
       else entry_mut (l_prev links) (links_set_next (l_next links)) t);
  if decide (l_next links ≠ EMPTY) then
    t ← entry_mut (l_next links) (links_set_prev (l_prev links)) t;
    Done (if decide (token = next t) then set_next t (l_next links) else t)
  else
    Done (if decide (token = next t) then set_next t EMPTY else t).

Definition remove_entry (tok : Token) (t : Timer) : option T * Timer :=
  let '(e, es) := slab_remove tok (entries t) in (e_state <$> e, set_entries t es).

Definition cancel_timeout (timeout : Timeout) (t : Timer) : outcome (option T * Timer) :=
  match slab_get (entries t) (to_token timeout) with
  | None => Done (None, t)
  | Some e =>
      let links := e_links e in
      if decide (l_tick links ≠ to_tick timeout) then Done (None, t)
      else
        t ← unlink links (to_token timeout) t;
        Done (remove_entry (to_token timeout) t)
  end.

(** One iteration of the loop of [poll_to]: [inl t] goes round again, [inr]
    returns from the function. *)
Definition poll_iter (t : Timer) : outcome (Timer + option T * Timer) :=
  let curr := next t in
  if decide (curr = EMPTY) then
    k ← add64 (tick t) 1;
    let t := set_tick t k in
    let slot := slot_for t (tick t) in
    we ← wheel_at t slot;
    let t := set_next t (w_head we) in
    if decide (next t = EMPTY)
    then t ← wheel_put t slot (mkWheelEntry TICK_MAX (w_head we)); Done (inl t)
    else Done (inl t)
  else
    let slot := slot_for t (tick t) in
    we ← wheel_at t slot;
    t ← (if decide (curr = w_head we)
         then wheel_put t slot (mkWheelEntry TICK_MAX (w_head we))
         else Done t);
    e ← entry_at t curr;
    let links := e_links e in
    if l_tick links <=? tick t then
      t ← unlink links curr t;
      Done (inr (remove_entry curr t))
    else
      we ← wheel_at t slot;
      t ← wheel_put t slot (mkWheelEntry (Z.min (w_next_tick we) (l_tick links)) (w_head we));
      Done (inl (set_next t (l_next links))).

Fixpoint poll_loop (fuel : nat) (target : Z) (t : Timer) : outcome (Timer + option T * Timer) :=
  match fuel with
  | O => OutOfFuel
  | Datatypes.S fuel =>
      if target <? tick t then Done (inl t)
      else
        r ← poll_iter t;
        match r with
        | inl t => poll_loop fuel target t
        | inr res => Done (inr res)
        end
  end.

(** Enough rounds: at most [slab_len] entries are looked at for each tick. *)
Definition poll_fuel (target : Z) (t : Timer) : nat :=
  Z.to_nat ((target + 1 - tick t) * (slab_len (entries t) + 1) + slab_len (entries t) + 1).

(** Next tick containing a timeout. *)
Definition next_tick (t : Timer) : outcome (option Z) :=
  let least := match w_next_tick <$> wheel t with [] => None | x :: l => Some (foldr Z.min x l) end in
  if decide (next t ≠ EMPTY) then
    e ← entry_at t (next t);
    we ← wheel_at t (slot_for t (l_tick (e_links e)));
    if w_next_tick we =? tick t then Done (Some (tick t)) else Done least
  else Done least.

Definition poll_to (target : Z) (s : Sys) : outcome (option T * Sys) :=
  let t := timer s in
  let target := if target <? tick t then tick t else target in
  r ← poll_loop (poll_fuel target t) target t;
  match r with
  | inr (o, t) => Done (o, with_timer s t)
  | inl t =>
      let s := with_timer s t in
      match lazy_borrow (inner t) with
      | None => Done (None, s)
      | Some i =>
          '(_, w) ← rd_set_readiness (i_set_readiness i) Ready.none (world s);
          let s := with_world s w in
          n ← next_tick t;
          s ← match n with Some k => schedule_readiness k s | None => Done s end;
          Done (None, s)
      end
  end.

Definition poll (now : Instant) (s : Sys) : outcome (option T * Sys) :=
  target_tick ← current_tick (start (timer s)) now (tick_ms (timer s));
  poll_to target_tick s.

(** ** The [Evented] implementation *)

Definition register (p : P) (token : Token) (interest : Ready.t) (opts : PollOpt.t) (s : Sys)
    : outcome (io_result unit * Sys) :=
  match lazy_borrow (inner (timer s)) with
  | Some _ => Done (Err (io_custom Other "timer already registered"), s)
  | None =>
      '((registration, set_readiness), w) ← reg_new p token interest opts (world s);
      let sh := mkShared USIZE_MAX false in
      (* the clone is moved into the wakeup thread *)
      '(_, w) ← rd_clone set_readiness w;
      match lazy_fill (mkInner registration set_readiness) (inner (timer s)) with
      | (Err _, _) => Panic
      | (Ok _, c) =>
          let s := mkSys (set_inner (timer s) c) sh w in
          n ← next_tick (timer s);
          s ← match n with Some k => schedule_readiness k s | None => Done s end;
          Done (Ok tt, s)
      end
  end.

Definition reregister (p : P) (token : Token) (interest : Ready.t) (opts : PollOpt.t) (s : Sys)
    : outcome (io_result unit * Sys) :=
  match lazy_borrow (inner (timer s)) with
  | Some i =>
      '(r, w) ← reg_update (i_registration i) p token interest opts (world s);
      Done (r, with_world s w)
  | None => Done (Err (io_custom Other "receiver not registered"), s)
  end.

Definition deregister (p : P) (s : Sys) : outcome (io_result unit * Sys) :=
  match lazy_borrow (inner (timer s)) with
  | Some i => '(r, w) ← reg_deregister (i_registration i) p (world s); Done (r, with_world s w)
  | None => Done (Err (io_custom Other "receiver not registered"), s)
  end.

(** ** The builder *)

Record Builder : Type := mkBuilder { b_tick : Duration; b_num_slots : Z; b_capacity : Z }.

Definition tick_duration (duration : Duration) (b : Builder) : Builder :=
  mkBuilder duration (b_num_slots b) (b_capacity b).
Definition num_slots (n : Z) (b : Builder) : Builder := mkBuilder (b_tick b) n (b_capacity b).
Definition capacity (c : Z) (b : Builder) : Builder := mkBuilder (b_tick b) (b_num_slots b) c.
Definition Builder_default : Builder := mkBuilder (from_millis 100) 256 65536.

Definition build (b : Builder) (now : Instant) : outcome Timer :=
  ms ← millis (b_tick b);
  Timer_new ms (b_num_slots b) (b_capacity b) now.

Definition Timer_default (now : Instant) : outcome Timer := build Builder_default now.

End timer.

Arguments Timer S C T R H : clear implicits.
Arguments Sys S C T R H W : clear implicits.
