(* ===== verification/TimerInv.v ===== *)
(** * The invariant of the timing wheel

    [wheel_inv t ls]: slot [i] of the wheel is the doubly linked list [ls !! i],
    threaded through the slab; the lists partition the entries by the slot of
    their tick.  [cursor_at t ls pre suf]: where the scan of the current slot
    stands; every entry that is due at the current tick is still ahead of it.
    [bounds_at]: the [next_tick] of a slot is a lower bound of its ticks.
    [abs t] is the abstract content of a timer: token to (tick, state). *)

From S2P Require Import Prelude Event Convert DList Iface Timer.

(** ** Slots of a power-of-two wheel *)

Lemma land_mask k x : 0 <= k → Z.land (2 ^ k - 1) x = x mod 2 ^ k.
Proof.
  intros Hk. rewrite <- Z.land_ones by done. rewrite Z.land_comm, Z.ones_equiv.
  by rewrite Z.sub_1_r.
Qed.

Definition opt (tok : Token) : option Token := if decide (tok = EMPTY) then None else Some tok.

Lemma opt_None tok : opt tok = None ↔ tok = EMPTY.
Proof. unfold opt. case_decide; naive_solver. Qed.
Lemma opt_Some tok x : opt tok = Some x ↔ tok = x ∧ x ≠ EMPTY.
Proof. unfold opt. case_decide; naive_solver. Qed.
Lemma opt_ne tok : tok ≠ EMPTY → opt tok = Some tok.
Proof. intros. by apply opt_Some. Qed.

Section inv.
Context {S : Type → Type} {slab_ops : SlabOps S} {slab_spec : SlabSpec S} {slab_laws : SlabLaws S}.
Context {C : Type → Type} {T R H : Type}.
Implicit Types t : Timer S C T R H.

Definition nxt (e : Entry T) : option Token := opt (l_next (e_links e)).
Definition prv (e : Entry T) : option Token := opt (l_prev (e_links e)).
Definition contents t : gmap Token (Entry T) := slab_map (entries t).
Definition abs_entry (e : Entry T) : Z * T := (l_tick (e_links e), e_state e).
Definition abs t : gmap Token (Z * T) := abs_entry <$> contents t.

Record wheel_inv t (ls : list (list Token)) : Prop := {
  wi_pow : ∃ k, 0 <= k ∧ Z.of_nat (length (wheel t)) = 2 ^ k;
  wi_mask : mask t = Z.of_nat (length (wheel t)) - 1;
  wi_len : length ls = length (wheel t);
  wi_slot i we l : wheel t !! i = Some we → ls !! i = Some l →
    dlist nxt prv (contents t) (opt (w_head we)) l;
  wi_mem i l x : ls !! i = Some l →
    x ∈ l ↔ ∃ k st, abs t !! x = Some (k, st) ∧ slot_for t k = i;
  wi_tok x v : abs t !! x = Some v → x ≠ EMPTY;
  wi_cap : slab_capacity (entries t) <= USIZE_MAX }.

(** The scan of the current slot has passed [pre] and has [suf] ahead of it. *)
Definition cursor_at t (ls : list (list Token)) (pre suf : list Token) : Prop :=
  is_u64 (tick t) ∧ ls !! slot_for t (tick t) = Some (pre ++ suf) ∧ opt (next t) = head suf ∧
  ∀ x k st, abs t !! x = Some (k, st) →
    tick t <= k <= U64_MAX ∧ (k = tick t → x ∈ suf).

(** [next_tick] of a slot is at most the ticks of its entries; in the current
    slot this is known of the entries the scan has passed. *)
Definition bounds_at t (pre : list Token) : Prop :=
  ∀ x k st we, abs t !! x = Some (k, st) → wheel t !! slot_for t k = Some we →
    (slot_for t k = slot_for t (tick t) → x ∈ pre) → w_next_tick we <= k.

Definition bounds_full t : Prop :=
  ∀ x k st we, abs t !! x = Some (k, st) → wheel t !! slot_for t k = Some we → w_next_tick we <= k.

Definition timer_inv t : Prop :=
  ∃ ls pre suf, wheel_inv t ls ∧ cursor_at t ls pre suf ∧ bounds_at t pre.

(** ** Basic consequences *)

Lemma slot_for_mod t ls k :
  wheel_inv t ls → slot_for t k = Z.to_nat (k mod Z.of_nat (length (wheel t))).
Proof.
  intros [[j [Hj Hp]] Hm _ _ _ _ _]. unfold slot_for.
  by rewrite Hm, Hp, land_mask.
Qed.

Lemma slot_for_lt t ls k : wheel_inv t ls → (slot_for t k < length (wheel t))%nat.
Proof.
  intros Hi. rewrite (slot_for_mod t ls) by done. destruct (wi_pow _ _ Hi) as (j & Hj & Hp).
  assert (0 < Z.of_nat (length (wheel t))) by (rewrite Hp; by apply Z.pow_pos_nonneg).
  pose proof (Z.mod_pos_bound k (Z.of_nat (length (wheel t))) ltac:(done)). lia.
Qed.

Lemma wheel_at_slot t ls k :
  wheel_inv t ls → ∃ we l, wheel t !! slot_for t k = Some we ∧ ls !! slot_for t k = Some l ∧
    dlist nxt prv (contents t) (opt (w_head we)) l.
Proof.
  intros Hi. pose proof (slot_for_lt t ls k Hi) as Hlt.
  destruct (lookup_lt_is_Some_2 (wheel t) (slot_for t k)) as [we Hwe]; [done|].
  destruct (lookup_lt_is_Some_2 ls (slot_for t k)) as [l Hl]; [by rewrite (wi_len _ _ Hi)|].
  exists we, l. split_and!; [done..|]. by eapply wi_slot.
Qed.

Lemma abs_lookup t x k st :
  abs t !! x = Some (k, st) ↔ ∃ e, contents t !! x = Some e ∧ l_tick (e_links e) = k ∧ e_state e = st.
Proof. unfold abs. rewrite lookup_fmap_Some. unfold abs_entry. naive_solver. Qed.

Lemma abs_None t x : abs t !! x = None ↔ contents t !! x = None.
Proof. unfold abs. by rewrite lookup_fmap, fmap_None. Qed.

Lemma size_abs t : size (abs t) = size (contents t).
Proof. apply map_size_fmap. Qed.

Lemma wi_in t ls i l x : wheel_inv t ls → ls !! i = Some l → x ∈ l →
  ∃ k st, abs t !! x = Some (k, st) ∧ slot_for t k = i.
Proof. intros Hi Hl. by apply (wi_mem _ _ Hi). Qed.

Lemma wi_all t ls x k st : wheel_inv t ls → abs t !! x = Some (k, st) →
  ∃ l, ls !! slot_for t k = Some l ∧ x ∈ l.
Proof.
  intros Hi Hx. destruct (wheel_at_slot t ls k Hi) as (we & l & _ & Hl & _).
  exists l. split; [done|]. apply (wi_mem _ _ Hi _ _ _ Hl). eauto.
Qed.

(** Two slots share no token. *)
Lemma slots_disjoint t ls i j l l' x :
  wheel_inv t ls → ls !! i = Some l → ls !! j = Some l' → x ∈ l → x ∈ l' → i = j.
Proof.
  intros Hi Hl Hl' Hx Hx'.
  destruct (wi_in t ls i l x) as (k & st & Ha & <-); [done..|].
  destruct (wi_in t ls j l' x) as (k' & st' & Ha' & <-); [done..|]. congruence.
Qed.

Lemma slot_length_le t ls i l :
  wheel_inv t ls → ls !! i = Some l → (length l ≤ size (abs t))%nat.
Proof.
  intros Hi Hl.
  assert (NoDup l) as Hnd.
  { destruct (lookup_lt_is_Some_2 (wheel t) i) as [we Hwe].
    { rewrite <- (wi_len _ _ Hi). by eapply lookup_lt_Some. }
    eapply dlist_NoDup. by eapply wi_slot. }
  rewrite <- size_dom. etransitivity; [|apply subseteq_size].
  - by rewrite <- (size_list_to_set (C := gset Token) l).
  - intros x Hx%elem_of_list_to_set. apply elem_of_dom.
    destruct (wi_in t ls i l x) as (k & st & Ha & _); [done..|eauto].
Qed.

(** ** Effect of the primitive mutations *)

Lemma contents_set_entries t es : contents (set_entries t es) = slab_map es.
Proof. done. Qed.

Lemma entry_at_ok t x e : contents t !! x = Some e → entry_at t x = Done e.
Proof. intros He. unfold entry_at. rewrite slab_get_map. fold (contents t). by rewrite He. Qed.

Lemma entry_mut_ok t x e f :
  contents t !! x = Some e →
  ∃ t', entry_mut x f t = Done t' ∧ contents t' = alter (map_links f) x (contents t) ∧
    wheel t' = wheel t ∧ tick t' = tick t ∧ next t' = next t ∧ mask t' = mask t ∧
    slab_capacity (entries t') = slab_capacity (entries t) ∧ inner t' = inner t ∧
    tick_ms t' = tick_ms t ∧ start t' = start t.
Proof.
  intros He. unfold entry_mut.
  destruct (slab_index_mut_some (entries t) x (map_links f) e) as (es & -> & Hm & Hc); [done|].
  eexists. split; [done|]. rewrite contents_set_entries, Hm. split_and!; try done.
  apply map_eq. intros y. rewrite lookup_insert, lookup_alter.
  case_decide; [subst|done]. by rewrite He.
Qed.

Lemma wheel_at_ok t i we : wheel t !! i = Some we → wheel_at t i = Done we.
Proof. intros Hw. unfold wheel_at. by rewrite Hw. Qed.

Lemma wheel_put_ok t i we :
  (i < length (wheel t))%nat → wheel_put t i we = Done (set_wheel t (<[i := we]> (wheel t))).
Proof. intros Hi. unfold wheel_put. by rewrite decide_True. Qed.

(** The content of the slab after unlinking and removing [x]. *)
Definition unlinked (links : EntryLinks) (x : Token) (c : gmap Token (Entry T)) : gmap Token (Entry T) :=
  let c := if decide (l_prev links = EMPTY) then c
           else alter (map_links (links_set_next (l_next links))) (l_prev links) c in
  let c := if decide (l_next links ≠ EMPTY)
           then alter (map_links (links_set_prev (l_prev links))) (l_next links) c else c in
  delete x c.

Lemma map_links_abs f (e : Entry T) :
  (∀ l, l_tick (f l) = l_tick l) → abs_entry (map_links f e) = abs_entry e.
Proof. intros Hf. unfold abs_entry, map_links. cbn. by rewrite Hf. Qed.

Lemma abs_alter f x (c : gmap Token (Entry T)) :
  (∀ l, l_tick (f l) = l_tick l) → abs_entry <$> alter (map_links f) x c = abs_entry <$> c.
Proof.
  intros Hf. apply map_eq. intros y. rewrite !lookup_fmap, lookup_alter.
  case_decide; [subst|done]. destruct (c !! y); [|done]. cbn. by rewrite map_links_abs.
Qed.

Lemma unlinked_abs links x c : abs_entry <$> unlinked links x c = delete x (abs_entry <$> c).
Proof.
  unfold unlinked. rewrite fmap_delete. f_equal.
  repeat case_decide; by rewrite ?abs_alter.
Qed.

(** Altering the cell a token points to; the null token alters nothing. *)
Lemma alter_opt_lookup f tok (c : gmap Token (Entry T)) y w :
  c !! y = Some w →
  (if decide (tok = EMPTY) then c else alter f tok c) !! y =
    Some (if decide (opt tok = Some y) then f w else w).
Proof.
  intros Hw. unfold opt. destruct (decide (tok = EMPTY)); [by rewrite decide_False|].
  rewrite lookup_alter. destruct (decide (tok = y)) as [->|Hne].
  - by rewrite Hw, decide_True.
  - by rewrite Hw, decide_False by congruence.
Qed.

Lemma unlinked_lookup links x c y w :
  y ≠ x → c !! y = Some w →
  ∃ w', unlinked links x c !! y = Some w' ∧
    nxt w' = (if decide (opt (l_prev links) = Some y) then opt (l_next links) else nxt w) ∧
    prv w' = (if decide (opt (l_next links) = Some y) then opt (l_prev links) else prv w).
Proof.
  intros Hne Hw. unfold unlinked. rewrite lookup_delete_ne by done.
  pose proof (alter_opt_lookup (map_links (links_set_next (l_next links))) (l_prev links) c y w Hw) as H1.
  pose proof (alter_opt_lookup (map_links (links_set_prev (l_prev links))) (l_next links) _ y _ H1) as H2.
  destruct (decide (l_next links = EMPTY)) as [He|He].
  - rewrite (decide_False (P := l_next links ≠ EMPTY)) by naive_solver.
    rewrite H1. eexists. split; [done|].
    rewrite (decide_False (P := opt (l_next links) = Some y)) by (rewrite opt_Some; naive_solver).
    clear. by case_decide; split.
  - rewrite (decide_True (P := l_next links ≠ EMPTY)) by done. rewrite H2.
    eexists. split; [done|]. clear. by repeat case_decide; split.
Qed.

(** The fields no operation on the entries changes. *)
Definition same_rest t t' : Prop :=
  tick_ms t' = tick_ms t ∧ start t' = start t ∧ mask t' = mask t ∧ inner t' = inner t ∧
  slab_capacity (entries t') = slab_capacity (entries t) ∧
  (w_next_tick <$> wheel t') = (w_next_tick <$> wheel t).

Lemma same_rest_refl t : same_rest t t.
Proof. done. Qed.
Lemma same_rest_trans t1 t2 t3 : same_rest t1 t2 → same_rest t2 t3 → same_rest t1 t3.
Proof. unfold same_rest. intros (?&?&?&?&?&?) (?&?&?&?&?&?). split_and!; congruence. Qed.
Lemma same_rest_length t t' : same_rest t t' → length (wheel t') = length (wheel t).
Proof. intros (_&_&_&_&_&Hw). apply (f_equal length) in Hw. by rewrite !length_fmap in Hw. Qed.
Lemma same_rest_slot_for t t' k : same_rest t t' → slot_for t' k = slot_for t k.
Proof. intros (_&_&Hm&_). unfold slot_for. by rewrite Hm. Qed.

Lemma entry_mut_rest t x e f :
  contents t !! x = Some e →
  ∃ t', entry_mut x f t = Done t' ∧ contents t' = alter (map_links f) x (contents t) ∧
    wheel t' = wheel t ∧ tick t' = tick t ∧ next t' = next t ∧ same_rest t t'.
Proof.
  intros He. destruct (entry_mut_ok t x e f He) as (t' & ? & ? & Hw & ? & ? & ? & ? & ? & ? & ?).
  exists t'. unfold same_rest. rewrite Hw. split_and!; done.
Qed.

Lemma next_tick_insert (w : list WheelEntry) i we h :
  w !! i = Some we →
  w_next_tick <$> <[i := mkWheelEntry (w_next_tick we) h]> w = w_next_tick <$> w.
Proof.
  intros Hw. rewrite list_fmap_insert. apply list_insert_id.
  by rewrite list_lookup_fmap, Hw.
Qed.

(** First half of [unlink]: the predecessor, or the slot, skips the entry. *)
Lemma unlink_front t links we :
  wheel t !! slot_for t (l_tick links) = Some we →
  (l_prev links ≠ EMPTY → is_Some (contents t !! l_prev links)) →
  ∃ t', (if decide (l_prev links = EMPTY)
         then we ← wheel_at t (slot_for t (l_tick links));
              wheel_put t (slot_for t (l_tick links)) (mkWheelEntry (w_next_tick we) (l_next links))
         else entry_mut (l_prev links) (links_set_next (l_next links)) t) = Done t' ∧
    contents t' = (if decide (l_prev links = EMPTY) then contents t
      else alter (map_links (links_set_next (l_next links))) (l_prev links) (contents t)) ∧
    wheel t' = (if decide (l_prev links = EMPTY)
      then <[slot_for t (l_tick links) := mkWheelEntry (w_next_tick we) (l_next links)]> (wheel t)
      else wheel t) ∧
    tick t' = tick t ∧ next t' = next t ∧ same_rest t t'.
Proof.
  intros Hwe Hp. case_decide as Hd.
  - rewrite (wheel_at_ok _ _ _ Hwe). cbn.
    rewrite wheel_put_ok by (by eapply lookup_lt_Some). eexists. split; [done|]. cbn.
    unfold same_rest. cbn. rewrite next_tick_insert by done. done.
  - destruct (Hp Hd) as [e He].
    destruct (entry_mut_rest t _ e (links_set_next (l_next links)) He) as (t' & ? & ? & ? & ? & ? & ?).
    exists t'. split_and!; done.
Qed.

Lemma unlink_remove_ok t x e we :
  wheel t !! slot_for t (l_tick (e_links e)) = Some we →
  contents t !! x = Some e → x ≠ l_prev (e_links e) → x ≠ l_next (e_links e) →
  (l_prev (e_links e) ≠ EMPTY → is_Some (contents t !! l_prev (e_links e))) →
  (l_next (e_links e) ≠ EMPTY → is_Some (contents t !! l_next (e_links e))) →
  ∃ t1 t', unlink (e_links e) x t = Done t1 ∧ remove_entry x t1 = (Some (e_state e), t') ∧
    contents t' = unlinked (e_links e) x (contents t) ∧
    wheel t' = (if decide (l_prev (e_links e) = EMPTY)
      then <[slot_for t (l_tick (e_links e)) := mkWheelEntry (w_next_tick we) (l_next (e_links e))]> (wheel t)
      else wheel t) ∧
    next t' = (if decide (x = next t) then l_next (e_links e) else next t) ∧
    tick t' = tick t ∧ same_rest t t'.
Proof.
  intros Hwe He Hxp Hxn Hp Hn. set (links := e_links e) in *.
  destruct (unlink_front t links we Hwe Hp) as (t0 & Ef & Hc0 & Hw0 & Ht0 & Hn0 & Hr0).
  assert (∃ t1, unlink links x t = Done t1 ∧
    contents t1 = (if decide (l_next links ≠ EMPTY)
           then alter (map_links (links_set_prev (l_prev links))) (l_next links) (contents t0) else contents t0) ∧
    wheel t1 = wheel t0 ∧ next t1 = (if decide (x = next t) then l_next links else next t) ∧
    tick t1 = tick t ∧ same_rest t t1) as (t1 & Eu & Hc1 & Hw1 & Hn1 & Ht1 & Hr1).
  { unfold unlink. rewrite Ef. cbn [mbind outcome_bind]. destruct (decide (l_next links ≠ EMPTY)) as [Hne|Hne].
    - assert (∃ w, contents t0 !! l_next links = Some w) as [w Hw].
      { rewrite Hc0. destruct (Hn Hne) as [w Hw]. case_decide; [eauto|].
        rewrite lookup_alter. case_decide as Hpn; [rewrite Hpn|]; rewrite Hw; cbn; eauto. }
      destruct (entry_mut_rest t0 _ w (links_set_prev (l_prev links)) Hw) as (t1 & E1 & Hc1 & Hw1 & Ht1 & Hn1 & Hr1).
      rewrite E1. cbn [mbind outcome_bind]. rewrite Hn1, Hn0.
      pose proof (same_rest_trans _ _ _ Hr0 Hr1) as Hr.
      eexists. split; [done|]. destruct (decide (x = next t)); split_and!; try done; cbn; congruence.
    - assert (l_next links = EMPTY) as -> by (destruct (decide (l_next links = EMPTY)); naive_solver).
      rewrite Hn0. eexists. split; [done|]. destruct (decide (x = next t)); split_and!; try done; cbn; congruence. }
  exists t1. unfold remove_entry. fold links.
  destruct (slab_remove_map (entries t1) x) as (es & -> & Hm & Hcap). cbn.
  fold (contents t1) in Hm |- *.
  assert (contents t1 !! x = Some e) as Hx1.
  { rewrite Hc1, Hc0. repeat case_decide; rewrite ?lookup_alter_ne; done. }
  rewrite Hx1. eexists. split; [done|]. split; [done|]. rewrite contents_set_entries, Hm.
  split_and!; try done.
  - unfold unlinked. by rewrite Hc1, Hc0.
  - cbn. congruence.
  - destruct Hr1 as (?&?&?&?&?&?). unfold same_rest. cbn. split_and!; try done. congruence.
Qed.

Lemma head_elem (l : list Token) x : head l = Some x → x ∈ l.
Proof. destruct l; [done|]. intros [= ->]. set_solver. Qed.

Lemma slot_cell t ls i l1 x l2 e :
  wheel_inv t ls → ls !! i = Some (l1 ++ x :: l2) → contents t !! x = Some e →
  opt (l_next (e_links e)) = head l2 ∧ opt (l_prev (e_links e)) = last l1.
Proof.
  intros Hi Hl He.
  destruct (lookup_lt_is_Some_2 (wheel t) i) as [we Hwe].
  { rewrite <- (wi_len _ _ Hi). by eapply lookup_lt_Some. }
  exact (dlist_cell _ _ _ _ _ _ _ _ (wi_slot _ _ Hi _ _ _ Hwe Hl) He).
Qed.

(** Neighbours of an entry are entries, and are not the entry itself. *)
Lemma slot_neighbours t ls i l1 x l2 e :
  wheel_inv t ls → ls !! i = Some (l1 ++ x :: l2) → contents t !! x = Some e →
  x ≠ l_prev (e_links e) ∧ x ≠ l_next (e_links e) ∧
  (l_prev (e_links e) ≠ EMPTY → is_Some (contents t !! l_prev (e_links e))) ∧
  (l_next (e_links e) ≠ EMPTY → is_Some (contents t !! l_next (e_links e))).
Proof.
  intros Hi Hl He. destruct (slot_cell _ _ _ _ _ _ _ Hi Hl He) as [Hn Hp].
  assert (x ≠ EMPTY) as Hx.
  { apply (wi_tok _ _ Hi x (abs_entry e)). unfold abs. by rewrite lookup_fmap, He. }
  destruct (lookup_lt_is_Some_2 (wheel t) i) as [we Hwe].
  { rewrite <- (wi_len _ _ Hi). by eapply lookup_lt_Some. }
  pose proof (wi_slot _ _ Hi _ _ _ Hwe Hl) as Hd.
  pose proof (dlist_NoDup _ _ _ _ _ Hd) as Hnd.
  apply NoDup_app in Hnd as (_ & Hdis & Hnd2). apply NoDup_cons in Hnd2 as [Hxl2 _].
  assert (∀ y, y ∈ l1 ++ x :: l2 → is_Some (contents t !! y)) as Hin
    by (intros y Hy; by eapply dlist_lookup).
  split_and!.
  - intros Heq. rewrite <- Heq, (opt_ne x Hx) in Hp. symmetry in Hp. apply last_Some_elem_of in Hp.
    apply (Hdis x Hp). set_solver.
  - intros Heq. rewrite <- Heq, (opt_ne x Hx) in Hn. symmetry in Hn. by apply head_elem in Hn.
  - intros Hne. rewrite opt_ne in Hp by done. symmetry in Hp. apply last_Some_elem_of in Hp.
    apply Hin. set_solver.
  - intros Hne. rewrite opt_ne in Hn by done. symmetry in Hn. apply head_elem in Hn.
    apply Hin. set_solver.
Qed.

(** The slots other than [i] do not notice the unlinking. *)
Lemma unlinked_frame t ls i j l1 x l2 l e hd :
  wheel_inv t ls → ls !! i = Some (l1 ++ x :: l2) → contents t !! x = Some e →
  ls !! j = Some l → i ≠ j → dlist nxt prv (contents t) hd l →
  dlist nxt prv (unlinked (e_links e) x (contents t)) hd l.
Proof.
  intros Hi Hl He Hj Hij Hd. destruct (slot_cell _ _ _ _ _ _ _ Hi Hl He) as [Hn Hp].
  assert (∀ y, y ∈ l → y ∉ l1 ++ x :: l2) as Hdis.
  { intros y Hy Hy'. apply Hij. exact (slots_disjoint _ _ _ _ _ _ y Hi Hl Hj Hy' Hy). }
  eapply dlist_frame; [exact Hd|]. intros y w Hy Hw. specialize (Hdis y Hy).
  destruct (unlinked_lookup (e_links e) x (contents t) y w) as (w' & Hw' & Hn' & Hp'); [set_solver|done|].
  exists w'. split; [done|]. rewrite Hn', Hp', Hn, Hp.
  rewrite !decide_False; [done|..].
  - intros Hh%head_elem. set_solver.
  - intros Hh%last_Some_elem_of. set_solver.
Qed.

(** Replacing the list of one slot. *)
Lemma wheel_inv_update t t' ls i l' :
  wheel_inv t ls → (i < length ls)%nat →
  mask t' = mask t → length (wheel t') = length (wheel t) →
  slab_capacity (entries t') = slab_capacity (entries t) →
  (∀ we, wheel t' !! i = Some we → dlist nxt prv (contents t') (opt (w_head we)) l') →
  (∀ j we l, i ≠ j → wheel t' !! j = Some we → ls !! j = Some l →
     dlist nxt prv (contents t') (opt (w_head we)) l) →
  (∀ x, x ∈ l' ↔ ∃ k st, abs t' !! x = Some (k, st) ∧ slot_for t k = i) →
  (∀ x k st, slot_for t k ≠ i → abs t' !! x = Some (k, st) ↔ abs t !! x = Some (k, st)) →
  (∀ x v, abs t' !! x = Some v → x ≠ EMPTY) →
  wheel_inv t' (<[i := l']> ls).
Proof.
  intros Hi Hlt Hm Hlen Hcap Hd Hdj Hl' Hoth Htok.
  assert (∀ k, slot_for t' k = slot_for t k) as Hsf by (intros k; unfold slot_for; by rewrite Hm).
  split.
  - rewrite Hlen. apply (wi_pow _ _ Hi).
  - rewrite Hm, Hlen. apply (wi_mask _ _ Hi).
  - rewrite length_insert, Hlen. apply (wi_len _ _ Hi).
  - intros j we l Hwe Hl. destruct (decide (i = j)) as [<-|Hne].
    + rewrite list_lookup_insert_eq in Hl by done. injection Hl as <-. by apply Hd.
    + rewrite list_lookup_insert_ne in Hl by done. by eapply Hdj.
  - intros j l x Hl. setoid_rewrite Hsf. destruct (decide (i = j)) as [<-|Hne].
    + rewrite list_lookup_insert_eq in Hl by done. injection Hl as <-. apply Hl'.
    + rewrite list_lookup_insert_ne in Hl by done. rewrite (wi_mem _ _ Hi j l x Hl).
      split; intros (k & st & Hx & Hk); exists k, st; (split; [apply Hoth in Hx|]; [done|congruence|done]).
  - exact Htok.
  - rewrite Hcap. apply (wi_cap _ _ Hi).
Qed.

Lemma wheel_inv_split t ls i l x :
  wheel_inv t ls → ls !! i = Some l → x ∈ l → ∃ l1 l2, l = l1 ++ x :: l2 ∧ x ∉ l1 ++ l2.
Proof.
  intros Hi Hl (l1 & l2 & ->)%list_elem_of_split. exists l1, l2. split; [done|].
  destruct (lookup_lt_is_Some_2 (wheel t) i) as [we Hwe].
  { rewrite <- (wi_len _ _ Hi). by eapply lookup_lt_Some. }
  pose proof (dlist_NoDup _ _ _ _ _ (wi_slot _ _ Hi _ _ _ Hwe Hl)) as Hnd.
  apply NoDup_app in Hnd as (_ & Hdis & Hnd2). apply NoDup_cons in Hnd2 as [? _].
  intros [Hx|Hx]%elem_of_app; [|done]. apply (Hdis x Hx). set_solver.
Qed.

(** The slot of the unlinked entry holds the remaining ones. *)
Lemma unlinked_slot t ls i l1 x l2 e we we' :
  wheel_inv t ls → ls !! i = Some (l1 ++ x :: l2) → x ∉ l1 ++ l2 → contents t !! x = Some e →
  wheel t !! i = Some we →
  (if decide (l_prev (e_links e) = EMPTY)
   then <[i := mkWheelEntry (w_next_tick we) (l_next (e_links e))]> (wheel t) else wheel t) !! i = Some we' →
  dlist nxt prv (unlinked (e_links e) x (contents t)) (opt (w_head we')) (l1 ++ l2).
Proof.
  intros Hi Hl Hx He Hwe Hwe'. destruct (slot_cell _ _ _ _ _ _ _ Hi Hl He) as [Hnx Hpv].
  pose proof (wi_slot _ _ Hi _ _ _ Hwe Hl) as Hd.
  assert (opt (w_head we') = head (l1 ++ l2)) as ->.
  { case_decide as Hpe.
    - rewrite list_lookup_insert_eq in Hwe' by (by eapply lookup_lt_Some). injection Hwe' as <-. cbn.
      rewrite Hpe, (proj2 (opt_None _)) in Hpv by done. symmetry in Hpv.
      apply last_None in Hpv as ->. by rewrite Hnx.
    - assert (we' = we) as -> by congruence. rewrite (dlist_hd _ _ _ _ _ Hd).
      rewrite opt_ne in Hpv by done. by destruct l1. }
  apply (dlist_unlink nxt prv (contents t) _ (opt (w_head we)) l1 x l2 Hd).
  intros y w Hy Hyw. rewrite <- Hnx, <- Hpv. apply unlinked_lookup; [|done]. by intros ->.
Qed.

Lemma unlink_inv t ls x e l1 l2 :
  wheel_inv t ls → contents t !! x = Some e →
  ls !! slot_for t (l_tick (e_links e)) = Some (l1 ++ x :: l2) → x ∉ l1 ++ l2 →
  ∃ t1 t', unlink (e_links e) x t = Done t1 ∧ remove_entry x t1 = (Some (e_state e), t') ∧
    wheel_inv t' (<[slot_for t (l_tick (e_links e)) := l1 ++ l2]> ls) ∧
    abs t' = delete x (abs t) ∧
    next t' = (if decide (x = next t) then l_next (e_links e) else next t) ∧
    tick t' = tick t ∧ same_rest t t'.
Proof.
  intros Hi He Hl Hx. set (i := slot_for t (l_tick (e_links e))) in *.
  destruct (slot_neighbours _ _ _ _ _ _ _ Hi Hl He) as (Hxp & Hxn & Hp & Hn).
  destruct (lookup_lt_is_Some_2 (wheel t) i) as [we Hwe].
  { rewrite <- (wi_len _ _ Hi). by eapply lookup_lt_Some. }
  destruct (unlink_remove_ok t x e we Hwe He Hxp Hxn Hp Hn)
    as (t1 & t' & Eu & Er & Hc & Hw & Hnt & Htk & Hr). fold i in Hw.
  assert (abs t' = delete x (abs t)) as Habs by (unfold abs; rewrite Hc; apply unlinked_abs).
  exists t1, t'. split_and!; try done.
  pose proof (same_rest_length _ _ Hr) as Hlen. destruct Hr as (_ & _ & Hm & _ & Hcap & _).
  apply (wheel_inv_update t); try done.
  - by eapply lookup_lt_Some.
  - intros we' Hwe'. rewrite Hw in Hwe'. rewrite Hc. by eapply unlinked_slot.
  - intros j wj lj Hne Hwj Hlj. rewrite Hc. eapply (unlinked_frame t ls i j); eauto.
    eapply wi_slot; eauto. rewrite Hw in Hwj. case_decide; [by rewrite list_lookup_insert_ne in Hwj|done].
  - intros y. rewrite Habs. setoid_rewrite lookup_delete_Some.
    pose proof (wi_mem _ _ Hi i _ y Hl) as Hm'. split.
    + intros Hy. destruct (proj1 Hm') as (k & st & ? & ?); [set_solver|]. exists k, st.
      split; [|done]. split; [|done]. by intros ->.
    + intros (k & st & [Hne Hy] & Hk). assert (y ∈ l1 ++ x :: l2) by (apply Hm'; eauto). set_solver.
  - intros y k st Hk. rewrite Habs, lookup_delete_Some. split; [naive_solver|]. intros Hy. split; [|done].
    intros ->. apply Hk. apply abs_lookup in Hy as (e' & He' & <- & _). unfold i. congruence.
  - intros y v. rewrite Habs. intros Hy. apply lookup_delete_Some in Hy as [_ Hy]. by eapply wi_tok.
Qed.
End inv.
