(* ===== verification/TimerOps.v ===== *)
(** * The operations of the timer preserve its invariant

    For each operation of [Timer.v]: it does not panic on a well-formed timer,
    keeps [timer_inv], and its effect on the abstract content [abs]. *)

From S2P Require Import Prelude Event Convert DList Iface Timer TimerInv.

Section ops.
Context {S : Type → Type} {slab_ops : SlabOps S} {slab_spec : SlabSpec S} {slab_laws : SlabLaws S}.
Context {C : Type → Type} {cell_ops : LazyCellOps C}.
Context {T R H W : Type}.
Implicit Types t : Timer S C T R H.
Implicit Types s : Sys S C T R H W.

(** ** Insertion into a slot *)

(** The content of the slab after the new entry [tok] became the head. *)
Definition pushed (tok : Token) (e : Entry T) (hd : Token) (c : gmap Token (Entry T)) : gmap Token (Entry T) :=
  let c := <[tok := e]> c in
  if decide (hd = EMPTY) then c else alter (map_links (links_set_prev tok)) hd c.

Lemma pushed_abs tok e hd c :
  abs_entry <$> pushed tok e hd c = <[tok := abs_entry e]> (abs_entry <$> c).
Proof. unfold pushed. case_decide; rewrite ?abs_alter by done; apply fmap_insert. Qed.

Lemma pushed_lookup tok e hd c y w :
  y ≠ tok → tok ≠ EMPTY → c !! y = Some w →
  ∃ w', pushed tok e hd c !! y = Some w' ∧ nxt w' = nxt w ∧
    prv w' = (if decide (opt hd = Some y) then Some tok else prv w).
Proof.
  intros Hne Htok Hw. assert (<[tok := e]> c !! y = Some w) as Hw' by (by rewrite lookup_insert_ne).
  unfold pushed. rewrite (alter_opt_lookup _ _ _ _ _ Hw'). eexists. split; [done|].
  destruct (decide (opt hd = Some y)); [|done]. unfold nxt, prv. cbn. by rewrite (opt_ne tok).
Qed.

Lemma pushed_self tok e hd c :
  hd ≠ tok → pushed tok e hd c !! tok = Some e.
Proof.
  intros Hne. unfold pushed. case_decide; rewrite ?lookup_alter_ne by done; apply lookup_insert_eq.
Qed.

Lemma pushed_slot t ls i l tok we st k :
  wheel_inv t ls → wheel t !! i = Some we → ls !! i = Some l →
  contents t !! tok = None → tok ≠ EMPTY →
  dlist nxt prv (pushed tok (Entry_new st k (w_head we)) (w_head we) (contents t)) (Some tok) (tok :: l).
Proof.
  intros Hi Hwe Hl Hfresh Htok. pose proof (wi_slot _ _ Hi _ _ _ Hwe Hl) as Hd.
  assert (∀ y, y ∈ l → y ≠ tok) as Hne.
  { intros y Hy ->. destruct (dlist_lookup _ _ _ _ _ _ Hd Hy). congruence. }
  eapply (dlist_push nxt prv _ _ _ _ tok (Entry_new st k (w_head we)) Hd).
  - intros Hin. by apply (Hne tok).
  - apply pushed_self. destruct (decide (w_head we = EMPTY)) as [->|He]; [done|].
    apply Hne, head_elem. rewrite <- (dlist_hd _ _ _ _ _ Hd). by apply opt_ne.
  - done.
  - unfold prv. cbn. by apply opt_None.
  - intros y w Hy Hw. apply pushed_lookup; auto.
Qed.

Lemma pushed_frame t ls i j l lj tok we st k hd :
  wheel_inv t ls → wheel t !! i = Some we → ls !! i = Some l → i ≠ j → ls !! j = Some lj →
  contents t !! tok = None → tok ≠ EMPTY →
  dlist nxt prv (contents t) hd lj →
  dlist nxt prv (pushed tok (Entry_new st k (w_head we)) (w_head we) (contents t)) hd lj.
Proof.
  intros Hi Hwe Hl Hij Hlj Hfresh Htok Hd. pose proof (wi_slot _ _ Hi _ _ _ Hwe Hl) as Hdi.
  eapply dlist_frame; [exact Hd|]. intros y w Hy Hw.
  destruct (pushed_lookup tok (Entry_new st k (w_head we)) (w_head we) (contents t) y w)
    as (w' & Hw' & Hn & Hp); [congruence|done..|].
  exists w'. split; [done|]. split; [done|]. rewrite Hp, decide_False; [done|].
  rewrite (dlist_hd _ _ _ _ _ Hdi). intros Hh%head_elem. apply Hij.
  exact (slots_disjoint _ _ _ _ _ _ y Hi Hl Hlj Hh Hy).
Qed.

(** ** Scheduling a wakeup *)

Lemma schedule_readiness_ok k s :
  is_u64 k →
  schedule_readiness k s = Done (with_shared s
    (match lazy_borrow (inner (timer s)) with
     | Some _ => if wakeup_state (shared s) <=? k then shared s else mkShared k true
     | None => shared s
     end)).
Proof.
  intros Hk. unfold schedule_readiness. destruct (lazy_borrow _); [|by destruct s].
  cbn. destruct (wakeup_state (shared s) <=? k); [done|]. rewrite Z.eqb_refl. cbn.
  by rewrite wrap64_id.
Qed.

(** [s'] differs from [s] at most in the wakeup state. *)
Definition same_but_shared s s' : Prop := timer s' = timer s ∧ world s' = world s.

(** ** [insert] *)

(** The old head of the slot points back to the new entry. *)
Lemma push_head t ls i l we tok st k es :
  wheel_inv t ls → wheel t !! i = Some we → ls !! i = Some l →
  slab_map es = <[tok := Entry_new st k (w_head we)]> (contents t) →
  ∃ t1, (if decide (w_head we = EMPTY) then Done (set_entries t es)
      else entry_mut (w_head we) (links_set_prev tok) (set_entries t es)) = Done t1 ∧
    contents t1 = pushed tok (Entry_new st k (w_head we)) (w_head we) (contents t) ∧
    wheel t1 = wheel t ∧ tick t1 = tick t ∧ next t1 = next t ∧ same_rest (set_entries t es) t1.
Proof.
  intros Hi Hwe Hl Hm. pose proof (wi_slot _ _ Hi _ _ _ Hwe Hl) as Hd.
  unfold pushed. rewrite <- Hm. destruct (decide (w_head we = EMPTY)) as [He|He].
  - eexists. split; [done|]. done.
  - destruct (slab_map es !! w_head we) as [w|] eqn:Hw.
    + destruct (entry_mut_rest (set_entries t es) (w_head we) w (links_set_prev tok)) as (t1 & ?&?&?&?&?&?); [done|].
      exists t1. done.
    + exfalso. rewrite Hm in Hw. apply lookup_insert_None in Hw as [Hw _].
      destruct (dlist_lookup _ _ _ _ _ (w_head we) Hd); [|congruence].
      apply head_elem. rewrite <- (dlist_hd _ _ _ _ _ Hd). by apply opt_ne.
Qed.

Lemma pushed_inv t t' ls l we tok st k n : let i := slot_for t k in
  wheel_inv t ls → wheel t !! i = Some we → ls !! i = Some l → contents t !! tok = None → tok ≠ EMPTY →
  contents t' = pushed tok (Entry_new st k (w_head we)) (w_head we) (contents t) →
  wheel t' = <[i := mkWheelEntry n tok]> (wheel t) → mask t' = mask t →
  slab_capacity (entries t') = slab_capacity (entries t) →
  abs t' = <[tok := (k, st)]> (abs t) ∧ wheel_inv t' (<[i := tok :: l]> ls).
Proof.
  intros i Hi Hwe Hl Hfr Htok Hc Hw Hm Hcap.
  assert (abs t' = <[tok := (k, st)]> (abs t)) as Habs by (unfold abs; by rewrite Hc, pushed_abs).
  split; [done|]. apply (wheel_inv_update t); try done.
  - by eapply lookup_lt_Some.
  - by rewrite Hw, length_insert.
  - intros we' Hwe'. rewrite Hw, list_lookup_insert_eq in Hwe' by (by eapply lookup_lt_Some).
    injection Hwe' as <-. rewrite Hc. cbn. rewrite opt_ne by done. by eapply pushed_slot.
  - intros j wj lj Hij Hwj Hlj. rewrite Hw, list_lookup_insert_ne in Hwj by done.
    rewrite Hc. eapply pushed_frame; eauto. by eapply wi_slot.
  - intros y. rewrite Habs, elem_of_cons, (wi_mem _ _ Hi _ _ _ Hl). setoid_rewrite lookup_insert_Some.
    apply abs_None in Hfr. split.
    + intros [->|(k' & st' & Hy & Hk')]; [naive_solver|]. exists k', st'. split; [|done]. right.
      split; [|done]. intros ->. congruence.
    + intros (k' & st' & [[-> ?]|[_ ?]] & ?); [naive_solver|]. right. eauto.
  - intros y k' st' Hk'. rewrite Habs, lookup_insert_Some. apply abs_None in Hfr. split.
    + intros [[-> [= -> ->]]|[_ ?]]; [done|done].
    + intros Hy. right. split; [|done]. intros ->. congruence.
  - intros y v. rewrite Habs. intros Hy. apply lookup_insert_Some in Hy as [[<- _]|[_ Hy]]; [done|].
    by eapply wi_tok.
Qed.

Lemma insert_entry_ok k st t ls :
  wheel_inv t ls → Z.of_nat (size (abs t)) < slab_capacity (entries t) →
  ∃ tok t' we l, let i := slot_for t k in
    insert_entry k st t = Done (Ok (mkTimeout tok k), t') ∧
    abs t !! tok = None ∧ abs t' = <[tok := (k, st)]> (abs t) ∧
    wheel t !! i = Some we ∧ ls !! i = Some l ∧
    wheel t' = <[i := mkWheelEntry (Z.min k (w_next_tick we)) tok]> (wheel t) ∧
    wheel_inv t' (<[i := tok :: l]> ls) ∧ tick t' = tick t ∧ next t' = next t ∧
    tick_ms t' = tick_ms t ∧ start t' = start t ∧ mask t' = mask t ∧
    inner t' = inner t ∧ slab_capacity (entries t') = slab_capacity (entries t).
Proof.
  intros Hi Hsz.
  destruct (wheel_at_slot t ls k Hi) as (we & l & Hwe & Hl & Hd).
  unfold insert_entry. rewrite Z.land_comm. fold (slot_for t k).
  rewrite (wheel_at_ok _ _ _ Hwe). cbn [mbind outcome_bind].
  destruct (slab_insert_ok (entries t) (Entry_new st k (w_head we))) as (tok & es & -> & Hfr & Hm & Hc & Hb).
  { fold (contents t). by rewrite <- size_abs. }
  assert (tok ≠ EMPTY) as Htok.
  { pose proof (wi_cap _ _ Hi). intros ->. unfold EMPTY in Hb. cbn in Hb. lia. }
  fold (contents t) in Hfr, Hm.
  destruct (push_head t ls _ l we tok st k es Hi Hwe Hl Hm) as (t1 & -> & Hc1 & Hw1 & Ht1 & Hn1 & Hr1).
  cbn [mbind outcome_bind]. rewrite wheel_put_ok by (rewrite Hw1; by eapply lookup_lt_Some).
  cbn [mbind outcome_bind]. rewrite Hw1. set (t' := set_wheel t1 _).
  destruct Hr1 as (? & ? & Hmask & ? & Hcap & ?). cbn in Hcap. rewrite Hc in Hcap.
  destruct (pushed_inv t t' ls l we tok st k _ Hi Hwe Hl Hfr Htok Hc1 eq_refl Hmask Hcap) as [Habs Hi'].
  eexists tok, t', we, l. cbv zeta. split; [done|]. split; [by apply abs_None|]. done.
Qed.

Lemma insert_entry_full k st t ls :
  wheel_inv t ls → slab_capacity (entries t) <= Z.of_nat (size (abs t)) →
  insert_entry k st t = Done (Err TimerError_overflow, t).
Proof.
  intros Hi Hsz.
  destruct (wheel_at_slot t ls k Hi) as (we & l & Hwe & Hl & Hd).
  unfold insert_entry. rewrite Z.land_comm. fold (slot_for t k).
  rewrite (wheel_at_ok _ _ _ Hwe). cbn [mbind outcome_bind].
  rewrite slab_insert_full by (fold (contents t); by rewrite <- size_abs). by destruct t.
Qed.

(** ** Cursor and bounds after an insertion and a removal *)

Lemma insert_cursor t t' ls pre suf tok l k st :
  wheel_inv t ls → cursor_at t ls pre suf → tick t < k <= U64_MAX →
  ls !! slot_for t k = Some l → abs t !! tok = None →
  abs t' = <[tok := (k, st)]> (abs t) → tick t' = tick t → next t' = next t → mask t' = mask t →
  ∃ pre', cursor_at t' (<[slot_for t k := tok :: l]> ls) pre' suf ∧
    (pre' = if decide (slot_for t k = slot_for t (tick t)) then tok :: pre else pre).
Proof.
  intros Hi (Hu & Hl & Hh & Hdue) Hk Hlk Hfr Habs Ht Hn Hm.
  assert (∀ k, slot_for t' k = slot_for t k) as Hsf by (intros; unfold slot_for; by rewrite Hm).
  eexists. split; [|done]. unfold cursor_at. rewrite Hsf, Ht, Hn. split_and!; [done| |done|].
  - destruct (decide (slot_for t k = slot_for t (tick t))) as [Heq|Hne].
    + rewrite <- Heq in Hl |- *. rewrite list_lookup_insert_eq by (by eapply lookup_lt_Some). cbn. congruence.
    + by rewrite list_lookup_insert_ne.
  - intros y k' st'. rewrite Habs. intros Hy. apply lookup_insert_Some in Hy as [[<- [= <- <-]]|[Hne Hy]].
    + split; [lia|]. intros ->. lia.
    + eauto.
Qed.

Lemma insert_bounds t t' pre pre' tok we k st :
  bounds_at t pre → wheel t !! slot_for t k = Some we →
  wheel t' = <[slot_for t k := mkWheelEntry (Z.min k (w_next_tick we)) tok]> (wheel t) →
  abs t' = <[tok := (k, st)]> (abs t) → tick t' = tick t → mask t' = mask t →
  (∀ x : Token, x ∈ pre' → x ≠ tok → x ∈ pre) → bounds_at t' pre'.
Proof.
  intros Hb Hwe Hw Habs Ht Hm Hpre y k' st' we'. rewrite Habs, Hw.
  assert (∀ k, slot_for t' k = slot_for t k) as Hsf by (intros; unfold slot_for; by rewrite Hm).
  rewrite !Hsf, Ht. intros Hy Hwe' Hin.
  apply lookup_insert_Some in Hy as [[<- [= <- <-]]|[Hne Hy]].
  - rewrite list_lookup_insert_eq in Hwe' by (by eapply lookup_lt_Some). injection Hwe' as <-. cbn. lia.
  - destruct (decide (slot_for t k = slot_for t k')) as [Heq|Hne'].
    + rewrite Heq, list_lookup_insert_eq in Hwe' by (rewrite <- Heq; by eapply lookup_lt_Some).
      injection Hwe' as <-. cbn. rewrite Heq in Hwe.
      pose proof (Hb y k' st' we Hy Hwe ltac:(auto)). lia.
    + rewrite list_lookup_insert_ne in Hwe' by done. eapply Hb; eauto.
Qed.

Lemma unlink_cursor t t' ls pre suf x l1 l2 i e :
  wheel_inv t ls → cursor_at t ls pre suf →
  ls !! i = Some (l1 ++ x :: l2) → x ∉ l1 ++ l2 → contents t !! x = Some e →
  abs t' = delete x (abs t) → tick t' = tick t → mask t' = mask t →
  next t' = (if decide (x = next t) then l_next (e_links e) else next t) →
  ∃ pre' suf', cursor_at t' (<[i := l1 ++ l2]> ls) pre' suf' ∧ (∀ y, y ∈ pre' → y ∈ pre) ∧
    (∀ y, y ∈ pre → y ≠ x → y ∈ pre').
Proof.
  intros Hi (Hu & Hl & Hh & Hdue) Hli Hx He Habs Ht Hm Hn.
  assert (slot_for t' (tick t') = slot_for t (tick t)) as Hsf by (unfold slot_for; by rewrite Hm, Ht).
  assert (x ≠ EMPTY) as Hxe by (eapply (wi_tok _ _ Hi x (abs_entry e)); unfold abs; by rewrite lookup_fmap, He).
  destruct (slot_cell _ _ _ _ _ _ _ Hi Hli He) as [Hnx _].
  assert (∀ suf' : list Token, (∀ y, y ∈ suf → y ≠ x → y ∈ suf') → ∀ y k st, abs t' !! y = Some (k, st) →
    tick t <= k <= U64_MAX ∧ (k = tick t → y ∈ suf')) as Hdue'.
  { intros suf' Hs y k st. rewrite Habs. intros Hy. apply lookup_delete_Some in Hy as [Hne Hy].
    destruct (Hdue y k st Hy) as [? Hin]. split; [done|]. intros ->. apply Hs; auto. }
  destruct (decide (i = slot_for t (tick t))) as [->|Hne].
  - assert (pre ++ suf = l1 ++ x :: l2) as Heq by congruence.
    assert ((slot_for t (tick t) < length ls)%nat) as Hlt by (by eapply lookup_lt_Some).
    destruct (split_two _ _ _ _ _ Heq) as [(q & -> & ->)|(q & -> & ->)].
    + exists (l1 ++ q), suf. split; [|set_solver].
      unfold cursor_at. rewrite Hsf, Ht. split_and!; [done|..].
      * rewrite list_lookup_insert_eq by done. by rewrite <- app_assoc.
      * rewrite Hn, decide_False; [done|]. intros Heqx. rewrite <- Heqx, opt_ne in Hh by done.
        symmetry in Hh. apply head_elem in Hh. set_solver.
      * apply Hdue'. done.
    + exists pre, (q ++ l2). split; [|set_solver].
      unfold cursor_at. rewrite Hsf, Ht. split_and!; [done|..].
      * rewrite list_lookup_insert_eq by done. by rewrite <- app_assoc.
      * rewrite Hn. destruct q as [|z q]; cbn in Hh |- *.
        -- apply opt_Some in Hh as [-> _]. by rewrite decide_True.
        -- apply opt_Some in Hh as [-> Hz]. rewrite decide_False; [by apply opt_ne|].
           intros ->. apply Hx. set_solver.
      * apply Hdue'. set_solver.
  - exists pre, suf. split; [|set_solver]. unfold cursor_at. rewrite Hsf, Ht. split_and!; [done|..].
    + by rewrite list_lookup_insert_ne.
    + rewrite Hn, decide_False; [done|]. intros ->. rewrite opt_ne in Hh by done. symmetry in Hh.
      apply head_elem in Hh. apply Hne.
      apply (slots_disjoint t ls i (slot_for t (tick t)) (l1 ++ next t :: l2) (pre ++ suf) (next t)); set_solver.
    + apply Hdue'. done.
Qed.

Lemma unlink_bounds t t' pre pre' x :
  bounds_at t pre → same_rest t t' → abs t' = delete x (abs t) → tick t' = tick t →
  (∀ y, y ∈ pre' → y ∈ pre) → bounds_at t' pre'.
Proof.
  intros Hb Hr Habs Ht Hpre y k st we'. rewrite Habs, Ht, !(same_rest_slot_for t t') by done.
  intros Hy Hwe' Hin. apply lookup_delete_Some in Hy as [_ Hy]. destruct Hr as (_&_&_&_&_&Hw).
  pose proof (f_equal (.!! slot_for t k) Hw) as Hwk. cbv beta in Hwk. rewrite !list_lookup_fmap, Hwe' in Hwk.
  destruct (wheel t !! slot_for t k) as [we|] eqn:E; [|done]. cbn in Hwk. injection Hwk as ->.
  eapply Hb; eauto.
Qed.

Lemma unlink_bounds_full t t' x :
  bounds_full t → same_rest t t' → abs t' = delete x (abs t) → bounds_full t'.
Proof.
  intros Hb Hr Habs y k st we'. rewrite Habs, !(same_rest_slot_for t t') by done.
  intros Hy Hwe'. apply lookup_delete_Some in Hy as [_ Hy]. destruct Hr as (_&_&_&_&_&Hw).
  pose proof (f_equal (.!! slot_for t k) Hw) as Hwk. cbv beta in Hwk. rewrite !list_lookup_fmap, Hwe' in Hwk.
  destruct (wheel t !! slot_for t k) as [we|] eqn:E; [|done]. cbn in Hwk. injection Hwk as ->.
  eapply Hb; eauto.
Qed.
End ops.
