(* ===== verification/TimerPoll.v ===== *)
(** * Polling the timer

    One iteration of the loop of [poll_to] ([poll_iter]) either advances the
    tick, passes an entry that is not due, or fires the entry under the cursor;
    the loop ends within [poll_fuel] iterations. *)

From S2P Require Import Prelude Event Convert DList Iface Timer TimerInv TimerOps.

Section poll.
Context {S : Type → Type} {slab_ops : SlabOps S} {slab_spec : SlabSpec S} {slab_laws : SlabLaws S}.
Context {C : Type → Type} {cell_ops : LazyCellOps C}.
Context {T R H W : Type}.
Implicit Types t : Timer S C T R H.

(** The configuration of a timer: what neither polling nor inserting changes. *)
Definition same_conf t t' : Prop :=
  tick_ms t' = tick_ms t ∧ start t' = start t ∧ mask t' = mask t ∧ inner t' = inner t ∧
  slab_capacity (entries t') = slab_capacity (entries t) ∧ length (wheel t') = length (wheel t).

Lemma same_conf_refl t : same_conf t t.
Proof. done. Qed.
Lemma same_conf_trans t1 t2 t3 : same_conf t1 t2 → same_conf t2 t3 → same_conf t1 t3.
Proof. unfold same_conf. intros (?&?&?&?&?&?) (?&?&?&?&?&?). split_and!; congruence. Qed.
Lemma same_rest_conf t t' : same_rest t t' → same_conf t t'.
Proof.
  intros Hr. pose proof (same_rest_length _ _ Hr). destruct Hr as (?&?&?&?&?&?). split_and!; done.
Qed.
Lemma same_conf_slot_for t t' k : same_conf t t' → slot_for t' k = slot_for t k.
Proof. intros (_&_&Hm&_). unfold slot_for. by rewrite Hm. Qed.

(** Only [next_tick] values of slots, the tick and the cursor may change here. *)
Definition same_lists t t' : Prop :=
  same_conf t t' ∧ contents t' = contents t ∧ (w_head <$> wheel t') = (w_head <$> wheel t).

Lemma wheel_inv_same_lists t t' ls : wheel_inv t ls → same_lists t t' → wheel_inv t' ls.
Proof.
  intros Hi [(?&?&Hm&?&Hcap&Hlen) [Hc Hh]].
  assert (abs t' = abs t) as Habs by (unfold abs; by rewrite Hc). split.
  - rewrite Hlen. apply (wi_pow _ _ Hi).
  - rewrite Hm, Hlen. apply (wi_mask _ _ Hi).
  - rewrite Hlen. apply (wi_len _ _ Hi).
  - intros i we l Hwe Hl. rewrite Hc.
    pose proof (f_equal (.!! i) Hh) as Hi'. cbv beta in Hi'. rewrite !list_lookup_fmap, Hwe in Hi'.
    destruct (wheel t !! i) as [we'|] eqn:E; [|done]. cbn in Hi'. injection Hi' as ->. by eapply wi_slot.
  - intros i l x Hl. rewrite Habs. setoid_rewrite (same_conf_slot_for t t'); [|done]. by apply (wi_mem _ _ Hi).
  - intros x v. rewrite Habs. apply (wi_tok _ _ Hi).
  - rewrite Hcap. apply (wi_cap _ _ Hi).
Qed.

Lemma same_lists_put t i we n :
  wheel t !! i = Some we → same_lists t (set_wheel t (<[i := mkWheelEntry n (w_head we)]> (wheel t))).
Proof.
  intros Hwe. split; [|split; [done|]].
  - split_and!; try done. apply length_insert.
  - cbn. rewrite list_fmap_insert. apply list_insert_id. by rewrite list_lookup_fmap, Hwe.
Qed.

Lemma same_lists_trans t1 t2 t3 : same_lists t1 t2 → same_lists t2 t3 → same_lists t1 t3.
Proof.
  intros (? & ? & ?) (? & ? & ?). split; [by eapply same_conf_trans|]. split; congruence.
Qed.

Lemma same_lists_abs t t' : same_lists t t' → abs t' = abs t.
Proof. intros (_ & Hc & _). unfold abs. by rewrite Hc. Qed.

(** ** The three kinds of iterations *)

(** Nothing is left in the current slot: go to the next tick. *)
Lemma poll_iter_advance t ls pre :
  wheel_inv t ls → cursor_at t ls pre [] → bounds_at t pre → tick t < U64_MAX →
  ∃ t' l, poll_iter t = Done (inl t') ∧ tick t' = tick t + 1 ∧ same_lists t t' ∧
    cursor_at t' ls [] l ∧ bounds_full t'.
Proof.
  intros Hi (Hu & Hl & Hh & Hdue) Hb Hlt. apply opt_None in Hh.
  unfold poll_iter. rewrite decide_True by done. unfold add64.
  replace (tick t + 1 <=? U64_MAX) with true by lia. cbn [mbind outcome_bind].
  set (t1 := set_tick t (tick t + 1)).
  destruct (wheel_at_slot t ls (tick t + 1) Hi) as (we & l & Hwe & Hlk & Hd).
  change (slot_for t1 (tick t1)) with (slot_for t (tick t + 1)).
  rewrite (wheel_at_ok t1 _ we Hwe). cbn [mbind outcome_bind].
  assert (bounds_full t) as Hbf.
  { intros x k st w Hx Hw. eapply Hb; eauto. intros Heq.
    assert (x ∈ pre ++ []) as Hin; [|by rewrite app_nil_r in Hin].
    apply (wi_mem _ _ Hi _ _ _ Hl). eauto. }
  assert (cursor_at (set_next t1 (w_head we)) ls [] l) as Hcur.
  { unfold cursor_at. cbn. unfold is_u64 in *. split; [lia|]. split; [done|].
    split; [by rewrite (dlist_hd _ _ _ _ _ Hd)|].
    intros x k st Hx. destruct (Hdue x k st Hx) as [? Hn]. split.
    - destruct (decide (k = tick t)) as [->|]; [|lia]. by pose proof (not_elem_of_nil _ (Hn eq_refl)).
    - intros ->. destruct (wi_all _ _ _ _ _ Hi Hx) as (l' & Hl' & ?). congruence. }
  change (next (set_next t1 (w_head we))) with (w_head we).
  destruct (decide (w_head we = EMPTY)) as [He|He].
  - rewrite wheel_put_ok by (by eapply lookup_lt_Some). cbn [mbind outcome_bind].
    exists (set_wheel (set_next t1 (w_head we)) (<[slot_for t (tick t + 1) := mkWheelEntry TICK_MAX (w_head we)]> (wheel t))), l.
    split; [done|]. split; [done|]. split; [|split; [done|]].
    + by apply (same_lists_put (set_next t1 (w_head we)) _ we TICK_MAX).
    + intros x k st w Hx Hw. cbn in Hw.
      destruct (decide (slot_for t (tick t + 1) = slot_for t k)) as [Heq|Hne].
      * exfalso. assert (x ∈ l) as Hin by (apply (wi_mem _ _ Hi _ _ _ Hlk); exists k, st; done).
        pose proof (dlist_hd _ _ _ _ _ Hd) as Hhd. rewrite He in Hhd. by destruct l; [set_solver|].
      * rewrite list_lookup_insert_ne in Hw by done. eapply Hbf; eauto.
  - exists (set_next t1 (w_head we)), l. done.
Qed.

(** The wheel after the reset that starts the scan of a slot. *)
Lemma poll_iter_reset t ls pre x suf :
  wheel_inv t ls → cursor_at t ls pre (x :: suf) → bounds_at t pre →
  ∃ we0 t' we, wheel_at t (slot_for t (tick t)) = Done we0 ∧
    (if decide (x = w_head we0)
     then wheel_put t (slot_for t (tick t)) (mkWheelEntry TICK_MAX (w_head we0)) else Done t) = Done t' ∧
    same_lists t t' ∧ tick t' = tick t ∧ next t' = next t ∧ bounds_at t' pre ∧
    wheel t' !! slot_for t (tick t) = Some we.
Proof.
  intros Hi (Hu & Hl & Hh & Hdue) Hb.
  destruct (wheel_at_slot t ls (tick t) Hi) as (we & l & Hwe & Hlk & Hd).
  assert (l = pre ++ x :: suf) as -> by congruence.
  cbn in Hh. apply opt_Some in Hh as [Hnx Hxe]. exists we.
  rewrite (wheel_at_ok _ _ _ Hwe). destruct (decide (x = w_head we)) as [Heq|Hne].
  - assert (pre = []) as ->.
    { pose proof (dlist_hd _ _ _ _ _ Hd) as Hhd. rewrite <- Heq, opt_ne in Hhd by done.
      destruct pre as [|y pre]; [done|]. cbn in Hhd. injection Hhd as <-.
      pose proof (dlist_NoDup _ _ _ _ _ Hd) as Hnd. cbn in Hnd. apply NoDup_cons in Hnd as [Hn _]. set_solver. }
    rewrite wheel_put_ok by (by eapply lookup_lt_Some).
    eexists _, _. split; [done|]. split; [done|]. split; [by apply same_lists_put|]. split; [done|]. split; [done|]. split.
    + intros y k st w Hy Hw Hin. cbn in Hw.
      destruct (decide (slot_for t (tick t) = slot_for t k)) as [Hs|Hs].
      * exfalso. by apply (not_elem_of_nil y), Hin.
      * rewrite list_lookup_insert_ne in Hw by done. eapply Hb; eauto.
    + cbn. by rewrite list_lookup_insert_eq by (by eapply lookup_lt_Some).
  - exists t, we. done.
Qed.

Lemma cursor_at_same_lists t t' ls pre suf :
  cursor_at t ls pre suf → same_lists t t' → tick t' = tick t → next t' = next t →
  cursor_at t' ls pre suf.
Proof.
  intros (Hu & Hl & Hh & Hdue) Hs Ht Hn. unfold cursor_at.
  by rewrite Ht, Hn, (same_lists_abs t t'), (same_conf_slot_for t t') by (done || apply Hs).
Qed.

(** The entry under the cursor is not due: remember its tick and pass it. *)
Lemma poll_iter_skip t ls pre x suf k st :
  wheel_inv t ls → cursor_at t ls pre (x :: suf) → bounds_at t pre →
  abs t !! x = Some (k, st) → tick t < k →
  ∃ t', poll_iter t = Done (inl t') ∧ tick t' = tick t ∧ same_lists t t' ∧
    cursor_at t' ls (pre ++ [x]) suf ∧ bounds_at t' (pre ++ [x]).
Proof.
  intros Hi Hc Hb Hx Hk.
  destruct (poll_iter_reset t ls pre x suf Hi Hc Hb) as (we0 & t1 & we & E1 & E2 & Hs1 & Ht1 & Hn1 & Hb1 & Hwe).
  pose proof (wheel_inv_same_lists _ _ _ Hi Hs1) as Hi1.
  pose proof (cursor_at_same_lists _ _ _ _ _ Hc Hs1 Ht1 Hn1) as (Hu & Hl & Hh & Hdue).
  destruct Hc as (_ & _ & Hh0 & _). cbn in Hh0. apply opt_Some in Hh0 as [Hnx Hxe].
  apply abs_lookup in Hx as (e & He & Hke & Hste).
  assert (contents t1 !! x = Some e) as He1 by (destruct Hs1 as (_ & -> & _); done).
  unfold poll_iter. rewrite Hnx, decide_False by done. rewrite E1. cbn [mbind outcome_bind].
  rewrite E2. cbn [mbind outcome_bind]. rewrite (entry_at_ok _ _ _ He1). cbn [mbind outcome_bind].
  rewrite Hke, Ht1. replace (k <=? tick t) with false by lia.
  rewrite (wheel_at_ok _ _ _ Hwe). cbn [mbind outcome_bind].
  rewrite wheel_put_ok by (by eapply lookup_lt_Some). cbn [mbind outcome_bind].
  set (w2 := <[_ := _]> (wheel t1)). set (t2 := set_next (set_wheel t1 w2) (l_next (e_links e))).
  assert (same_lists t1 t2) as Hs2 by (by apply (same_lists_put t1)).
  assert (∀ q, slot_for t2 q = slot_for t q) as Hsf by (intros q; apply (same_conf_slot_for t t1), Hs1).
  assert (abs t2 !! x = Some (k, st)) as Hx by (apply abs_lookup; eauto).
  exists t2. split; [done|]. split; [done|]. split; [by eapply same_lists_trans|]. split.
  - unfold cursor_at. rewrite Hsf. change (tick t2) with (tick t1). rewrite (same_conf_slot_for t t1) in Hl by apply Hs1.
    split; [done|]. split; [by rewrite <- app_assoc|]. split.
    + destruct (slot_cell _ _ _ _ _ _ _ Hi1 Hl He1) as [<- _]. done.
    + intros y k' st' Hy. destruct (Hdue y k' st' Hy) as [? Hin]. split; [done|]. intros Hk'.
      specialize (Hin Hk'). apply elem_of_cons in Hin as [->|?]; [|done].
      assert (k' = k) by congruence. lia.
  - intros y k' st' w Hy Hw Hin. rewrite !Hsf in Hin. change (tick t2) with (tick t1) in Hin.
    rewrite Ht1 in Hin. rewrite Hsf in Hw. cbn in Hw. subst w2.
    destruct (decide (slot_for t (tick t) = slot_for t k')) as [Heq|Hne].
    + rewrite Heq, list_lookup_insert_eq in Hw by (rewrite <- Heq; by eapply lookup_lt_Some).
      injection Hw as <-. cbn. specialize (Hin (eq_sym Heq)). apply elem_of_app in Hin as [Hin|Hin].
      * pose proof (Hb1 y k' st' we Hy) as Hle. rewrite (same_conf_slot_for t t1), <- Heq in Hle by apply Hs1.
        specialize (Hle Hwe ltac:(auto)). lia.
      * apply list_elem_of_singleton in Hin as ->. assert (k' = k) as -> by congruence. lia.
    + rewrite list_lookup_insert_ne in Hw by done. eapply (Hb1 y k' st' w Hy).
      * by rewrite (same_conf_slot_for t t1) by apply Hs1.
      * rewrite Ht1, !(same_conf_slot_for t t1) by apply Hs1. intros Heq. by destruct Hne.
Qed.

(** The entry under the cursor is due: it is removed and returned. *)
Lemma poll_iter_fire t ls pre x suf st :
  wheel_inv t ls → cursor_at t ls pre (x :: suf) → bounds_at t pre →
  abs t !! x = Some (tick t, st) →
  ∃ t', poll_iter t = Done (inr (Some st, t')) ∧ tick t' = tick t ∧ same_conf t t' ∧
    abs t' = delete x (abs t) ∧ timer_inv t'.
Proof.
  intros Hi Hc Hb Hx.
  destruct (poll_iter_reset t ls pre x suf Hi Hc Hb) as (we0 & t1 & we & E1 & E2 & Hs1 & Ht1 & Hn1 & Hb1 & Hwe).
  pose proof (wheel_inv_same_lists _ _ _ Hi Hs1) as Hi1.
  pose proof (cursor_at_same_lists _ _ _ _ _ Hc Hs1 Ht1 Hn1) as Hc1.
  destruct Hc as (_ & Hl0 & Hh0 & _). cbn in Hh0. apply opt_Some in Hh0 as [Hnx Hxe].
  apply abs_lookup in Hx as (e & He & Hke & Hste).
  assert (contents t1 !! x = Some e) as He1 by (destruct Hs1 as (_ & -> & _); done).
  unfold poll_iter. rewrite Hnx, decide_False by done. rewrite E1. cbn [mbind outcome_bind].
  rewrite E2. cbn [mbind outcome_bind]. rewrite (entry_at_ok _ _ _ He1). cbn [mbind outcome_bind].
  rewrite Hke, Ht1, Z.leb_refl.
  assert (ls !! slot_for t1 (l_tick (e_links e)) = Some (pre ++ x :: suf)) as Hl1
    by (rewrite Hke, (same_conf_slot_for t t1) by apply Hs1; done).
  destruct (wheel_inv_split _ _ _ _ x Hi Hl0 ltac:(set_solver)) as (l1 & l2 & Hsp & Hxn).
  rewrite Hsp in Hl1.
  destruct (unlink_inv _ _ _ _ _ _ Hi1 He1 Hl1 Hxn) as (t2 & t' & E3 & E4 & Hi' & Ha' & Hn' & Ht' & Hr').
  rewrite E3. cbn [mbind outcome_bind]. rewrite E4, Hste.
  eexists. split; [done|]. split; [congruence|]. split.
  { eapply same_conf_trans; [apply Hs1|by apply same_rest_conf]. }
  rewrite Ha', (same_lists_abs t t1) by done. split; [done|].
  destruct (unlink_cursor t1 t' ls pre (x :: suf) x l1 l2 _ e Hi1 Hc1 Hl1 Hxn He1 Ha' Ht') as (pre' & suf' & Hc' & Hp1 & Hp2);
    [apply Hr'|done|].
  exists (<[slot_for t1 (l_tick (e_links e)) := l1 ++ l2]> ls), pre', suf'.
  split; [done|]. split; [done|]. by eapply unlink_bounds.
Qed.

(** ** The loop *)

(** The loop ran through: the tick is past the target, nothing was due. *)
Definition poll_idle (target : Z) t t' : Prop :=
  tick t' = target + 1 ∧ same_conf t t' ∧ abs t' = abs t ∧ timer_inv t' ∧ bounds_full t'.

(** The loop returned: an entry with the least tick of all was removed. *)
Definition poll_fired (target : Z) t (o : option T) t' : Prop :=
  ∃ x k st, abs t !! x = Some (k, st) ∧ o = Some st ∧ tick t <= k <= target ∧ tick t' = k ∧
    (∀ y k' st', abs t !! y = Some (k', st') → k <= k') ∧
    abs t' = delete x (abs t) ∧ same_conf t t' ∧ timer_inv t'.

Definition poll_measure (target : Z) t (suf : list Token) : Z :=
  (target + 1 - tick t) * (Z.of_nat (size (abs t)) + 1) + Z.of_nat (length suf).

Lemma poll_idle_trans target t t1 t' :
  same_conf t t1 → abs t1 = abs t → poll_idle target t1 t' → poll_idle target t t'.
Proof.
  intros Hc Ha (Ht & Hc' & Ha' & Hinv & Hb). split; [done|].
  split; [by eapply same_conf_trans|]. split; [congruence|done].
Qed.

Lemma poll_fired_trans target t t1 o t' :
  same_conf t t1 → abs t1 = abs t → tick t <= tick t1 →
  poll_fired target t1 o t' → poll_fired target t o t'.
Proof.
  intros Hc Ha Ht (x & k & st & Hx & -> & Hk & Htk & Hmin & Ha' & Hc' & Hinv).
  rewrite Ha in *. exists x, k, st. do 2 (split; [done|]). split; [lia|]. do 3 (split; [done|]).
  split; [by eapply same_conf_trans|done].
Qed.

Lemma poll_loop_ok fuel target t ls pre suf :
  wheel_inv t ls → cursor_at t ls pre suf → bounds_at t pre →
  tick t <= target + 1 → target < U64_MAX →
  (tick t <= target ∨ bounds_full t) →
  poll_measure target t suf < Z.of_nat fuel →
  ∃ r, poll_loop fuel target t = Done r ∧
    match r with inl t' => poll_idle target t t' | inr (o, t') => poll_fired target t o t' end.
Proof.
  revert t ls pre suf. induction fuel as [|fuel IH]; intros t ls pre suf Hi Hc Hb Ht HM Hbf Hf.
  { exfalso. unfold poll_measure in Hf. nia. }
  cbn [poll_loop]. destruct (target <? tick t) eqn:Hlt; zbool.
  { exists (inl t). split; [done|]. destruct Hbf as [|Hbf]; [lia|].
    split; [lia|]. do 2 (split; [done|]). split; [by exists ls, pre, suf|done]. }
  destruct suf as [|x suf].
  - destruct (poll_iter_advance t ls pre Hi Hc Hb ltac:(lia)) as (t1 & l & -> & Ht1 & Hs1 & Hc1 & Hb1).
    cbn [mbind outcome_bind]. pose proof (wheel_inv_same_lists _ _ _ Hi Hs1) as Hi1.
    pose proof (same_lists_abs _ _ Hs1) as Ha1.
    assert (length l ≤ size (abs t1))%nat as Hlen.
    { destruct Hc1 as (_ & Hl & _). apply (slot_length_le t1 ls _ _ Hi1 Hl). }
    destruct (IH t1 ls [] l Hi1 Hc1) as (r & -> & Hr); [|lia|done|auto|..].
    + intros y k st we Hy Hw _. by eapply Hb1.
    + unfold poll_measure in *. rewrite Ha1, Ht1 in *. cbn [length] in Hf. nia.
    + exists r. split; [done|]. destruct r as [t'|[o t']].
      * eapply poll_idle_trans; [apply Hs1|done|done].
      * eapply poll_fired_trans; [apply Hs1|done|lia|done].
  - assert (∃ k st, abs t !! x = Some (k, st)) as (k & st & Hx).
    { destruct Hc as (_ & Hl & _). destruct (wi_in t ls _ _ x Hi Hl) as (k & st & ? & _); [set_solver|eauto]. }
    assert (tick t <= k) as Hk by (destruct Hc as (_ & _ & _ & Hd); apply (Hd x k st Hx)).
    destruct (decide (k = tick t)) as [->|Hne].
    + destruct (poll_iter_fire t ls pre x suf st Hi Hc Hb Hx) as (t' & -> & Ht' & Hcf & Ha & Hinv).
      cbn [mbind outcome_bind]. eexists. split; [done|].
      exists x, (tick t), st. do 2 (split; [done|]). split; [lia|]. split; [done|]. split; [|done].
      intros y k' st' Hy. destruct Hc as (_ & _ & _ & Hd). apply (Hd y k' st' Hy).
    + destruct (poll_iter_skip t ls pre x suf k st Hi Hc Hb Hx ltac:(lia)) as (t1 & -> & Ht1 & Hs1 & Hc1 & Hb1).
      cbn [mbind outcome_bind]. pose proof (wheel_inv_same_lists _ _ _ Hi Hs1) as Hi1.
      pose proof (same_lists_abs _ _ Hs1) as Ha1.
      destruct (IH t1 ls (pre ++ [x]) suf Hi1 Hc1 Hb1) as (r & -> & Hr); [lia|done|left; lia|..].
      * unfold poll_measure in *. rewrite Ha1, Ht1. cbn [length] in Hf. lia.
      * exists r. split; [done|]. destruct r as [t'|[o t']].
        -- eapply poll_idle_trans; [apply Hs1|done|done].
        -- eapply poll_fired_trans; [apply Hs1|done|lia|done].
Qed.

(** The target [poll_to] works with: never in the past. *)
Definition poll_target (target : Z) t : Z := if target <? tick t then tick t else target.

Lemma poll_loop_total target t :
  timer_inv t → tick t <= target < U64_MAX →
  ∃ r, poll_loop (poll_fuel target t) target t = Done r ∧
    match r with inl t' => poll_idle target t t' | inr (o, t') => poll_fired target t o t' end.
Proof.
  intros (ls & pre & suf & Hi & Hc & Hb) Ht. apply (poll_loop_ok _ _ _ ls pre suf); auto; try lia.
  unfold poll_fuel. rewrite slab_len_size. fold (contents t). rewrite <- size_abs.
  assert (length suf ≤ size (abs t))%nat.
  { destruct Hc as (_ & Hl & _). pose proof (slot_length_le t ls _ _ Hi Hl) as Hle.
    rewrite length_app in Hle. lia. }
  unfold poll_measure. nia.
Qed.
End poll.
