(* ===== verification/TimerSpec.v ===== *)
(** * What the timer promises

    An abstract timer is a clock position and a finite map from tokens to
    (tick, state).  [spec_step] says what the three operations of [timer.rs] do
    to it; the concrete operations refine it (they never panic, never run out
    of fuel, and their results are those the specification allows). *)

From stdpp Require Import sorting.
From S2P Require Import Prelude Event Convert DList Iface Timer TimerInv TimerOps TimerPoll.

(** ** Durations to ticks *)

(** Nearest multiple of the tick length, half a tick rounds up. *)
Definition tick_of (tick_ms : Z) (d : Duration) : Z :=
  saturating_add (Z.min U64_MAX (ceil_div (total_nanos d) NANOS_PER_MILLI)) (tick_ms / 2) / tick_ms.

Lemma duration_to_tick_ok d ms :
  Duration_wf d → 0 < ms → duration_to_tick d ms = Done (tick_of ms d).
Proof.
  intros Hd Hms. unfold duration_to_tick. rewrite millis_value by done. cbn [mbind outcome_bind].
  unfold div64. by replace (ms =? 0) with false by lia.
Qed.

Lemma tick_of_u64 d ms : Duration_wf d → 0 < ms → is_u64 (tick_of ms d).
Proof.
  intros Hd Hms. destruct (millis d) as [m| |] eqn:Hm; [|by rewrite millis_value in Hm by done..].
  pose proof (millis_u64 d m Hd Hm) as Hu. rewrite millis_value in Hm by done. injection Hm as Hm.
  unfold tick_of. rewrite Hm. unfold saturating_add, is_u64 in *.
  assert (0 <= ms / 2) by (apply Z.div_pos; lia).
  split; [apply Z.div_pos; lia|]. apply Z.div_le_upper_bound; [lia|]. nia.
Qed.

(** ** Ticks as machine words

    Ticks of entries and the [next_tick] of slots are positive: 0 is the value
    that stops the wakeup thread. *)

Definition is_tick (k : Z) : Prop := 1 <= k <= U64_MAX.

Section ticks.
Context {S : Type → Type} {slab_ops : SlabOps S} {slab_spec : SlabSpec S} {slab_laws : SlabLaws S}.
Context {C : Type → Type} {cell_ops : LazyCellOps C}.
Context {T R H : Type}.
Implicit Types t : Timer S C T R H.

Definition wheel_ticks t : Prop := Forall is_tick (w_next_tick <$> wheel t).
Definition entry_ticks t : Prop := ∀ x k st, abs t !! x = Some (k, st) → is_tick k.

Lemma TICK_MAX_tick : is_tick TICK_MAX.
Proof. unfold is_tick, TICK_MAX, U64_MAX. lia. Qed.

Lemma wheel_put_ticks t i we t' :
  wheel_put t i we = Done t' → wheel_ticks t → is_tick (w_next_tick we) → wheel_ticks t' ∧ entries t' = entries t.
Proof.
  unfold wheel_put, wheel_ticks. intros Hp Ht Hwe. inv_done. cbn. split; [|done].
  rewrite list_fmap_insert. by apply Forall_insert.
Qed.

Lemma wheel_at_ticks t i we : wheel_at t i = Done we → wheel_ticks t → is_tick (w_next_tick we).
Proof.
  unfold wheel_at, wheel_ticks. destruct (wheel t !! i) eqn:E; cbn; [|done]. intros [= <-] Ht.
  rewrite Forall_lookup in Ht. apply (Ht i). by rewrite list_lookup_fmap, E.
Qed.

Lemma unlink_ticks l x t t' : unlink l x t = Done t' → wheel_ticks t → wheel_ticks t'.
Proof.
  intros Hu Ht. unfold unlink, entry_mut in Hu.
  assert (∀ t1 : Timer S C T R H, wheel_ticks t1 → ∀ n, wheel_ticks (set_next t1 n)) as Hn by done.
  inv_done; repeat case_decide; eauto using Hn;
    match goal with
    | Hp : wheel_put _ _ _ = Done _, Ha : wheel_at _ _ = Done _ |- _ =>
        eapply (proj1 (wheel_put_ticks _ _ _ _ Hp Ht (wheel_at_ticks _ _ _ Ha Ht)))
    end.
Qed.

Lemma poll_iter_ticks t r :
  poll_iter t = Done r → wheel_ticks t → entry_ticks t →
  match r with inl t' => wheel_ticks t' ∧ entries t' = entries t | inr (_, t') => wheel_ticks t' end.
Proof.
  intros Hp Ht He. unfold poll_iter in Hp. pose proof TICK_MAX_tick as HM.
  destruct (decide (next t = EMPTY)).
  - inv_done; [|done]. destruct (wheel_put_ticks _ _ _ _ Ha1 Ht HM) as [? ->]. done.
  - apply bind_done in Hp as (we & Hwe & Hp). apply bind_done in Hp as (t0 & Ht0 & Hp).
    assert (wheel_ticks t0 ∧ entries t0 = entries t) as [Hw0 He0].
    { clear Hp. inv_done; [by eapply wheel_put_ticks|done]. }
    clear Ht0. inv_done.
    + unfold remove_entry. destruct (slab_remove _ _). exact (unlink_ticks _ _ _ _ Ha0 Hw0).
    + destruct (wheel_put_ticks _ _ _ _ Ha1 Hw0) as [Hw Hen]; [|split; [done|cbn; congruence]].
      cbn. pose proof (wheel_at_ticks _ _ _ Ha0 Hw0) as Hu.
      unfold entry_at in Ha. rewrite He0, slab_get_map in Ha. fold (contents t) in Ha.
      destruct (contents t !! next t) as [e|] eqn:E; [|done]. injection Ha as <-.
      pose proof (He _ _ _ (proj2 (abs_lookup t _ _ _) (ex_intro _ e (conj E (conj eq_refl eq_refl))))).
      unfold is_tick in *. lia.
Qed.

Lemma poll_loop_ticks fuel target t r :
  poll_loop fuel target t = Done r → wheel_ticks t → entry_ticks t →
  wheel_ticks (match r with inl t' => t' | inr (_, t') => t' end).
Proof.
  revert t. induction fuel as [|fuel IH]; [done|]. intros t Hr Ht He. cbn [poll_loop] in Hr.
  inv_done; [done|]. pose proof (poll_iter_ticks _ _ Ha Ht He) as Hi. destruct a as [t1|[o t1]].
  - destruct Hi as [Ht1 He1]. apply (IH t1); [done|done|]. unfold entry_ticks, abs, contents. by rewrite He1.
  - by injection Hr as <-.
Qed.

(** ** Well-formed timers, and the operations on them *)

Record timer_good t : Prop := {
  tg_inv : timer_inv t;
  tg_ms : 0 < tick_ms t;
  tg_wheel : wheel_ticks t;
  tg_entries : entry_ticks t }.

Lemma pending_u64 t x k st : timer_inv t → abs t !! x = Some (k, st) → tick t <= k <= U64_MAX ∧ is_u64 k.
Proof.
  intros (ls & pre & suf & _ & (Hu & _ & _ & Hd) & _) Hx. destruct (Hd x k st Hx) as [Hk _].
  unfold is_u64 in *. lia.
Qed.

Lemma timer_tick_u64 t : timer_inv t → is_u64 (tick t).
Proof. by intros (ls & pre & suf & _ & (Hu & _) & _). Qed.

Lemma entry_ticks_delete t t' x : abs t' = delete x (abs t) → entry_ticks t → entry_ticks t'.
Proof. intros Ha He y k st. rewrite Ha. intros [_ Hy]%lookup_delete_Some. by eapply He. Qed.

Lemma insert_entry_good k st t :
  timer_good t → tick t < k <= U64_MAX → Z.of_nat (size (abs t)) < slab_capacity (entries t) →
  ∃ tok t', insert_entry k st t = Done (Ok (mkTimeout tok k), t') ∧ timer_good t' ∧ same_conf t t' ∧
    tick t' = tick t ∧ abs t !! tok = None ∧ abs t' = <[tok := (k, st)]> (abs t).
Proof.
  intros [Hinv Hms Hw He] Hk Hsz. pose proof Hinv as (ls & pre & suf & Hi & Hc & Hb).
  pose proof (timer_tick_u64 t Hinv) as Htu.
  destruct (insert_entry_ok k st t ls Hi Hsz)
    as (tok & t' & we & l & E & Hfr & Ha & Hwe & Hl & Hwh & Hi' & Htk & Hn & Hmst & Hst & Hm & Hin & Hcap).
  exists tok, t'. split; [done|]. split; [|split].
  - split.
    + destruct (insert_cursor t t' ls pre suf tok l k st Hi Hc Hk Hl Hfr Ha Htk Hn Hm) as (pre' & Hc' & Hp).
      eexists _, pre', suf. split; [done|]. split; [done|].
      eapply insert_bounds; eauto. intros x Hx Hne. subst pre'. case_decide; set_solver.
    + by rewrite Hmst.
    + unfold wheel_ticks in *. rewrite Hwh, list_fmap_insert. apply Forall_insert; [done|]. cbn.
      pose proof (wheel_at_ticks _ _ _ (wheel_at_ok _ _ _ Hwe) Hw). unfold is_tick, is_u64 in *. lia.
    + intros x k' st'. rewrite Ha. intros [[_ [= <- _]]|[_ Hx]]%lookup_insert_Some; [|by eapply He].
      unfold is_tick, is_u64 in *. lia.
  - do 5 (split; [done|]). by rewrite Hwh, length_insert.
  - done.
Qed.

Lemma insert_entry_full_good k st t :
  timer_good t → slab_capacity (entries t) <= Z.of_nat (size (abs t)) →
  insert_entry k st t = Done (Err TimerError_overflow, t).
Proof. intros [(ls & pre & suf & Hi & _) _ _ _] Hsz. by apply (insert_entry_full k st t ls). Qed.

Lemma cancel_no_match h t :
  (∀ st, abs t !! to_token h ≠ Some (to_tick h, st)) → cancel_timeout h t = Done (None, t).
Proof.
  intros Hne. unfold cancel_timeout. rewrite slab_get_map. fold (contents t).
  destruct (contents t !! to_token h) as [e|] eqn:He; [|done].
  rewrite decide_True; [done|]. intros Heq. apply (Hne (e_state e)), abs_lookup. eauto.
Qed.

Lemma cancel_match h t st :
  timer_good t → abs t !! to_token h = Some (to_tick h, st) →
  ∃ t', cancel_timeout h t = Done (Some st, t') ∧ timer_good t' ∧ same_conf t t' ∧
    tick t' = tick t ∧ abs t' = delete (to_token h) (abs t).
Proof.
  intros [Hinv Hms Hw Hen] Hx. pose proof Hinv as (ls & pre & suf & Hi & Hc & Hb).
  destruct (wi_all _ _ _ _ _ Hi Hx) as (l & Hl & Hin).
  apply abs_lookup in Hx as (e & He & Hk & Hst). rewrite <- Hk in Hl.
  unfold cancel_timeout. rewrite slab_get_map. fold (contents t). rewrite He, decide_False by naive_solver.
  destruct (wheel_inv_split _ _ _ _ _ Hi Hl Hin) as (l1 & l2 & -> & Hxn).
  destruct (unlink_inv _ _ _ _ _ _ Hi He Hl Hxn) as (t1 & t' & E1 & E2 & Hi' & Ha & Hn & Ht & Hr).
  rewrite E1. cbn [mbind outcome_bind]. rewrite E2, Hst. exists t'. split; [done|].
  split; [|split; [by apply same_rest_conf|done]]. split.
  - destruct (unlink_cursor t t' ls pre suf _ l1 l2 _ e Hi Hc Hl Hxn He Ha Ht) as (pre' & suf' & Hc' & Hp & _);
      [apply Hr|done|].
    eexists _, pre', suf'. split; [done|]. split; [done|]. by eapply unlink_bounds.
  - destruct Hr as (-> & _). done.
  - unfold wheel_ticks. destruct Hr as (_ & _ & _ & _ & _ & ->). done.
  - by eapply entry_ticks_delete.
Qed.

Lemma poll_loop_good M t :
  timer_good t → tick t <= M < U64_MAX →
  ∃ r, poll_loop (poll_fuel M t) M t = Done r ∧
    match r with
    | inl t' => poll_idle M t t' ∧ timer_good t'
    | inr (o, t') => poll_fired M t o t' ∧ timer_good t'
    end.
Proof.
  intros [Hinv Hms Hw He] HM. destruct (poll_loop_total M t Hinv HM) as (r & E & Hr).
  exists r. split; [done|]. pose proof (poll_loop_ticks _ _ _ _ E Hw He) as Hw'.
  destruct r as [t'|[o t']]; (split; [done|]).
  - destruct Hr as (Ht & (Hmst & _) & Ha & Hinv' & _). split; [done|by rewrite Hmst|done|].
    unfold entry_ticks. by rewrite Ha.
  - destruct Hr as (x & k & st & _ & _ & _ & _ & _ & Ha & (Hmst & _) & Hinv').
    split; [done|by rewrite Hmst|done|by eapply entry_ticks_delete].
Qed.

Lemma foldr_min_le x (l : list Z) y : y ∈ x :: l → foldr Z.min x l <= y.
Proof.
  induction l as [|z l IH]; cbn; intros Hy.
  - apply list_elem_of_singleton in Hy as ->. lia.
  - assert (y = z ∨ y ∈ x :: l) as [->|Hy'] by set_solver; [lia|]. specialize (IH Hy'). lia.
Qed.

Lemma foldr_min_in x (l : list Z) : foldr Z.min x l ∈ x :: l.
Proof.
  induction l as [|z l IH]; cbn; [set_solver|].
  destruct (Z.min_dec z (foldr Z.min x l)) as [->| ->]; set_solver.
Qed.

(** After an idle poll [next_tick] is a lower bound of all pending ticks. *)
Lemma next_tick_good t :
  timer_good t → bounds_full t →
  ∃ n, next_tick t = Done (Some n) ∧ is_tick n ∧ ∀ x k st, abs t !! x = Some (k, st) → n <= k.
Proof.
  intros [Hinv _ Hu _] Hb. pose proof Hinv as (ls & pre & suf & Hi & (Htu & Hl & Hh & Hd) & _).
  destruct (w_next_tick <$> wheel t) as [|n0 ns] eqn:Ew.
  { exfalso. destruct (wheel_at_slot t ls 0 Hi) as (we & _ & Hwe & _).
    apply (f_equal (.!! slot_for t 0)) in Ew. cbv beta in Ew. by rewrite list_lookup_fmap, Hwe in Ew. }
  assert (is_tick (foldr Z.min n0 ns)) as Hlu.
  { pose proof Hu as Hu'. unfold wheel_ticks in Hu'. rewrite Ew, Forall_forall in Hu'. apply Hu', foldr_min_in. }
  assert (∀ x k st, abs t !! x = Some (k, st) → foldr Z.min n0 ns <= k) as Hleast.
  { intros x k st Hx. destruct (wheel_at_slot t ls k Hi) as (we & _ & Hwe & _).
    etransitivity; [|exact (Hb x k st we Hx Hwe)]. apply foldr_min_le. rewrite <- Ew.
    apply list_elem_of_fmap. exists we. split; [done|]. by eapply list_elem_of_lookup_2. }
  unfold next_tick. rewrite Ew. destruct (decide (next t ≠ EMPTY)) as [Hne|]; [|by eauto].
  rewrite (opt_ne _ Hne) in Hh. symmetry in Hh. apply head_elem in Hh.
  destruct (wi_in t ls _ _ (next t) Hi Hl) as (k & st & Hx & _); [set_solver|].
  apply abs_lookup in Hx as (e & He & <- & _). rewrite (entry_at_ok _ _ _ He). cbn [mbind outcome_bind].
  destruct (wheel_at_slot t ls (l_tick (e_links e)) Hi) as (we & _ & Hwe & _).
  rewrite (wheel_at_ok _ _ _ Hwe). cbn [mbind outcome_bind].
  pose proof (wheel_at_ticks _ _ _ (wheel_at_ok _ _ _ Hwe) Hu) as Hwt.
  destruct (w_next_tick we =? tick t) eqn:Eq; zbool; [|by eauto].
  exists (tick t). split; [done|]. split; [by rewrite <- Eq|]. intros x k st' Hx. apply (Hd x k st' Hx).
Qed.
End ticks.

(** ** The abstract timer *)

Section spec.
Context {T : Type}.

Inductive Op : Type :=
  | OSetTimeoutAt (delay_from_start : Duration) (state : T)
  | OCancelTimeout (timeout : Timeout)
  | OPollTo (target_tick : Z).

Inductive Ret : Type :=
  | RTimeout (r : result TimerError Timeout)
  | RState (o : option T).

Record Spec : Type := mkSpec {
  sp_ms : Z; sp_cap : Z; sp_now : Z; sp_pending : gmap Token (Z * T) }.

(** The last tick a poll looks at. *)
Definition horizon (target now : Z) : Z := Z.max target now.

Inductive spec_step (a : Spec) : Op → Ret → Spec → Prop :=
  | spec_set d st tok k :
      Z.of_nat (size (sp_pending a)) < sp_cap a → sp_pending a !! tok = None →
      k = Z.max (tick_of (sp_ms a) d) (sp_now a + 1) →
      spec_step a (OSetTimeoutAt d st) (RTimeout (Ok (mkTimeout tok k)))
        (mkSpec (sp_ms a) (sp_cap a) (sp_now a) (<[tok := (k, st)]> (sp_pending a)))
  | spec_full d st :
      sp_cap a <= Z.of_nat (size (sp_pending a)) →
      spec_step a (OSetTimeoutAt d st) (RTimeout (Err TimerError_overflow)) a
  | spec_cancel h st :
      sp_pending a !! to_token h = Some (to_tick h, st) →
      spec_step a (OCancelTimeout h) (RState (Some st))
        (mkSpec (sp_ms a) (sp_cap a) (sp_now a) (delete (to_token h) (sp_pending a)))
  | spec_cancel_none h :
      (∀ st, sp_pending a !! to_token h ≠ Some (to_tick h, st)) →
      spec_step a (OCancelTimeout h) (RState None) a
  | spec_fire target x k st :
      sp_pending a !! x = Some (k, st) → sp_now a <= k <= horizon target (sp_now a) →
      (∀ y k' st', sp_pending a !! y = Some (k', st') → k <= k') →
      spec_step a (OPollTo target) (RState (Some st))
        (mkSpec (sp_ms a) (sp_cap a) k (delete x (sp_pending a)))
  | spec_idle target :
      (∀ y k st, sp_pending a !! y = Some (k, st) → horizon target (sp_now a) < k) →
      spec_step a (OPollTo target) (RState None)
        (mkSpec (sp_ms a) (sp_cap a) (horizon target (sp_now a) + 1) (sp_pending a)).

(** The clock of a [u64] timer must not run over. *)
Definition op_ok (bound : Z) (op : Op) : Prop :=
  match op with
  | OSetTimeoutAt d _ => Duration_wf d
  | OCancelTimeout _ => True
  | OPollTo target => target <= bound
  end.
#[global] Instance op_ok_dec b op : Decision (op_ok b op).
Proof. destruct op; cbn; apply _. Defined.
End spec.
Arguments Op T : clear implicits.
Arguments Ret T : clear implicits.
Arguments Spec T : clear implicits.

(** ** The concrete operations refine it *)

Section refine.
Context {S : Type → Type} {slab_ops : SlabOps S} {slab_spec : SlabSpec S} {slab_laws : SlabLaws S}.
Context {C : Type → Type} {cell_ops : LazyCellOps C}.
Context {T R H W : Type} {rd_ops : ReadinessOps W H} {rd_spec : ReadinessSpec W H} {rd_laws : ReadinessLaws W H}.
Implicit Types t : Timer S C T R H.
Implicit Types s : Sys S C T R H W.

Definition run_op (op : Op T) s : outcome (Ret T * Sys S C T R H W) :=
  match op with
  | OSetTimeoutAt d st => '(r, s) ← set_timeout_at d st s; Done (RTimeout r, s)
  | OCancelTimeout h => '(o, t) ← cancel_timeout h (timer s); Done (RState o, with_timer s t)
  | OPollTo target => '(o, s) ← poll_to target s; Done (RState o, s)
  end.

Fixpoint run_ops (ops : list (Op T)) s : outcome (list (Ret T) * Sys S C T R H W) :=
  match ops with
  | [] => Done ([], s)
  | op :: ops => '(r, s) ← run_op op s; '(rs, s) ← run_ops ops s; Done (r :: rs, s)
  end.

Definition handle_live s : Prop :=
  ∀ i, lazy_borrow (inner (timer s)) = Some i → rd_live (world s) (i_set_readiness i).

Definition sys_inv s : Prop := timer_good (timer s) ∧ handle_live s.

Definition spec_of s : Spec T :=
  mkSpec (tick_ms (timer s)) (slab_capacity (entries (timer s))) (tick (timer s)) (abs (timer s)).

(** What an idle poll does to the readiness and the wakeup state. *)
Definition idle_effect s s' : Prop :=
  match lazy_borrow (inner (timer s)) with
  | None => shared s' = shared s ∧ world s' = world s
  | Some i => ∃ res n, rd_set_readiness (i_set_readiness i) Ready.none (world s) = Done (res, world s') ∧
      next_tick (timer s') = Done (Some n) ∧
      (∀ x k st, abs (timer s') !! x = Some (k, st) → n <= k) ∧
      shared s' = (if wakeup_state (shared s) <=? n then shared s else mkShared n true)
  end.

Lemma handle_live_timer s t : inner t = inner (timer s) → handle_live s → handle_live (with_timer s t).
Proof. intros Hin Hl i. cbn. rewrite Hin. apply Hl. Qed.

Lemma is_tick_u64 k : is_tick k → is_u64 k.
Proof. unfold is_tick, is_u64. lia. Qed.

Lemma poll_to_ok target s : let M := horizon target (tick (timer s)) in
  sys_inv s → M < U64_MAX →
  ∃ o s', poll_to target s = Done (o, s') ∧ sys_inv s' ∧ same_conf (timer s) (timer s') ∧
    ((o = None ∧ poll_idle M (timer s) (timer s') ∧ idle_effect s s') ∨
     (poll_fired M (timer s) o (timer s') ∧ shared s' = shared s ∧ world s' = world s)).
Proof.
  intros M [Hg Hlive] HM. set (t := timer s) in *.
  assert ((if target <? tick t then tick t else target) = M) as HMe.
  { subst M. unfold horizon. destruct (target <? tick t) eqn:E; zbool; lia. }
  assert (tick t <= M) by (subst M; unfold horizon; lia).
  unfold poll_to. fold t. rewrite HMe.
  destruct (poll_loop_good M t Hg ltac:(lia)) as (r & -> & Hr). cbn [mbind outcome_bind].
  destruct r as [t'|[o t']]; destruct Hr as [Hr Hg'].
  2:{ exists o, (with_timer s t'). split; [done|].
      pose proof Hr as (x & k & st & _ & _ & _ & _ & _ & _ & Hcf & _).
      split; [split; [done|apply handle_live_timer; [apply Hcf|done]]|]. split; [done|]. by right. }
  destruct Hr as (Ht' & Hcf & Ha & Hinv' & Hbf). assert (inner t' = inner t) as Hin by apply Hcf.
  rewrite Hin. unfold idle_effect. fold t. destruct (lazy_borrow (inner t)) as [i|] eqn:Ei.
  - destruct (rd_set_ok (world s) (i_set_readiness i) Ready.none (Hlive i Ei) ltac:(done)) as (res & w' & E & _ & Hl & _).
    cbn [world with_timer]. rewrite E. cbn [mbind outcome_bind].
    destruct (next_tick_good t' Hg' Hbf) as (n & En & Hn & Hle). rewrite En. cbn [mbind outcome_bind].
    rewrite schedule_readiness_ok by (by apply is_tick_u64).
    cbn [mbind outcome_bind timer with_timer with_world]. rewrite Hin, Ei.
    eexists None, _. split; [done|]. split.
    { split; [done|]. intros j Hj. cbn in *. rewrite Hin in Hj. apply Hl, Hlive. done. }
    split; [done|]. left. do 2 (split; [done|]). exists res, n. done.
  - eexists None, _. split; [done|]. split; [split; [done|by apply handle_live_timer]|].
    split; [done|]. left. done.
Qed.

Lemma insert_step k st s :
  sys_inv s → tick (timer s) < k <= U64_MAX →
  ∃ r s', insert k st s = Done (r, s') ∧ world s' = world s ∧ sys_inv s' ∧ same_conf (timer s) (timer s') ∧
    tick (timer s') = tick (timer s) ∧
    if decide (Z.of_nat (size (abs (timer s))) < slab_capacity (entries (timer s)))
    then ∃ tok, r = Ok (mkTimeout tok k) ∧ abs (timer s) !! tok = None ∧
      abs (timer s') = <[tok := (k, st)]> (abs (timer s))
    else r = Err TimerError_overflow ∧ s' = s.
Proof.
  intros [Hg Hlive] Hk. unfold insert. pose proof (timer_tick_u64 _ (tg_inv _ Hg)) as Hu. case_decide as Hsz.
  - destruct (insert_entry_good k st (timer s) Hg Hk Hsz) as (tok & t' & -> & Hg' & Hcf & Ht & Hfr & Ha).
    cbn [mbind outcome_bind]. rewrite schedule_readiness_ok by (unfold is_u64 in *; lia).
    cbn [mbind outcome_bind]. eexists _, _. split; [done|]. split; [done|].
    split; [split; [done|by apply (handle_live_timer s t'); [apply Hcf|]]|]. eauto 10.
  - rewrite (insert_entry_full_good k st (timer s) Hg) by lia. cbn [mbind outcome_bind].
    assert (with_timer s (timer s) = s) as -> by (by destruct s).
    eexists _, s. split; [done|]. done.
Qed.

(** [set_timeout_at] inserts at the tick of the delay, or the next one. *)
Lemma set_timeout_at_insert d st s :
  sys_inv s → tick (timer s) < U64_MAX → Duration_wf d →
  let k := Z.max (tick_of (tick_ms (timer s)) d) (tick (timer s) + 1) in
  set_timeout_at d st s = insert k st s ∧ tick (timer s) < k <= U64_MAX.
Proof.
  intros Hs Hlt Hd k. pose proof Hs as [Hg _]. pose proof (tg_ms _ Hg) as Hms.
  pose proof (tick_of_u64 d _ Hd Hms) as Hku. split; [|unfold is_u64 in Hku; lia].
  unfold set_timeout_at. rewrite duration_to_tick_ok by done. cbn [mbind outcome_bind].
  destruct (_ <=? _) eqn:E; zbool.
  - unfold add64. replace (_ <=? U64_MAX) with true by lia. cbn [mbind outcome_bind].
    f_equal. subst k. lia.
  - cbn [mbind outcome_bind]. f_equal. subst k. lia.
Qed.

Lemma set_step d st s :
  sys_inv s → tick (timer s) < U64_MAX → Duration_wf d →
  ∃ r s', set_timeout_at d st s = Done (r, s') ∧ world s' = world s ∧ sys_inv s' ∧
    spec_step (spec_of s) (OSetTimeoutAt d st) (RTimeout r) (spec_of s').
Proof.
  intros Hs Hlt Hd. destruct (set_timeout_at_insert d st s Hs Hlt Hd) as [-> Hk].
  set (k := Z.max (tick_of (tick_ms (timer s)) d) (tick (timer s) + 1)) in *.
  destruct (insert_step k st s Hs Hk) as (r & s' & -> & Hw & Hs' & (Hmst & _ & _ & _ & Hcap & _) & Ht & Hcase).
  exists r, s'. do 3 (split; [done|]). unfold spec_of at 2. rewrite Hmst, Hcap, Ht. case_decide.
  - destruct Hcase as (tok & -> & Hfr & ->). by apply (spec_set (spec_of s)).
  - destruct Hcase as [-> ->]. apply (spec_full (spec_of s)). cbn. lia.
Qed.

(** Does a handle name a pending timeout? *)
Lemma handle_pending h t : (∃ st, abs t !! to_token h = Some (to_tick h, st)) ∨ ∀ st, abs t !! to_token h ≠ Some (to_tick h, st).
Proof.
  destruct (abs t !! to_token h) as [[k st]|]; [|by right].
  destruct (decide (k = to_tick h)) as [->|]; [left; eauto|right; congruence].
Qed.

(** Cancelling takes at most one entry away. *)
Lemma cancel_frame h s :
  sys_inv s →
  ∃ o t', cancel_timeout h (timer s) = Done (o, t') ∧ sys_inv (with_timer s t') ∧ same_conf (timer s) t' ∧
    tick t' = tick (timer s) ∧ abs t' ⊆ abs (timer s).
Proof.
  intros [Hg Hlive]. destruct (handle_pending h (timer s)) as [[st Hx]|Hne].
  - destruct (cancel_match h (timer s) st Hg Hx) as (t' & -> & Hg' & Hcf & Ht & Ha).
    exists (Some st), t'. split; [done|]. split; [split; [done|apply handle_live_timer; [apply Hcf|done]]|].
    split; [done|]. split; [done|]. rewrite Ha. apply delete_subseteq.
  - rewrite (cancel_no_match h _ Hne). exists None, (timer s). split; [done|]. destruct s as [t sh w].
    split; [done|]. split; [apply same_conf_refl|done].
Qed.

Lemma cancel_step h s :
  sys_inv s →
  ∃ o t', cancel_timeout h (timer s) = Done (o, t') ∧ sys_inv (with_timer s t') ∧
    spec_step (spec_of s) (OCancelTimeout h) (RState o) (spec_of (with_timer s t')).
Proof.
  intros [Hg Hlive]. destruct (handle_pending h (timer s)) as [[st Hx]|Hne].
  - destruct (cancel_match h (timer s) st Hg Hx) as (t' & -> & Hg' & Hcf & Ht & Ha).
    exists (Some st), t'. split; [done|]. split; [split; [done|apply handle_live_timer; [apply Hcf|done]]|].
    unfold spec_of at 2. cbn. destruct Hcf as (-> & _ & _ & _ & -> & _). rewrite Ha, Ht.
    by apply (spec_cancel (spec_of s)).
  - rewrite (cancel_no_match h _ Hne). exists None, (timer s). split; [done|]. destruct s as [t sh w].
    split; [done|]. by apply (spec_cancel_none (spec_of (mkSys t sh w))).
Qed.

Lemma poll_step target s :
  sys_inv s → horizon target (tick (timer s)) < U64_MAX →
  ∃ o s', poll_to target s = Done (o, s') ∧ sys_inv s' ∧
    spec_step (spec_of s) (OPollTo target) (RState o) (spec_of s').
Proof.
  intros Hs HM. destruct (poll_to_ok target s Hs HM) as (o & s' & E & Hs' & (Hmst & _ & _ & _ & Hcap & _) & Hcase).
  exists o, s'. split; [done|]. split; [done|]. unfold spec_of. rewrite Hmst, Hcap.
  destruct Hcase as [(-> & (Ht & _ & Ha & Hinv & _) & _)|[(x & k & st & Hx & -> & Hk & Ht & Hmin & Ha & _) _]]; rewrite Ha, Ht.
  - apply (spec_idle (spec_of s)). intros y k st Hy. cbn in *.
    destruct (pending_u64 (timer s') y k st Hinv) as [Hk _]; [by rewrite Ha|]. lia.
  - by apply (spec_fire (spec_of s) target x k).
Qed.
End refine.
