(* ===== verification/TimerThm.v ===== *)
(** * Theorems about the timer

    Built on the refinement of [TimerSpec.v]: a new timer is well formed, any
    sequence of operations follows the abstract timer, polling until nothing is
    left delivers exactly the due timeouts in the order of their ticks, and the
    handle of a timeout that fired stays dead. *)

From stdpp Require Import sorting.
From S2P Require Import Prelude Event Convert DList Iface Timer TimerInv TimerOps TimerPoll TimerSpec.

(** ** [next_power_of_two] *)

Lemma next_power_of_two_ok n :
  0 <= n <= 2 ^ 63 →
  ∃ j, 0 <= j <= 63 ∧ next_power_of_two n = Done (2 ^ j) ∧ n <= 2 ^ j ∧ (1 < n → 2 ^ j < 2 * n).
Proof.
  intros Hn. unfold next_power_of_two. destruct (n <=? 1) eqn:E; zbool.
  - exists 0. cbn. split; [lia|]. split; [done|]. lia.
  - exists (Z.log2_up n). pose proof (Z.log2_up_spec n E) as [Hlo Hhi].
    assert (Z.log2_up n <= 63) as Hle.
    { rewrite <- (Z.log2_up_pow2 63) by lia. apply Z.log2_up_le_mono. apply Hn. }
    pose proof (Z.log2_up_pos n E).
    assert (2 ^ Z.log2_up n <= 2 ^ 63) as Hp by (apply Z.pow_le_mono_r; lia).
    assert (2 ^ Z.log2_up n = 2 * 2 ^ Z.pred (Z.log2_up n)) as Hd
      by (rewrite <- Z.pow_succ_r by lia; f_equal; lia).
    split; [lia|]. replace (2 ^ Z.log2_up n <=? USIZE_MAX) with true; [split; [done|lia]|].
    symmetry. apply Z.leb_le. etransitivity; [exact Hp|done].
Qed.

Section thms.
Context {S : Type → Type} {slab_ops : SlabOps S} {slab_spec : SlabSpec S} {slab_laws : SlabLaws S}.
Context {C : Type → Type} {cell_ops : LazyCellOps C} {cell_laws : LazyCellLaws C}.
Context {T R H W : Type} {rd_ops : ReadinessOps W H} {rd_spec : ReadinessSpec W H} {rd_laws : ReadinessLaws W H}.
Implicit Types t : Timer S C T R H.
Implicit Types s : Sys S C T R H W.

(** ** New timers *)

Lemma new_wheel_inv (ms j start cap : Z) : 0 <= j → cap <= USIZE_MAX →
  let t : Timer S C T R H := mkTimer ms (slab_with_capacity cap)
    (replicate (Z.to_nat (2 ^ j)) (mkWheelEntry TICK_MAX EMPTY)) start 0 EMPTY (2 ^ j - 1) lazy_new in
  abs t = ∅ ∧ slab_capacity (entries t) = cap ∧ wheel_ticks t ∧ timer_inv t ∧ bounds_full t.
Proof.
  intros Hj Hcap t. assert (0 < 2 ^ j) as Hpos by (by apply Z.pow_pos_nonneg).
  assert (contents t = ∅) as Hct by (unfold contents; cbn; apply slab_new_map).
  assert (abs t = ∅) as Habs by (unfold abs; by rewrite Hct, fmap_empty).
  assert (bounds_full t) as Hbf by (intros x k st we; by rewrite Habs, lookup_empty).
  split; [done|]. split; [apply slab_new_capacity|]. split.
  { unfold wheel_ticks. cbn. rewrite fmap_replicate. apply Forall_replicate. apply TICK_MAX_tick. }
  split; [|done]. exists (replicate (Z.to_nat (2 ^ j)) []), [], [].
  assert (wheel_inv t (replicate (Z.to_nat (2 ^ j)) [])) as Hi.
  { split; cbn; rewrite ?length_replicate.
    - exists j. split; [done|]. lia.
    - lia.
    - done.
    - intros i we l Hwe Hl. apply lookup_replicate in Hwe as [-> _], Hl as [-> _].
      cbn. rewrite (proj2 (opt_None EMPTY)) by done. apply dlist_nil.
    - intros i l x Hl. apply lookup_replicate in Hl as [-> _]. rewrite Habs. split; [set_solver|].
      intros (k & st & Hx & _). by rewrite lookup_empty in Hx.
    - intros x v. by rewrite Habs, lookup_empty.
    - by rewrite slab_new_capacity. }
  split; [done|]. split; [|intros x k st we Hx; by rewrite Habs, lookup_empty in Hx].
  split; [unfold is_u64, U64_MAX; cbn; lia|]. split.
  - pose proof (slot_for_lt t _ 0 Hi) as Hlt. cbn in *. rewrite length_replicate in Hlt.
    by rewrite lookup_replicate_2.
  - split; [by apply opt_None|]. intros x k st. by rewrite Habs, lookup_empty.
Qed.

Lemma Timer_new_ok ms slots cap start sh w :
  0 < ms → 0 <= slots <= 2 ^ 63 → 0 <= cap <= 2 ^ 63 →
  ∃ t, Timer_new ms slots cap start = Done t ∧ sys_inv (mkSys t sh w) ∧ bounds_full t ∧
    lazy_borrow (inner t) = None ∧ abs t = ∅ ∧ tick t = 0 ∧ tick_ms t = ms ∧
    next_power_of_two cap = Done (slab_capacity (entries t)) ∧
    next_power_of_two slots = Done (Z.of_nat (length (wheel t))).
Proof.
  intros Hms Hs Hc. unfold Timer_new.
  destruct (next_power_of_two_ok slots Hs) as (j & Hj & -> & _).
  destruct (next_power_of_two_ok cap Hc) as (jc & Hjc & -> & _). cbn [mbind outcome_bind].
  assert (2 ^ jc <= USIZE_MAX) as Hcap.
  { apply Z.le_trans with (2 ^ 63); [apply Z.pow_le_mono_r; lia|done]. }
  destruct (new_wheel_inv ms j start (2 ^ jc) ltac:(lia) Hcap) as (Ha & Hcp & Hu & Hi & Hb).
  eexists. split; [done|]. split.
  { split; [split; try done|]; [|intros i; cbn; by rewrite lazy_borrow_new].
    intros x k st. cbn. by rewrite Ha, lookup_empty. }
  split; [done|]. split; [apply lazy_borrow_new|]. do 3 (split; [done|]). split; [by rewrite Hcp|].
  cbn. rewrite length_replicate, Z2Nat.id by (apply Z.pow_nonneg; lia). done.
Qed.

(** ** Sequences of operations *)

Inductive spec_steps (a : Spec T) : list (Op T) → list (Ret T) → Spec T → Prop :=
  | spec_steps_nil : spec_steps a [] [] a
  | spec_steps_cons op r a1 ops rs a2 :
      spec_step a op r a1 → spec_steps a1 ops rs a2 → spec_steps a (op :: ops) (r :: rs) a2.

(** How far a step can move the clock. *)
Lemma spec_step_now (a : Spec T) op r a' B :
  spec_step a op r a' → op_ok B op → sp_now a <= B → sp_now a <= sp_now a' <= B + 1.
Proof. destruct 1; cbn; unfold horizon in *; lia. Qed.

Lemma run_op_ok op s B :
  sys_inv s → op_ok B op → tick (timer s) <= B < U64_MAX →
  ∃ r s', run_op op s = Done (r, s') ∧ sys_inv s' ∧ spec_step (spec_of s) op r (spec_of s').
Proof.
  intros Hs Hop Ht. destruct op as [d st|h|target]; cbn [run_op].
  - destruct (set_step d st s Hs ltac:(lia) Hop) as (r & s' & -> & _ & ? & ?). cbn. eauto.
  - destruct (cancel_step h s Hs) as (o & t' & -> & ? & ?). cbn. eauto.
  - cbn in Hop. destruct (poll_step target s Hs) as (o & s' & -> & ? & ?); [unfold horizon; lia|]. cbn. eauto.
Qed.

Lemma run_ops_ok ops s B :
  sys_inv s → Forall (op_ok B) ops → tick (timer s) <= B → B + Z.of_nat (length ops) < U64_MAX →
  ∃ rs s', run_ops ops s = Done (rs, s') ∧ sys_inv s' ∧ spec_steps (spec_of s) ops rs (spec_of s').
Proof.
  revert s B. induction ops as [|op ops IH]; intros s B Hs Hops Ht HB.
  { exists [], s. split; [done|]. split; [done|]. constructor. }
  apply Forall_cons in Hops as [Hop Hops]. cbn [length] in HB.
  destruct (run_op_ok op s B Hs Hop ltac:(lia)) as (r & s1 & E & Hs1 & Hst).
  pose proof (spec_step_now _ _ _ _ B Hst Hop Ht) as Hnow. cbn in Hnow.
  destruct (IH s1 (B + 1) Hs1) as (rs & s2 & E2 & Hs2 & Hst2); [|lia..|].
  { eapply Forall_impl; [exact Hops|]. intros [] ; cbn; try done. lia. }
  exists (r :: rs), s2. cbn [run_ops]. rewrite E. cbn. rewrite E2. cbn.
  split; [done|]. split; [done|]. by econstructor.
Qed.

(** ** Polling until nothing is due *)

(** [while let Some(state) = timer.poll() { .. }] with the clock at [target]. *)
Fixpoint drain (fuel : nat) (target : Z) s : outcome (list T * Sys S C T R H W) :=
  match fuel with
  | O => OutOfFuel
  | Datatypes.S fuel =>
      '(o, s) ← poll_to target s;
      match o with
      | None => Done ([], s)
      | Some st => '(l, s) ← drain fuel target s; Done (st :: l, s)
      end
  end.

Definition item_tick (p : Token * (Z * T)) : Z := p.2.1.
Definition item_le (p q : Token * (Z * T)) : Prop := item_tick p <= item_tick q.

Lemma filter_due_fire (M : Z) (m : gmap Token (Z * T)) x k st :
  m !! x = Some (k, st) → k <= M →
  map_to_list (filter (λ p, item_tick p <= M) m) ≡ₚ
    (x, (k, st)) :: map_to_list (filter (λ p, item_tick p <= M) (delete x m)).
Proof.
  intros Hx Hk. rewrite map_filter_delete. symmetry. apply map_to_list_delete.
  by apply map_lookup_filter_Some.
Qed.

Lemma filter_late_fire (M : Z) (m : gmap Token (Z * T)) x k st :
  m !! x = Some (k, st) → k <= M →
  filter (λ p, M < item_tick p) (delete x m) = filter (λ p, M < item_tick p) m.
Proof.
  intros Hx Hk. rewrite map_filter_delete. apply delete_id.
  apply map_lookup_filter_None. right. intros v Hv. unfold item_tick. cbn. simplify_eq. cbn. lia.
Qed.

Lemma drain_ok n target s : let M := horizon target (tick (timer s)) in
  sys_inv s → M < U64_MAX → (size (abs (timer s)) < n)%nat →
  ∃ items s', drain n target s = Done ((λ p, p.2.2) <$> items, s') ∧
    items ≡ₚ map_to_list (filter (λ p, item_tick p <= M) (abs (timer s))) ∧
    StronglySorted item_le items ∧
    abs (timer s') = filter (λ p, M < item_tick p) (abs (timer s)) ∧
    tick (timer s') = M + 1 ∧ sys_inv s'.
Proof.
  revert s. induction n as [|n IH]; intros s M Hs HM Hsz; [lia|].
  destruct (poll_to_ok target s Hs HM) as (o & s1 & E & Hs1 & _ & Hcase). fold M in Hcase.
  cbn [drain]. rewrite E. cbn [mbind outcome_bind].
  destruct Hcase as [(-> & (Ht & _ & Ha & Hinv & _) & _)|[(x & k & st & Hx & -> & Hk & Ht & Hmin & Ha & _) _]].
  - assert (∀ p, abs (timer s) !! p.1 = Some p.2 → M < item_tick p) as Hlate.
    { intros [y [k st]] Hy. unfold item_tick. cbn in *.
      destruct (pending_u64 (timer s1) y k st Hinv) as [? _]; [by rewrite Ha|]. lia. }
    exists [], s1. split; [done|]. split; [|split; [constructor|split; [|done]]].
    + assert (filter (λ p, item_tick p <= M) (abs (timer s)) = ∅) as ->.
      { apply map_empty_filter. intros y v Hy. specialize (Hlate (y, v) Hy). lia. }
      by rewrite map_to_list_empty.
    + rewrite Ha. symmetry. apply map_filter_id. intros y v Hy. by apply (Hlate (y, v)).
  - assert (horizon target (tick (timer s1)) = M) as HM1 by (rewrite Ht; unfold M, horizon in *; lia).
    assert (size (abs (timer s)) = Datatypes.S (size (abs (timer s1)))) as Hsz1.
    { rewrite Ha, map_size_delete_Some by eauto. pose proof (map_size_ne_0_lookup_2 _ _ (mk_is_Some _ _ Hx)). lia. }
    destruct (IH s1 Hs1) as (items & s2 & E2 & Hp & Hst & Ha2 & Ht2 & Hs2); [lia..|].
    rewrite HM1, Ha in *. rewrite E2. cbn [mbind outcome_bind]. exists ((x, (k, st)) :: items), s2.
    split; [done|]. split; [|split; [|split; [|done]]].
    + rewrite (filter_due_fire M _ x k st) by (done || lia). by rewrite Hp.
    + constructor; [done|]. apply Forall_forall. intros [y [k' st']] Hy. rewrite Hp in Hy.
      apply elem_of_map_to_list, map_lookup_filter_Some in Hy as [Hy _].
      apply lookup_delete_Some in Hy as [_ Hy]. unfold item_le, item_tick. cbn. by eapply Hmin.
    + rewrite Ha2. apply (filter_late_fire M _ x k st); [done|lia].
Qed.

(** ** Handles of timeouts that fired *)

(** [h] names no pending timeout, and no new timeout can get its tick. *)
Definition spent (h : Timeout) (a : Spec T) : Prop :=
  to_tick h <= sp_now a ∧ ∀ st, sp_pending a !! to_token h ≠ Some (to_tick h, st).

Lemma spent_step h a op r a' : spec_step a op r a' → spent h a → spent h a'.
Proof.
  intros Hst [Hle Hne]. destruct Hst; split; cbn in *; try done; try (unfold horizon in *; lia).
  - intros st'. rewrite lookup_insert. case_decide; [|done]. intros [= Hk _]. lia.
  - intros st' Hx%lookup_delete_Some. naive_solver.
  - intros st' Hx%lookup_delete_Some. naive_solver.
Qed.

Lemma spent_steps h a ops rs a' : spec_steps a ops rs a' → spent h a → spent h a'.
Proof. induction 1; eauto using spent_step. Qed.

(** ** Main theorems *)

(** C1: any sequence of [set_timeout_at], [cancel_timeout] and [poll_to] on a
    well-formed timer, registered or not, runs without a panic and to its end,
    keeps the invariant, and each result is one the abstract timer allows: new
    timeouts lie strictly after the current tick, a full slab is an error and
    changes nothing, a cancel removes exactly the timeout its handle names, a
    poll removes a timeout with the least tick among all pending ones if that
    tick is within reach and otherwise moves the clock past the target. *)
Theorem timer_refines ops s B :
  sys_inv s → Forall (op_ok B) ops → tick (timer s) <= B → B + Z.of_nat (length ops) < U64_MAX →
  ∃ rs s', run_ops ops s = Done (rs, s') ∧ sys_inv s' ∧ spec_steps (spec_of s) ops rs (spec_of s').
Proof. apply run_ops_ok. Qed.

(** [Timer::new] rounds the number of slots and the capacity up to powers
    of two and builds a well-formed, empty, unregistered timer at tick 0. *)
Theorem Timer_new_inv ms slots cap start sh w :
  0 < ms → 0 <= slots <= 2 ^ 63 → 0 <= cap <= 2 ^ 63 →
  ∃ t, Timer_new ms slots cap start = Done t ∧ sys_inv (mkSys t sh w) ∧
    lazy_borrow (inner t) = None ∧ abs t = ∅ ∧ tick t = 0 ∧
    (∃ j, Z.of_nat (length (wheel t)) = 2 ^ j ∧ slots <= 2 ^ j ∧ (1 < slots → 2 ^ j < 2 * slots)) ∧
    (∃ j, slab_capacity (entries t) = 2 ^ j ∧ cap <= 2 ^ j ∧ (1 < cap → 2 ^ j < 2 * cap)).
Proof.
  intros Hms Hs Hc. destruct (Timer_new_ok ms slots cap start sh w Hms Hs Hc)
    as (t & E & Hi & _ & Hin & Ha & Ht & _ & Hcap & Hlen).
  destruct (next_power_of_two_ok slots Hs) as (j & _ & Ej & Hj).
  destruct (next_power_of_two_ok cap Hc) as (jc & _ & Ejc & Hjc).
  exists t. do 5 (split; [done|]). split; [exists j|exists jc]; split; congruence || done.
Qed.

(** C6: polling with the same target until [None] comes back delivers the state
    of every timeout whose tick is at most the target (or the current tick, when
    the target lies behind it), each exactly once and in the order of the ticks,
    and leaves exactly the later ones pending. *)
Theorem poll_drains_due target s : let M := horizon target (tick (timer s)) in
  sys_inv s → M < U64_MAX →
  ∃ items s', drain (Datatypes.S (size (abs (timer s)))) target s = Done ((λ p, p.2.2) <$> items, s') ∧
    items ≡ₚ map_to_list (filter (λ p, item_tick p <= M) (abs (timer s))) ∧
    StronglySorted item_le items ∧
    abs (timer s') = filter (λ p, M < item_tick p) (abs (timer s)) ∧
    tick (timer s') = M + 1 ∧ sys_inv s'.
Proof. intros M Hs HM. apply drain_ok; [done|done|lia]. Qed.

(** C7: once a timeout has fired, its handle cancels nothing, whatever
    operations follow: even when its token is handed out again, the new timeout
    has a later tick. *)
Theorem fired_handle_dead s target o s1 x k st ops B :
  sys_inv s → horizon target (tick (timer s)) < U64_MAX →
  abs (timer s) !! x = Some (k, st) → poll_to target s = Done (o, s1) → abs (timer s1) !! x = None →
  Forall (op_ok B) ops → tick (timer s1) <= B → B + Z.of_nat (length ops) < U64_MAX →
  ∃ rs s2, run_ops ops s1 = Done (rs, s2) ∧ cancel_timeout (mkTimeout x k) (timer s2) = Done (None, timer s2).
Proof.
  intros Hs HM Hx E Hx1 Hops HB Hlen.
  destruct (poll_to_ok target s Hs HM) as (o' & s1' & E' & Hs1 & _ & Hcase).
  assert (s1' = s1) as -> by congruence.
  destruct Hcase as [(_ & (_ & _ & Ha & _) & _)|[(x' & k' & st' & Hx' & _ & _ & Ht & _ & Ha & _) _]];
    rewrite Ha in Hx1; [congruence|].
  apply lookup_delete_None in Hx1 as [->|?]; [|congruence]. assert (k' = k) as -> by congruence.
  destruct (run_ops_ok ops s1 B Hs1 Hops HB Hlen) as (rs & s2 & E2 & Hs2 & Hst).
  exists rs, s2. split; [done|]. apply cancel_no_match.
  apply (spent_steps (mkTimeout x k) _ _ _ _ Hst). split; cbn; [lia|].
  intros st0. by rewrite Ha, lookup_delete_eq.
Qed.

(** when every entry of the slab is taken, [set_timeout_at] reports
    [TimerOverflow] and changes nothing: not the entries, not the wakeup state. *)
Theorem set_timeout_full d st s :
  sys_inv s → tick (timer s) < U64_MAX → Duration_wf d →
  slab_capacity (entries (timer s)) <= Z.of_nat (size (abs (timer s))) →
  set_timeout_at d st s = Done (Err TimerError_overflow, s).
Proof.
  intros [Hg _] Ht Hd Hsz. unfold set_timeout_at.
  rewrite duration_to_tick_ok by (done || apply (tg_ms _ Hg)). cbn [mbind outcome_bind].
  unfold add64. replace (tick (timer s) + 1 <=? U64_MAX) with true by lia.
  destruct (_ <=? _); cbn [mbind outcome_bind]; unfold insert;
    rewrite insert_entry_full_good by done; cbn; by destruct s.
Qed.
End thms.

(** ** A concrete timer

    The one of the unit tests of [timer.rs]: ticks of 100 ms, 16 slots. *)

Definition demo_wheel (slots : nat) (cap : Z) : Timer map_slab option string unit unit :=
  mkTimer 100 (slab_with_capacity cap) (replicate slots (mkWheelEntry TICK_MAX EMPTY)) 0 0 EMPTY
    (Z.of_nat slots - 1) None.

Definition demo : Sys map_slab option string unit unit Ready.t :=
  mkSys (demo_wheel 16 16) (mkShared USIZE_MAX false) Ready.none.

Lemma demo_inv : sys_inv demo.
Proof.
  destruct (Timer_new_ok (S := map_slab) (C := option) (T := string) (R := unit) (H := unit) (W := Ready.t)
    100 16 16 0 (mkShared USIZE_MAX false) Ready.none) as (t & E & Hi & _); [done..|].
  vm_compute in E. injection E as <-. exact Hi.
Qed.

Definition at_ms (ms : Z) (s : string) : Op string := OSetTimeoutAt (from_millis ms) s.

Lemma timer_refines_witness :
  ∃ rs s', run_ops [at_ms 100 "a"; at_ms 1700 "b"; OPollTo 1; OCancelTimeout (mkTimeout (mkToken 1) 17); OPollTo 3] demo
      = Done (rs, s') ∧ sys_inv s' ∧
    spec_steps (spec_of demo) [at_ms 100 "a"; at_ms 1700 "b"; OPollTo 1; OCancelTimeout (mkTimeout (mkToken 1) 17); OPollTo 3]
      rs (spec_of s').
Proof.
  apply (timer_refines _ demo 10); [exact demo_inv| |vm_compute; done|vm_compute; done].
  repeat (apply Forall_cons; split); try apply Forall_nil; try done;
    (apply (bool_decide_unpack _); vm_compute; exact I).
Defined.

Lemma Timer_new_inv_witness :
  ∃ t : Timer map_slab option string unit unit, Timer_new 100 250 1000 0 = Done t ∧
    sys_inv (mkSys t (mkShared 0 false) Ready.none) ∧
    lazy_borrow (inner t) = None ∧ abs t = ∅ ∧ tick t = 0 ∧
    (∃ j, Z.of_nat (length (wheel t)) = 2 ^ j ∧ 250 <= 2 ^ j ∧ (1 < 250 → 2 ^ j < 2 * 250)) ∧
    (∃ j, slab_capacity (entries t) = 2 ^ j ∧ 1000 <= 2 ^ j ∧ (1 < 1000 → 2 ^ j < 2 * 1000)).
Proof. apply (Timer_new_inv 100 250 1000 0 (mkShared 0 false) Ready.none); lia. Defined.

(** The demo timer after two insertions. *)
Definition demo2 : Sys map_slab option string unit unit Ready.t :=
  match run_ops [at_ms 300 "a"; at_ms 100 "b"] demo with Done (_, s) => s | _ => demo end.

Lemma demo2_inv : sys_inv demo2.
Proof.
  destruct (run_ops_ok [at_ms 300 "a"; at_ms 100 "b"] demo 10) as (rs & s' & E & Hs & _);
    [exact demo_inv| |vm_compute; done|vm_compute; done|].
  - repeat (apply Forall_cons; split); try apply Forall_nil; (apply (bool_decide_unpack _); vm_compute; exact I).
  - unfold demo2. rewrite E. exact Hs.
Qed.

Lemma poll_drains_due_witness :
  ∃ items s', drain (Datatypes.S (size (abs (timer demo2)))) 2 demo2 = Done ((λ p, p.2.2) <$> items, s') ∧
    items ≡ₚ map_to_list (filter (λ p, item_tick p <= horizon 2 (tick (timer demo2))) (abs (timer demo2))) ∧
    StronglySorted item_le items ∧
    abs (timer s') = filter (λ p, horizon 2 (tick (timer demo2)) < item_tick p) (abs (timer demo2)) ∧
    tick (timer s') = horizon 2 (tick (timer demo2)) + 1 ∧ sys_inv s'.
Proof. apply (poll_drains_due 2 demo2); [exact demo2_inv|vm_compute; done]. Defined.

Definition demo3 : Sys map_slab option string unit unit Ready.t :=
  match poll_to 1 demo2 with Done (_, s) => s | _ => demo end.

Lemma fired_handle_dead_witness :
  ∃ rs s2, run_ops [at_ms 300 "c"; OPollTo 2] demo3 = Done (rs, s2) ∧
    cancel_timeout (mkTimeout (mkToken 1) 1) (timer s2) = Done (None, timer s2).
Proof.
  apply (fired_handle_dead demo2 1 (Some "b") demo3 (mkToken 1) 1 "b" [at_ms 300 "c"; OPollTo 2] 10);
    [exact demo2_inv|vm_compute; done|vm_compute; done|vm_compute; done|vm_compute; done| |vm_compute; done|vm_compute; done].
  repeat (apply Forall_cons; split); try apply Forall_nil; (apply (bool_decide_unpack _); vm_compute; exact I).
Defined.

(** A timer with a single entry, taken. *)
Definition demo_full : Sys map_slab option string unit unit Ready.t :=
  match run_ops [at_ms 300 "a"] (mkSys (demo_wheel 16 1) (mkShared USIZE_MAX false) Ready.none)
  with Done (_, s) => s | _ => demo end.

Lemma demo_full_inv : sys_inv demo_full.
Proof.
  destruct (Timer_new_ok (S := map_slab) (C := option) (T := string) (R := unit) (H := unit) (W := Ready.t)
    100 16 1 0 (mkShared USIZE_MAX false) Ready.none) as (t & E & Hi & _); [done..|].
  vm_compute in E. injection E as <-.
  destruct (run_ops_ok [at_ms 300 "a"] _ 10 Hi) as (rs & s' & E & Hs & _); [|vm_compute; done|vm_compute; done|].
  - repeat (apply Forall_cons; split); try apply Forall_nil; (apply (bool_decide_unpack _); vm_compute; exact I).
  - unfold demo_full. change (demo_wheel 16 1) with (timer (mkSys (demo_wheel 16 1) (mkShared USIZE_MAX false) Ready.none)).
    vm_compute in E |- *. injection E as _ <-. exact Hs.
Qed.

Lemma set_timeout_full_witness :
  set_timeout_at (from_millis 500) "b"%string demo_full = Done (Err TimerError_overflow, demo_full).
Proof.
  apply (set_timeout_full (from_millis 500) "b"%string demo_full demo_full_inv).
  - vm_compute. done.
  - apply (bool_decide_unpack _). vm_compute. exact I.
  - vm_compute. done.
Defined.

(** ** Runs of the concrete timer *)

Definition results {T S C R H W} (o : outcome (list (Ret T) * Sys S C T R H W)) : list (Ret T) :=
  match o with Done (rs, _) => rs | _ => [] end.
Definition polled (rs : list (Ret string)) : list (option string) :=
  omap (λ r, match r with RState o => Some o | _ => None end) rs.

(** The unit test [test_multiple_timeouts_diff_tick] of the source:
    timeouts in several slots, polled as time goes by. *)
Example expiring_multiple_slots :
  polled (results (run_ops
    [at_ms 110 "a"; at_ms 220 "b"; at_ms 230 "c"; at_ms 440 "d"; at_ms 560 "e";
     OPollTo 1; OPollTo 1; OPollTo 2; OPollTo 2; OPollTo 2; OPollTo 3; OPollTo 4; OPollTo 4;
     OPollTo 5; OPollTo 6; OPollTo 6] demo))
  = [Some "a"; None; Some "c"; Some "b"; None; None; Some "d"; None; None; Some "e"; None]%string.
Proof. vm_compute. reflexivity. Qed.

(** Every poll that finds nothing moves the clock by a tick even if no time has
    passed: six polls at tick 0 fire a timeout that is due at tick 5. *)
Example idle_polls_fire_early :
  polled (results (run_ops
    [at_ms 500 "a"; OPollTo 0; OPollTo 0; OPollTo 0; OPollTo 0; OPollTo 0; OPollTo 0] demo))
  = [None; None; None; None; None; Some "a"]%string.
Proof. vm_compute. reflexivity. Qed.

(** A handle that was used to cancel is not dead: after its token has been
    handed out again for the same tick it cancels the new timeout. *)
Example cancelled_handle_reused :
  results (run_ops
    [at_ms 500 "a"; OCancelTimeout (mkTimeout (mkToken 0) 5); at_ms 500 "b";
     OCancelTimeout (mkTimeout (mkToken 0) 5)] demo)
  = [RTimeout (Ok (mkTimeout (mkToken 0) 5)); RState (Some "a");
     RTimeout (Ok (mkTimeout (mkToken 0) 5)); RState (Some "b")]%string.
Proof. vm_compute. reflexivity. Qed.

(** A timeout one rotation ahead that is inserted while its slot is about to be
    scanned keeps the slot's [next_tick] at a tick that has passed: the wakeup is
    scheduled in the past although nothing is due before tick 17. *)
Example stale_next_tick :
  match register tt (mkToken 0) Ready.readable PollOpt.edge demo with
  | Done (_, s) =>
      match run_ops [at_ms 100 "a"; OPollTo 0; at_ms 1700 "d"; OPollTo 1; OPollTo 1] s with
      | Done (rs, s) => Some (polled rs, tick (timer s), wakeup_state (shared s), next_tick (timer s))
      | _ => None
      end
  | _ => None
  end = Some ([None; Some "a"; None]%string, 2, 1, Done (Some 1)).
Proof. vm_compute. reflexivity. Qed.
