(* ===== verification/TimerWakeup.v ===== *)
(** * timer.rs: the wakeup thread

    [spawn_wakeup_thread] and the thread that owns the timer, as two programs
    that interleave at their accesses to shared memory: the atomic
    [wakeup_state], the park token of the thread and the readiness of the
    registration.  Work on the timer itself is private to its owner, so a whole
    [insert_entry] or [poll_loop] is one step.  The clock may advance at any time. *)

From stdpp Require Import relations.
From S2P Require Import Prelude Event Convert DList Iface Timer TimerInv TimerOps TimerPoll TimerSpec TimerThm.

(** Where the owner of the timer stands in [insert] and [poll_to]. *)
Inductive MainPc : Type :=
  | MIdle                      (* between two operations *)
  | MClear                     (* end of [poll_to]: about to unset the readiness *)
  | MLoad (tick : Z)           (* [schedule_readiness(tick)]: about to load *)
  | MCas (tick curr : Z)       (* about to compare and swap *)
  | MUnpark.                   (* about to unpark the thread *)

(** Where the wakeup thread stands in its loop. *)
Inductive ThreadPc : Type :=
  | TLoad                      (* about to load [state] *)
  | TTop (sleep_until : Z)     (* head of the loop *)
  | TSleep (sleep_until : Z) (ticks : option Z)    (* about to park, for so many ticks or for ever *)
  | TPark (sleep_until : Z) (deadline : option Z)  (* in [park] or [park_timeout] *)
  | TCas (sleep_until : Z)
  | TSet                       (* about to set the readiness *)
  | TDone.

Section wakeup.
Context {S : Type → Type} {slab_ops : SlabOps S} {slab_spec : SlabSpec S} {slab_laws : SlabLaws S}.
Context {C : Type → Type} {cell_ops : LazyCellOps C}.
Context {T R H : Type}.
Implicit Types t : Timer S C T R H.

Record Conc : Type := mkConc {
  c_timer : Timer S C T R H;
  c_shared : Shared;
  c_ready : Ready.t;
  c_main : MainPc;
  c_thread : ThreadPc;
  c_clock : Z }.

Definition c_set_timer (c : Conc) t pc := mkConc t (c_shared c) (c_ready c) pc (c_thread c) (c_clock c).
Definition c_set_main (c : Conc) pc := mkConc (c_timer c) (c_shared c) (c_ready c) pc (c_thread c) (c_clock c).
Definition c_set_thread (c : Conc) pc := mkConc (c_timer c) (c_shared c) (c_ready c) (c_main c) pc (c_clock c).
Definition c_set_shared (c : Conc) sh := mkConc (c_timer c) sh (c_ready c) (c_main c) (c_thread c) (c_clock c).
Definition c_set_ready (c : Conc) r := mkConc (c_timer c) (c_shared c) r (c_main c) (c_thread c) (c_clock c).

(** [state.compare_and_swap(old, new)]: the value found, and the state after. *)
Definition cas (old new : Z) (sh : Shared) : Z * Shared :=
  let actual := wakeup_state sh in
  (actual, if actual =? old then mkShared new (unparked sh) else sh).

(** The tests of the loop of [schedule_readiness] on a value just read. *)
Definition sched_test (tick curr : Z) : MainPc := if curr <=? tick then MIdle else MCas tick curr.

Inductive main_step (c : Conc) : Conc → Prop :=
  | m_insert k st h t :
      c_main c = MIdle → tick (c_timer c) < k <= U64_MAX →
      insert_entry k st (c_timer c) = Done (Ok h, t) → main_step c (c_set_timer c t (MLoad k))
  | m_insert_full k st e t :
      c_main c = MIdle → tick (c_timer c) < k <= U64_MAX →
      insert_entry k st (c_timer c) = Done (Err e, t) → main_step c (c_set_timer c t MIdle)
  | m_cancel h o t :
      c_main c = MIdle → cancel_timeout h (c_timer c) = Done (o, t) → main_step c (c_set_timer c t MIdle)
  | m_fire target o t :
      c_main c = MIdle → tick (c_timer c) <= target < U64_MAX →
      poll_loop (poll_fuel target (c_timer c)) target (c_timer c) = Done (inr (o, t)) →
      main_step c (c_set_timer c t MIdle)
  | m_idle target t :
      c_main c = MIdle → tick (c_timer c) <= target < U64_MAX →
      poll_loop (poll_fuel target (c_timer c)) target (c_timer c) = Done (inl t) →
      main_step c (c_set_timer c t MClear)
  | m_clear n :
      c_main c = MClear → next_tick (c_timer c) = Done (Some n) →
      main_step c (c_set_main (c_set_ready c Ready.none) (MLoad n))
  | m_load k :
      c_main c = MLoad k → main_step c (c_set_main c (sched_test k (wakeup_state (c_shared c))))
  | m_cas k curr actual sh :
      c_main c = MCas k curr → cas curr (wrap64 k) (c_shared c) = (actual, sh) →
      main_step c (c_set_main (c_set_shared c sh) (if actual =? curr then MUnpark else sched_test k actual))
  | m_unpark :
      c_main c = MUnpark →
      main_step c (c_set_main (c_set_shared c (mkShared (wakeup_state (c_shared c)) true)) MIdle).

(** One step of the wakeup thread, [None] when it cannot move: it has ended, or
    it is parked, was not unparked and its timeout has not passed.  The duration
    [tick_ms * (k - now)] is that of [k - now] ticks ([tick_of_add]); it counts from
    the moment the thread parks, which may be well after it has read the clock, and
    is over for certain when the clock shows one tick more. *)
Definition thread_step (tick_ms : Z) (c : Conc) : option Conc :=
  match c_thread c with
  | TLoad => Some (c_set_thread c (TTop (wakeup_state (c_shared c))))
  | TTop k =>
      Some (c_set_thread c
        (if k =? TERMINATE_THREAD then TDone
         else if c_clock c <? k
         then TSleep k (match checked_mul tick_ms (k - c_clock c) with Some _ => Some (k - c_clock c) | None => None end)
         else TCas k))
  | TSleep k ticks => Some (c_set_thread c (TPark k ((λ m, c_clock c + m + 1) <$> ticks)))
  | TPark k deadline =>
      if unparked (c_shared c)
      then Some (c_set_thread (c_set_shared c (mkShared (wakeup_state (c_shared c)) false)) TLoad)
      else match deadline with
           | Some d => if d <=? c_clock c then Some (c_set_thread c TLoad) else None
           | None => None
           end
  | TCas k =>
      let '(actual, sh) := cas k USIZE_MAX (c_shared c) in
      Some (c_set_thread (c_set_shared c sh)
        (if actual =? k then TSet else TTop actual))
  | TSet => Some (c_set_thread (c_set_ready c Ready.readable) (TTop USIZE_MAX))
  | TDone => None
  end.

(** [park] may return earlier and for no reason, and time passes. *)
Inductive env_step (c : Conc) : Conc → Prop :=
  | e_spurious k deadline : c_thread c = TPark k deadline → env_step c (c_set_thread c TLoad)
  | e_clock now :
      c_clock c <= now → now * tick_ms (c_timer c) <= U64_MAX →
      env_step c (mkConc (c_timer c) (c_shared c) (c_ready c) (c_main c) (c_thread c) now).

Inductive cstep (c : Conc) : Conc → Prop :=
  | cs_main c' : main_step c c' → cstep c c'
  | cs_thread c' : thread_step (tick_ms (c_timer c)) c = Some c' → cstep c c'
  | cs_env c' : env_step c c' → cstep c c'.

(** ** No wakeup is lost *)

(** The value the thread goes by: what it last read, or will assume. *)
Definition snapshot (pc : ThreadPc) : option Z :=
  match pc with
  | TTop k | TSleep k _ | TPark k _ => Some k
  | TSet => Some USIZE_MAX
  | TLoad | TCas _ | TDone => None
  end.

(** A bound the owner is about to store. *)
Definition scheduling (pc : MainPc) : option Z :=
  match pc with MLoad n | MCas n _ => Some n | _ => None end.

(** A timeout of tick [k] will make the timer readable: it is readable already,
    or is about to be, or a wakeup no later than [k] is or is being scheduled. *)
Definition covered (c : Conc) (k : Z) : Prop :=
  c_ready c = Ready.readable ∨ c_thread c = TSet ∨ wakeup_state (c_shared c) <= k ∨
  c_main c = MClear ∨ (∃ n, scheduling (c_main c) = Some n ∧ n <= k).

(** The thread does not sleep past the scheduled wakeup, or is being woken. *)
Definition attentive (c : Conc) : Prop :=
  ∀ k, snapshot (c_thread c) = Some k →
    k <= wakeup_state (c_shared c) ∨ unparked (c_shared c) = true ∨ c_main c = MUnpark.

Record conc_inv (c : Conc) : Prop := {
  ci_timer : timer_good (c_timer c);
  ci_state : is_tick (wakeup_state (c_shared c));
  ci_sched n : scheduling (c_main c) = Some n → is_tick n;
  ci_curr n curr : c_main c = MCas n curr → n < curr;
  ci_full : c_main c = MClear → bounds_full (c_timer c);
  ci_cover x k st : abs (c_timer c) !! x = Some (k, st) → covered c k;
  ci_awake : attentive c;
  ci_thread : c_thread c ≠ TDone ∧ (∀ k, snapshot (c_thread c) = Some k → is_tick k);
  ci_park k : c_thread c = TPark k None ∨ c_thread c = TSleep k None → U64_MAX < tick_ms (c_timer c) * k;
  ci_clock : 0 <= c_clock c ∧ c_clock c * tick_ms (c_timer c) <= U64_MAX }.

Lemma sched_test_sched n v m : scheduling (sched_test n v) = Some m → m = n ∧ n < v.
Proof. unfold sched_test. destruct (v <=? n) eqn:E; cbn; intros; simplify_eq; zbool; lia. Qed.

Lemma sched_test_pc n v :
  sched_test n v ≠ MClear ∧ sched_test n v ≠ MUnpark ∧ (∀ m curr, sched_test n v = MCas m curr → m < curr).
Proof. unfold sched_test. destruct (v <=? n) eqn:E; zbool; split_and!; try done. intros ?? [= <- <-]. lia. Qed.

(** After reading [v], the bound [n] is stored already or is still pursued. *)
Lemma sched_test_cover n v k :
  n <= k → v <= k ∨ ∃ m, scheduling (sched_test n v) = Some m ∧ m <= k.
Proof. intros Hk. unfold sched_test. destruct (v <=? n) eqn:E; zbool; [left; lia|right; eauto]. Qed.

(** Steps of the owner that only work on the timer. *)
Lemma conc_inv_timer c t pc :
  conc_inv c → c_main c = MIdle → timer_good t → tick_ms t = tick_ms (c_timer c) →
  (pc = MIdle ∨ (pc = MClear ∧ bounds_full t) ∨ ∃ n, pc = MLoad n ∧ is_tick n) →
  (∀ x k st, abs t !! x = Some (k, st) → (∃ y st', abs (c_timer c) !! y = Some (k, st')) ∨ pc = MLoad k) →
  conc_inv (c_set_timer c t pc).
Proof.
  intros [_ Hst _ _ _ Hcov Haw Hth Hpk Hck] Hm Hg Hms Hpc Habs. split; cbn; rewrite ?Hms; try done.
  - intros n. destruct Hpc as [->|[[-> _]|(n' & -> & Hn)]]; cbn; intros; simplify_eq; done.
  - intros n curr ->. naive_solver.
  - intros ->. naive_solver.
  - intros x k st Hx. unfold covered. cbn. destruct (Habs x k st Hx) as [(y & st' & Hy)| ->]; [|naive_solver lia].
    destruct (Hcov y k st' Hy) as [?|[?|[?|[?|(n & Hn & _)]]]]; [by auto..|congruence|]. by rewrite Hm in Hn.
  - intros k Hk. destruct (Haw k Hk) as [?|[?|?]]; [by auto..|congruence].
Qed.

Lemma main_timer_steps c c' : conc_inv c → main_step c c' → c_main c = MIdle → conc_inv c'.
Proof.
  intros Hi Hs Hm. pose proof (ci_timer _ Hi) as Hg. destruct Hs; try congruence.
  - destruct (decide (Z.of_nat (size (abs (c_timer c))) < slab_capacity (entries (c_timer c)))) as [Hsz|Hsz].
    + destruct (insert_entry_good k st _ Hg ltac:(done) Hsz) as (tok & t' & E & Hg' & (Hms & _) & _ & _ & Ha).
      same_done. apply conc_inv_timer; try done.
      * right. right. pose proof (timer_tick_u64 _ (tg_inv _ Hg)). unfold is_tick, is_u64 in *. eexists. split; [done|]. lia.
      * intros x k' st'. rewrite Ha. intros [[_ [= <- _]]|[_ Hx]]%lookup_insert_Some; [by right|left; eauto].
    + rewrite insert_entry_full_good in * by (done || lia). done.
  - destruct (decide (Z.of_nat (size (abs (c_timer c))) < slab_capacity (entries (c_timer c)))) as [Hsz|Hsz].
    + destruct (insert_entry_good k st _ Hg ltac:(done) Hsz) as (tok & t' & E & _). by same_done.
    + rewrite insert_entry_full_good in * by (done || lia). simplify_eq. apply conc_inv_timer; eauto.
  - assert (timer_good t ∧ tick_ms t = tick_ms (c_timer c) ∧ abs t ⊆ abs (c_timer c)) as (Hg' & Hms & Hsub).
    { destruct (abs (c_timer c) !! to_token h) as [[k st]|] eqn:E.
      - destruct (decide (k = to_tick h)) as [->|Hne].
        + destruct (cancel_match h _ st Hg E) as (t' & E' & ? & (? & _) & _ & Ha). same_done.
          rewrite Ha. do 2 (split; [done|]). apply delete_subseteq.
        + rewrite cancel_no_match in * by congruence. by simplify_eq.
      - rewrite cancel_no_match in * by congruence. by simplify_eq. }
    apply conc_inv_timer; eauto. intros x k st Hx. left. exists x, st. by eapply lookup_weaken.
  - destruct (poll_loop_good target _ Hg ltac:(done)) as (r & E & Hr). same_done.
    destruct Hr as [(x & k & st & _ & _ & _ & _ & _ & Ha & (Hms & _) & _) Hg'].
    apply conc_inv_timer; eauto. intros y k' st'. rewrite Ha. intros [_ Hy]%lookup_delete_Some. eauto.
  - destruct (poll_loop_good target _ Hg ltac:(done)) as (r & E & Hr). same_done.
    destruct Hr as [(_ & (Hms & _) & Ha & _ & Hbf) Hg'].
    apply conc_inv_timer; eauto. intros y k' st'. rewrite Ha. eauto.
Qed.

Lemma cas_eq old new sh actual sh' :
  cas old new sh = (actual, sh') →
  actual = wakeup_state sh ∧ unparked sh' = unparked sh ∧
  wakeup_state sh' = (if actual =? old then new else wakeup_state sh).
Proof. unfold cas. intros [= <- <-]. by destruct (_ =? _). Qed.

Lemma main_shared_steps c c' : conc_inv c → main_step c c' → c_main c ≠ MIdle → conc_inv c'.
Proof.
  intros Hi Hs Hm. pose proof Hi as [Hg Hst Hsc Hcu Hfl Hcov Haw Hth Hpk Hck].
  destruct Hs as [| | | | |n Hpc En|k Hpc|k curr actual sh Hpc E|Hpc]; try congruence; split; cbn; try done.
  - intros m [= <-]. destruct (next_tick_good _ Hg (Hfl Hpc)) as (n' & E & Hn & _). by same_done.
  - intros x k st Hx. unfold covered. cbn.
    destruct (next_tick_good _ Hg (Hfl Hpc)) as (n' & E & _ & Hn). same_done. naive_solver.
  - intros j Hj. destruct (Haw j Hj) as [?|[?|?]]; [by auto..|congruence].
  - intros m [-> _]%sched_test_sched. apply Hsc. by rewrite Hpc.
  - apply sched_test_pc.
  - intros Hc. by destruct (sched_test_pc k (wakeup_state (c_shared c))) as [? _].
  - intros x j st Hx. unfold covered. cbn. destruct (Hcov x j st Hx) as [?|[?|[?|[?|(n & Hn & Hle)]]]]; [by auto..|congruence|].
    rewrite Hpc in Hn. cbn in Hn. simplify_eq. destruct (sched_test_cover n (wakeup_state (c_shared c)) j Hle); auto.
  - intros j Hj. destruct (Haw j Hj) as [?|[?|?]]; [by auto..|congruence].
  - destruct (cas_eq _ _ _ _ _ E) as (-> & _ & ->). case_match; [|done]. pose proof (Hsc k ltac:(by rewrite Hpc)) as Hk.
    by rewrite wrap64_id by (by apply is_tick_u64).
  - intros m. case_match; [done|]. intros [-> _]%sched_test_sched. apply Hsc. by rewrite Hpc.
  - intros m v. case_match; [done|]. apply sched_test_pc.
  - case_match; [done|]. intros Hc. by destruct (sched_test_pc k actual) as [? _].
  - intros x j st Hx. unfold covered. cbn. destruct (cas_eq _ _ _ _ _ E) as (-> & _ & ->).
    pose proof (Hsc k ltac:(by rewrite Hpc)) as Hk. rewrite wrap64_id by (by apply is_tick_u64).
    pose proof (Hcu k curr Hpc) as Hlt.
    destruct (Hcov x j st Hx) as [?|[?|[?|[?|(n & Hn & Hle)]]]]; [by auto..| |congruence|].
    + destruct (_ =? _) eqn:Eq; zbool; [|by auto]. right. right. left. lia.
    + rewrite Hpc in Hn. cbn in Hn. simplify_eq. destruct (_ =? _) eqn:Eq; [by auto|].
      destruct (sched_test_cover n (wakeup_state (c_shared c)) j Hle); auto.
  - intros j Hj. cbn. destruct (cas_eq _ _ _ _ _ E) as (-> & -> & ->).
    destruct (_ =? _) eqn:Eq; [by auto|]. destruct (Haw j Hj) as [?|[?|?]]; [by auto..|congruence].
  - intros x j st Hx. unfold covered. cbn. destruct (Hcov x j st Hx) as [?|[?|[?|[?|(n & Hn & Hle)]]]]; [by auto..|congruence|].
    by rewrite Hpc in Hn.
  - intros j Hj. auto.
Qed.

Lemma covered_set_thread c pc k : c_thread c ≠ TSet → covered c k → covered (c_set_thread c pc) k.
Proof. unfold covered. cbn. intros Hn [?|[?|[?|[?|?]]]]; auto 6; congruence. Qed.

Lemma USIZE_MAX_tick : is_tick USIZE_MAX.
Proof. apply TICK_MAX_tick. Qed.

Lemma thread_steps c c' : conc_inv c → thread_step (tick_ms (c_timer c)) c = Some c' → conc_inv c'.
Proof.
  intros Hi Hs. pose proof Hi as [Hg Hst Hsc Hcu Hfl Hcov Haw [Hth Hsn] Hpk Hck].
  pose proof USIZE_MAX_tick as HM. pose proof (tg_ms _ Hg) as Hms.
  unfold thread_step in Hs. destruct (c_thread c) as [|k|k m|k d|k| |] eqn:Ht; try done.
  - simplify_eq. split; cbn; try done.
    + intros x j st Hx. apply covered_set_thread; [congruence|by eapply Hcov].
    + intros j [= <-]. cbn. auto with lia.
    + split; [done|]. by intros j [= <-].
    + by intros j [?|?].
  - assert (is_tick k) as Hk by (by apply Hsn).
    replace (k =? TERMINATE_THREAD) with false in Hs by (unfold TERMINATE_THREAD, is_tick in *; lia).
    simplify_eq. split; cbn; try done.
    + intros x j st Hx. apply covered_set_thread; [congruence|by eapply Hcov].
    + intros j. cbn. destruct (_ <? _); [|done]. intros Hj. apply Haw. by rewrite Ht.
    + destruct (_ <? _); (split; [done|]); cbn; [by intros j [= <-]|done].
    + intros j. destruct (_ <? _); [|by intros [?|?]]. unfold checked_mul. destruct (_ <=? _) eqn:E; [by intros [?|?]|].
      intros [?|[= <-]]; [done|]. zbool. nia.
  - simplify_eq. split; cbn; try done.
    + intros x j st Hx. apply covered_set_thread; [congruence|by eapply Hcov].
    + intros j Hj. cbn. apply Haw. by rewrite Ht.
    + intros j [[= <- Hm]|?]; [|done]. apply Hpk. right. by destruct m.
  - assert (conc_inv (c_set_thread c TLoad)) as Hld.
    { split; cbn; try done; [|by intros j [?|?]]. intros x j st Hx. apply covered_set_thread; [congruence|by eapply Hcov]. }
    destruct (unparked (c_shared c)) eqn:Eu; [|repeat case_match; by simplify_eq].
    simplify_eq. destruct Hld as [? ? ? ? ? Hcl ? ? ? ?]. split; cbn in *; try done.
  - destruct (cas k USIZE_MAX (c_shared c)) as [actual sh] eqn:E. simplify_eq.
    destruct (cas_eq _ _ _ _ _ E) as (-> & Hu & Hw). split; cbn; try done.
    + rewrite Hw. by case_match.
    + intros x j st Hx. unfold covered. cbn. rewrite Hw. destruct (_ =? _); [by auto|].
      apply (covered_set_thread c); [congruence|by eapply Hcov].
    + intros j. cbn. rewrite Hw. destruct (_ =? _); cbn; intros [= <-]; auto with lia.
    + destruct (_ =? _); (split; [done|]); cbn; by intros j [= <-].
    + intros j. by case_match; intros [?|?].
  - simplify_eq. split; cbn; try done.
    + intros x j st Hx. unfold covered. cbn. auto.
    + intros j Hj. apply Haw. by rewrite Ht.
    + by intros j [?|?].
Qed.

Lemma env_steps c c' : conc_inv c → env_step c c' → conc_inv c'.
Proof.
  intros [Hg Hst Hsc Hcu Hfl Hcov Haw Hth Hpk Hck] [k d Ht|now Hle Hnow]; split; cbn; try done; [|by intros j [?|?]|lia].
  intros x j st Hx. apply covered_set_thread; [congruence|by eapply Hcov].
Qed.

Lemma conc_inv_step c c' : conc_inv c → cstep c c' → conc_inv c'.
Proof.
  intros Hi [c1 Hs|c1 Hs|c1 Hs].
  - destruct (c_main c) eqn:Hm; [by eapply main_timer_steps|by apply (main_shared_steps c); [..|congruence]..].
  - by eapply thread_steps.
  - by eapply env_steps.
Qed.

(** ** The thread delivers *)

Definition c_at (c : Conc) (now : Z) : Conc := mkConc (c_timer c) (c_shared c) (c_ready c) (c_main c) (c_thread c) now.

(** The next step of the thread; while it sleeps, time passes until it wakes up. *)
Definition go_on (tick_ms : Z) (c : Conc) : option Conc :=
  match thread_step tick_ms c with
  | Some c' => Some c'
  | None => match c_thread c with TPark _ (Some d) => thread_step tick_ms (c_at c d) | _ => None end
  end.

(** At most [n] such steps, until the timer is readable. *)
Fixpoint thread_run (n : nat) (tick_ms : Z) (c : Conc) : Conc :=
  match n with
  | O => c
  | Datatypes.S n =>
      if decide (c_ready c = Ready.readable) then c
      else match go_on tick_ms c with Some c' => thread_run n tick_ms c' | None => c end
  end.

(** When a sleep that has begun, or is about to, is over at the latest. *)
Definition wake_time (c : Conc) : Z :=
  match c_thread c with
  | TPark _ (Some d) => d
  | TSleep _ (Some m) => c_clock c + m + 1
  | _ => c_clock c
  end.

(** The thread sleeps no longer than until [b]. *)
Definition wakes_by (b : Z) (c : Conc) : Prop :=
  c_clock c <= b ∧ (unparked (c_shared c) = true ∨ wake_time c <= b).

(** A state in which the thread still has something to deliver. *)
Definition waiting (c : Conc) : Prop :=
  c_main c = MIdle ∧ (c_thread c = TSet ∨ wakeup_state (c_shared c) <= c_clock c).

(** Steps the thread needs at most until the readiness is set. *)
Definition distance (c : Conc) : nat :=
  match c_thread c with
  | TSet => 1
  | TCas k => if k =? wakeup_state (c_shared c) then 2 else 4
  | TTop k => if k =? wakeup_state (c_shared c) then 3 else if c_clock c <? k then 7 else 5
  | TLoad => 4
  | TPark _ _ => 5
  | TSleep _ _ => 6
  | TDone => 0
  end.

Lemma c_at_inv c now : conc_inv c → c_clock c <= now → now * tick_ms (c_timer c) <= U64_MAX → conc_inv (c_at c now).
Proof. intros Hi H1 H2. eapply env_steps; [exact Hi|]. by apply e_clock. Qed.

(** A thread that sleeps with no reason to wake sleeps for no later tick than the
    scheduled one, and for a limited time. *)
Lemma sleeper_time c k d : conc_inv c → c_main c = MIdle → wakeup_state (c_shared c) <= c_clock c → unparked (c_shared c) = false →
  snapshot (c_thread c) = Some k → k <= c_clock c ∧ (c_thread c = TPark k d ∨ c_thread c = TSleep k d → d ≠ None).
Proof.
  intros Hi Hm Hw Hu Hs. destruct (ci_awake _ Hi k Hs) as [Hle|[?|?]]; [|congruence..]. split; [lia|]. intros Ht ->.
  pose proof (ci_park _ Hi k Ht) as Hbig. pose proof (ci_clock _ Hi) as [H0 H1]. pose proof (tg_ms _ (ci_timer _ Hi)). nia.
Qed.

(** The thread goes on, and comes closer to setting the readiness. *)
Definition progresses (b : Z) (c : Conc) : Prop :=
  ∃ c', go_on (tick_ms (c_timer c)) c = Some c' ∧ tick_ms (c_timer c') = tick_ms (c_timer c) ∧ conc_inv c' ∧ wakes_by b c' ∧
    (c_ready c' = Ready.readable ∨ (waiting c' ∧ (distance c' < distance c)%nat)).

Lemma step_progresses b c c' : conc_inv c → thread_step (tick_ms (c_timer c)) c = Some c' → c_timer c' = c_timer c → wakes_by b c' →
  c_ready c' = Ready.readable ∨ (waiting c' ∧ (distance c' < distance c)%nat) → progresses b c.
Proof.
  intros Hi E Et Hby Hd. exists c'. rewrite Et. unfold go_on. rewrite E. split_and!; try done. by eapply thread_steps.
Qed.

(** Computes the step of the thread, given what it depends on. *)
Ltac stepping := eapply step_progresses; [done|unfold thread_step, cas; repeat match goal with H : _ = _ |- _ => rewrite H end; reflexivity|done|cbn; auto|].

Lemma top_progresses b c k : conc_inv c → waiting c → wakes_by b c → c_thread c = TTop k → progresses b c.
Proof.
  intros Hi (Hm & Hw) (Hcb & Hby) Ht. unfold wake_time in Hby. rewrite Ht in Hw, Hby. destruct Hw as [?|Hw]; [done|].
  assert ((k =? TERMINATE_THREAD) = false) as Hk.
  { pose proof (proj2 (ci_thread _ Hi) k ltac:(by rewrite Ht)). unfold TERMINATE_THREAD, is_tick in *. lia. }
  destruct (c_clock c <? k) eqn:E1.
  - assert (unparked (c_shared c) = true) as Hu.
    { destruct (unparked (c_shared c)) eqn:Eu; [done|]. destruct (sleeper_time c k None Hi Hm Hw Eu) as [? _]; [by rewrite Ht|]. zbool. lia. }
    stepping; [split; cbn; auto|]. right. unfold distance. rewrite Ht, E1. cbn. split; [split; auto|].
    destruct (k =? wakeup_state (c_shared c)) eqn:E2; [zbool; lia|lia].
  - stepping; [split; cbn; auto|]. right. unfold distance. rewrite Ht, E1. cbn. split; [split; auto|]. destruct (k =? wakeup_state (c_shared c)) eqn:E2; lia.
Qed.

Lemma park_progresses b c k d : conc_inv c → waiting c → wakes_by b c → b * tick_ms (c_timer c) <= U64_MAX → c_thread c = TPark k d → progresses b c.
Proof.
  intros Hi (Hm & Hw) (Hcb & Hby) Hb Ht. unfold wake_time in Hby. rewrite Ht in Hw, Hby. destruct Hw as [?|Hw]; [done|].
  destruct (unparked (c_shared c)) eqn:Eu.
  { stepping; [split; cbn; auto|]. right. unfold distance. rewrite Ht. cbn. split; [split; auto|lia]. }
  destruct Hby as [?|Hby]; [done|].
  destruct (sleeper_time c k d Hi Hm Hw Eu) as [_ Hd]; [by rewrite Ht|]. destruct d as [d|]; [|destruct (Hd ltac:(auto) eq_refl)].
  destruct (d <=? c_clock c) eqn:Ed; [stepping; [split; cbn; auto|]; right; unfold distance; rewrite Ht; cbn; split; [split; auto|lia]|]. zbool.
  assert (thread_step (tick_ms (c_timer c)) (c_at c d) = Some (c_set_thread (c_at c d) TLoad)) as E
    by (unfold thread_step; cbn; rewrite Ht, Eu; by replace (d <=? d) with true by lia).
  assert (thread_step (tick_ms (c_timer c)) c = None) as En by (unfold thread_step; rewrite Ht, Eu; by replace (d <=? c_clock c) with false by lia).
  exists (c_set_thread (c_at c d) TLoad). unfold go_on. rewrite En, Ht. split; [done|]. split; [done|]. split.
  { eapply (thread_steps (c_at c d)); [|exact E]. apply c_at_inv; [done|lia|]. pose proof (tg_ms _ (ci_timer _ Hi)). nia. }
  split; [split; cbn; [lia|auto]|]. right. unfold distance. rewrite Ht. cbn. split; [split; [done|right; cbn; lia]|lia].
Qed.

Lemma thread_progress b c :
  conc_inv c → waiting c → wakes_by b c → b * tick_ms (c_timer c) <= U64_MAX → progresses b c.
Proof.
  intros Hi Hw Hby Hb. destruct (c_thread c) as [|k|k m|k d|k| |] eqn:Ht;
    [|by eapply top_progresses| |by eapply park_progresses| | |by destruct (ci_thread _ Hi)];
    destruct Hw as (Hm & Hw), Hby as (Hcb & Hby); unfold wake_time in Hby; rewrite Ht in Hw, Hby; (destruct Hw as [?|Hw]; try done).
  - stepping; [split; cbn; auto|]. right. unfold distance. rewrite Ht. cbn. rewrite Z.eqb_refl. split; [split; auto|lia].
  - stepping; [split; cbn; [done|]; destruct Hby; [by left|right; by destruct m]|]. right. unfold distance. rewrite Ht. cbn. split; [split; auto|lia].
  - destruct (wakeup_state (c_shared c) =? k) eqn:E; (stepping; [split; cbn; auto|]); right; unfold distance; rewrite Ht, (Z.eqb_sym k), E; cbn;
      rewrite ?Z.eqb_refl; (split; [split; auto|lia]).
  - stepping; [split; cbn; auto|]. by left.
  - stepping; [split; cbn; auto|]. by left.
Qed.

Lemma thread_delivers_n b n : ∀ c,
  conc_inv c → c_ready c = Ready.readable ∨ (waiting c ∧ (distance c ≤ n)%nat) → wakes_by b c → b * tick_ms (c_timer c) <= U64_MAX →
  let c' := thread_run n (tick_ms (c_timer c)) c in c_ready c' = Ready.readable ∧ c_clock c' <= b.
Proof.
  induction n as [|n IH]; intros c Hi Hw Hby Hb c'; subst c'; cbn [thread_run].
  { destruct Hw as [Hr|[Hw Hd]]; [split; [done|apply Hby]|].
    destruct (thread_progress b c Hi Hw Hby Hb) as (c' & _ & _ & _ & _ & Hc'). exfalso.
    destruct (ci_thread _ Hi) as [Hne _]. unfold distance in Hd. destruct (c_thread c); repeat case_match; lia || done. }
  case_decide as Hr; [split; [done|apply Hby]|]. destruct Hw as [?|[Hw Hd]]; [done|].
  destruct (thread_progress b c Hi Hw Hby Hb) as (c' & E & Hms & Hi' & Hby' & Hc'). rewrite E, <- Hms. apply IH; [done| |done|by rewrite Hms].
  destruct Hc' as [?|[? ?]]; [by left|right]. split; [done|lia].
Qed.

(** ** Registration starts the two programs *)

(** After [register]: the state is new, the thread has not run, the owner is
    about to schedule [next_tick]. *)
Definition conc_init t (n clock : Z) (r : Ready.t) : Conc :=
  mkConc t (mkShared USIZE_MAX false) r (MLoad n) TLoad clock.

Definition reachable (c : Conc) : Prop :=
  ∃ t n clock r, timer_good t ∧ bounds_full t ∧ next_tick t = Done (Some n) ∧
    0 <= clock ∧ clock * tick_ms t <= U64_MAX ∧ rtc cstep (conc_init t n clock r) c.

Lemma conc_init_inv t n clock r :
  timer_good t → bounds_full t → next_tick t = Done (Some n) →
  0 <= clock → clock * tick_ms t <= U64_MAX → conc_inv (conc_init t n clock r).
Proof.
  intros Hg Hb En H0 Hc. destruct (next_tick_good t Hg Hb) as (n' & E & Hn & Hle). same_done.
  split; cbn; try done.
  - by intros m [= <-].
  - intros x k st Hx. unfold covered. cbn. naive_solver.
  - by intros k [?|?].
Qed.

Lemma reachable_inv c : reachable c → conc_inv c.
Proof.
  intros (t & n & clock & r & Hg & Hb & En & H0 & Hc & Hr).
  pose proof (conc_init_inv t n clock r Hg Hb En H0 Hc) as Hi. clear -Hi Hr slab_laws.
  induction Hr; eauto using conc_inv_step.
Qed.

(** C8: in every interleaving of the owner of a registered timer with its
    wakeup thread, once the owner is between two operations and some pending
    timeout is due, the wakeup thread needs at most seven more steps of its own to
    make the timer readable, the end of a sleep that has begun included, and no
    time passes but for that sleep: no wakeup is lost. *)
Theorem no_lost_wakeup c x k st :
  reachable c → c_main c = MIdle → abs (c_timer c) !! x = Some (k, st) → k <= c_clock c →
  Z.max (c_clock c) (wake_time c) * tick_ms (c_timer c) <= U64_MAX →
  let c' := thread_run 7 (tick_ms (c_timer c)) c in
  c_ready c' = Ready.readable ∧ c_clock c' <= Z.max (c_clock c) (wake_time c).
Proof.
  intros Hr Hm Hx Hk Hmax. pose proof (reachable_inv c Hr) as Hi.
  apply thread_delivers_n; [done| |split; [lia|right; lia]|done].
  destruct (decide (c_ready c = Ready.readable)) as [Hrd|Hrd]; [by left|right].
  split; [|unfold distance; repeat case_match; lia]. split; [done|].
  destruct (ci_cover _ Hi x k st Hx) as [?|[?|[?|[?|(n & Hn & _)]]]]; [done|by auto|right; lia|congruence|].
  by rewrite Hm in Hn.
Qed.

(** A parked wakeup thread that has not been woken sleeps for no later tick than the
    least pending one, unless the timer is readable already. *)
Theorem never_oversleeps c y d x k st :
  reachable c → c_main c = MIdle → c_thread c = TPark y d → unparked (c_shared c) = false →
  c_ready c ≠ Ready.readable → abs (c_timer c) !! x = Some (k, st) → y <= k.
Proof.
  intros Hr Hm Ht Hu Hrd Hx. pose proof (reachable_inv c Hr) as Hi.
  assert (snapshot (c_thread c) = Some y) as Hs by (by rewrite Ht).
  destruct (ci_awake _ Hi y Hs) as [Hle|[?|?]]; [|congruence..].
  destruct (ci_cover _ Hi x k st Hx) as [?|[?|[?|[?|(n & Hn & _)]]]]; [done|congruence|lia|congruence|].
  by rewrite Hm in Hn.
Qed.
End wakeup.
Arguments Conc S C T R H : clear implicits.

(** Sleeping [m * tick_ms] milliseconds moves the clock by [m] ticks. *)
Lemma tick_of_add d d' ms m :
  Duration_wf d → 0 < ms → 0 <= m →
  total_nanos d + m * ms * NANOS_PER_MILLI <= total_nanos d' →
  ceil_div (total_nanos d') NANOS_PER_MILLI + ms / 2 <= U64_MAX →
  tick_of ms d + m <= tick_of ms d'.
Proof.
  intros [[Hs _] Hn] Hms Hm Hle Hmax. unfold tick_of, saturating_add.
  set (a := ceil_div (total_nanos d) NANOS_PER_MILLI) in *. set (b := ceil_div (total_nanos d') NANOS_PER_MILLI) in *.
  assert (a + m * ms <= b) as Hab.
  { unfold a, b, ceil_div. rewrite <- Z.div_add by done. apply Z.div_le_mono; [done|lia]. }
  assert (0 <= ms / 2) by (apply Z.div_pos; lia). assert (0 <= m * ms) by nia.
  rewrite !Z.min_r by lia. rewrite <- Z.div_add by lia. apply Z.div_le_mono; lia.
Qed.

(** ** A concrete interleaving *)

Definition wheel16_a : Timer map_slab option string unit unit :=
  match insert_entry 1 "a"%string (demo_wheel 16 16) with Done (_, t) => t | _ => demo_wheel 16 16 end.

(** The thread has parked before the owner inserts a timeout; it is unparked and
    parks again, now for tick 1, a tick from now; the clock has reached [clock]. *)
Definition parked (clock : Z) : Conc map_slab option string unit unit :=
  mkConc wheel16_a (mkShared 1 false) Ready.none MIdle (TPark 1 (Some 2)) clock.

(** Its states: before and after the insertion. *)
Definition before (pc : MainPc) (th : ThreadPc) : Conc map_slab option string unit unit :=
  mkConc (demo_wheel 16 16) (mkShared USIZE_MAX false) Ready.none pc th 0.
Definition after (sh : Shared) (pc : MainPc) (th : ThreadPc) : Conc map_slab option string unit unit :=
  mkConc wheel16_a sh Ready.none pc th 0.

Lemma cstep_main_eq c c1 c2 :
  main_step (S := map_slab) (C := option) (T := string) (R := unit) (H := unit) c c1 → c1 = c2 → cstep c c2.
Proof. intros Hs <-. by apply cs_main. Qed.

Lemma parked_path : rtc cstep (before (MLoad TICK_MAX) TLoad) (parked 0).
Proof.
  apply rtc_l with (before MIdle TLoad); [by eapply cstep_main_eq; [apply (m_load _ TICK_MAX)|]|].
  apply rtc_l with (before MIdle (TTop USIZE_MAX)); [by apply cs_thread|].
  apply rtc_l with (before MIdle (TSleep USIZE_MAX None)); [by apply cs_thread|].
  apply rtc_l with (before MIdle (TPark USIZE_MAX None)); [by apply cs_thread|].
  apply rtc_l with (after (mkShared USIZE_MAX false) (MLoad 1) (TPark USIZE_MAX None)).
  { eapply cstep_main_eq; [by eapply (m_insert _ 1 "a"%string (mkTimeout (mkToken 0) 1)); vm_compute|done]. }
  apply rtc_l with (after (mkShared USIZE_MAX false) (MCas 1 USIZE_MAX) (TPark USIZE_MAX None)).
  { by eapply cstep_main_eq; [apply (m_load _ 1)|]. }
  apply rtc_l with (after (mkShared 1 false) MUnpark (TPark USIZE_MAX None)).
  { by eapply cstep_main_eq; [apply (m_cas _ 1 USIZE_MAX USIZE_MAX (mkShared 1 false))|]. }
  apply rtc_l with (after (mkShared 1 true) MIdle (TPark USIZE_MAX None)).
  { by eapply cstep_main_eq; [apply m_unpark|]. }
  apply rtc_l with (after (mkShared 1 false) MIdle TLoad); [by apply cs_thread|].
  apply rtc_l with (after (mkShared 1 false) MIdle (TTop 1)); [by apply cs_thread|].
  apply rtc_l with (after (mkShared 1 false) MIdle (TSleep 1 (Some 1))); [by apply cs_thread|].
  apply rtc_once. by apply cs_thread.
Qed.

Lemma parked_reachable clock : 0 <= clock <= 10 → reachable (parked clock).
Proof.
  intros Hclock. exists (demo_wheel 16 16), TICK_MAX, 0, Ready.none. split; [apply demo_inv|].
  assert (abs (demo_wheel 16 16) = ∅) as Ha by (vm_compute; done).
  split; [intros x k st we; by rewrite Ha, lookup_empty|]. do 3 (split; [done|]).
  eapply rtc_r; [apply parked_path|]. apply cs_env, (e_clock (parked 0) clock); [cbn; lia|].
  change (clock * 100 <= U64_MAX). unfold U64_MAX. lia.
Qed.

Lemma no_lost_wakeup_witness :
  let c' := thread_run 7 100 (parked 1) in c_ready c' = Ready.readable ∧ c_clock c' <= 2.
Proof.
  apply (no_lost_wakeup (parked 1) (mkToken 0) 1 "a"%string);
    [apply parked_reachable; lia|done|vm_compute; done|done|vm_compute; discriminate].
Defined.

Lemma never_oversleeps_witness : 1 <= 1.
Proof.
  apply (never_oversleeps (parked 0) 1 (Some 2) (mkToken 0) 1 "a"%string);
    [apply parked_reachable; lia|done|done|done|done|vm_compute; done].
Defined.
