(* ===== verification/ReadyQueue.v ===== *)
(** * poll.rs: the readiness queue

    [ReadinessQueueInner], its nodes and the handles to them.  Nodes live on a
    heap, a finite map from addresses; following a pointer to an address that is
    not allocated is undefined behaviour in the source and [Panic] here, so the
    theorems that exclude [Panic] are memory safety.  A [Box] pointer and a raw
    [ReadyRef] are both addresses, null is [None].  Code runs one operation at a
    time here; the compare-and-swap loops are kept. *)

From S2P Require Import Prelude Event Iface.

Definition loc : Type := positive.

Definition MAX_REFCOUNT : Z := ISIZE_MAX.
Definition NODE_QUEUED_FLAG : Z := 1.
Definition AWAKEN : Token := mkToken USIZE_MAX.

(** [sys::Awakener] as the queue uses it. *)
Class AwakenerOps (A : Type) : Type := {
  awk_wakeup : A → io_result unit * A;
  awk_cleanup : A → A }.

Record RegistrationData : Type := mkData { rd_token : Token; rd_interest : Ready.t; rd_opts : PollOpt.t }.

Definition RegistrationData_new (token : Token) (interest : Ready.t) (opts : PollOpt.t) : RegistrationData :=
  mkData token interest opts.
Definition RegistrationData_update (token : Token) (interest : Ready.t) (opts : PollOpt.t)
    (_ : RegistrationData) : RegistrationData := mkData token interest opts.
Definition RegistrationData_disable (d : RegistrationData) : RegistrationData :=
  mkData (rd_token d) Ready.none PollOpt.empty.

Record ReadinessNode : Type := mkNode {
  next_all_nodes : option loc;
  prev_all_nodes : option loc;
  registration_data : RegistrationData;
  next_readiness : option loc;
  events : Z;
  queued : Z;
  ref_count : Z }.

Definition ReadinessNode_new (token : Token) (interest : Ready.t) (opts : PollOpt.t) (ref_count : Z) : ReadinessNode :=
  mkNode None None (RegistrationData_new token interest opts) None 0 0 ref_count.

Definition n_set_next_all x n :=
  mkNode x (prev_all_nodes n) (registration_data n) (next_readiness n) (events n) (queued n) (ref_count n).
Definition n_set_prev_all x n :=
  mkNode (next_all_nodes n) x (registration_data n) (next_readiness n) (events n) (queued n) (ref_count n).
Definition n_set_data f n :=
  mkNode (next_all_nodes n) (prev_all_nodes n) (f (registration_data n)) (next_readiness n) (events n) (queued n) (ref_count n).
Definition n_set_next_readiness x n :=
  mkNode (next_all_nodes n) (prev_all_nodes n) (registration_data n) x (events n) (queued n) (ref_count n).
Definition n_set_events x n :=
  mkNode (next_all_nodes n) (prev_all_nodes n) (registration_data n) (next_readiness n) x (queued n) (ref_count n).
Definition n_set_queued x n :=
  mkNode (next_all_nodes n) (prev_all_nodes n) (registration_data n) (next_readiness n) (events n) x (ref_count n).
Definition n_set_ref_count x n :=
  mkNode (next_all_nodes n) (prev_all_nodes n) (registration_data n) (next_readiness n) (events n) (queued n) x.

(** [ReadinessNode::{poll_events, token, interest, poll_opts}]. *)
Definition n_token (n : ReadinessNode) : Token := rd_token (registration_data n).
Definition n_interest (n : ReadinessNode) : Ready.t := rd_interest (registration_data n).
Definition poll_opts (n : ReadinessNode) : PollOpt.t := rd_opts (registration_data n).
Definition poll_events (n : ReadinessNode) : Ready.t :=
  Ready.bitand (Ready.bitor (n_interest n) event_drop) (from_usize (events n)).

(** The queue behind the [Arc]; [q_id] is the address of the [Arc]. *)
Record Queue (A : Type) : Type := mkQueue {
  q_id : Z;
  awakener : A;
  head_all_nodes : option loc;
  head_readiness : option loc;
  sleep_token : loc;
  heap : gmap loc ReadinessNode }.
Arguments mkQueue {A} _ _ _ _ _ _.
Arguments q_id {A} _.
Arguments awakener {A} _.
Arguments head_all_nodes {A} _.
Arguments head_readiness {A} _.
Arguments sleep_token {A} _.
Arguments heap {A} _.

(** [RegistrationInner]: what [Registration] and [SetReadiness] wrap. *)
Record RegistrationInner : Type := mkHandle { h_queue : Z; h_node : loc }.

(** [ReadyRef]: a raw pointer to a node. *)
Module ReadyRef.
Definition new (ptr : option loc) : option loc := ptr.
Definition none : option loc := None.
(** The pointer taken out, and what is left of the reference. *)
Definition take (r : option loc) : option loc * option loc := (r, None).
Definition is_none (r : option loc) : bool := match r with None => true | Some _ => false end.
Definition is_some (r : option loc) : bool := negb (is_none r).
Definition clone (r : option loc) : option loc := new r.
End ReadyRef.

Section queue.
Context {A : Type} {awk_ops : AwakenerOps A}.
Abbreviation QM := (M (Queue A)).
Implicit Types q : Queue A.

Definition set_awakener (a : A) q :=
  mkQueue (q_id q) a (head_all_nodes q) (head_readiness q) (sleep_token q) (heap q).
Definition set_head_all (x : option loc) (q : Queue A) : Queue A :=
  mkQueue (q_id q) (awakener q) x (head_readiness q) (sleep_token q) (heap q).
Definition set_head_readiness (x : option loc) (q : Queue A) : Queue A :=
  mkQueue (q_id q) (awakener q) (head_all_nodes q) x (sleep_token q) (heap q).
Definition set_heap (h : gmap loc ReadinessNode) (q : Queue A) : Queue A :=
  mkQueue (q_id q) (awakener q) (head_all_nodes q) (head_readiness q) (sleep_token q) h.

(** ** Pointers *)

(** Reading and updating the node behind a non-null pointer. *)
Definition read_node (l : loc) : QM ReadinessNode := λ q,
  match heap q !! l with Some n => Done (n, q) | None => Panic end.
Definition write_node (l : loc) (f : ReadinessNode → ReadinessNode) : QM unit := λ q,
  match heap q !! l with Some n => Done (tt, set_heap (<[l := f n]> (heap q)) q) | None => Panic end.

(** [Box::new]: some address that is not in use. *)
Definition alloc (n : ReadinessNode) : QM loc := λ q,
  let l := fresh ({[ sleep_token q ]} ∪ dom (heap q) : gset loc) in
  Done (l, set_heap (<[l := n]> (heap q)) q).

(** Dropping a [Box<ReadinessNode>] frees it and the list it owns. *)
Fixpoint drop_box (fuel : nat) (l : loc) : QM unit :=
  match fuel with
  | O => out_of_fuel
  | S fuel =>
      n ← read_node l;
      _ ← modify (λ q, set_heap (delete l (heap q)) q);
      match next_all_nodes n with
      | Some l => drop_box fuel l
      | None => mret tt
      end
  end.

(** ** ReadinessQueue *)

Definition ReadinessQueue_new (id : Z) (sleep : loc) (aw : io_result A) : io_result (Queue A) :=
  match aw with
  | Ok a => Ok (mkQueue id a None None sleep ∅)
  | Err e => Err e
  end.

Definition wakeup : QM (io_result unit) := λ q,
  let '(r, a) := awk_wakeup (awakener q) in Done (r, set_awakener a q).

(** [head_readiness.compare_and_swap(old, new)]. *)
Definition cas_head (old new : option loc) : QM (option loc) := λ q,
  Done (head_readiness q, if decide (head_readiness q = old) then set_head_readiness new q else q).

Definition prepare_for_sleep : QM bool :=
  s ← gets sleep_token;
  h ← cas_head None (Some s);
  mret (bool_decide (h = None)).

Definition take_ready : QM (option loc) :=
  head ← gets head_readiness;
  _ ← modify (set_head_readiness None);
  s ← gets sleep_token;
  mret (if decide (head = Some s) then None else head).

Definition new_readiness_node (token : Token) (interest : Ready.t) (opts : PollOpt.t) (ref_count : Z) : QM loc :=
  node ← alloc (ReadinessNode_new token interest opts ref_count);
  head ← gets head_all_nodes;
  _ ← modify (set_head_all None);
  _ ← write_node node (n_set_next_all head);
  _ ← match head with
      | Some next => write_node next (n_set_prev_all (Some node))
      | None => mret tt
      end;
  _ ← modify (set_head_all (Some node));
  mret node.

Fixpoint prepend_loop (fuel : nat) (node : loc) (curr_head : option loc) : QM bool :=
  match fuel with
  | O => out_of_fuel
  | S fuel =>
      s ← gets sleep_token;
      let node_next := if decide (curr_head = Some s) then None else curr_head in
      _ ← write_node node (n_set_next_readiness node_next);
      next_head ← cas_head curr_head (Some node);
      if decide (curr_head = next_head)
      then mret (bool_decide (curr_head = Some s))
      else prepend_loop fuel node next_head
  end.

Definition prepend_readiness_node (node : loc) : QM bool :=
  curr_head ← gets head_readiness;
  prepend_loop 1 node curr_head.

Definition queue_is_empty : QM bool := gets (λ q, bool_decide (head_readiness q = None)).

(** [ReadinessNode::unlink]: the node leaves the list of all nodes; the box that
    owned it is returned. *)
Definition unlink (l : loc) : QM loc :=
  n ← read_node l;
  _ ← match next_all_nodes n with
      | Some next => write_node next (n_set_prev_all (prev_all_nodes n))
      | None => mret tt
      end;
  n ← read_node l;
  _ ← write_node l (n_set_prev_all None);
  match prev_all_nodes n with
  | Some prev =>
      p ← read_node prev;
      node ← lift (unwrap (next_all_nodes p));
      _ ← write_node prev (n_set_next_all None);
      n ← read_node l;
      _ ← write_node l (n_set_next_all None);
      _ ← write_node prev (n_set_next_all (next_all_nodes n));
      mret node
  | None =>
      head ← gets head_all_nodes;
      node ← lift (unwrap head);
      n ← read_node l;
      _ ← write_node l (n_set_next_all None);
      _ ← modify (set_head_all (next_all_nodes n));
      mret node
  end.

Definition unlink_node (node : loc) : QM loc := unlink node.

(** [node.queued.compare_and_swap(old, new)]. *)
Definition cas_queued (l : loc) (old new : Z) : QM Z :=
  n ← read_node l;
  _ ← (if queued n =? old then write_node l (n_set_queued new) else mret tt);
  mret (queued n).

(** [ReadyRef::as_ref] and [as_mut]: the node behind a pointer that is not null. *)
Definition as_ref (r : option loc) : QM (option ReadinessNode) :=
  match r with None => mret None | Some ptr => n ← read_node ptr; mret (Some n) end.

(** [ReadyList::next], as it is written: the next reference and the new head. *)
Definition ReadyList_next (head : option loc) : QM (option (option loc) * option loc) :=
  let (next, head) := ReadyRef.take head in
  if ReadyRef.is_some next then
    o ← as_ref next;
    head ← match o, next with
           | Some n, Some ptr =>
               let (taken, left) := ReadyRef.take (next_readiness n) in
               _ ← write_node ptr (n_set_next_readiness left);
               mret taken
           | _, _ => mret head
           end;
    mret (Some next, head)
  else mret (None, head).

(** The same, with the node it returns. *)
Definition ready_next (head : option loc) : QM (option (loc * option loc)) :=
  match head with
  | None => mret None
  | Some l =>
      n ← read_node l;
      _ ← write_node l (n_set_next_readiness None);
      mret (Some (l, next_readiness n))
  end.

(** The inner loop of [ReadinessQueue::poll]: unset the queued flag, or queue
    the node again. *)
Fixpoint dequeue_loop (fuel : nat) (node : loc) (opts : PollOpt.t) (queued : Z) (events : Ready.t) : QM Ready.t :=
  match fuel with
  | O => out_of_fuel
  | S fuel =>
      if is_drop events then mret events
      else if PollOpt.is_edge opts || is_empty events then
        next ← cas_queued node queued 0;
        n ← read_node node;
        let events := poll_events n in
        if queued =? next then mret events else dequeue_loop fuel node opts next events
      else
        needs_wakeup ← prepend_readiness_node node;
        (* debug_assert!(!needs_wakeup) *)
        if needs_wakeup : bool then panic else mret events
  end.

Section poll.
Context {E : Type} (push_event : Event.t → E → E).

(** The body of the loop of [ReadinessQueue::poll]. *)
Definition process_node (node : loc) (dst : E) : QM E :=
  n ← read_node node;
  let opts := poll_opts n in
  events ← dequeue_loop 1 node opts (queued n) (poll_events n);
  if is_drop events then
    b ← unlink_node node;
    _ ← drop_box 1 b;
    mret dst
  else if negb (Ready.is_none events) then
    n ← read_node node;
    let dst := push_event (Event.new events (n_token n)) dst in
    _ ← (if PollOpt.is_oneshot opts then write_node node (n_set_data RegistrationData_disable) else mret tt);
    mret dst
  else mret dst.

Fixpoint queue_poll_loop (fuel : nat) (head : option loc) (dst : E) : QM E :=
  match fuel with
  | O => out_of_fuel
  | S fuel =>
      o ← ready_next head;
      match o with
      | None => mret dst
      | Some (node, head) =>
          dst ← process_node node dst;
          queue_poll_loop fuel head dst
      end
  end.

(** [ReadinessQueue::poll]: every node is visited at most once. *)
Definition queue_poll (dst : E) : QM E :=
  ready ← take_ready;
  n ← gets (λ q, size (heap q));
  queue_poll_loop (S n) ready dst.
End poll.

(** ** RegistrationInner *)

Definition queue_for_processing (h : RegistrationInner) : QM bool :=
  prev ← cas_queued (h_node h) 0 NODE_QUEUED_FLAG;
  if prev =? 0 then prepend_readiness_node (h_node h) else mret false.

Definition inner_readiness (h : RegistrationInner) : QM Ready.t :=
  n ← read_node (h_node h); mret (from_usize (events n)).

Definition inner_set_readiness (h : RegistrationInner) (ready : Ready.t) : QM (io_result unit) :=
  _ ← write_node (h_node h) (n_set_events (as_usize ready));
  if is_empty ready then mret (Ok tt)
  else
    needs_wakeup ← queue_for_processing h;
    if needs_wakeup : bool
    then try! wakeup; mret (Ok tt)
    else mret (Ok tt).

(** [registration_data_mut(queue)], used for the mutation [f]. *)
Definition registration_data_mut (h : RegistrationInner) (queue : Z)
    (f : RegistrationData → RegistrationData) : QM (io_result unit) :=
  if negb (h_queue h =? queue)
  then mret (Err (io_custom Other "registration registered with another instance of Poll"))
  else _ ← write_node (h_node h) (n_set_data f); mret (Ok tt).

Definition inner_update (h : RegistrationInner) (queue : Z) (token : Token) (interest : Ready.t)
    (opts : PollOpt.t) : QM (io_result unit) :=
  try! registration_data_mut h queue (RegistrationData_update token interest opts);
  r ← inner_readiness h;
  if negb (is_empty r)
  then needs_wakeup ← queue_for_processing h;
       (* debug_assert!(!needs_wakeup) *)
       if needs_wakeup : bool then panic else mret (Ok tt)
  else mret (Ok tt).

Definition inner_new (queue : Z) (token : Token) (interest : Ready.t) (opts : PollOpt.t) : QM RegistrationInner :=
  node ← new_readiness_node token interest opts 1;
  mret (mkHandle queue node).

Definition inner_clone (h : RegistrationInner) : QM RegistrationInner :=
  n ← read_node (h_node h);
  let old_size := ref_count n in
  _ ← write_node (h_node h) (n_set_ref_count (wrap64 (old_size + 1)));
  if negb (Z.land old_size (not64 MAX_REFCOUNT) =? 0) then panic
  else mret (mkHandle (h_queue h) (h_node h)).

Definition inner_drop (h : RegistrationInner) : QM unit :=
  n ← read_node (h_node h);
  let old_size := ref_count n in
  _ ← write_node (h_node h) (n_set_ref_count (wrap64 (old_size - 1)));
  if negb (old_size =? 1) then mret tt
  else _ ← inner_set_readiness h event_drop; mret tt.

(** ** Registration and SetReadiness *)

Definition Registration_new (queue : Z) (token : Token) (interest : Ready.t) (opts : PollOpt.t)
    : QM (RegistrationInner * RegistrationInner) :=
  inner ← inner_new queue token interest opts;
  registration ← inner_clone inner;
  set_readiness ← inner_clone inner;
  _ ← inner_drop inner;
  mret (registration, set_readiness).

Definition Registration_update (h : RegistrationInner) (queue : Z) (token : Token) (interest : Ready.t)
    (opts : PollOpt.t) : QM (io_result unit) := inner_update h queue token interest opts.

Definition Registration_deregister (h : RegistrationInner) (queue : Z) : QM (io_result unit) :=
  inner_update h queue (mkToken 0) Ready.none PollOpt.empty.

(** [Drop for Registration], then the drop of its field. *)
Definition Registration_drop (h : RegistrationInner) : QM unit :=
  r ← registration_data_mut h (h_queue h) RegistrationData_disable;
  match r with
  | Ok _ => inner_drop h
  | Err _ => panic
  end.

Definition SetReadiness_readiness (h : RegistrationInner) : QM Ready.t := inner_readiness h.
Definition SetReadiness_set_readiness (h : RegistrationInner) (ready : Ready.t) : QM (io_result unit) :=
  inner_set_readiness h ready.
Definition SetReadiness_clone (h : RegistrationInner) : QM RegistrationInner := inner_clone h.
Definition SetReadiness_drop (h : RegistrationInner) : QM unit := inner_drop h.
End queue.
