(* ===== verification/QueueInv.v ===== *)
(** * The invariant of the readiness queue

    [queue_inv q v cnt]: every node is owned by the list of all nodes; the ready
    list is an acyclic chain of nodes; a node is flagged as queued exactly when
    it is in the ready list or in the part of it a poll is working through; its
    reference count is the number [cnt] of handles that refer to it; and it
    carries the drop flag exactly when no handle is left.  [no_zombies]: it is
    then queued, so that the next poll frees it. *)

From S2P Require Import Prelude Event DList Iface ReadyQueue.

(** What the invariant knows of a queue: all nodes, the ready list, what a
    running poll still has to visit ([v_rest] from [v_from]) and the node it is
    working on. *)
Record View : Type := mkView {
  v_all : list loc;
  v_ready : list loc;
  v_from : option loc;
  v_rest : list loc;
  v_cur : list loc }.

Definition quiet (al rl : list loc) : View := mkView al rl None [] [].

Definition v_queued (v : View) : list loc := v_cur v ++ v_ready v ++ v_rest v.

Record node_ok (v : View) (l : loc) (n : ReadinessNode) (c : Z) : Prop := {
  no_queued : queued n = (if decide (l ∈ v_queued v) then 1 else 0);
  no_next : l ∉ v_ready v ++ v_rest v → next_readiness n = None;
  no_ref : ref_count n = c;
  no_count : 0 <= c <= MAX_REFCOUNT;
  no_drop : is_drop (from_usize (events n)) = bool_decide (c = 0) }.

(** The handle counts with the one of [l] replaced. *)
Definition upd (cnt : loc → Z) (l : loc) (c : Z) : loc → Z := λ x, if decide (l = x) then c else cnt x.

Lemma upd_same cnt l c : upd cnt l c l = c.
Proof. unfold upd. by rewrite decide_True. Qed.

(** The ready list starts behind the sleep token. *)
Definition ready_head {A} (q : Queue A) : option loc :=
  if decide (head_readiness q = Some (sleep_token q)) then None else head_readiness q.

Record queue_inv {A} (q : Queue A) (v : View) (cnt : loc → Z) : Prop := {
  qi_all : dlist next_all_nodes prev_all_nodes (heap q) (head_all_nodes q) (v_all v);
  qi_own l : l ∈ v_all v ↔ is_Some (heap q !! l);
  qi_sleep : heap q !! sleep_token q = None;
  qi_ready : chain next_readiness (heap q) (ready_head q) (v_ready v);
  qi_rest : chain next_readiness (heap q) (v_from v) (v_rest v);
  qi_nodup : NoDup (v_queued v);
  qi_cur l : l ∈ v_cur v → is_Some (heap q !! l);
  qi_node l n : heap q !! l = Some n → node_ok v l n (cnt l) }.

(** A node without handles waits to be freed by the next poll. *)
Definition no_zombies {A} (q : Queue A) (v : View) (cnt : loc → Z) : Prop :=
  ∀ l, is_Some (heap q !! l) → cnt l = 0 → l ∈ v_queued v.

(** Between two operations of the queue. *)
Definition queue_good {A} (q : Queue A) (al rl : list loc) (cnt : loc → Z) : Prop :=
  queue_inv q (quiet al rl) cnt ∧ no_zombies q (quiet al rl) cnt.

(** The content of the queue without its links. *)
Record Info : Type := mkInfo { i_data : RegistrationData; i_events : Z }.
Definition info (n : ReadinessNode) : Info := mkInfo (registration_data n) (events n).
Definition nodes {A} (q : Queue A) : gmap loc Info := info <$> heap q.

Lemma is_drop_poll_events n : is_drop (poll_events n) = is_drop (from_usize (events n)).
Proof.
  rewrite !is_drop_bit. unfold poll_events. rewrite rbit_bitand, rbit_bitor.
  change (rbit event_drop 4) with true. by rewrite orb_true_r.
Qed.

Section rules.
Context {A : Type} {awk_ops : AwakenerOps A}.
Implicit Types q : Queue A.

(** ** Rules for the primitives *)

Lemma wp_read l n (Q : ReadinessNode → Queue A → Prop) q :
  heap q !! l = Some n → Q n q → wp (read_node l) Q q.
Proof. intros Hl HQ. unfold wp, read_node. by rewrite Hl. Qed.

Lemma wp_write l f n (Q : unit → Queue A → Prop) q :
  heap q !! l = Some n → Q tt (set_heap (<[l := f n]> (heap q)) q) → wp (write_node l f) Q q.
Proof. intros Hl HQ. unfold wp, write_node. by rewrite Hl. Qed.

Lemma wp_cas_head old new (Q : option loc → Queue A → Prop) q :
  Q (head_readiness q) (if decide (head_readiness q = old) then set_head_readiness new q else q) →
  wp (cas_head old new) Q q.
Proof. done. Qed.

Lemma ready_head_set_heap h q : ready_head (set_heap h q) = ready_head q.
Proof. done. Qed.

(** ** Changing one node in place *)

Lemma node_links_frame (h : gmap loc ReadinessNode) l n n' :
  h !! l = Some n → next_all_nodes n' = next_all_nodes n → prev_all_nodes n' = prev_all_nodes n →
  next_readiness n' = next_readiness n →
  ∀ x w, h !! x = Some w →
    ∃ w', <[l := n']> h !! x = Some w' ∧ next_all_nodes w' = next_all_nodes w ∧
      prev_all_nodes w' = prev_all_nodes w ∧ next_readiness w' = next_readiness w.
Proof.
  intros Hl Hn Hp Hr x w Hx. destruct (decide (x = l)) as [->|Hne].
  - rewrite lookup_insert_eq. exists n'. naive_solver.
  - rewrite lookup_insert_ne by done. eauto.
Qed.

(** Another view with the same queued nodes. *)
Lemma node_ok_view v v' l n c :
  node_ok v l n c → (l ∈ v_queued v ↔ l ∈ v_queued v') →
  (l ∈ v_ready v ++ v_rest v → l ∈ v_ready v' ++ v_rest v') → node_ok v' l n c.
Proof.
  intros [Hq Hn Hr Hc Hd] Heq Hsub. split; try done; try naive_solver.
  rewrite Hq. repeat case_decide; naive_solver.
Qed.

Definition v_set_cur (c : list loc) (v : View) := mkView (v_all v) (v_ready v) (v_from v) (v_rest v) c.

(** The node [l] is changed but keeps its links; it may become the current node,
    or cease to be it. *)
Lemma queue_inv_change q v cur cnt l n n' c :
  queue_inv q v cnt → heap q !! l = Some n →
  next_all_nodes n' = next_all_nodes n → prev_all_nodes n' = prev_all_nodes n →
  next_readiness n' = next_readiness n →
  (∀ x, x ≠ l → x ∈ v_queued v ↔ x ∈ v_queued (v_set_cur cur v)) →
  NoDup (v_queued (v_set_cur cur v)) → (∀ x, x ∈ cur → x = l ∨ x ∈ v_cur v) →
  node_ok (v_set_cur cur v) l n' c →
  queue_inv (set_heap (<[l := n']> (heap q)) q) (v_set_cur cur v) (upd cnt l c).
Proof.
  intros [Hall Hown Hsl Hrd Hrs Hnd Hcur Hno] Hl Hn Hp Hr Hq Hnd' Hcu Hok.
  pose proof (node_links_frame _ _ _ _ Hl Hn Hp Hr) as Hfr. split; cbn; try done.
  - eapply dlist_frame; [exact Hall|]. intros x w _ Hw. destruct (Hfr x w Hw) as (w' & ? & ? & ? & ?). eauto.
  - intros x. rewrite Hown, lookup_insert_is_Some. destruct (decide (l = x)) as [<-|]; naive_solver.
  - rewrite lookup_insert_ne; [done|]. intros ->. congruence.
  - eapply chain_frame; [exact Hrd|]. intros x w _ Hw. destruct (Hfr x w Hw) as (w' & ? & ? & ? & ?). eauto.
  - eapply chain_frame; [exact Hrs|]. intros x w _ Hw. destruct (Hfr x w Hw) as (w' & ? & ? & ? & ?). eauto.
  - intros x Hx. apply lookup_insert_is_Some. destruct (decide (l = x)) as [|Hne]; [by left|right].
    split; [done|]. destruct (Hcu x Hx) as [->|?]; [done|auto].
  - intros x w. rewrite lookup_insert. unfold upd. destruct (decide (l = x)) as [<-|Hne].
    + by intros [= <-].
    + intros Hw. eapply node_ok_view; [by eapply Hno|by apply Hq|done].
Qed.

Lemma v_set_cur_id v : v_set_cur (v_cur v) v = v.
Proof. by destruct v. Qed.

Lemma queue_inv_node q v cnt l n n' c :
  queue_inv q v cnt → heap q !! l = Some n →
  next_all_nodes n' = next_all_nodes n → prev_all_nodes n' = prev_all_nodes n →
  next_readiness n' = next_readiness n → node_ok v l n' c →
  queue_inv (set_heap (<[l := n']> (heap q)) q) v (upd cnt l c).
Proof.
  intros Hi Hl Hn Hp Hr Hok. pose proof (queue_inv_change q v (v_cur v) cnt l n n' c) as Hc.
  rewrite v_set_cur_id in Hc. apply Hc; auto. apply (qi_nodup _ _ _ Hi).
Qed.

Lemma upd_id (cnt : loc → Z) l x : upd cnt l (cnt l) x = cnt x.
Proof. unfold upd. case_decide; by subst. Qed.

(** The invariant only looks at the counts of allocated nodes. *)
Lemma queue_inv_cnt q v cnt cnt' :
  queue_inv q v cnt → (∀ l, is_Some (heap q !! l) → cnt' l = cnt l) → queue_inv q v cnt'.
Proof. intros [] Heq. split; try done. intros l n Hl. rewrite Heq by eauto. eauto. Qed.

Lemma queue_inv_node_same q v cnt l n n' :
  queue_inv q v cnt → heap q !! l = Some n →
  next_all_nodes n' = next_all_nodes n → prev_all_nodes n' = prev_all_nodes n →
  next_readiness n' = next_readiness n → node_ok v l n' (cnt l) →
  queue_inv (set_heap (<[l := n']> (heap q)) q) v cnt.
Proof.
  intros Hi Hl Hn Hp Hr Hok. eapply queue_inv_cnt; [by eapply queue_inv_node|].
  intros x _. symmetry. apply upd_id.
Qed.

Lemma nodes_insert q l n :
  nodes (set_heap (<[l := n]> (heap q)) q) = <[l := info n]> (nodes q).
Proof. unfold nodes. cbn. apply fmap_insert. Qed.

Lemma nodes_dom q l : is_Some (nodes q !! l) ↔ is_Some (heap q !! l).
Proof. unfold nodes. by rewrite lookup_fmap, fmap_is_Some. Qed.

Lemma nodes_lookup q l n : heap q !! l = Some n → nodes q !! l = Some (info n).
Proof. intros Hl. unfold nodes. by rewrite lookup_fmap, Hl. Qed.

Lemma nodes_same q l n n' :
  heap q !! l = Some n → info n' = info n → nodes (set_heap (<[l := n']> (heap q)) q) = nodes q.
Proof. intros Hl Hinf. rewrite nodes_insert, Hinf. apply insert_id. by apply nodes_lookup. Qed.

Lemma queued_nodes q v cnt l : queue_inv q v cnt → l ∈ v_queued v → is_Some (heap q !! l).
Proof.
  intros Hi Hl. unfold v_queued in Hl. rewrite !elem_of_app in Hl. destruct Hl as [?|[?|?]].
  - by eapply qi_cur.
  - destruct (chain_lookup _ _ _ _ _ (qi_ready _ _ _ Hi) ltac:(done)). eauto.
  - destruct (chain_lookup _ _ _ _ _ (qi_rest _ _ _ Hi) ltac:(done)). eauto.
Qed.
End rules.
