(* ===== verification/QueueOps.v ===== *)
(** * The operations of the readiness queue

    Rules for [wp]: each operation of a handle on a well-formed queue touches no
    freed memory, keeps [queue_inv], and has the stated effect on the nodes, the
    ready list and the awakener. *)

From S2P Require Import Prelude Event DList Iface ReadyQueue QueueInv.

Definition same_env {A} (q q' : Queue A) : Prop :=
  q_id q' = q_id q ∧ sleep_token q' = sleep_token q.

Definition sleeping {A} (q : Queue A) : bool := bool_decide (head_readiness q = Some (sleep_token q)).

Section ops.
Context {A : Type} {awk_ops : AwakenerOps A}.
Implicit Types q : Queue A.

(** ** Queueing a node *)

Definition v_push (l : loc) (v : View) := mkView (v_all v) (l :: v_ready v) (v_from v) (v_rest v) (v_cur v).

Lemma wp_prepend l q v cnt (Q : bool → Queue A → Prop) :
  queue_inv q (v_set_cur [l] v) cnt → v_cur v = [] →
  (∀ q', queue_inv q' (v_push l v) cnt → nodes q' = nodes q → awakener q' = awakener q → same_env q q' →
    head_readiness q' = Some l → Q (sleeping q) q') →
  wp (prepend_readiness_node l) Q q.
Proof.
  intros Hi Hc HQ. destruct (qi_cur _ _ _ Hi l) as [n Hn]; [set_solver|].
  pose proof (qi_nodup _ _ _ Hi) as Hnd. unfold v_queued in Hnd. cbn in Hnd. apply NoDup_cons in Hnd as [Hl Hnd].
  unfold prepend_readiness_node. wp_steps. cbn [prepend_loop]. wp_steps.
  eapply wp_write; [exact Hn|]. wp_step. apply wp_cas_head. cbn [head_readiness set_heap].
  rewrite !decide_True by done. apply wp_ret. change (bool_decide _) with (sleeping q).
  apply HQ; [|by apply (nodes_same q l n)|done..].
  destruct Hi as [Hall Hown Hsl Hrd Hrs _ _ Hno]. fold (ready_head q). cbn in Hall, Hown, Hrd, Hrs.
  assert (∀ x w, x ≠ l → heap q !! x = Some w → 
    <[l := n_set_next_readiness (ready_head q) n]> (heap q) !! x = Some w) as Hfr
    by (intros; by rewrite lookup_insert_ne).
  split; cbn.
  - eapply dlist_frame; [exact Hall|]. intros x w _ Hw. destruct (decide (x = l)) as [->|Hne].
    + rewrite lookup_insert_eq. eexists. split; [done|]. cbn. naive_solver.
    + exists w. by rewrite (Hfr x w).
  - intros x. rewrite Hown, lookup_insert_is_Some. destruct (decide (l = x)) as [<-|]; naive_solver.
  - rewrite lookup_insert_ne; [done|]. intros ->. congruence.
  - unfold ready_head at 1. cbn. rewrite decide_False; [|intros [= ->]; congruence].
    split; [done|]. eexists. split; [apply lookup_insert_eq|]. cbn.
    eapply chain_frame; [exact Hrd|]. intros x w Hx Hw. exists w. rewrite (Hfr x w); [done| |done]. intros ->. set_solver.
  - eapply chain_frame; [exact Hrs|]. intros x w Hx Hw. exists w. rewrite (Hfr x w); [done| |done]. intros ->. set_solver.
  - unfold v_queued. cbn. rewrite Hc. by apply NoDup_cons.
  - rewrite Hc. set_solver.
  - intros x w. rewrite lookup_insert. case_decide; [|intros Hx].
    + intros [= <-]. subst x. pose proof (Hno l n Hn) as [Hq _ Hr Hct Hd]. split; cbn; try done.
      * rewrite Hq. unfold v_queued. cbn. rewrite Hc, !decide_True by set_solver. done.
      * set_solver.
    + eapply node_ok_view; [by eapply Hno| |]; unfold v_queued; cbn; rewrite ?Hc; set_solver.
Qed.

(** Setting the queued flag of a node that is not queued. *)
Lemma queue_inv_flag q v cnt l n :
  queue_inv q v cnt → v_cur v = [] → heap q !! l = Some n → l ∉ v_queued v →
  queue_inv (set_heap (<[l := n_set_queued 1 n]> (heap q)) q) (v_set_cur [l] v) cnt.
Proof.
  intros Hi Hc Hn Hl. eapply queue_inv_cnt; [eapply (queue_inv_change _ _ [l]); try done|].
  - unfold v_queued. cbn. rewrite Hc. set_solver.
  - pose proof (qi_nodup _ _ _ Hi) as Hnd. unfold v_queued in *. cbn. rewrite Hc in *. by apply NoDup_cons.
  - set_solver.
  - pose proof (qi_node _ _ _ Hi l n Hn) as [Hq Hnx Hr Hct Hd]. split; cbn; try done.
    unfold v_queued. cbn. by rewrite decide_True by set_solver.
  - intros x _. symmetry. apply upd_id.
Qed.

(** The queued flag is set by the first who wants to queue the node. *)
Lemma wp_queue_for_processing h n q v cnt (Q : bool → Queue A → Prop) :
  queue_inv q v cnt → v_cur v = [] → heap q !! h_node h = Some n →
  (if decide (h_node h ∈ v_queued v) then Q false q
   else ∀ q', queue_inv q' (v_push (h_node h) v) cnt → nodes q' = nodes q →
     awakener q' = awakener q → same_env q q' → head_readiness q' = Some (h_node h) → Q (sleeping q) q') →
  wp (queue_for_processing h) Q q.
Proof.
  intros Hi Hc Hn HQ. pose proof (qi_node _ _ _ Hi _ _ Hn) as Hok. set (l := h_node h) in *.
  unfold queue_for_processing, cas_queued. fold l. do 2 wp_step. eapply wp_read; [exact Hn|]. cbn beta.
  rewrite (no_queued _ _ _ _ Hok). destruct (decide (l ∈ v_queued v)) as [Hin|Hin].
  - cbn. wp_steps. done.
  - cbn. wp_step. eapply wp_write; [exact Hn|]. wp_steps.
    apply (wp_prepend l _ v cnt); [by apply queue_inv_flag|done|].
    intros q' Hi' Hnq Ha He Hh. apply HQ; try done. rewrite Hnq. by apply (nodes_same q l n).
Qed.

(** A queue with a queued node at its head does not sleep. *)
Lemma awake_of_ready q v cnt : queue_inv q v cnt → v_ready v ≠ [] → sleeping q = false.
Proof.
  intros Hi Hne. unfold sleeping. apply bool_decide_eq_false. intros Hs.
  pose proof (qi_ready _ _ _ Hi) as Hch. unfold ready_head in Hch. rewrite decide_True in Hch by done.
  destruct (v_ready v); [done|]. by destruct Hch.
Qed.

(** ** Handles *)

(** A handle may be used while it counts for its node. *)
Definition live (cnt : loc → Z) q (h : RegistrationInner) : Prop :=
  is_Some (heap q !! h_node h) ∧ 0 < cnt (h_node h).

Definition set_events (r : Ready.t) (i : Info) : Info := mkInfo (i_data i) (as_usize r).

(** The ready list after a request to queue [l]. *)
Definition enqueue (l : loc) (rl : list loc) : list loc := if decide (l ∈ rl) then rl else l :: rl.

Lemma wp_readiness h n (Q : Ready.t → Queue A → Prop) q :
  heap q !! h_node h = Some n → Q (from_usize (events n)) q → wp (inner_readiness h) Q q.
Proof. intros Hn HQ. unfold inner_readiness. wp_step. eapply wp_read; [done|]. by wp_steps. Qed.

(** [set_readiness] when the node is well formed with the new events. *)
Lemma wp_set_readiness h r n q al rl cnt (Q : io_result unit → Queue A → Prop) :
  heap q !! h_node h = Some n →
  queue_inv (set_heap (<[h_node h := n_set_events (as_usize r) n]> (heap q)) q) (quiet al rl) cnt →
  let wake := negb (is_empty r) && negb (bool_decide (h_node h ∈ rl)) && sleeping q in
  let aw := awk_wakeup (awakener q) in
  (∀ q', queue_inv q' (quiet al (if is_empty r then rl else enqueue (h_node h) rl)) cnt →
    nodes q' = <[h_node h := set_events r (info n)]> (nodes q) → same_env q q' →
    awakener q' = (if wake then aw.2 else awakener q) →
    (sleeping q = false → sleeping q' = false) →
    Q (if wake then aw.1 else Ok tt) q') →
  wp (inner_set_readiness h r) Q q.
Proof.
  intros Hn Hi wake aw HQ. unfold inner_set_readiness. wp_step. eapply wp_write; [exact Hn|].
  set (q1 := set_heap _ q) in *.
  assert (nodes q1 = <[h_node h := set_events r (info n)]> (nodes q)) as Hn1 by apply nodes_insert.
  destruct (is_empty r) eqn:Er; cbn [negb andb] in *; [by wp_step; apply HQ|]. wp_step.
  eapply wp_queue_for_processing; [exact Hi|done|apply lookup_insert_eq|].
  unfold enqueue in HQ. unfold v_queued. cbn [v_cur v_ready v_rest quiet app]. rewrite app_nil_r.
  destruct (decide (h_node h ∈ rl)) as [Hin|Hin].
  - wp_step. subst wake. rewrite bool_decide_eq_true_2 in HQ by done. by apply HQ.
  - subst wake. rewrite bool_decide_eq_false_2 in HQ by done. cbn [negb andb] in HQ.
    intros q' Hi' Hnq Ha He Hh. change (sleeping q1) with (sleeping q). destruct (sleeping q).
    + wp_step. unfold wp at 1, wakeup. rewrite Ha. change (awakener q1) with (awakener q). fold aw.
      destruct aw as [res a] eqn:Eaw. cbn in HQ.
      assert (queue_inv (set_awakener a q') (v_push (h_node h) (quiet al rl)) cnt) as Hi2 by (by destruct Hi').
      assert (wp (mret res) Q (set_awakener a q')) as Hw.
      { wp_step. apply HQ; try done. by rewrite <- Hn1, <- Hnq. }
      destruct res as [[]|e]; exact Hw.
    + wp_step. apply HQ; try done; [by rewrite Hnq|]. by intros _; apply (awake_of_ready _ _ _ Hi').
Qed.

Lemma no_zombies_mono q q' v v' cnt cnt' :
  no_zombies q v cnt → (∀ l, is_Some (heap q' !! l) → is_Some (heap q !! l)) →
  (∀ l, cnt' l = 0 → cnt l = 0) → (∀ l, l ∈ v_queued v → l ∈ v_queued v') → no_zombies q' v' cnt'.
Proof. intros Hz Hd Hc Hv l Hl H0. by apply Hv, Hz; auto. Qed.

Lemma heap_dom_nodes q q' l i :
  nodes q' = <[l := i]> (nodes q) → is_Some (heap q !! l) → ∀ x, is_Some (heap q' !! x) → is_Some (heap q !! x).
Proof.
  intros Hn Hl x Hx. apply nodes_dom in Hx. rewrite Hn in Hx.
  apply lookup_insert_is_Some in Hx as [<-|[_ Hx]]; [done|by apply nodes_dom].
Qed.

Lemma queued_quiet al rl : v_queued (quiet al rl) = rl.
Proof. unfold v_queued. cbn. apply app_nil_r. Qed.

Lemma enqueue_in l rl x : x ∈ enqueue l rl ↔ x = l ∨ x ∈ rl.
Proof. unfold enqueue. case_decide; set_solver. Qed.

(** The effect of storing a readiness through a handle of [l]. *)
Record set_effect (l : loc) (r : Ready.t) (n : ReadinessNode) (rl : list loc) q (res : io_result unit) q' : Prop := {
  se_nodes : nodes q' = <[l := set_events r (info n)]> (nodes q);
  se_env : same_env q q';
  se_wake : let wake := negb (is_empty r) && negb (bool_decide (l ∈ rl)) && sleeping q in
    awakener q' = (if wake then (awk_wakeup (awakener q)).2 else awakener q) ∧
    res = (if wake then (awk_wakeup (awakener q)).1 else Ok tt);
  se_awake : sleeping q = false → sleeping q' = false }.

Lemma wp_set_live h r n q al rl cnt (Q : io_result unit → Queue A → Prop) :
  queue_good q al rl cnt → heap q !! h_node h = Some n → 0 < cnt (h_node h) → is_drop r = false →
  (∀ res q', queue_good q' al (if is_empty r then rl else enqueue (h_node h) rl) cnt →
    set_effect (h_node h) r n rl q res q' → Q res q') →
  wp (inner_set_readiness h r) Q q.
Proof.
  intros [Hi Hz] Hn Hc Hr HQ. pose proof (qi_node _ _ _ Hi _ _ Hn) as [Hq Hx Href Hct Hd].
  eapply wp_set_readiness; [exact Hn| |].
  - eapply queue_inv_node_same; try done. split; cbn; try done.
    change (from_usize (as_usize r)) with (Ready.mk (Ready.val r)). destruct r. cbn in *. rewrite Hr.
    symmetry. apply bool_decide_eq_false. lia.
  - intros q' Hi' Hnq He Ha Hs. apply HQ; [|by split]. split; [done|].
    eapply no_zombies_mono; [exact Hz|by eapply heap_dom_nodes|done|].
    intros l. rewrite !queued_quiet. destruct (is_empty r); [done|]. rewrite enqueue_in. auto.
Qed.

(** ** Counting references *)

Lemma refcount_in_range c : 0 <= c <= MAX_REFCOUNT → Z.land c (not64 MAX_REFCOUNT) = 0.
Proof.
  intros Hc. unfold MAX_REFCOUNT, ISIZE_MAX in *. apply Z.bits_inj'. intros i Hi. rewrite Z.bits_0, Z.land_spec.
  destruct (decide (i < 63)).
  - rewrite not64_spec by lia. change 9223372036854775807 with (Z.ones 63).
    rewrite Z.ones_spec_low by lia. apply andb_false_r.
  - rewrite (Z.bits_above_log2 c i); [done|lia|].
    destruct (decide (c = 0)) as [->|]; [cbn; lia|]. apply Z.log2_lt_pow2; [lia|].
    apply Z.lt_le_trans with (2 ^ 63); [lia|]. apply Z.pow_le_mono_r; lia.
Qed.

Lemma wp_clone h n q al rl cnt (Q : RegistrationInner → Queue A → Prop) :
  queue_good q al rl cnt → heap q !! h_node h = Some n → 0 < cnt (h_node h) < MAX_REFCOUNT →
  (∀ q', queue_good q' al rl (upd cnt (h_node h) (cnt (h_node h) + 1)) → nodes q' = nodes q → same_env q q' →
    awakener q' = awakener q → head_readiness q' = head_readiness q → Q h q') →
  wp (inner_clone h) Q q.
Proof.
  intros [Hi Hz] Hn Hc HQ. pose proof (qi_node _ _ _ Hi _ _ Hn) as [Hq Hx Href Hct Hd].
  unfold inner_clone. wp_step. eapply wp_read; [exact Hn|]. wp_step. eapply wp_write; [exact Hn|].
  rewrite Href, refcount_in_range by done. cbn [Z.eqb negb]. wp_step. destruct h as [hq l]. cbn in *.
  unfold MAX_REFCOUNT, ISIZE_MAX in *. rewrite wrap64_id by (unfold is_u64, U64_MAX; lia).
  apply HQ; [|by apply (nodes_same q l n)|done..]. split.
  - eapply queue_inv_node; try done. split; cbn; try done.
    + unfold MAX_REFCOUNT, ISIZE_MAX. lia.
    + rewrite Hd. by rewrite !bool_decide_eq_false_2 by lia.
  - eapply no_zombies_mono; [exact Hz| | |done].
    + intros x. cbn. rewrite lookup_insert_is_Some. intros [<-|[_ ?]]; eauto.
    + intros x. unfold upd. destruct (decide (_ = x)); [subst; lia|done].
Qed.

(** The last handle queues the node with the drop flag. *)
Lemma wp_drop h n q al rl cnt (Q : unit → Queue A → Prop) :
  queue_good q al rl cnt → heap q !! h_node h = Some n → 0 < cnt (h_node h) →
  let c := cnt (h_node h) - 1 in
  (∀ q', queue_good q' al (if decide (c = 0) then enqueue (h_node h) rl else rl) (upd cnt (h_node h) c) →
    nodes q' = (if decide (c = 0) then <[h_node h := set_events event_drop (info n)]> (nodes q) else nodes q) →
    same_env q q' → (sleeping q = false → sleeping q' = false) → Q tt q') →
  wp (inner_drop h) Q q.
Proof.
  intros [Hi Hz] Hn Hc c HQ. pose proof (qi_node _ _ _ Hi _ _ Hn) as [Hq Hx Href Hct Hd].
  unfold inner_drop. wp_step. eapply wp_read; [exact Hn|]. wp_step. eapply wp_write; [exact Hn|].
  rewrite Href. unfold MAX_REFCOUNT, ISIZE_MAX in *. rewrite wrap64_id by (unfold is_u64, U64_MAX; lia).
  fold c. set (q1 := set_heap _ q).
  assert (nodes q1 = nodes q) as Hn1 by (by apply (nodes_same q (h_node h) n)).
  destruct (decide (c = 0)) as [H0|H0].
  - replace (cnt (h_node h) =? 1) with true by lia. cbn [negb]. wp_step.
    assert (heap q1 !! h_node h = Some (n_set_ref_count c n)) as Hnn by apply lookup_insert_eq.
    eapply (wp_set_readiness h event_drop _ q1 al rl (upd cnt (h_node h) c)); [exact Hnn| |].
    + change (queue_inv (set_heap (<[h_node h := n_set_events (as_usize event_drop) (n_set_ref_count c n)]>
        (<[h_node h := n_set_ref_count c n]> (heap q))) q) (quiet al rl) (upd cnt (h_node h) c)).
      rewrite insert_insert_eq. eapply queue_inv_node; try done. split; cbn; try done.
      * unfold MAX_REFCOUNT, ISIZE_MAX. lia.
      * symmetry. by apply bool_decide_eq_true.
    + intros q' Hi' Hnq He Ha Hs. wp_step. apply HQ; [|by rewrite Hnq, Hn1|done..]. split; [done|].
      intros x Hxs H0x. rewrite queued_quiet. apply enqueue_in. unfold upd in H0x. destruct (decide (_ = x)); [by left|right].
      rewrite <- (queued_quiet al rl). apply Hz; [|done]. apply nodes_dom in Hxs. rewrite Hnq, Hn1 in Hxs.
      apply lookup_insert_is_Some in Hxs as [?|[_ ?]]; [done|by apply nodes_dom].
  - replace (cnt (h_node h) =? 1) with false by lia. cbn [negb]. wp_step. apply HQ; [|done..]. split.
    + eapply queue_inv_node; try done. split; cbn; try done.
      * unfold MAX_REFCOUNT, ISIZE_MAX. lia.
      * rewrite Hd. by rewrite !bool_decide_eq_false_2 by lia.
    + eapply no_zombies_mono; [exact Hz| | |done].
      * intros x. cbn. rewrite lookup_insert_is_Some. intros [<-|[_ ?]]; eauto.
      * intros x. unfold upd. destruct (decide (_ = x)); [subst; lia|done].
Qed.

(** ** New nodes *)

Lemma heap_set_heap h q : heap (set_heap h q) = h.
Proof. done. Qed.
Lemma heap_set_head_all x q : heap (set_head_all x q) = heap q.
Proof. done. Qed.
Lemma set_heap_twice h h' q : set_heap h (set_heap h' q) = set_heap h q.
Proof. done. Qed.
Lemma set_heap_head_all h x q : set_heap h (set_head_all x q) = set_head_all x (set_heap h q).
Proof. done. Qed.
Lemma set_head_all_twice x y q : set_head_all x (set_head_all y q) = set_head_all x q.
Proof. done. Qed.

(** A new node [l] in front of the list of all nodes. *)
Lemma queue_inv_alloc q h' al rl cnt l n0 :
  queue_inv q (quiet al rl) cnt → heap q !! l = None → l ≠ sleep_token q →
  (∀ x, h' !! x = if decide (x = l) then Some (n_set_next_all (head_all_nodes q) n0)
     else (λ w, if decide (head_all_nodes q = Some x) then n_set_prev_all (Some l) w else w) <$> heap q !! x) →
  prev_all_nodes n0 = None → node_ok (quiet al rl) l n0 1 →
  queue_inv (set_head_all (Some l) (set_heap h' q)) (quiet (l :: al) rl) (upd cnt l 1).
Proof.
  intros [Hall Hown Hsl Hrd Hrs Hnd Hcur Hno] Hl Hls Hh Hp0 Hok.
  assert (l ∉ rl) as Hlr.
  { intros Hin. destruct (chain_lookup _ _ _ _ _ Hrd Hin). congruence. }
  assert (∀ x w, x ≠ l → heap q !! x = Some w → ∃ w', h' !! x = Some w' ∧ next_readiness w' = next_readiness w) as Hfr.
  { intros x w Hx Hw. rewrite Hh, decide_False, Hw by done. eexists. split; [done|]. by case_decide. }
  split; cbn.
  - eapply (dlist_push _ _ (heap q) h' (head_all_nodes q) al l (n_set_next_all (head_all_nodes q) n0)); try done.
    + rewrite Hown. intros [? ?]. congruence.
    + rewrite Hh. by rewrite decide_True.
    + intros y w Hy Hw. assert (y ≠ l) by congruence. rewrite Hh, decide_False, Hw by done.
      eexists. split; [done|]. by case_decide.
  - intros x. rewrite elem_of_cons, Hown, Hh. case_decide; [naive_solver|].
    rewrite fmap_is_Some. naive_solver.
  - rewrite Hh, decide_False, Hsl by done. done.
  - eapply chain_frame; [exact Hrd|]. intros x w Hx Hw. apply Hfr; [congruence|done].
  - done.
  - done.
  - set_solver.
  - intros x w. rewrite Hh. case_decide as Hx.
    + intros [= <-]. subst x. unfold upd. rewrite decide_True by done. destruct Hok. by split.
    + destruct (heap q !! x) as [w0|] eqn:Hw; [|done]. cbn. intros [= <-]. unfold upd. destruct (decide (l = x)); [done|].
      pose proof (Hno x w0 Hw) as [? ? ? ? ?]. destruct (decide (head_all_nodes q = Some x)); by split.
Qed.

Lemma wp_new_node token interest opts q al rl cnt (Q : loc → Queue A → Prop) :
  queue_good q al rl cnt →
  (∀ l q', heap q !! l = None → queue_good q' (l :: al) rl (upd cnt l 1) →
    nodes q' = <[l := mkInfo (mkData token interest opts) 0]> (nodes q) → same_env q q' →
    awakener q' = awakener q → head_readiness q' = head_readiness q → Q l q') →
  wp (new_readiness_node token interest opts 1) Q q.
Proof.
  intros [Hi Hz] HQ. unfold new_readiness_node. wp_step.
  set (l := fresh ({[ sleep_token q ]} ∪ dom (heap q) : gset loc)).
  assert (l ∉ ({[ sleep_token q ]} ∪ dom (heap q) : gset loc)) as Hfresh by apply is_fresh.
  apply not_elem_of_union in Hfresh as [Hls Hl]. rewrite not_elem_of_singleton in Hls.
  apply not_elem_of_dom in Hl. set (n0 := ReadinessNode_new token interest opts 1).
  unfold wp at 1, alloc. fold l. fold n0. wp_steps.
  eapply wp_write; [apply lookup_insert_eq|].
  change (head_all_nodes (set_heap (<[l := n0]> (heap q)) q)) with (head_all_nodes q).
  assert (∀ h', (∀ x, h' !! x = if decide (x = l) then Some (n_set_next_all (head_all_nodes q) n0)
     else (λ w, if decide (head_all_nodes q = Some x) then n_set_prev_all (Some l) w else w) <$> heap q !! x) →
     Q l (set_head_all (Some l) (set_heap h' q))) as Hfin.
  { intros h' Hh. apply HQ; try done.
    - split.
      + apply (queue_inv_alloc q h' al rl cnt l n0); try done. split; cbn; try done.
        rewrite decide_False; [done|]. change (l ∉ v_queued (quiet al rl)). rewrite queued_quiet. intros Hin.
        destruct (chain_lookup _ _ _ _ _ (qi_ready _ _ _ Hi) Hin). congruence.
      + intros x Hx. unfold upd. rewrite queued_quiet. case_decide as Hlx; [done|]. intros H0.
        rewrite <- (queued_quiet al rl). apply Hz; [|done]. cbn in Hx. rewrite Hh, decide_False in Hx by done.
        by apply fmap_is_Some in Hx.
    - unfold nodes. cbn. apply map_eq. intros x. rewrite lookup_fmap, Hh, lookup_insert, lookup_fmap.
      destruct (decide (x = l)) as [->|Hne]; [by rewrite decide_True|]. rewrite (decide_False (P := l = x)) by done.
      destruct (heap q !! x) as [w|]; cbn; [|done]. by destruct (decide (head_all_nodes q = Some x)). }
  pose proof (dlist_hd _ _ _ _ _ (qi_all _ _ _ Hi)) as Hhd.
  destruct (head_all_nodes q) as [nx|] eqn:Enx.
  - destruct (qi_own _ _ _ Hi nx) as [[wn Hwn] _]; [cbn; destruct al; set_solver|].
    assert (l ≠ nx) by congruence.
    wp_step. eapply wp_write; [cbn; rewrite !lookup_insert_ne by done; exact Hwn|]. wp_steps.
    rewrite !heap_set_heap, !heap_set_head_all, !set_heap_twice, !set_heap_head_all, !set_heap_twice, !set_head_all_twice, heap_set_heap.
    apply Hfin. intros x. rewrite !lookup_insert. destruct (decide (x = l)) as [->|Hxl].
    + rewrite decide_False, decide_True by done. done.
    + rewrite !(decide_False (P := l = x)) by done. destruct (decide (nx = x)) as [->|Hxn].
      * rewrite Hwn. cbn. by rewrite decide_True.
      * destruct (heap q !! x) as [w|]; cbn; [|done]. by rewrite decide_False by congruence.
  - wp_steps.
    rewrite !heap_set_head_all, !set_heap_head_all, !set_heap_twice, !set_head_all_twice, heap_set_heap.
    apply Hfin. intros x. rewrite !lookup_insert. destruct (decide (x = l)) as [->|Hxl]; [by rewrite decide_True|].
    rewrite !(decide_False (P := l = x)) by done. by destruct (heap q !! x).
Qed.

(** ** Registration data *)

Definition set_data (f : RegistrationData → RegistrationData) (i : Info) : Info := mkInfo (f (i_data i)) (i_events i).

Lemma wp_data_mut h f n q al rl cnt (Q : io_result unit → Queue A → Prop) :
  queue_good q al rl cnt → heap q !! h_node h = Some n →
  (∀ q', queue_good q' al rl cnt → heap q' !! h_node h = Some (n_set_data f n) →
    nodes q' = <[h_node h := set_data f (info n)]> (nodes q) → same_env q q' →
    awakener q' = awakener q → head_readiness q' = head_readiness q → Q (Ok tt) q') →
  wp (registration_data_mut h (h_queue h) f) Q q.
Proof.
  intros [Hi Hz] Hn HQ. unfold registration_data_mut. rewrite Z.eqb_refl. cbn [negb]. wp_step.
  eapply wp_write; [exact Hn|]. wp_step. apply HQ; try done.
  - split.
    + eapply queue_inv_node_same; try done. pose proof (qi_node _ _ _ Hi _ _ Hn) as []. by split.
    + eapply no_zombies_mono; [exact Hz| |done..].
      intros x. cbn. rewrite lookup_insert_is_Some. intros [<-|[_ ?]]; eauto.
  - apply lookup_insert_eq.
  - apply nodes_insert.
Qed.

Lemma wp_update h token interest opts n q al rl cnt (Q : io_result unit → Queue A → Prop) :
  queue_good q al rl cnt → heap q !! h_node h = Some n →
  (events n = 0 ∨ h_node h ∈ rl ∨ sleeping q = false) →
  (∀ q', queue_good q' al (if events n =? 0 then rl else enqueue (h_node h) rl) cnt →
    nodes q' = <[h_node h := mkInfo (mkData token interest opts) (events n)]> (nodes q) → same_env q q' →
    awakener q' = awakener q → (sleeping q = false → sleeping q' = false) → Q (Ok tt) q') →
  wp (inner_update h (h_queue h) token interest opts) Q q.
Proof.
  intros Hg Hn Hs HQ. unfold inner_update. wp_step.
  apply (wp_data_mut h (RegistrationData_update token interest opts) n q al rl cnt); [done|done|].
  intros q1 Hg1 Hn1 Hnq1 He1 Ha1 Hh1. wp_step. eapply wp_readiness; [exact Hn1|]. cbn [events n_set_data].
  change (is_empty (from_usize (events n))) with (events n =? 0).
  destruct (events n =? 0) eqn:E0; cbn [negb].
  { wp_step. apply HQ; try done. unfold sleeping. destruct He1 as [_ ->]. by rewrite Hh1. }
  wp_step. destruct Hg1 as [Hi1 Hz1]. eapply wp_queue_for_processing; [exact Hi1|done|exact Hn1|].
  unfold enqueue in HQ. rewrite queued_quiet. destruct (decide (h_node h ∈ rl)) as [Hin|Hin].
  { wp_step. apply HQ; try done. unfold sleeping. destruct He1 as [_ ->]. by rewrite Hh1. }
  intros q2 Hi2 Hnq2 Ha2 [He2 He2'] _. destruct He1 as [He1 He1'].
  assert (sleeping q1 = false) as ->.
  { destruct Hs as [?|[?|Hs]]; [zbool; lia|done|]. unfold sleeping in *. by rewrite Hh1, He1'. }
  wp_step. apply HQ; [|by rewrite Hnq2, Hnq1|split; congruence|congruence|by intros _; apply (awake_of_ready _ _ _ Hi2)].
  split; [done|].
  eapply no_zombies_mono; [exact Hz1| |done|].
  - intros x Hx. apply nodes_dom. rewrite <- Hnq2. by apply nodes_dom.
  - intros x. rewrite !queued_quiet. set_solver.
Qed.
End ops.
