(* ===== verification/QueuePoll.v ===== *)
(** * Polling the readiness queue

    [queue_poll] visits each node of the ready list once: it frees the nodes
    nobody refers to, takes edge-triggered and idle nodes off the list, keeps the
    level-triggered ones that have events, and reports the events. *)

From S2P Require Import Prelude Event DList Iface ReadyQueue QueueInv QueueOps.

(** ** What a visit does to a node *)

Definition info_events (i : Info) : Ready.t :=
  Ready.bitand (Ready.bitor (rd_interest (i_data i)) event_drop) (from_usize (i_events i)).

Definition info_dead (i : Info) : bool := is_drop (info_events i).

(** The event reported for the node. *)
Definition node_event (i : Info) : option Event.t :=
  if info_dead i || Ready.is_none (info_events i) then None
  else Some (Event.new (info_events i) (rd_token (i_data i))).

(** Does it stay on the ready list? *)
Definition requeued (i : Info) : bool :=
  negb (info_dead i) && negb (PollOpt.is_edge (rd_opts (i_data i)) || is_empty (info_events i)).

(** What is left of it. *)
Definition after_visit (i : Info) : option Info :=
  if info_dead i then None
  else if negb (Ready.is_none (info_events i)) && PollOpt.is_oneshot (rd_opts (i_data i))
  then Some (set_data RegistrationData_disable i)
  else Some i.

Section poll.
Context {A : Type} {awk_ops : AwakenerOps A}.
Context {E : Type} (push_event : Event.t → E → E).
Implicit Types q : Queue A.

Definition push_opt (o : option Event.t) (dst : E) : E :=
  match o with Some e => push_event e dst | None => dst end.

(** ** Taking nodes off the list *)

Lemma wp_take_ready q al rl cnt (Q : option loc → Queue A → Prop) :
  queue_inv q (quiet al rl) cnt →
  (∀ q', queue_inv q' (mkView al [] (ready_head q) rl []) cnt → nodes q' = nodes q → awakener q' = awakener q →
    same_env q q' → sleeping q' = false → Q (ready_head q) q') →
  wp take_ready Q q.
Proof.
  intros [Hall Hown Hsl Hrd Hrs Hnd Hcur Hno] HQ. unfold take_ready. wp_steps. fold (ready_head q).
  apply HQ; try done. split; try done.
  - unfold v_queued in *. cbn in *. by rewrite app_nil_r in Hnd.
  - intros l n Hl. eapply node_ok_view; [by eapply Hno| |]; unfold v_queued; cbn; set_solver.
Qed.

(** The iterator of the source and the step of the loop below agree. *)
Lemma ReadyList_next_eq head q :
  ReadyList_next head q =
    (o ← ready_next head; mret (match o with None => (None, None) | Some (l, rest) => (Some (Some l), rest) end)) q.
Proof.
  destruct head as [l|]; [|done]. unfold ReadyList_next, ready_next, as_ref, mbind, M_bind. cbn. unfold read_node.
  destruct (heap q !! l) as [n|] eqn:Hn; [|done]. cbn. unfold write_node. by rewrite Hn.
Qed.

Lemma wp_ready_next q al rl l rest cnt (Q : option (loc * option loc) → Queue A → Prop) :
  queue_inv q (mkView al rl (Some l) (l :: rest) []) cnt →
  (∀ n q', heap q !! l = Some n → queue_inv q' (mkView al rl (next_readiness n) rest [l]) cnt →
    nodes q' = nodes q → awakener q' = awakener q → same_env q q' → sleeping q' = sleeping q →
    Q (Some (l, next_readiness n)) q') →
  wp (ready_next (Some l)) Q q.
Proof.
  intros [Hall Hown Hsl Hrd Hrs Hnd Hcur Hno] HQ. destruct Hrs as [_ (n & Hn & Hrs)]. cbn in Hrd, Hrs.
  unfold v_queued in Hnd. cbn in Hnd.
  assert ((l ∉ rl) ∧ (l ∉ rest)) as [Hl1 Hl2].
  { apply NoDup_app in Hnd as (_ & Hd & Hnd). apply NoDup_cons in Hnd as [? _]. split; [|done].
    intros ?. apply (Hd l); set_solver. }
  unfold ready_next. wp_step. eapply wp_read; [exact Hn|]. wp_step. eapply wp_write; [exact Hn|]. wp_step.
  apply HQ; try done; [|by apply (nodes_same q l n)].
  assert (∀ (p : option loc) k, l ∉ k → chain next_readiness (heap q) p k →
    chain next_readiness (<[l := n_set_next_readiness None n]> (heap q)) p k) as Hfr.
  { intros p k Hk Hch. eapply chain_frame; [exact Hch|]. intros x w Hx Hw. exists w.
    rewrite lookup_insert_ne; [done|]. by intros ->. }
  split; cbn; try done.
  - eapply dlist_frame; [exact Hall|]. intros x w _ Hw. destruct (decide (x = l)) as [->|Hne].
    + rewrite lookup_insert_eq. eexists. split; [done|]. cbn. naive_solver.
    + exists w. by rewrite lookup_insert_ne.
  - intros x. rewrite Hown, lookup_insert_is_Some. cbn. destruct (decide (l = x)) as [<-|]; naive_solver.
  - rewrite lookup_insert_ne; [done|]. intros ->. congruence.
  - by apply Hfr.
  - by apply Hfr.
  - unfold v_queued. cbn. by rewrite Permutation_middle.
  - intros x Hx. assert (x = l) as -> by set_solver. rewrite lookup_insert_eq. eauto.
  - intros x w. rewrite lookup_insert. destruct (decide (l = x)) as [<-|Hne].
    + intros [= <-]. pose proof (Hno l n Hn) as [Hq _ Hr Hc Hd]. split; cbn; try done.
      rewrite Hq. unfold v_queued. cbn. rewrite !decide_True by set_solver. done.
    + intros Hw. eapply node_ok_view; [by eapply Hno| |]; unfold v_queued; cbn; set_solver.
Qed.

(** ** Taking a node off the queue *)

(** Unsetting the flag of the current node. *)
Lemma wp_dequeue q al rl from rest l n cnt (Q : Z → Queue A → Prop) :
  queue_inv q (mkView al rl from rest [l]) cnt → heap q !! l = Some n →
  (∀ q', queue_inv q' (mkView al rl from rest []) cnt → heap q' !! l = Some (n_set_queued 0 n) →
    nodes q' = nodes q → awakener q' = awakener q → same_env q q' → sleeping q' = sleeping q → Q (queued n) q') →
  wp (cas_queued l (queued n) 0) Q q.
Proof.
  intros Hi Hn HQ. pose proof (qi_nodup _ _ _ Hi) as Hnd. unfold v_queued in Hnd. cbn in Hnd.
  apply NoDup_cons in Hnd as [Hl Hnd].
  unfold cas_queued. wp_step. eapply wp_read; [exact Hn|]. rewrite Z.eqb_refl. wp_step.
  eapply wp_write; [exact Hn|]. wp_step.
  apply HQ; try done; [|apply lookup_insert_eq|by apply (nodes_same q l n)].
  eapply queue_inv_cnt; [eapply (queue_inv_change q (mkView al rl from rest [l]) []); try done|].
  - unfold v_queued. cbn. set_solver.
  - set_solver.
  - pose proof (qi_node _ _ _ Hi l n Hn) as [Hq Hx Hr Hc Hd]. split; cbn; try done.
    unfold v_queued. cbn. by rewrite decide_False.
  - intros x _. symmetry. apply upd_id.
Qed.

(** ** Freeing a node *)

(** The heap without [l], whose neighbours in the list of all nodes are linked. *)
Definition freed (nx pv : option loc) (l : loc) (h h' : gmap loc ReadinessNode) : Prop :=
  ∀ x, h' !! x = if decide (x = l) then None
    else (λ w, let w := if decide (nx = Some x) then n_set_prev_all pv w else w in
               if decide (pv = Some x) then n_set_next_all nx w else w) <$> h !! x.

Lemma queue_inv_free q h' l1 l l2 rl from rest cnt :
  queue_inv q (mkView (l1 ++ l :: l2) rl from rest [l]) cnt → freed (head l2) (last l1) l (heap q) h' →
  queue_inv (set_head_all (head (l1 ++ l2)) (set_heap h' q)) (mkView (l1 ++ l2) rl from rest []) cnt.
Proof.
  intros [Hall Hown Hsl Hrd Hrs Hnd Hcur Hno] Hh. cbn in Hall, Hown, Hrd, Hrs, Hcur.
  unfold v_queued in Hnd. cbn in Hnd. apply NoDup_cons in Hnd as [Hl Hnd].
  pose proof (dlist_NoDup _ _ _ _ _ Hall) as Hna.
  assert (l ∉ l1 ++ l2) as Hl12.
  { intros Hin. apply NoDup_app in Hna as (_ & Hd & Hna). apply NoDup_cons in Hna as [Hl2 _].
    apply elem_of_app in Hin as [Hin|Hin]; [apply (Hd l Hin); set_solver|done]. }
  assert (∀ (p : option loc) k, l ∉ k → chain next_readiness (heap q) p k → chain next_readiness h' p k) as Hfr.
  { intros p k Hk Hch. eapply chain_frame; [exact Hch|]. intros x w Hx Hw. rewrite Hh, decide_False, Hw by (by intros ->).
    eexists. split; [done|]. cbn. by repeat case_decide. }
  split; cbn.
  - eapply (dlist_unlink _ _ (heap q) h' (head_all_nodes q) l1 l l2 Hall). intros y w Hy Hw.
    rewrite Hh, decide_False, Hw by (by intros ->). eexists. split; [done|]. cbn.
    by destruct (decide (head l2 = Some y)), (decide (last l1 = Some y)).
  - intros x. rewrite Hh. case_decide as Hx; [subst x|].
    + split; [done|]. by intros [? ?].
    + rewrite fmap_is_Some, <- Hown. set_solver.
  - rewrite Hh, Hsl. by case_decide.
  - apply Hfr; [set_solver|done].
  - apply Hfr; [set_solver|done].
  - done.
  - set_solver.
  - intros x w. rewrite Hh. destruct (decide (x = l)) as [|Hx]; [done|].
    destruct (heap q !! x) as [w0|] eqn:Hw; [|done]. cbn. intros [= <-].
    assert (node_ok (mkView (l1 ++ l2) rl from rest []) x w0 (cnt x)) as [? ? ? ? ?].
    { eapply node_ok_view; [by eapply Hno| |]; unfold v_queued; cbn; set_solver. }
    destruct (decide (head l2 = Some x)), (decide (last l1 = Some x)); by split.
Qed.

Lemma freed_nodes nx pv l (h h' : gmap loc ReadinessNode) : freed nx pv l h h' → info <$> h' = delete l (info <$> h).
Proof.
  intros Hf. apply map_eq. intros x. rewrite lookup_fmap, Hf, lookup_delete.
  destruct (decide (x = l)) as [->|Hx]; [by rewrite decide_True|]. rewrite decide_False by done.
  rewrite lookup_fmap. destruct (h !! x) as [w|]; [|done]. cbn.
  by destruct (decide (nx = Some x)), (decide (pv = Some x)).
Qed.

Lemma head_all_set_heap h q : head_all_nodes (set_heap h q) = head_all_nodes q.
Proof. done. Qed.

Lemma set_head_all_id h x q : head_all_nodes q = x → set_heap h q = set_head_all x (set_heap h q).
Proof. by intros <-. Qed.

(** Step through reads and writes of nodes whose contents are known. *)
Ltac node_lookup :=
  repeat first [rewrite heap_set_heap | rewrite heap_set_head_all];
  repeat first [rewrite lookup_insert_eq | rewrite lookup_insert_ne by congruence]; first [eassumption | reflexivity].
Ltac wp_node :=
  repeat first
    [ wp_step
    | eapply wp_read; [node_lookup|]
    | eapply wp_write; [node_lookup|]
    | progress cbn [next_all_nodes prev_all_nodes n_set_next_all n_set_prev_all unwrap] ].
Ltac freed_by l :=
  let x := fresh "x" in
  intros x; rewrite ?heap_set_heap, ?lookup_delete, ?lookup_insert;
  destruct (decide (x = l)) as [->|]; [by rewrite decide_True|];
  rewrite ?(decide_False (P := l = x)) by done.

Ltac heap_norm :=
  repeat first [rewrite heap_set_heap | rewrite heap_set_head_all | rewrite set_heap_head_all
    | rewrite set_heap_twice | rewrite set_head_all_twice].

Lemma wp_drop_one l n q (Q : unit → Queue A → Prop) :
  heap q !! l = Some n → next_all_nodes n = None → Q tt (set_heap (delete l (heap q)) q) → wp (drop_box 1 l) Q q.
Proof.
  intros Hn Hx HQ. cbn [drop_box]. wp_step. eapply wp_read; [exact Hn|]. wp_steps. rewrite Hx. by wp_step.
Qed.

Lemma wp_unlink_free q l1 l l2 rl from rest cnt (Q : unit → Queue A → Prop) :
  queue_inv q (mkView (l1 ++ l :: l2) rl from rest [l]) cnt →
  (∀ h', freed (head l2) (last l1) l (heap q) h' →
     Q tt (set_head_all (head (l1 ++ l2)) (set_heap h' q))) →
  wp (b ← unlink_node l; drop_box 1 b) Q q.
Proof.
  intros Hi HQ. pose proof (qi_all _ _ _ Hi) as Hall. cbn in Hall.
  pose proof (dlist_hd _ _ _ _ _ Hall) as Hhd. pose proof (dlist_NoDup _ _ _ _ _ Hall) as Hnd.
  destruct (dlist_lookup _ _ _ _ _ l Hall) as [n Hn]; [set_solver|].
  destruct (dlist_cell _ _ _ _ _ _ _ _ Hall Hn) as [Hnx Hpv].
  assert (∀ y, y ∈ l1 ++ l2 → y ≠ l ∧ ∃ w, heap q !! y = Some w) as Hoth.
  { intros y Hy. apply NoDup_app in Hnd as (_ & Hd & Hnd2). apply NoDup_cons in Hnd2 as [Hl2 _]. split.
    - intros ->. apply elem_of_app in Hy as [Hy|Hy]; [apply (Hd l Hy); set_solver|done].
    - eapply dlist_lookup; [exact Hall|set_solver]. }
  unfold unlink_node, unlink. do 2 wp_step. eapply wp_read; [exact Hn|]. rewrite Hnx, Hpv.
  destruct (last l1) as [p|] eqn:Hlast.
  - apply last_Some in Hlast as [k ->]. destruct (Hoth p) as [Hpl [pn Hwp]]; [set_solver|].
    assert (next_all_nodes pn = Some l) as Hpn.
    { rewrite <- app_assoc in Hall. by destruct (dlist_cell _ _ _ _ _ _ _ _ Hall Hwp). }
    assert (head_all_nodes q = head ((k ++ [p]) ++ l2)) as Hhd' by (rewrite Hhd; by destruct k).
    destruct l2 as [|y l2]; cbn [head] in *.
    + wp_node. rewrite Hpv. wp_node. rewrite Hpn. wp_node. eapply wp_drop_one; [node_lookup|done|].
      heap_norm. rewrite (set_head_all_id _ _ q Hhd'), Hnx. apply HQ. freed_by l.
      destruct (decide (p = x)) as [->|]; [by rewrite Hwp; cbn; rewrite decide_True|].
      destruct (heap q !! x) as [w|]; cbn; [|done]. by rewrite !decide_False by congruence.
    + destruct (Hoth y) as [Hyl [wy Hwy]]; [set_solver|].
      assert (p ≠ y) as Hpy.
      { intros ->. apply NoDup_app in Hnd as (_ & Hd & _). apply (Hd y); set_solver. }
      wp_node. rewrite Hpv. wp_node. rewrite Hpn. wp_node. eapply wp_drop_one; [node_lookup|done|].
      heap_norm. rewrite (set_head_all_id _ _ q Hhd'), Hnx. apply HQ. freed_by l.
      destruct (decide (p = x)) as [->|Hpx]; [by rewrite Hwp; cbn; rewrite decide_True, decide_False by congruence|].
      destruct (decide (y = x)) as [->|Hyx]; [by rewrite Hwy; cbn; rewrite decide_False, decide_True by congruence|].
      destruct (heap q !! x) as [w|]; cbn; [|done]. by rewrite !decide_False by congruence.
  - apply last_None in Hlast as ->. cbn in Hhd. destruct l2 as [|y l2]; cbn [head app] in *.
    + wp_node. rewrite Hpv. wp_node. rewrite head_all_set_heap, Hhd. wp_node. eapply wp_drop_one; [node_lookup|done|].
      heap_norm. rewrite Hnx. apply HQ. freed_by l.
      destruct (heap q !! x) as [w|]; cbn; [|done]. by rewrite !decide_False by congruence.
    + destruct (Hoth y) as [Hyl [wy Hwy]]; [set_solver|].
      wp_node. rewrite Hpv. wp_node. rewrite !head_all_set_heap, Hhd. wp_node. eapply wp_drop_one; [node_lookup|done|].
      heap_norm. rewrite Hnx. apply HQ. freed_by l.
      destruct (decide (y = x)) as [->|Hyx]; [by rewrite Hwy; cbn; rewrite decide_False, decide_True by congruence|].
      destruct (heap q !! x) as [w|]; cbn; [|done]. by rewrite !decide_False by congruence.
Qed.

(** ** Visiting a node *)

(** A poll in progress: the queue is awake and a current node may be left. *)
Definition polling q (rl : list loc) (from : option loc) (rest cur : list loc) (cnt : loc → Z) : Prop :=
  sleeping q = false ∧ ∃ al, queue_inv q (mkView al rl from rest cur) cnt.

Definition same_poll q q' : Prop := awakener q' = awakener q ∧ same_env q q'.

Lemma same_poll_trans q1 q2 q3 : same_poll q1 q2 → same_poll q2 q3 → same_poll q1 q3.
Proof. intros (? & ? & ?) (? & ? & ?). split; [congruence|split; congruence]. Qed.

Lemma info_events_node n : info_events (info n) = poll_events n.
Proof. done. Qed.

Lemma info_dead_node v l n c : node_ok v l n c → info_dead (info n) = bool_decide (c = 0).
Proof. intros Hok. unfold info_dead. rewrite info_events_node, is_drop_poll_events. apply (no_drop _ _ _ _ Hok). Qed.

Lemma requeued_node n :
  is_drop (poll_events n) = false →
  requeued (info n) = negb (PollOpt.is_edge (poll_opts n) || is_empty (poll_events n)).
Proof. intros Hd. unfold requeued, info_dead. by rewrite info_events_node, Hd. Qed.

(** A node nobody refers to is unlinked and freed. *)
Lemma wp_process_dead q l n rl from rest cnt dst (Q : E → Queue A → Prop) :
  polling q rl from rest [l] cnt → heap q !! l = Some n → is_drop (poll_events n) = true →
  (∀ q', polling q' rl from rest [] cnt → nodes q' = delete l (nodes q) → same_poll q q' → Q dst q') →
  wp (process_node push_event l dst) Q q.
Proof.
  intros [Hs [al Hi]] Hn Hd HQ. unfold process_node. wp_step. eapply wp_read; [exact Hn|].
  wp_step. cbn [dequeue_loop]. rewrite Hd. wp_step. rewrite Hd.
  assert (l ∈ al) as Hal by (apply (qi_own _ _ _ Hi); eauto).
  apply list_elem_of_split in Hal as (l1 & l2 & ->).
  assert (wp (b ← unlink_node l; drop_box 1 b) (λ _ q', wp (mret dst) Q q') q) as Hw.
  { eapply wp_unlink_free; [exact Hi|]. intros h' Hf. wp_step. apply HQ; [|by apply (freed_nodes (head l2) (last l1))|done].
    split; [done|]. eexists. by eapply queue_inv_free. }
  revert Hw. unfold wp, mbind, M_bind. destruct (unlink_node l q) as [[b q1]| |]; [|done..].
  by destruct (drop_box 1 b q1) as [[[] q2]| |].
Qed.

(** Edge-triggered nodes and nodes without events leave the ready list. *)
Lemma wp_dequeue_idle q l n rl from rest cnt (Q : Ready.t → Queue A → Prop) :
  polling q rl from rest [l] cnt → heap q !! l = Some n → is_drop (poll_events n) = false →
  PollOpt.is_edge (poll_opts n) || is_empty (poll_events n) = true →
  (∀ q' n', polling q' rl from rest [] cnt → heap q' !! l = Some n' → info n' = info n →
    nodes q' = nodes q → same_poll q q' → Q (poll_events n) q') →
  wp (dequeue_loop 1 l (poll_opts n) (queued n) (poll_events n)) Q q.
Proof.
  intros [Hs [al Hi]] Hn Hd He HQ. cbn [dequeue_loop]. rewrite Hd, He. wp_step.
  eapply wp_dequeue; [exact Hi|exact Hn|]. intros q' Hi' Hn' Hnq Ha Hen Hs'. wp_step.
  eapply wp_read; [exact Hn'|]. rewrite Z.eqb_refl. wp_step. change (poll_events (n_set_queued 0 n)) with (poll_events n).
  apply (HQ q' (n_set_queued 0 n)); try done. split; [by rewrite Hs'|eauto].
Qed.

(** Level-triggered nodes with events go back to the front. *)
Lemma wp_dequeue_level q l n rl from rest cnt (Q : Ready.t → Queue A → Prop) :
  polling q rl from rest [l] cnt → heap q !! l = Some n → is_drop (poll_events n) = false →
  PollOpt.is_edge (poll_opts n) || is_empty (poll_events n) = false →
  (∀ q' n', polling q' (l :: rl) from rest [] cnt → heap q' !! l = Some n' → info n' = info n →
    nodes q' = nodes q → same_poll q q' → Q (poll_events n) q') →
  wp (dequeue_loop 1 l (poll_opts n) (queued n) (poll_events n)) Q q.
Proof.
  intros [Hs [al Hi]] Hn Hd He HQ. cbn [dequeue_loop]. rewrite Hd, He. wp_step.
  apply (wp_prepend l q (mkView al rl from rest []) cnt); [done|done|].
  intros q' Hi' Hnq Ha [Hen Hsl] Hh. rewrite Hs. wp_step.
  pose proof (nodes_lookup _ _ _ Hn) as Hnl. rewrite <- Hnq in Hnl. unfold nodes in Hnl.
  apply lookup_fmap_Some in Hnl as (n' & Hinf & Hn'). apply (HQ q' n'); try done. split; [|eauto].
  unfold sleeping. rewrite Hh, Hsl. apply bool_decide_eq_false. intros [= ->].
  pose proof (qi_sleep _ _ _ Hi). congruence.
Qed.

Lemma wp_disable q l n rl from rest cnt (Q : unit → Queue A → Prop) :
  polling q rl from rest [] cnt → heap q !! l = Some n →
  (∀ q', polling q' rl from rest [] cnt → nodes q' = <[l := set_data RegistrationData_disable (info n)]> (nodes q) →
    same_poll q q' → Q tt q') →
  wp (write_node l (n_set_data RegistrationData_disable)) Q q.
Proof.
  intros [Hs [al Hi]] Hn HQ. eapply wp_write; [exact Hn|]. apply HQ; [|apply nodes_insert|done].
  split; [done|]. exists al. eapply queue_inv_node_same; try done. pose proof (qi_node _ _ _ Hi _ _ Hn) as []. by split.
Qed.

Lemma wp_process q l i rl from rest cnt dst (Q : E → Queue A → Prop) :
  polling q rl from rest [l] cnt → nodes q !! l = Some i →
  (∀ q', polling q' (if requeued i then l :: rl else rl) from rest [] cnt →
    nodes q' = partial_alter (λ _, after_visit i) l (nodes q) → same_poll q q' → Q (push_opt (node_event i) dst) q') →
  wp (process_node push_event l dst) Q q.
Proof.
  intros Hp Hl HQ. apply lookup_fmap_Some in Hl as (n & <- & Hn).
  destruct (is_drop (poll_events n)) eqn:Hd.
  { eapply wp_process_dead; [done..|]. intros q' Hp' Hnq Hsp. revert HQ.
    unfold requeued, after_visit, node_event, info_dead. rewrite info_events_node, Hd. auto. }
  unfold process_node. wp_step. eapply wp_read; [exact Hn|]. wp_step.
  assert (∀ q' n', polling q' (if requeued (info n) then l :: rl else rl) from rest [] cnt → heap q' !! l = Some n' →
    info n' = info n → nodes q' = nodes q → same_poll q q' → 
    wp (if is_drop (poll_events n) then b ← unlink_node l; _ ← drop_box 1 b; mret dst
        else if negb (Ready.is_none (poll_events n)) then
          n0 ← read_node l; let dst := push_event (Event.new (poll_events n) (n_token n0)) dst in
          _ ← (if PollOpt.is_oneshot (poll_opts n) then write_node l (n_set_data RegistrationData_disable) else mret tt);
          mret dst
        else mret dst) Q q') as Hrest.
  { intros q' n' Hp' Hn' Hinf Hnq Hsp. rewrite Hd. revert HQ. unfold after_visit, node_event, info_dead.
    rewrite info_events_node, Hd. cbn [orb]. intros HQ.
    pose proof (nodes_lookup _ _ _ Hn') as Hnl'. rewrite Hinf, Hnq in Hnl'.
    assert (nodes q = partial_alter (λ _, Some (info n)) l (nodes q)) as Hid 
      by exact (eq_sym (insert_id (nodes q) l (info n) Hnl')).
    destruct (Ready.is_none (poll_events n)); cbn [negb andb] in *.
    { wp_step. apply HQ; [done| |done]. by rewrite Hnq. }
    wp_step. eapply wp_read; [exact Hn'|]. assert (n_token n' = n_token n) as ->
      by (unfold n_token; by injection Hinf as -> _).
    change (poll_opts n) with (rd_opts (i_data (info n))). cbn beta zeta. wp_step.
    destruct (PollOpt.is_oneshot _).
    - eapply wp_disable; [exact Hp'|exact Hn'|]. intros q2 Hp2 Hnq2 Hsp2. wp_step.
      apply HQ; [done|by rewrite Hnq2, Hnq, Hinf|by eapply same_poll_trans].
    - do 2 wp_step. apply HQ; [done|by rewrite Hnq|done]. }
  destruct (PollOpt.is_edge (poll_opts n) || is_empty (poll_events n)) eqn:He.
  - eapply wp_dequeue_idle; [done..|]. intros q' n' ? ? ? ? ?. apply (Hrest q' n'); try done.
    by rewrite requeued_node, He.
  - eapply wp_dequeue_level; [done..|]. intros q' n' ? ? ? ? ?. apply (Hrest q' n'); try done.
    by rewrite requeued_node, He.
Qed.

(** ** The whole poll *)

(** What a poll makes of the nodes, seen before the poll, of a ready list. *)
Definition visited_events (m : gmap loc Info) (rl : list loc) : list Event.t := omap (λ l, m !! l ≫= node_event) rl.
Definition visited_ready (m : gmap loc Info) (rl : list loc) : list loc :=
  reverse (filter (λ l, from_option requeued false (m !! l) = true) rl).
Definition visited (m m' : gmap loc Info) (rl : list loc) : Prop :=
  ∀ x, m' !! x = if decide (x ∈ rl) then m !! x ≫= after_visit else m !! x.

Lemma visited_events_ext m m' rl :
  (∀ x, x ∈ rl → m' !! x = m !! x) → visited_events m' rl = visited_events m rl.
Proof.
  intros Heq. unfold visited_events. induction rl as [|l rl IH]; [done|]. cbn.
  rewrite Heq by set_solver. rewrite IH by set_solver. done.
Qed.

Lemma visited_ready_ext m m' rl :
  (∀ x, x ∈ rl → m' !! x = m !! x) → visited_ready m' rl = visited_ready m rl.
Proof.
  intros Heq. unfold visited_ready. f_equal. induction rl as [|l rl IH]; [done|].
  rewrite !filter_cons, Heq by set_solver. rewrite IH by set_solver. done.
Qed.

Lemma visited_ready_cons m l i rl :
  m !! l = Some i → visited_ready m (l :: rl) = visited_ready m rl ++ (if requeued i then [l] else []).
Proof.
  intros Hl. unfold visited_ready. rewrite filter_cons, Hl. destruct (requeued i) eqn:Er.
  - rewrite decide_True by done. by rewrite reverse_cons.
  - rewrite decide_False by (cbn; congruence). by rewrite app_nil_r.
Qed.

Lemma wp_poll_loop fuel q rl from rest cnt dst (Q : E → Queue A → Prop) :
  polling q rl from rest [] cnt → (length rest < fuel)%nat →
  (∀ q', polling q' (visited_ready (nodes q) rest ++ rl) None [] [] cnt →
    visited (nodes q) (nodes q') rest → same_poll q q' →
    Q (foldl (λ d e, push_event e d) dst (visited_events (nodes q) rest)) q') →
  wp (queue_poll_loop push_event fuel from dst) Q q.
Proof.
  revert q rl from rest dst. induction fuel as [|fuel IH]; intros q rl from rest dst [Hs [al Hi]] Hf HQ; [lia|].
  pose proof (qi_rest _ _ _ Hi) as Hch. cbn in Hch. cbn [queue_poll_loop]. wp_step.
  destruct rest as [|l rest]; cbn in Hch.
  { rewrite Hch in *. unfold ready_next. do 2 wp_step. apply HQ; [split; eauto| |done].
    intros x. by rewrite decide_False by set_solver. }
  destruct Hch as [-> (n & Hn & Hch)].
  pose proof (qi_nodup _ _ _ Hi) as Hnd. unfold v_queued in Hnd. cbn in Hnd.
  apply NoDup_app in Hnd as (_ & _ & Hnd). apply NoDup_cons in Hnd as [Hlr Hnd].
  eapply wp_ready_next; [exact Hi|]. intros n' q1 Hn' Hi1 Hnq1 Ha1 He1 Hs1. wp_step.
  pose proof (nodes_lookup _ _ _ Hn') as Hl. rewrite <- Hnq1 in Hl.
  eapply wp_process; [split; [by rewrite Hs1|eauto]|exact Hl|]. intros q2 Hp2 Hnq2 Hsp2. rewrite Hnq1 in Hnq2, Hl.
  assert (∀ x, x ≠ l → nodes q2 !! x = nodes q !! x) as Hoth by (intros; by rewrite Hnq2, lookup_partial_alter_ne).
  assert (∀ x, x ∈ rest → nodes q2 !! x = nodes q !! x) as Hrest by (intros x Hx; apply Hoth; by intros ->).
  eapply IH; [exact Hp2|cbn in Hf; lia|]. intros q3 Hp3 Hv Hsp3.
  rewrite (visited_events_ext (nodes q) (nodes q2)) by done.
  rewrite (visited_ready_ext (nodes q) (nodes q2)) in Hp3 by done.
  replace (foldl _ (push_opt _ _) _) with (foldl (λ d e, push_event e d) dst (visited_events (nodes q) (l :: rest))).
  2:{ unfold visited_events. cbn. rewrite Hl. cbn. by destruct (node_event (info n')). }
  apply HQ.
  - rewrite (visited_ready_cons _ _ (info n')) by done. rewrite <- app_assoc. by destruct (requeued (info n')).
  - intros x. rewrite Hv. destruct (decide (x ∈ rest)) as [Hx|Hx].
    + rewrite decide_True by set_solver. by rewrite Hrest.
    + destruct (decide (x = l)) as [->|Hne].
      * rewrite decide_True by set_solver. rewrite Hnq2, lookup_partial_alter_eq, Hl. done.
      * rewrite decide_False by set_solver. by apply Hoth.
  - exact (same_poll_trans _ _ _ (conj Ha1 He1) (same_poll_trans _ _ _ Hsp2 Hsp3)).
Qed.

Lemma ready_length q v cnt : queue_inv q v cnt → (length (v_queued v) ≤ size (heap q))%nat.
Proof.
  intros Hi. rewrite <- size_dom. etransitivity; [|apply subseteq_size].
  - rewrite <- (size_list_to_set (C := gset loc) (v_queued v)) by apply (qi_nodup _ _ _ Hi). done.
  - intros x Hx%elem_of_list_to_set. apply elem_of_dom. by eapply queued_nodes.
Qed.

Lemma wp_queue_poll q al rl cnt dst (Q : E → Queue A → Prop) :
  queue_good q al rl cnt →
  (∀ q' al', queue_good q' al' (visited_ready (nodes q) rl) cnt → visited (nodes q) (nodes q') rl →
    same_poll q q' → sleeping q' = false → (∀ l, is_Some (heap q' !! l) → cnt l ≠ 0) →
    Q (foldl (λ d e, push_event e d) dst (visited_events (nodes q) rl)) q') →
  wp (queue_poll push_event dst) Q q.
Proof.
  intros [Hi Hz] HQ. unfold queue_poll. wp_step. eapply wp_take_ready; [exact Hi|].
  intros q1 Hi1 Hnq1 Ha1 He1 Hs1. wp_steps.
  eapply (wp_poll_loop _ q1 [] (ready_head q) rl cnt); [by split; eauto| |].
  { pose proof (ready_length _ _ _ Hi1) as Hlen. unfold v_queued in Hlen. cbn in Hlen. lia. }
  intros q2 [Hs2 [al2 Hi2]] Hv Hsp. rewrite Hnq1 in *. rewrite app_nil_r in *.
  assert (∀ l, is_Some (heap q2 !! l) → cnt l ≠ 0) as Hlive.
  { intros l Hl H0. apply nodes_dom in Hl. rewrite Hv in Hl.
    assert (is_Some (nodes q !! l)) as [i Hli].
    { case_decide; [|done]. destruct (nodes q !! l); [eauto|by destruct Hl]. }
    rewrite Hli in Hl. pose proof Hli as Hli'. apply lookup_fmap_Some in Hli' as (n & <- & Hn).
    rewrite decide_True in Hl by (rewrite <- (queued_quiet al rl); apply Hz; eauto).
    cbn in Hl. unfold after_visit in Hl.
    rewrite (info_dead_node _ _ _ _ (qi_node _ _ _ Hi _ _ Hn)), H0 in Hl. by destruct Hl. }
  apply (HQ q2 al2); try done.
  - split; [done|]. intros l Hl H0. by destruct (Hlive l Hl).
  - exact (same_poll_trans _ _ _ (conj Ha1 He1) Hsp).
Qed.
End poll.
