(* ===== verification/Poll.v ===== *)
(** * poll.rs: Poll, Events and the users of the readiness queue

    [Poll] joins the selector of the platform with the readiness queue.  The
    selector and its event buffer are interfaces here ([SelectorOps],
    [SysEventsOps]); [Epoll.v] and [Kqueue.v] provide them.  This file also shows
    that the readiness queue implements the interface the timer and the channel
    are built on. *)

From S2P Require Import Prelude Event Convert DList Iface ReadyQueue QueueInv QueueOps QueuePoll.

(** ** Interfaces of the platform *)

Class SysEventsOps (V : Type) : Type := {
  ev_with_capacity : Z → V;
  ev_len : V → Z;
  ev_is_empty : V → bool;
  ev_get : V → Z → option Event.t;
  ev_push : Event.t → V → V }.

(** [select(&mut events, awakener, timeout)]: was the awakener among the events? *)
Class SelectorOps (Sel V : Type) : Type := {
  sel_select : V → Token → option Duration → M Sel (io_result bool * V) }.

(** ** Events and their iterator *)

Section events.
Context {V : Type} {ev_ops : SysEventsOps V}.

Record Events : Type := mkEvents { ev_inner : V }.
Record EventsIter : Type := mkIter { it_inner : Events; it_pos : Z }.

Definition Events_with_capacity (capacity : Z) : Events := mkEvents (ev_with_capacity capacity).
Definition Events_get (e : Events) (idx : Z) : option Event.t := ev_get (ev_inner e) idx.
Definition Events_len (e : Events) : Z := ev_len (ev_inner e).
Definition Events_is_empty (e : Events) : bool := ev_is_empty (ev_inner e).
Definition Events_iter (e : Events) : EventsIter := mkIter e 0.
Definition into_iter (e : Events) : EventsIter := Events_iter e.
Definition EventsIter_next (it : EventsIter) : option Event.t * EventsIter :=
  (Events_get (it_inner it) (it_pos it), mkIter (it_inner it) (it_pos it + 1)).

(** [for event in &events]. *)
Fixpoint iterate (fuel : nat) (it : EventsIter) : outcome (list Event.t) :=
  match fuel with
  | O => OutOfFuel
  | S fuel =>
      match EventsIter_next it with
      | (None, _) => Done []
      | (Some e, it) => es ← iterate fuel it; Done (e :: es)
      end
  end.
End events.
Arguments Events V : clear implicits.
Arguments EventsIter V : clear implicits.

(** ** Poll *)

Definition validate_args (token : Token) (interest : Ready.t) : io_result unit :=
  if decide (token = AWAKEN) then Err (io_custom Other "invalid token")
  else if negb (Ready.is_readable interest) && negb (Ready.is_writable interest)
  then Err (io_custom Other "interest must include readable or writable")
  else Ok tt.

Definition Poll_fmt : string := "Poll".

Section poll.
Context {A : Type} {awk_ops : AwakenerOps A}.
Context {V : Type} {ev_ops : SysEventsOps V}.
Context {Sel : Type} {sel_ops : SelectorOps Sel V}.

Record Poll : Type := mkPoll { selector : Sel; readiness_queue : Queue A }.

(** An operation of the readiness queue, on the queue of a [Poll]. *)
Definition on_queue {X} (m : M (Queue A) X) : M Poll X := λ p,
  match m (readiness_queue p) with
  | Done (x, q) => Done (x, mkPoll (selector p) q)
  | Panic => Panic
  | OutOfFuel => OutOfFuel
  end.

(** [Evented]: what a source of events does with a [Poll]. *)
Record Evented : Type := mkEvented {
  e_register : Token → Ready.t → PollOpt.t → M Poll (io_result unit);
  e_reregister : Token → Ready.t → PollOpt.t → M Poll (io_result unit);
  e_deregister : M Poll (io_result unit) }.

Definition Poll_new (sel : io_result Sel) (id : Z) (sleep : loc) (aw : io_result A) (awakener : Evented)
    : outcome (io_result Poll) :=
  match sel, ReadinessQueue_new id sleep aw with
  | Err e, _ => Done (Err e)
  | Ok _, Err e => Done (Err e)
  | Ok s, Ok q =>
      '(r, p) ← e_register awakener AWAKEN Ready.readable PollOpt.edge (mkPoll s q);
      match r with
      | Ok _ => Done (Ok p)
      | Err e => Done (Err e)
      end
  end.

Definition Poll_register (io : Evented) (token : Token) (interest : Ready.t) (opts : PollOpt.t) : M Poll (io_result unit) :=
  try! mret (validate_args token interest);
  try! e_register io token interest opts;
  mret (Ok tt).

Definition Poll_reregister (io : Evented) (token : Token) (interest : Ready.t) (opts : PollOpt.t) : M Poll (io_result unit) :=
  try! mret (validate_args token interest);
  try! e_reregister io token interest opts;
  mret (Ok tt).

Definition Poll_deregister (io : Evented) : M Poll (io_result unit) :=
  try! e_deregister io;
  mret (Ok tt).

(** The timeout [Poll::poll] passes to the selector. *)
Definition poll_timeout (timeout : option Duration) : M (Queue A) (option Duration) :=
  empty ← queue_is_empty;
  if negb empty then mret (Some (from_millis 0))
  else
    can_sleep ← prepare_for_sleep;
    if negb can_sleep then mret (Some (from_millis 0)) else mret timeout.

(** [Poll::poll].  [others]: what other threads do to the queue through their
    handles while this thread is in the selector. *)
Definition Poll_poll (others : Queue A → Queue A) (events : Events V) (timeout : option Duration)
    : M Poll (io_result Z * Events V) := λ p,
  '(timeout, p) ← on_queue (poll_timeout timeout) p;
  '((awoken, evs), sel) ← sel_select (ev_inner events) AWAKEN timeout (selector p);
  let p := mkPoll sel (others (readiness_queue p)) in
  match awoken with
  | Err e => Done ((Err e, mkEvents evs), p)
  | Ok awoken =>
      let p := if awoken : bool
               then mkPoll (selector p) (set_awakener (awk_cleanup (awakener (readiness_queue p))) (readiness_queue p))
               else p in
      '(evs, p) ← on_queue (queue_poll ev_push evs) p;
      Done ((Ok (Events_len (mkEvents evs)), mkEvents evs), p)
  end.
End poll.
Arguments Poll A Sel : clear implicits.

(** ** The readiness interface *)

Section iface.
Context {A : Type} {awk_ops : AwakenerOps A}.
Implicit Types q : Queue A.

#[export] Instance queue_readiness_ops : ReadinessOps (Queue A) RegistrationInner := {
  rd_set_readiness := inner_set_readiness;
  rd_readiness := inner_readiness;
  rd_clone := inner_clone }.

(** The [Poll] argument is the identity of its queue. *)
#[export] Instance queue_registration_ops : RegistrationOps (Queue A) RegistrationInner RegistrationInner Z := {
  reg_new := Registration_new;
  reg_update := Registration_update;
  reg_deregister := Registration_deregister }.

Definition queue_wf q : Prop := ∃ al rl cnt, queue_good q al rl cnt.

#[export] Instance queue_readiness_spec : ReadinessSpec (Queue A) RegistrationInner := {
  rd_ok := queue_wf;
  rd_live q h := queue_wf q ∧ ∃ n, heap q !! h_node h = Some n ∧ 0 < ref_count n;
  rd_current q h := from_option (λ n, from_usize (events n)) Ready.none (heap q !! h_node h) }.

Lemma live_count q al rl cnt l n : queue_good q al rl cnt → heap q !! l = Some n → cnt l = ref_count n.
Proof. intros [Hi _] Hn. symmetry. apply (no_ref _ _ _ _ (qi_node _ _ _ Hi _ _ Hn)). Qed.

Lemma set_effect_current q q' l r n rl res :
  heap q !! l = Some n → set_effect l r n rl q res q' →
  from_option (λ n, from_usize (events n)) Ready.none (heap q' !! l) = r.
Proof.
  intros Hn [Hnq _ _ _]. pose proof (f_equal (.!! l) Hnq) as Hl. cbv beta in Hl.
  unfold nodes in Hl. rewrite lookup_fmap, lookup_insert_eq in Hl.
  destruct (heap q' !! l) as [n'|]; [|done]. cbn in Hl. injection Hl as _ Hev. cbn. rewrite Hev. by destruct r.
Qed.

#[export] Instance queue_readiness_laws : ReadinessLaws (Queue A) RegistrationInner.
Proof.
  split.
  - intros q h r ((al & rl & cnt & Hg) & n & Hn & Hr) Hd.
    assert (wp (inner_set_readiness h r) (λ res q', set_effect (h_node h) r n rl q res q' ∧
      queue_good q' al (if is_empty r then rl else enqueue (h_node h) rl) cnt) q) as Hwp.
    { eapply wp_set_live; [done..| |done|auto]. by rewrite (live_count _ _ _ _ _ _ Hg Hn). }
    apply wp_done in Hwp as (res & q' & E & Hs & Hg'). exists res, q'. split; [done|].
    split; [by eapply set_effect_current|].
    split; [|intros He; destruct (se_wake _ _ _ _ _ _ _ Hs) as [_ ->]; by rewrite He].
    intros h' (_ & n' & Hn' & Hr'). split; [by exists al, (if is_empty r then rl else enqueue (h_node h) rl), cnt|].
    assert (is_Some (heap q' !! h_node h')) as [n2 Hn2].
    { apply nodes_dom. rewrite (se_nodes _ _ _ _ _ _ _ Hs). apply lookup_insert_is_Some'. right. apply nodes_dom. eauto. }
    exists n2. split; [done|]. rewrite <- (live_count _ _ _ _ _ _ Hg' Hn2).
    by rewrite (live_count _ _ _ _ _ _ Hg Hn').
  - intros q h (_ & n & Hn & _). cbn. unfold inner_readiness, read_node, mbind, M_bind. by rewrite Hn.
Qed.
End iface.
