(* ===== verification/PollThm.v ===== *)
(** * Theorems about the readiness queue and Poll

    Programs over handles are memory safe and leak nothing; a poll reports what
    its nodes have to say; a sleeping poll is woken. *)

From S2P Require Import Prelude Event Convert DList Iface ReadyQueue QueueInv QueueOps QueuePoll Poll.

(** ** Programs over handles

    The state is the queue, the handles that are alive (each one a
    [Registration] or a [SetReadiness]) and the events reported so far. *)

Inductive HOp : Type :=
  | HNew (token : Token) (interest : Ready.t) (opts : PollOpt.t)
  | HClone (i : nat)
  | HDropSetReadiness (i : nat)
  | HDropRegistration (i : nat)
  | HSetReadiness (i : nat) (ready : Ready.t)
  | HReadiness (i : nat)
  | HUpdate (i : nat) (token : Token) (interest : Ready.t) (opts : PollOpt.t)
  | HDeregister (i : nat)
  | HPoll.

(** A readiness a user of the crate can build never has the drop flag. *)
Definition hop_ok (op : HOp) : Prop :=
  match op with HSetReadiness _ r => is_drop r = false | _ => True end.
#[export] Instance hop_ok_dec op : Decision (hop_ok op).
Proof. destruct op; cbn; apply _. Defined.

Section pool.
Context {A : Type} {awk_ops : AwakenerOps A}.
Implicit Types q : Queue A.

Record Pool : Type := mkPool { p_queue : Queue A; p_handles : list RegistrationInner; p_log : list Event.t }.

Definition push_log (e : Event.t) (l : list Event.t) : list Event.t := l ++ [e].

(** Use handle [i]; there is nothing to do when it does not exist. *)
Definition with_handle (i : nat) (p : Pool) (f : RegistrationInner → outcome Pool) : outcome Pool :=
  match p_handles p !! i with Some h => f h | None => Done p end.

Definition run_hop (op : HOp) (p : Pool) : outcome Pool :=
  let q := p_queue p in
  match op with
  | HNew token interest opts =>
      '((r, s), q) ← Registration_new (q_id q) token interest opts q;
      Done (mkPool q (r :: s :: p_handles p) (p_log p))
  | HClone i => with_handle i p (λ h,
      '(h', q) ← SetReadiness_clone h q; Done (mkPool q (h' :: p_handles p) (p_log p)))
  | HDropSetReadiness i => with_handle i p (λ h,
      '(_, q) ← SetReadiness_drop h q; Done (mkPool q (delete i (p_handles p)) (p_log p)))
  | HDropRegistration i => with_handle i p (λ h,
      '(_, q) ← Registration_drop h q; Done (mkPool q (delete i (p_handles p)) (p_log p)))
  | HSetReadiness i r => with_handle i p (λ h,
      '(_, q) ← SetReadiness_set_readiness h r q; Done (mkPool q (p_handles p) (p_log p)))
  | HReadiness i => with_handle i p (λ h,
      '(_, q) ← SetReadiness_readiness h q; Done (mkPool q (p_handles p) (p_log p)))
  | HUpdate i token interest opts => with_handle i p (λ h,
      '(_, q) ← Registration_update h (q_id q) token interest opts q; Done (mkPool q (p_handles p) (p_log p)))
  | HDeregister i => with_handle i p (λ h,
      '(_, q) ← Registration_deregister h (q_id q) q; Done (mkPool q (p_handles p) (p_log p)))
  | HPoll =>
      '(log, q) ← queue_poll push_log (p_log p) q; Done (mkPool q (p_handles p) log)
  end.

Fixpoint run_hops (ops : list HOp) (p : Pool) : outcome Pool :=
  match ops with
  | [] => Done p
  | op :: ops => p ← run_hop op p; run_hops ops p
  end.

(** ** Counting handles *)

Definition cnt_of (hs : list RegistrationInner) (l : loc) : Z :=
  Z.of_nat (length (filter (λ h, h_node h = l) hs)).

Lemma cnt_of_cons h hs l : cnt_of (h :: hs) l = cnt_of hs l + (if decide (h_node h = l) then 1 else 0).
Proof. unfold cnt_of. rewrite filter_cons. case_decide; cbn; lia. Qed.

Lemma cnt_of_delete hs i h l :
  hs !! i = Some h → cnt_of (delete i hs) l = cnt_of hs l - (if decide (h_node h = l) then 1 else 0).
Proof.
  revert i. induction hs as [|g hs IH]; intros [|i] Hi; cbn in Hi; simplify_eq; cbn [delete list_delete].
  - rewrite cnt_of_cons. lia.
  - change (cnt_of (g :: delete i hs) l = cnt_of (g :: hs) l - (if decide (h_node h = l) then 1 else 0)).
    rewrite !cnt_of_cons, IH by done. lia.
Qed.

Lemma cnt_of_live hs i h : hs !! i = Some h → 0 < cnt_of hs (h_node h) <= Z.of_nat (length hs).
Proof.
  intros Hi. unfold cnt_of. split.
  - apply list_elem_of_lookup_2 in Hi. assert (h ∈ filter (λ g, h_node g = h_node h) hs) as Hin by (by apply list_elem_of_filter).
    destruct (filter _ hs); [set_solver|cbn; lia].
  - pose proof (length_filter (λ g, h_node g = h_node h) hs). lia.
Qed.

Lemma cnt_of_unused hs l : (∀ h, h ∈ hs → h_node h ≠ l) → cnt_of hs l = 0.
Proof.
  intros Hn. unfold cnt_of. assert (filter (λ h, h_node h = l) hs = []) as ->; [|done].
  induction hs as [|h hs IH]; [done|]. rewrite filter_cons, decide_False by (apply Hn; set_solver). apply IH. set_solver.
Qed.

(** ** Well-formed pools *)

Record pool_ok (p : Pool) : Prop := {
  po_queue : ∃ al rl, queue_good (p_queue p) al rl (cnt_of (p_handles p));
  po_handles h : h ∈ p_handles p → is_Some (heap (p_queue p) !! h_node h) ∧ h_queue h = q_id (p_queue p);
  po_awake : sleeping (p_queue p) = false }.

Lemma queue_good_cnt q al rl cnt cnt' :
  queue_good q al rl cnt → (∀ l, is_Some (heap q !! l) → cnt' l = cnt l) → queue_good q al rl cnt'.
Proof.
  intros [Hi Hz] Heq. split; [by eapply queue_inv_cnt|]. intros l Hl. rewrite Heq by done. by apply Hz.
Qed.

Lemma heap_of_nodes q q' l : nodes q' = nodes q → is_Some (heap q !! l) → is_Some (heap q' !! l).
Proof. intros Heq Hl. apply nodes_dom. rewrite Heq. by apply nodes_dom. Qed.

Lemma heap_of_insert q q' l0 i l :
  nodes q' = <[l0 := i]> (nodes q) → is_Some (heap q !! l) → is_Some (heap q' !! l).
Proof. intros Heq Hl. apply nodes_dom. rewrite Heq. apply lookup_insert_is_Some'. right. by apply nodes_dom. Qed.

(** ** Each operation *)

Lemma sleeping_same q q' : same_env q q' → head_readiness q' = head_readiness q → sleeping q' = sleeping q.
Proof. intros [_ He] Hh. unfold sleeping. by rewrite He, Hh. Qed.

(** [Registration::new] leaves two handles of a fresh node. *)
Lemma wp_registration_new id token interest opts q al rl cnt (Q : RegistrationInner * RegistrationInner → Queue A → Prop) :
  queue_good q al rl cnt →
  (∀ l q', heap q !! l = None → queue_good q' (l :: al) rl (upd cnt l 2) →
    nodes q' = <[l := mkInfo (mkData token interest opts) 0]> (nodes q) → same_env q q' →
    (sleeping q = false → sleeping q' = false) → Q (mkHandle id l, mkHandle id l) q') →
  wp (Registration_new id token interest opts) Q q.
Proof.
  intros Hg HQ. unfold Registration_new, inner_new. do 2 wp_step. eapply wp_new_node; [exact Hg|].
  intros l q1 Hl Hg1 Hn1 He1 _ Hh1. do 2 wp_step.
  assert (∀ q', nodes q' = nodes q1 → ∃ n, heap q' !! l = Some n) as Hex.
  { intros q' Hq'. apply nodes_dom. rewrite Hq', Hn1, lookup_insert_eq. eauto. }
  destruct (Hex q1 eq_refl) as [n1 Hl1].
  eapply wp_clone; [exact Hg1|exact Hl1|cbn [h_node]; rewrite !upd_same; unfold MAX_REFCOUNT, ISIZE_MAX; lia|].
  intros q2 Hg2 Hn2 He2 _ Hh2. wp_step. destruct (Hex q2 Hn2) as [n2 Hl2].
  eapply wp_clone; [exact Hg2|exact Hl2|cbn [h_node]; rewrite !upd_same; unfold MAX_REFCOUNT, ISIZE_MAX; lia|].
  intros q3 Hg3 Hn3 He3 _ Hh3. wp_step. destruct (Hex q3 (eq_trans Hn3 Hn2)) as [n3 Hl3].
  eapply wp_drop; [exact Hg3|exact Hl3|cbn [h_node]; rewrite !upd_same; unfold MAX_REFCOUNT, ISIZE_MAX; lia|].
  cbn [h_node]. rewrite !upd_same. change (1 + 1 + 1 - 1) with 2. rewrite !(decide_False (P := 2 = 0)) by lia.
  intros q4 Hg4 Hn4 He4 Hs4. wp_step. apply HQ; [done| |congruence| |].
  - eapply queue_good_cnt; [exact Hg4|]. intros x _. unfold upd. by destruct (decide (l = x)).
  - destruct He1, He2, He3, He4. split; congruence.
  - intros Hs. apply Hs4. rewrite (sleeping_same q2 q3), (sleeping_same q1 q2), (sleeping_same q q1); done.
Qed.

Lemma pool_live p i h :
  pool_ok p → p_handles p !! i = Some h →
  ∃ al rl n, queue_good (p_queue p) al rl (cnt_of (p_handles p)) ∧ heap (p_queue p) !! h_node h = Some n ∧
    0 < cnt_of (p_handles p) (h_node h) <= Z.of_nat (length (p_handles p)) ∧ h_queue h = q_id (p_queue p).
Proof.
  intros [(al & rl & Hg) Hh _] Hi. destruct (Hh h) as [[n Hn] Hq]; [by eapply list_elem_of_lookup_2|].
  exists al, rl, n. eauto using cnt_of_live.
Qed.

(** A step that only replaces the queue, keeping the allocated nodes. *)
Lemma pool_keep p q' al rl log :
  pool_ok p → queue_good q' al rl (cnt_of (p_handles p)) → same_env (p_queue p) q' →
  (sleeping (p_queue p) = false → sleeping q' = false) →
  (∀ l, is_Some (heap (p_queue p) !! l) → cnt_of (p_handles p) l ≠ 0 → is_Some (heap q' !! l)) →
  pool_ok (mkPool q' (p_handles p) log).
Proof.
  intros Hp Hg [Hid _] Hs Hd. split; cbn; [eauto| |apply Hs, (po_awake _ Hp)].
  intros h Hin. destruct (po_handles _ Hp h Hin) as [Hl Hq]. split; [|congruence].
  apply Hd; [done|]. apply list_elem_of_lookup_1 in Hin as [i Hi]. pose proof (cnt_of_live _ _ _ Hi). lia.
Qed.

Lemma pool_new p token interest opts :
  pool_ok p → ∃ p', run_hop (HNew token interest opts) p = Done p' ∧ pool_ok p' ∧
    (length (p_handles p') ≤ length (p_handles p) + 2)%nat.
Proof.
  intros Hp. pose proof (po_queue _ Hp) as (al & rl & Hg). set (q := p_queue p) in *.
  assert (wp (Registration_new (q_id q) token interest opts) (λ r q', ∃ l, r = (mkHandle (q_id q) l, mkHandle (q_id q) l) ∧
    heap q !! l = None ∧ queue_good q' (l :: al) rl (upd (cnt_of (p_handles p)) l 2) ∧
    nodes q' = <[l := mkInfo (mkData token interest opts) 0]> (nodes q) ∧ same_env q q' ∧
    (sleeping q = false → sleeping q' = false)) q) as Hw.
  { eapply wp_registration_new; [exact Hg|]. eauto 10. }
  apply wp_done in Hw as (r & q' & E & l & -> & Hl & Hg' & Hn & [Hid _] & Hs).
  eexists. cbn [run_hop]. fold q. rewrite E. cbn. split; [done|]. split; [|cbn; lia].
  assert (cnt_of (p_handles p) l = 0) as Hc0.
  { apply cnt_of_unused. intros h Hin <-. destruct (po_handles _ Hp h Hin) as [[? Hx] _]. fold q in Hx. congruence. }
  split; cbn.
  - exists (l :: al), rl. eapply queue_good_cnt; [exact Hg'|]. intros x _. rewrite !cnt_of_cons. cbn. unfold upd.
    destruct (decide (l = x)) as [<-|]; lia.
  - assert (is_Some (heap q' !! l)) as Hlq by (apply nodes_dom; rewrite Hn, lookup_insert_eq; eauto).
    intros h [->|[->|Hin]%elem_of_cons]%elem_of_cons; [by cbn..|].
    destruct (po_handles _ Hp h Hin) as [Hx Hq]. split; [by eapply heap_of_insert|]. fold q in Hq. congruence.
  - apply Hs, (po_awake _ Hp).
Qed.

Lemma pool_clone p i :
  pool_ok p → Z.of_nat (length (p_handles p)) < MAX_REFCOUNT →
  ∃ p', run_hop (HClone i) p = Done p' ∧ pool_ok p' ∧ (length (p_handles p') ≤ length (p_handles p) + 2)%nat.
Proof.
  intros Hp Hlen. cbn [run_hop]. unfold with_handle. destruct (p_handles p !! i) as [h|] eqn:Hi; [|eauto with lia].
  destruct (pool_live p i h Hp Hi) as (al & rl & n & Hg & Hn & Hc & Hq). set (q := p_queue p) in *.
  assert (wp (SetReadiness_clone h) (λ h' q', h' = h ∧
    queue_good q' al rl (upd (cnt_of (p_handles p)) (h_node h) (cnt_of (p_handles p) (h_node h) + 1)) ∧
    nodes q' = nodes q ∧ same_env q q' ∧ sleeping q' = sleeping q) q) as Hw.
  { eapply wp_clone; [done|done|lia|]. intros q' ? ? ? _ ?. eauto 10 using sleeping_same. }
  apply wp_done in Hw as (h' & q' & E & -> & Hg' & Hnq & [Hid Hsl] & Hs).
  rewrite E. cbn. eexists. split; [done|]. split; [|cbn; lia]. split; cbn.
  - exists al, rl. eapply queue_good_cnt; [exact Hg'|]. intros x _. rewrite cnt_of_cons. unfold upd.
    destruct (decide (h_node h = x)) as [<-|]; lia.
  - intros g [->|Hin]%elem_of_cons.
    + split; [eapply heap_of_nodes; eauto|congruence].
    + destruct (po_handles _ Hp g Hin) as [Hx Hgq]. fold q in Hx, Hgq. split; [by eapply heap_of_nodes|congruence].
  - rewrite Hs. apply (po_awake _ Hp).
Qed.
(** The queue after a handle went away. *)
Lemma pool_dropped p i h n q q' al rl :
  pool_ok p → p_handles p !! i = Some h →
  (∀ l, is_Some (heap (p_queue p) !! l) → is_Some (heap q !! l)) → same_env (p_queue p) q →
  (sleeping (p_queue p) = false → sleeping q' = false) →
  let c := cnt_of (p_handles p) (h_node h) - 1 in
  queue_good q' al (if decide (c = 0) then enqueue (h_node h) rl else rl) (upd (cnt_of (p_handles p)) (h_node h) c) →
  nodes q' = (if decide (c = 0) then <[h_node h := set_events event_drop (info n)]> (nodes q) else nodes q) →
  same_env q q' → pool_ok (mkPool q' (delete i (p_handles p)) (p_log p)).
Proof.
  intros Hp Hi Hd [He _] Hs c Hg Hnq [He' _]. split; cbn.
  - eexists al, _. eapply queue_good_cnt; [exact Hg|]. intros x _. rewrite (cnt_of_delete _ _ _ _ Hi). unfold upd, c.
    destruct (decide (h_node h = x)) as [<-|]; lia.
  - intros g Hin%list_elem_of_delete_inv. destruct (po_handles _ Hp g Hin) as [Hx Hq]. split; [|congruence].
    apply Hd in Hx. clear Hg. destruct (decide (c = 0)); [by eapply heap_of_insert|by eapply heap_of_nodes].
  - apply Hs, (po_awake _ Hp).
Qed.

Lemma delete_length {X} i (l : list X) : (length (delete i l) ≤ length l)%nat.
Proof. apply sublist_length, sublist_delete. Qed.

Definition step_ok (op : HOp) (p : Pool) : Prop :=
  ∃ p', run_hop op p = Done p' ∧ pool_ok p' ∧ (length (p_handles p') ≤ length (p_handles p) + 2)%nat.

Lemma pool_drop p i : pool_ok p → step_ok (HDropSetReadiness i) p.
Proof.
  intros Hp. unfold step_ok. cbn [run_hop]. unfold with_handle.
  destruct (p_handles p !! i) as [h|] eqn:Hi; [|eauto with lia].
  destruct (pool_live p i h Hp Hi) as (al & rl & n & Hg & Hn & Hc & Hq).
  assert (wp (SetReadiness_drop h) (λ _ q', pool_ok (mkPool q' (delete i (p_handles p)) (p_log p))) (p_queue p)) as Hw.
  { eapply wp_drop; [done|done|lia|]. intros q' Hg' Hnq He Hs. by eapply (pool_dropped p i h n (p_queue p)). }
  apply wp_done in Hw as (u & q' & E & Hok). rewrite E. cbn. eexists. split; [done|]. split; [done|].
  cbn. pose proof (delete_length i (p_handles p)). lia.
Qed.

Lemma pool_drop_registration p i : pool_ok p → step_ok (HDropRegistration i) p.
Proof.
  intros Hp. unfold step_ok. cbn [run_hop]. unfold with_handle.
  destruct (p_handles p !! i) as [h|] eqn:Hi; [|eauto with lia].
  destruct (pool_live p i h Hp Hi) as (al & rl & n & Hg & Hn & Hc & Hq).
  assert (wp (Registration_drop h) (λ _ q', pool_ok (mkPool q' (delete i (p_handles p)) (p_log p))) (p_queue p)) as Hw.
  { unfold Registration_drop. wp_step. eapply wp_data_mut; [done|done|]. intros q1 Hg1 Hn1 Hnq1 He1 _ Hh1. cbn beta iota.
    eapply wp_drop; [done|done|lia|]. intros q' Hg' Hnq He Hs.
    eapply (pool_dropped p i h _ q1); [done|done| |done| |done|done|done].
    - intros l. by eapply heap_of_insert.
    - intros Hs0. apply Hs. by rewrite (sleeping_same (p_queue p) q1). }
  apply wp_done in Hw as (u & q' & E & Hok). rewrite E. cbn. eexists. split; [done|]. split; [done|].
  cbn. pose proof (delete_length i (p_handles p)). lia.
Qed.

Lemma pool_set p i r : pool_ok p → is_drop r = false → step_ok (HSetReadiness i r) p.
Proof.
  intros Hp Hr. unfold step_ok. cbn [run_hop]. unfold with_handle.
  destruct (p_handles p !! i) as [h|] eqn:Hi; [|eauto with lia].
  destruct (pool_live p i h Hp Hi) as (al & rl & n & Hg & Hn & Hc & Hq).
  assert (wp (SetReadiness_set_readiness h r) (λ _ q', pool_ok (mkPool q' (p_handles p) (p_log p))) (p_queue p)) as Hw.
  { eapply wp_set_live; [done|done|lia|done|]. intros res q' Hg' [Hnq He _ Hs].
    eapply pool_keep; [done|done|done|done|]. intros l Hl _. by eapply heap_of_insert. }
  apply wp_done in Hw as (u & q' & E & Hok). rewrite E. cbn. eexists. split; [done|]. split; [done|cbn; lia].
Qed.

Lemma pool_update p i token interest opts : pool_ok p → step_ok (HUpdate i token interest opts) p.
Proof.
  intros Hp. unfold step_ok. cbn [run_hop]. unfold with_handle.
  destruct (p_handles p !! i) as [h|] eqn:Hi; [|eauto with lia].
  destruct (pool_live p i h Hp Hi) as (al & rl & n & Hg & Hn & Hc & Hq). rewrite <- Hq.
  assert (wp (Registration_update h (h_queue h) token interest opts)
    (λ _ q', pool_ok (mkPool q' (p_handles p) (p_log p))) (p_queue p)) as Hw.
  { eapply wp_update; [done|done|right; right; apply (po_awake _ Hp)|]. intros q' Hg' Hnq He _ Hs.
    eapply pool_keep; [done|done|done|done|]. intros l Hl _. by eapply heap_of_insert. }
  apply wp_done in Hw as (u & q' & E & Hok). rewrite E. cbn. eexists. split; [done|]. split; [done|cbn; lia].
Qed.

Lemma pool_poll p : pool_ok p → step_ok HPoll p.
Proof.
  intros Hp. pose proof (po_queue _ Hp) as (al & rl & Hg).
  assert (wp (queue_poll push_log (p_log p)) (λ log q', pool_ok (mkPool q' (p_handles p) log)) (p_queue p)) as Hw.
  { eapply wp_queue_poll; [exact Hg|]. intros q' al' Hg' Hv [_ He] Hs _.
    eapply pool_keep; [done|done|done|done|]. intros l Hl Hc. apply nodes_dom. rewrite Hv. apply nodes_dom in Hl.
    case_decide; [|done]. destruct (nodes (p_queue p) !! l) as [inf|] eqn:Hinf; [|by destruct Hl].
    apply lookup_fmap_Some in Hinf as (n & <- & Hn). cbn. unfold after_visit. destruct Hg as [Hi _].
    rewrite (info_dead_node _ _ _ _ (qi_node _ _ _ Hi _ _ Hn)), bool_decide_eq_false_2 by done. case_match; eauto. }
  apply wp_done in Hw as (log & q' & E & Hok). unfold step_ok. cbn [run_hop]. rewrite E. cbn.
  eexists. split; [done|]. split; [done|cbn; lia].
Qed.

Lemma run_hop_ok op p :
  pool_ok p → hop_ok op → Z.of_nat (length (p_handles p)) < MAX_REFCOUNT → step_ok op p.
Proof.
  intros Hp Hop Hlen. destruct op as [| | | |i r|i| |i|].
  - by apply pool_new.
  - by apply pool_clone.
  - by apply pool_drop.
  - by apply pool_drop_registration.
  - by apply pool_set.
  - unfold step_ok. cbn [run_hop]. unfold with_handle. destruct (p_handles p !! i) as [h|] eqn:Hi; [|eauto with lia].
    destruct (pool_live p i h Hp Hi) as (al & rl & n & Hg & Hn & Hc & Hq).
    assert (wp (SetReadiness_readiness h) (λ _ q', q' = p_queue p) (p_queue p)) as Hw by (by eapply wp_readiness).
    apply wp_done in Hw as (r & q' & E & ->). rewrite E. cbn.
    eexists. split; [done|]. split; [by destruct Hp|cbn; lia].
  - by apply pool_update.
  - exact (pool_update p i (mkToken 0) Ready.none PollOpt.empty Hp).
  - by apply pool_poll.
Qed.

Lemma run_hops_ok ops p :
  pool_ok p → Forall hop_ok ops →
  Z.of_nat (length (p_handles p)) + 2 * Z.of_nat (length ops) < MAX_REFCOUNT →
  ∃ p', run_hops ops p = Done p' ∧ pool_ok p'.
Proof.
  revert p. induction ops as [|op ops IH]; intros p Hp Hops Hlen; [by exists p|].
  apply Forall_cons in Hops as [Hop Hops]. cbn [length] in Hlen.
  destruct (run_hop_ok op p Hp Hop ltac:(lia)) as (p1 & E & Hp1 & Hl). cbn [run_hops]. rewrite E. cbn.
  apply IH; [done|done|lia].
Qed.
End pool.
Arguments Pool A : clear implicits.

(** ** Sleeping and waking up *)

Section sleep.
Context {A : Type} {awk_ops : AwakenerOps A}.
Implicit Types q : Queue A.

Lemma prepare_for_sleep_eq q :
  prepare_for_sleep q = Done (bool_decide (head_readiness q = None),
    if decide (head_readiness q = None) then set_head_readiness (Some (sleep_token q)) q else q).
Proof.
  unfold prepare_for_sleep, cas_head, gets, mbind, M_bind. cbn. f_equal. f_equal.
  by destruct (decide (head_readiness q = None)) as [->|Hn]; rewrite ?decide_True, ?decide_False by done.
Qed.

Lemma empty_ready q al rl cnt : queue_good q al rl cnt → head_readiness q = None → rl = [].
Proof.
  intros [Hi _] Hh. pose proof (qi_ready _ _ _ Hi) as Hch. unfold ready_head in Hch. rewrite Hh in Hch. cbn in Hch.
  rewrite decide_False in Hch by done. destruct rl; [done|]. by destruct Hch.
Qed.

(** Falling asleep does not disturb the queue. *)
Lemma sleep_good q al rl cnt :
  queue_good q al rl cnt → head_readiness q = None →
  queue_good (set_head_readiness (Some (sleep_token q)) q) al [] cnt.
Proof.
  intros Hg Hh. pose proof (empty_ready _ _ _ _ Hg Hh) as ->. destruct Hg as [[Hall Hown Hsl Hrd Hrs Hnd Hcur Hno] Hz].
  split; [|done]. split; try done. unfold ready_head. cbn. by rewrite decide_True.
Qed.

Lemma poll_timeout_eq timeout q :
  poll_timeout timeout q = Done
    (if decide (head_readiness q = None)
     then (timeout, set_head_readiness (Some (sleep_token q)) q) else (Some (from_millis 0), q)).
Proof.
  unfold poll_timeout, queue_is_empty. unfold mbind, M_bind, gets. destruct (decide (head_readiness q = None)) as [H|H].
  - rewrite bool_decide_eq_true_2 by done. cbn [negb]. rewrite prepare_for_sleep_eq.
    by rewrite bool_decide_eq_true_2, decide_True by done.
  - by rewrite bool_decide_eq_false_2 by done.
Qed.
End sleep.

(** ** The interface of registrations *)

#[export] Instance queue_registration_laws {A} `{AwakenerOps A} :
  RegistrationLaws (Queue A) RegistrationInner RegistrationInner Z.
Proof.
  split. intros q p token interest opts (al & rl & cnt & Hg).
  assert (wp (Registration_new p token interest opts) (λ r q', ∃ l, r = (mkHandle p l, mkHandle p l) ∧
    queue_good q' (l :: al) rl (upd cnt l 2) ∧ nodes q' = <[l := mkInfo (mkData token interest opts) 0]> (nodes q)) q) as Hw.
  { eapply wp_registration_new; [exact Hg|]. eauto 10. }
  apply wp_done in Hw as (r & q' & E & l & -> & Hg' & Hn).
  exists (mkHandle p l), (mkHandle p l), q'. split; [done|].
  pose proof (f_equal (.!! l) Hn) as Hl. cbv beta in Hl. unfold nodes in Hl. rewrite lookup_fmap, lookup_insert_eq in Hl.
  destruct (heap q' !! l) as [n|] eqn:Hq; [|done]. cbn in Hl. injection Hl as _ Hev. split.
  - split; [by exists (l :: al), rl, (upd cnt l 2)|]. exists n. split; [done|].
    rewrite <- (live_count _ _ _ _ _ _ Hg' Hq), upd_same. lia.
  - cbn. rewrite Hq. cbn. by rewrite Hev.
Qed.

(** ** Main theorems *)

Section thms.
Context {A : Type} {awk_ops : AwakenerOps A}.
Implicit Types q : Queue A.

Definition empty_queue (id : Z) (sleep : loc) (a : A) : Queue A := mkQueue id a None None sleep ∅.

Lemma empty_pool id sleep a : pool_ok (mkPool (empty_queue id sleep a) [] []).
Proof.
  split; cbn; [|set_solver|done]. exists [], []. split; [|intros l [? Hl]; done].
  split; cbn; try done.
  - apply dlist_nil.
  - intros l. rewrite lookup_empty. split; [set_solver|by intros [? ?]].
  - apply NoDup_nil_2.
  - set_solver.
Qed.

(** C9: every sequential program over handles of a readiness queue, that is operations
    one after the other and none while a poll sleeps (creating registrations,
    cloning and dropping handles, setting and reading readiness, updating
    registrations, polling), runs without following a dangling pointer,
    without a panic and to its end; at every point the reference count of a node
    is the number of handles that refer to it, and every node a handle refers to
    is allocated. *)
Theorem handles_memory_safe ops id sleep a :
  Forall hop_ok ops → 2 * Z.of_nat (length ops) < MAX_REFCOUNT →
  ∃ p', run_hops ops (mkPool (empty_queue id sleep a) [] []) = Done p' ∧ pool_ok p' ∧
    (∀ h, h ∈ p_handles p' → ∃ n, heap (p_queue p') !! h_node h = Some n ∧
       ref_count n = cnt_of (p_handles p') (h_node h)).
Proof.
  intros Hops Hlen. destruct (run_hops_ok ops _ (empty_pool id sleep a) Hops) as (p' & E & Hp); [cbn; lia|].
  exists p'. split; [done|]. split; [done|]. intros h Hin. destruct (po_handles _ Hp h Hin) as [[n Hn] _].
  exists n. split; [done|]. destruct (po_queue _ Hp) as (al & rl & [Hi _]).
  apply (no_ref _ _ _ _ (qi_node _ _ _ Hi _ _ Hn)).
Qed.

(** C10: polling the readiness queue reports, in the order of the ready list, the
    events each node has and its registration is interested in; it takes
    edge-triggered nodes and nodes without such events off the list, keeps
    level-triggered ones (in reverse order), disarms one-shot registrations that
    reported something, and leaves every node that was not on the list alone. *)
Theorem queue_poll_spec {E} (push : Event.t → E → E) dst q al rl cnt :
  queue_good q al rl cnt →
  ∃ q' al', queue_poll push dst q = Done (foldl (λ d e, push e d) dst (visited_events (nodes q) rl), q') ∧
    queue_good q' al' (visited_ready (nodes q) rl) cnt ∧ visited (nodes q) (nodes q') rl ∧
    awakener q' = awakener q ∧ sleeping q' = false.
Proof.
  intros Hg.
  assert (wp (queue_poll push dst) (λ d q', d = foldl (λ d e, push e d) dst (visited_events (nodes q) rl) ∧
    ∃ al', queue_good q' al' (visited_ready (nodes q) rl) cnt ∧ visited (nodes q) (nodes q') rl ∧
    awakener q' = awakener q ∧ sleeping q' = false) q) as Hw.
  { eapply wp_queue_poll; [exact Hg|]. intros q' al' Hg' Hv [Ha _] Hs _. eauto 10. }
  apply wp_done in Hw as (d & q' & E' & -> & al' & ? & ? & ? & ?). exists q', al'. done.
Qed.

(** nothing leaks: right after a poll, the nodes on the heap are exactly the
    nodes some handle refers to. *)
Theorem poll_frees_unreferenced p :
  pool_ok p →
  ∃ p', run_hop HPoll p = Done p' ∧ p_handles p' = p_handles p ∧
    ∀ l, is_Some (heap (p_queue p') !! l) ↔ ∃ h, h ∈ p_handles p ∧ h_node h = l.
Proof.
  intros Hp. pose proof (po_queue _ Hp) as (al & rl & Hg).
  assert (wp (queue_poll push_log (p_log p)) (λ _ q', ∀ l, is_Some (heap q' !! l) → cnt_of (p_handles p) l ≠ 0) (p_queue p)) as Hw.
  { eapply wp_queue_poll; [exact Hg|]. auto. }
  apply wp_done in Hw as (log & q' & E & Hlive).
  destruct (pool_poll p Hp) as (p' & E' & Hp' & _). cbn [run_hop] in E'. rewrite E in E'. cbn in E'. injection E' as <-.
  exists (mkPool q' (p_handles p) log). cbn [run_hop]. rewrite E. cbn. split; [done|]. split; [done|].
  intros l. split.
  - intros Hl. specialize (Hlive l Hl). destruct (decide (Exists (λ h, h_node h = l) (p_handles p))) as [Hex|Hex].
    + apply Exists_exists in Hex as (h & ? & ?). eauto.
    + exfalso. apply Hlive, cnt_of_unused. intros h Hin Heq. apply Hex, Exists_exists. eauto.
  - intros (h & Hin & <-). by apply (po_handles _ Hp' h Hin).
Qed.

(** once [prepare_for_sleep] has succeeded, the first non-empty readiness
    set through any handle signals the awakener, and what it reports is the
    result of that signal; after it the queue is awake, and setting readiness
    signals no more until the next poll goes to sleep. *)
Theorem sleeper_is_woken q q1 al rl cnt h r :
  queue_good q al rl cnt → prepare_for_sleep q = Done (true, q1) →
  is_Some (heap q !! h_node h) → 0 < cnt (h_node h) → is_drop r = false → is_empty r = false →
  ∃ res q2, SetReadiness_set_readiness h r q1 = Done (res, q2) ∧ queue_good q2 al [h_node h] cnt ∧
    (res, awakener q2) = awk_wakeup (awakener q) ∧
    ∀ h' r', is_Some (heap q2 !! h_node h') → 0 < cnt (h_node h') → is_drop r' = false →
      ∃ q3, SetReadiness_set_readiness h' r' q2 = Done (Ok tt, q3) ∧ awakener q3 = awakener q2.
Proof.
  intros Hg Hs Hl Hc Hd He. rewrite prepare_for_sleep_eq in Hs. injection Hs as Hh Hq1. apply bool_decide_eq_true in Hh.
  rewrite decide_True in Hq1 by done. subst q1. pose proof (sleep_good _ _ _ _ Hg Hh) as Hg1. destruct Hl as [n Hn].
  set (q1 := set_head_readiness _ q) in *.
  assert (sleeping q1 = true) as Hsl by (by apply bool_decide_eq_true).
  assert (wp (SetReadiness_set_readiness h r) (λ res q2, queue_good q2 al [h_node h] cnt ∧
    (res, awakener q2) = awk_wakeup (awakener q)) q1) as Hw.
  { eapply wp_set_live; [exact Hg1|exact Hn|done|done|]. rewrite He. intros res q2 Hg2 [_ _ [Ha Hr] _].
    unfold enqueue in Hg2. rewrite decide_False in Hg2 by set_solver. split; [done|]. revert Ha Hr.
    rewrite He, Hsl. rewrite bool_decide_eq_false_2 by set_solver. cbn [negb andb]. change (awakener q1) with (awakener q).
    intros -> ->. by destruct (awk_wakeup (awakener q)). }
  apply wp_done in Hw as (res & q2 & E & Hg2 & Hr). exists res, q2. split; [done|]. split; [done|]. split; [done|].
  intros h' r' [n' Hn'] Hc' Hd'.
  assert (wp (SetReadiness_set_readiness h' r') (λ res q3, res = Ok tt ∧ awakener q3 = awakener q2) q2) as Hw.
  { eapply wp_set_live; [exact Hg2|exact Hn'|done|done|]. intros res' q3 _ [_ _ [Ha Hr'] _]. revert Ha Hr'.
    rewrite (awake_of_ready q2 _ _ (proj1 Hg2)) by done. by rewrite andb_false_r. }
  apply wp_done in Hw as (res' & q3 & E3 & -> & Ha). eauto.
Qed.
End thms.

Section poll_thms.
Context {A : Type} {awk_ops : AwakenerOps A}.
Context {V : Type} {ev_ops : SysEventsOps V}.
Context {Sel : Type} {sel_ops : SelectorOps Sel V}.

Lemma poll_timeout_on timeout (p : Poll A Sel) : let q := readiness_queue p in
  let idle := bool_decide (head_readiness q = None) in
  on_queue (poll_timeout timeout) p = Done (if idle then timeout else Some (from_millis 0),
    mkPoll (selector p) (if idle then set_head_readiness (Some (sleep_token q)) q else q)).
Proof.
  intros q idle. unfold on_queue. fold q. rewrite poll_timeout_eq. subst idle.
  destruct (decide (head_readiness q = None)).
  - by rewrite bool_decide_eq_true_2 by done.
  - by rewrite bool_decide_eq_false_2 by done.
Qed.

(** [try!(m); Ok(())] is [m]. *)
Lemma try_unit {S} (m : M S (io_result unit)) s : (try! m; mret (Ok tt)) s = m s.
Proof. unfold mbind, M_bind. by destruct (m s) as [[[[]|e] s']| |]. Qed.

(** C15: [Poll::poll] blocks only on an empty readiness queue: the selector gets
    the caller's timeout if the queue is empty, which is then marked as asleep,
    and a zero timeout otherwise.  The events of the selector come first, then
    what the readiness queue reports (including what other threads queued in the
    meantime); the count returned is the length of the buffer; the awakener is
    drained exactly if it woke the selector; the queue is awake again. *)
Theorem Poll_poll_spec (others : Queue A → Queue A) events timeout (p : Poll A Sel) awoken evs sel al rl cnt al2 rl2 cnt2 :
  let q := readiness_queue p in
  let idle := bool_decide (head_readiness q = None) in
  let q1 := others (if idle then set_head_readiness (Some (sleep_token q)) q else q) in
  queue_good q al rl cnt → queue_good q1 al2 rl2 cnt2 →
  sel_select (ev_inner events) AWAKEN (if idle then timeout else Some (from_millis 0)) (selector p) = Done ((Ok awoken, evs), sel) →
  let evs' := foldl (λ d e, ev_push e d) evs (visited_events (nodes q1) rl2) in
  ∃ q2 al3, Poll_poll others events timeout p = Done ((Ok (ev_len evs'), mkEvents evs'), mkPoll sel q2) ∧
    queue_good q2 al3 (visited_ready (nodes q1) rl2) cnt2 ∧ visited (nodes q1) (nodes q2) rl2 ∧
    awakener q2 = (if awoken then awk_cleanup (awakener q1) else awakener q1) ∧ sleeping q2 = false.
Proof.
  intros q idle q1 Hg Hg1 Hsel evs'. unfold Poll_poll.
  rewrite poll_timeout_on. fold q. fold idle.
  cbn [mbind outcome_bind selector readiness_queue]. rewrite Hsel. fold q1. cbn [mbind outcome_bind].
  set (q1' := if awoken then set_awakener (awk_cleanup (awakener q1)) q1 else q1).
  assert (queue_good q1' al2 rl2 cnt2) as Hg1'.
  { subst q1'. destruct awoken; [|done]. destruct Hg1 as [[] Hz]. by split. }
  assert (wp (queue_poll ev_push evs) (λ d q', d = evs' ∧
    ∃ al', queue_good q' al' (visited_ready (nodes q1) rl2) cnt2 ∧ visited (nodes q1) (nodes q') rl2 ∧
    awakener q' = awakener q1' ∧ sleeping q' = false) q1') as Hw.
  { assert (nodes q1' = nodes q1) as Hn by (subst q1'; by destruct awoken).
    eapply wp_queue_poll; [exact Hg1'|]. rewrite Hn. intros q' al' Hg' Hv [Ha _] Hs _. eauto 10. }
  apply wp_done in Hw as (d & q2 & E & -> & al3 & ? & ? & Ha & ?).
  exists q2, al3.
  assert ((if awoken then mkPoll sel (set_awakener (awk_cleanup (awakener q1)) q1) else mkPoll sel q1) = mkPoll sel q1') as Hp
    by (subst q1'; by destruct awoken).
  cbn [selector readiness_queue]. rewrite Hp. unfold on_queue. cbn [readiness_queue]. rewrite E. cbn.
  split; [done|]. do 2 (split; [done|]). split; [|done]. rewrite Ha. subst q1'. by destruct awoken.
Qed.

(** when the selector fails, [Poll::poll] returns its error and reports
    nothing from the readiness queue, which keeps its nodes and, if it was empty,
    its sleep token. *)
Theorem Poll_poll_error (others : Queue A → Queue A) events timeout (p : Poll A Sel) e evs sel :
  let q := readiness_queue p in
  let idle := bool_decide (head_readiness q = None) in
  let q1 := others (if idle then set_head_readiness (Some (sleep_token q)) q else q) in
  sel_select (ev_inner events) AWAKEN (if idle then timeout else Some (from_millis 0)) (selector p) = Done ((Err e, evs), sel) →
  Poll_poll others events timeout p = Done ((Err e, mkEvents evs), mkPoll sel q1).
Proof.
  intros q idle q1 Hsel. unfold Poll_poll.
  rewrite poll_timeout_on. fold q. fold idle.
  cbn [mbind outcome_bind selector readiness_queue]. by rewrite Hsel.
Qed.

(** registering or reregistering succeeds in reaching the source exactly
    for a token other than the reserved one and an interest that includes
    readable or writable; otherwise it fails without touching anything. *)
Theorem Poll_register_guard (io : Evented (A := A) (Sel := Sel)) token interest opts p :
  let ok := bool_decide (token ≠ AWAKEN) && (Ready.is_readable interest || Ready.is_writable interest) in
  Poll_register io token interest opts p =
    (if ok then e_register io token interest opts p
     else Done (validate_args token interest, p)) ∧
  Poll_reregister io token interest opts p =
    (if ok then e_reregister io token interest opts p
     else Done (validate_args token interest, p)).
Proof.
  intros ok. subst ok. unfold Poll_register, Poll_reregister, validate_args.
  destruct (decide (token = AWAKEN)) as [->|Hne].
  { rewrite bool_decide_eq_false_2 by naive_solver. done. }
  rewrite bool_decide_eq_true_2 by done. cbn [andb].
  destruct (Ready.is_readable interest), (Ready.is_writable interest); cbn [negb andb orb];
    try (split; exact (try_unit _ _)). done.
Qed.

Lemma iterate_S fuel (it : EventsIter V) :
  iterate (S fuel) it = match EventsIter_next it with
    | (None, _) => Done [] | (Some e, it) => es ← iterate fuel it; Done (e :: es) end.
Proof. done. Qed.

(** iterating over the events of a buffer yields all of them, in order,
    and ends. *)
Theorem iterate_all (es : Events V) (l : list Event.t) :
  (∀ i, 0 <= i → Events_get es i = l !! Z.to_nat i) →
  iterate (S (length l)) (into_iter es) = Done l.
Proof.
  intros Hget. unfold into_iter, Events_iter.
  assert (∀ n pos, 0 <= pos → Z.of_nat (length l) = pos + Z.of_nat n →
    iterate (S n) (mkIter es pos) = Done (drop (Z.to_nat pos) l)) as Hit.
  { induction n as [|n IH]; intros pos Hp Hlen; rewrite iterate_S; unfold EventsIter_next; cbn [it_inner it_pos]; rewrite Hget by done.
    - rewrite lookup_ge_None_2 by lia. by rewrite drop_ge by lia.
    - destruct (l !! Z.to_nat pos) as [e|] eqn:Hl; [|apply lookup_ge_None_1 in Hl; lia].
      rewrite IH by lia. cbn. replace (Z.to_nat (pos + 1)) with (S (Z.to_nat pos)) by lia. by rewrite (drop_S l e (Z.to_nat pos)). }
  by rewrite Hit by lia.
Qed.
End poll_thms.

(** ** A concrete queue

    The awakener counts its signals, the event buffer is a list, and the selector
    plays back a script. *)

Record counter : Type := mkCounter { signals : Z }.
#[export] Instance counter_awakener : AwakenerOps counter := {
  awk_wakeup a := (Ok tt, mkCounter (signals a + 1));
  awk_cleanup _ := mkCounter 0 }.

#[export] Instance list_events : SysEventsOps (list Event.t) := {
  ev_with_capacity _ := [];
  ev_len l := Z.of_nat (length l);
  ev_is_empty l := match l with [] => true | _ => false end;
  ev_get l i := l !! Z.to_nat i;
  ev_push e l := l ++ [e] }.

Record script : Type := mkScript { results : list (io_result bool) }.
#[export] Instance script_selector : SelectorOps script (list Event.t) := {
  sel_select evs _ _ s := match results s with
    | [] => Done ((Ok false, evs), s)
    | r :: rs => Done ((r, evs), mkScript rs)
    end }.

Definition q0 : Queue counter := empty_queue 7 1%positive (mkCounter 0).

(** Two registrations, one edge and one level triggered; both become readable. *)
Definition demo_ops : list HOp :=
  [HNew (mkToken 5) Ready.readable PollOpt.edge; HNew (mkToken 6) Ready.readable PollOpt.level;
   HSetReadiness 0 Ready.readable; HSetReadiness 2 Ready.readable].

Definition demo_pool (ops : list HOp) : Pool counter :=
  match run_hops ops (mkPool q0 [] []) with Done p => p | _ => mkPool q0 [] [] end.

Lemma demo_pool_ok ops :
  Forall hop_ok ops → 2 * Z.of_nat (length ops) < MAX_REFCOUNT → pool_ok (demo_pool ops).
Proof.
  intros Hops Hlen. destruct (run_hops_ok ops (mkPool q0 [] [])) as (p' & E & Hp); [apply empty_pool|done|cbn; lia|].
  unfold demo_pool. by rewrite E.
Qed.

Lemma handles_memory_safe_witness :
  ∃ p', run_hops (demo_ops ++ [HPoll; HDropRegistration 0; HDropSetReadiness 0; HPoll]) (mkPool q0 [] []) = Done p' ∧
    pool_ok p' ∧
    (∀ h, h ∈ p_handles p' → ∃ n, heap (p_queue p') !! h_node h = Some n ∧
       ref_count n = cnt_of (p_handles p') (h_node h)).
Proof. apply (handles_memory_safe _ 7 1%positive (mkCounter 0)); [repeat constructor|done]. Defined.

(** The events of the polls: both nodes, then the level-triggered one only;
    dropping its handles afterwards frees it and nothing more is reported. *)
Example demo_log :
  p_log (demo_pool (demo_ops ++ [HPoll; HPoll; HDropRegistration 0; HDropSetReadiness 0; HPoll]))
  = [Event.new Ready.readable (mkToken 5); Event.new Ready.readable (mkToken 6);
     Event.new Ready.readable (mkToken 6)].
Proof. vm_compute. reflexivity. Qed.

Lemma demo_ops_ok ops : bool_decide (Forall hop_ok ops) = true → Z.of_nat (length ops) < 100 → pool_ok (demo_pool ops).
Proof.
  intros Hops Hlen. apply demo_pool_ok; [by apply bool_decide_eq_true in Hops|].
  unfold MAX_REFCOUNT, ISIZE_MAX. lia.
Qed.

Lemma queue_poll_spec_witness :
  ∃ rl q' al', queue_poll push_log [] (p_queue (demo_pool demo_ops))
      = Done (foldl (λ d e, push_log e d) [] (visited_events (nodes (p_queue (demo_pool demo_ops))) rl), q') ∧
    queue_good q' al' (visited_ready (nodes (p_queue (demo_pool demo_ops))) rl) (cnt_of (p_handles (demo_pool demo_ops))).
Proof.
  destruct (po_queue _ (demo_ops_ok demo_ops eq_refl ltac:(cbn; lia))) as (al & rl & Hg).
  destruct (queue_poll_spec push_log [] _ al rl _ Hg) as (q' & al' & H1 & H2 & _).
  exists rl, q', al'. exact (conj H1 H2).
Defined.

Lemma poll_frees_unreferenced_witness :
  ∃ p', run_hop HPoll (demo_pool (demo_ops ++ [HDropRegistration 0])) = Done p' ∧
    p_handles p' = p_handles (demo_pool (demo_ops ++ [HDropRegistration 0])) ∧
    ∀ l, is_Some (heap (p_queue p') !! l) ↔
      ∃ h, h ∈ p_handles (demo_pool (demo_ops ++ [HDropRegistration 0])) ∧ h_node h = l.
Proof.
  apply (poll_frees_unreferenced (demo_pool (demo_ops ++ [HDropRegistration 0]))), demo_ops_ok; [|cbn; lia].
  vm_compute. reflexivity.
Defined.

(** A queue with one idle registration, before and after going to sleep. *)
Definition idle_pool : Pool counter := demo_pool [HNew (mkToken 5) Ready.readable PollOpt.edge].
Definition asleep : Queue counter :=
  match prepare_for_sleep (p_queue idle_pool) with Done (_, q) => q | _ => q0 end.

Lemma sleeper_is_woken_witness :
  ∃ res q2, SetReadiness_set_readiness (mkHandle 7 2%positive) Ready.readable asleep = Done (res, q2) ∧
    (res, awakener q2) = (Ok tt, mkCounter 1).
Proof.
  destruct (po_queue idle_pool (demo_ops_ok [HNew (mkToken 5) Ready.readable PollOpt.edge] eq_refl ltac:(cbn; lia))) as (al & rl & Hg).
  destruct (sleeper_is_woken (p_queue idle_pool) asleep al rl _ (mkHandle 7 2%positive) Ready.readable Hg)
    as (res & q2 & E & _ & Hw & _); [vm_compute; done|vm_compute; eauto|vm_compute; done|done|done|].
  exists res, q2. split; [exact E|exact Hw].
Defined.

Definition demo_poll (rs : list (io_result bool)) (q : Queue counter) : Poll counter script := mkPoll (mkScript rs) q.


Lemma Poll_poll_spec_witness :
  ∃ evs q2, Poll_poll id (mkEvents []) None (demo_poll [Ok true] (p_queue (demo_pool demo_ops)))
    = Done ((Ok (ev_len evs), mkEvents evs), mkPoll (mkScript []) q2) ∧ sleeping q2 = false.
Proof.
  destruct (po_queue _ (demo_ops_ok demo_ops eq_refl ltac:(cbn; lia))) as (al & rl & Hg).
  destruct (Poll_poll_spec id (mkEvents []) None (demo_poll [Ok true] (p_queue (demo_pool demo_ops)))
    true [] (mkScript []) al rl (cnt_of (p_handles (demo_pool demo_ops))) al rl (cnt_of (p_handles (demo_pool demo_ops))))
    as (q2 & al3 & H1 & _ & _ & _ & H2); 
    [exact Hg|rewrite bool_decide_eq_false_2 by (vm_compute; discriminate); exact Hg|vm_compute; reflexivity|].
  eexists _, q2. exact (conj H1 H2).
Defined.

Lemma Poll_poll_error_witness :
  Poll_poll id (mkEvents []) None (demo_poll [Err (io_custom Interrupted "")] (p_queue idle_pool))
  = Done ((Err (io_custom Interrupted ""), mkEvents []), mkPoll (mkScript []) asleep).
Proof.
  apply (Poll_poll_error id (mkEvents []) None (demo_poll [Err (io_custom Interrupted "")] (p_queue idle_pool))).
  vm_compute. reflexivity.
Defined.

Lemma iterate_all_witness :
  iterate 3 (into_iter (mkEvents [Event.new Ready.readable (mkToken 1); Event.new Ready.writable (mkToken 2)]))
  = Done [Event.new Ready.readable (mkToken 1); Event.new Ready.writable (mkToken 2)].
Proof.
  apply (iterate_all (mkEvents [Event.new Ready.readable (mkToken 1); Event.new Ready.writable (mkToken 2)])
    [Event.new Ready.readable (mkToken 1); Event.new Ready.writable (mkToken 2)]).
  intros i _. reflexivity.
Defined.

(** After the selector has failed once (a signal is enough), the sleep token is
    still in place: reregistering a source that is ready trips the assertion
    that no wakeup is needed. *)
Example update_after_failed_poll_panics :
  let ops := [HNew (mkToken 5) Ready.readable PollOpt.edge; HSetReadiness 0 Ready.readable; HPoll] in
  match Poll_poll id (mkEvents []) None (demo_poll [Err (io_custom Interrupted "")] (p_queue (demo_pool ops))) with
  | Done (_, p) =>
      Registration_update (mkHandle 7 2%positive) 7 (mkToken 5) Ready.readable PollOpt.edge (readiness_queue p)
  | _ => OutOfFuel
  end = Panic.
Proof. vm_compute. reflexivity. Qed.
