(* ===== verification/QueueConc.v ===== *)
(** * The readiness queue under concurrency

    [ReadyQueue.v] runs one operation at a time.  Here every atomic access of
    poll.rs to shared memory ([head_readiness], and [events], [queued] and
    [ref_count] of a node) is a step of its own.  Any number of threads own a
    [SetReadiness] each and set or drop it, next to the thread that owns the
    [Poll], which polls, and updates and drops [Registration]s.  Memory is
    sequentially consistent.  Reaching into a node that was freed is [Panic].

    What only the polling thread touches is written in one step with the access
    before it: the registration data, the list of all nodes (left out; a node that
    leaves it is freed) and the events it reports.  The handles exist from the
    start: making a node, and cloning a handle, only adds to them. *)

From stdpp Require Import relations.
From S2P Require Import Prelude Event Iface DList ReadyQueue QueueInv.

(** ** Steps *)

(** [head_readiness]: null, the sleep token, or the first node. *)
Inductive Head : Type := HNull | HToken | HNode (l : loc).
#[export] Instance Head_eq_dec : EqDecision Head.
Proof. solve_decision. Defined.

Definition as_next (h : Head) : option loc := match h with HNode l => Some l | _ => None end.

(** Inside [queue_for_processing] (from [QCas]) or [prepend_readiness_node] (from
    [QLoad]): the flag, the head, the link of the node, the head again. *)
Inductive Pre : Type := QCas | QLoad | QLink (curr_head : Head) | QSwap (curr_head : Head).

#[export] Instance Pre_eq_dec : EqDecision Pre.
Proof. solve_decision. Defined.

Abbreviation Heap := (gmap loc ReadinessNode).

(** [inr b]: the function returns [b]. *)
Definition pre_step (l : loc) (p : Pre) (h : Heap) (hd : Head) : outcome (Heap * Head * (Pre + bool)) :=
  match h !! l with
  | None => Panic
  | Some n =>
      match p with
      | QCas => Done (if queued n =? 0 then (<[l := n_set_queued NODE_QUEUED_FLAG n]> h, hd, inl QLoad) else (h, hd, inr false))
      | QLoad => Done (h, hd, inl (QLink hd))
      | QLink cur => Done (<[l := n_set_next_readiness (as_next cur) n]> h, hd, inl (QSwap cur))
      | QSwap cur => Done (if decide (hd = cur) then (h, HNode l, inr (bool_decide (cur = HToken))) else (h, hd, inl (QLink hd)))
      end
  end.

(** A thread with a [SetReadiness].  [last]: its handle was the last one, and the
    operation is the one of [Drop for RegistrationInner]. *)
Inductive SetPc : Type :=
  | SIdle
  | SLast                         (** about to store the drop flag *)
  | SPre (last : bool) (p : Pre)
  | SWake (last : bool)           (** about to signal the awakener *)
  | SGone.

#[export] Instance SetPc_eq_dec : EqDecision SetPc.
Proof. solve_decision. Defined.

Definition set_done (last : bool) : SetPc := if last then SGone else SIdle.

(** The polling thread. *)
Inductive PollPc : Type :=
  | PIdle
  | PPrepare                                    (** the queue was empty: [prepare_for_sleep] *)
  | PSelect (sleeps : bool)                     (** in the selector, blocking or not *)
  | PCleanup
  | PTake                                       (** [take_ready] *)
  | PNext (rest : option loc)                   (** [ReadyList::next] *)
  | PQueued (l : loc) (rest : option loc)       (** about to load [queued] *)
  | PEvents (l : loc) (rest : option loc) (q : Z)
  | PClear (l : loc) (rest : option loc) (q : Z)          (** about to unset [queued] *)
  | PReread (l : loc) (rest : option loc) (q next : Z)    (** about to read the events again *)
  | PAgain (l : loc) (rest : option loc) (e : Ready.t) (p : Pre)   (** the node is queued again *)
  | PReport (l : loc) (rest : option loc) (e : Ready.t)
  | PUpdate (l : loc)                           (** [update]: about to load the events *)
  | PRequeue (l : loc) (p : Pre)
  | PDrop (l : loc)                             (** [Drop for RegistrationInner] begins *)
  | PLast (l : loc)
  | PDropPre (l : loc) (p : Pre)
  | PDropWake.

(** [k_new], which the program does not have: the nodes whose events were set and
    not looked at by a poll since.  [k_regs]: the nodes whose [Registration] is
    alive. *)
Record Conc : Type := mkConc {
  k_heap : Heap;
  k_head : Head;
  k_awake : bool;
  k_new : gset loc;
  k_regs : gset loc;
  k_out : list Event.t;
  k_set : list (loc * SetPc);
  k_poll : PollPc }.

Definition upd_heap h (s : Conc) : Conc := mkConc h (k_head s) (k_awake s) (k_new s) (k_regs s) (k_out s) (k_set s) (k_poll s).
Definition upd_head x (s : Conc) : Conc := mkConc (k_heap s) x (k_awake s) (k_new s) (k_regs s) (k_out s) (k_set s) (k_poll s).
Definition upd_awake b (s : Conc) : Conc := mkConc (k_heap s) (k_head s) b (k_new s) (k_regs s) (k_out s) (k_set s) (k_poll s).
Definition upd_new x (s : Conc) : Conc := mkConc (k_heap s) (k_head s) (k_awake s) x (k_regs s) (k_out s) (k_set s) (k_poll s).
Definition upd_regs x (s : Conc) : Conc := mkConc (k_heap s) (k_head s) (k_awake s) (k_new s) x (k_out s) (k_set s) (k_poll s).
Definition upd_out x (s : Conc) : Conc := mkConc (k_heap s) (k_head s) (k_awake s) (k_new s) (k_regs s) x (k_set s) (k_poll s).
Definition upd_set x (s : Conc) : Conc := mkConc (k_heap s) (k_head s) (k_awake s) (k_new s) (k_regs s) (k_out s) x (k_poll s).
Definition upd_poll x (s : Conc) : Conc := mkConc (k_heap s) (k_head s) (k_awake s) (k_new s) (k_regs s) (k_out s) (k_set s) x.

(** A step that reaches into the node [l]. *)
Definition at_node (l : loc) (s : Conc) (f : ReadinessNode → Conc) : outcome Conc :=
  match k_heap s !! l with Some n => Done (f n) | None => Panic end.
Definition put (l : loc) (n : ReadinessNode) (s : Conc) : Conc := upd_heap (<[l := n]> (k_heap s)) s.

Definition do_pre (l : loc) (p : Pre) (s : Conc) (k : Pre + bool → Conc → outcome Conc) : outcome Conc :=
  '(h, hd, x) ← pre_step l p (k_heap s) (k_head s); k x (upd_head hd (upd_heap h s)).

(** What an idle thread is told to do, and how the selector returns. *)
Inductive SetCmd : Type := CmdSet (r : Ready.t) | CmdDrop.
Inductive PollCmd : Type :=
  | CmdPoll
  | CmdUpdate (l : loc) (token : Token) (interest : Ready.t) (opts : PollOpt.t)
  | CmdDropReg (l : loc)
  | CmdReturn
  | CmdFail.

(** [None]: the step is not possible. *)
Definition set_step (i : nat) (cmd : SetCmd) (s : Conc) : option (outcome Conc) :=
  t ← k_set s !! i;
  let '(l, pc) := t in
  let goto pc s := upd_set (<[i := (l, pc)]> (k_set s)) s in
  match pc with
  | SIdle =>
      match cmd with
      | CmdSet r =>
          if is_drop r then None
          else Some (at_node l s (λ n,
            let s := put l (n_set_events (as_usize r) n) s in
            if is_empty r then s else goto (SPre false QCas) (upd_new ({[ l ]} ∪ k_new s) s)))
      | CmdDrop =>
          Some (at_node l s (λ n,
            goto (if ref_count n =? 1 then SLast else SGone) (put l (n_set_ref_count (wrap64 (ref_count n - 1)) n) s)))
      end
  | SLast => Some (at_node l s (λ n, goto (SPre true QCas) (put l (n_set_events (as_usize event_drop) n) s)))
  | SPre last p =>
      Some (do_pre l p s (λ x s,
        Done (goto match x with inl p => SPre last p | inr true => SWake last | inr false => set_done last end s)))
  | SWake last => Some (Done (goto (set_done last) (upd_awake true s)))
  | SGone => None
  end.

(** After the events were read: what the loop of [ReadinessQueue::poll] does. *)
Definition after_read (l : loc) (rest : option loc) (q : Z) (n : ReadinessNode) : PollPc :=
  let events := poll_events n in
  if is_drop events then PReport l rest events
  else if PollOpt.is_edge (poll_opts n) || is_empty events then PClear l rest q
  else PAgain l rest events QLoad.

Definition seen (l : loc) (s : Conc) : Conc := upd_new (k_new s ∖ {[ l ]}) s.

Definition poll_step (cmd : PollCmd) (s : Conc) : option (outcome Conc) :=
  match k_poll s with
  | PIdle =>
      match cmd with
      | CmdPoll => Some (Done (upd_poll (if decide (k_head s = HNull) then PPrepare else PSelect false) s))
      | CmdUpdate l token interest opts =>
          if decide (l ∈ k_regs s)
          then Some (at_node l s (λ n, upd_poll (PUpdate l) (put l (n_set_data (RegistrationData_update token interest opts) n) s)))
          else None
      | CmdDropReg l =>
          if decide (l ∈ k_regs s)
          then Some (at_node l s (λ n, upd_poll (PDrop l) (put l (n_set_data RegistrationData_disable n) s)))
          else None
      | CmdReturn | CmdFail => None
      end
  | PPrepare =>
      Some (Done (if decide (k_head s = HNull) then upd_poll (PSelect true) (upd_head HToken s) else upd_poll (PSelect false) s))
  | PSelect _ =>
      match cmd with
      | CmdReturn => Some (Done (upd_poll (if k_awake s then PCleanup else PTake) s))
      | CmdFail => Some (Done (upd_poll PIdle s))
      | _ => None
      end
  | PCleanup => Some (Done (upd_poll PTake (upd_awake false s)))
  | PTake => Some (Done (upd_poll (PNext (as_next (k_head s))) (upd_head HNull s)))
  | PNext None => Some (Done (upd_poll PIdle s))
  | PNext (Some l) =>
      Some (at_node l s (λ n, upd_poll (PQueued l (next_readiness n)) (put l (n_set_next_readiness None n) s)))
  | PQueued l rest => Some (at_node l s (λ n, upd_poll (PEvents l rest (queued n)) s))
  | PEvents l rest q => Some (at_node l s (λ n, upd_poll (after_read l rest q n) (seen l s)))
  | PClear l rest q =>
      Some (at_node l s (λ n,
        upd_poll (PReread l rest q (queued n)) (if queued n =? q then put l (n_set_queued 0 n) s else s)))
  | PReread l rest q next =>
      Some (at_node l s (λ n,
        upd_poll (if q =? next then PReport l rest (poll_events n) else after_read l rest next n) (seen l s)))
  | PAgain l rest e p =>
      Some (do_pre l p s (λ x s,
        match x with
        | inl p => Done (upd_poll (PAgain l rest e p) s)
        | inr true => Panic (* debug_assert!(!needs_wakeup) *)
        | inr false => Done (upd_poll (PReport l rest e) s)
        end))
  | PReport l rest e =>
      if is_drop e then Some (at_node l s (λ n, upd_poll (PNext rest) (upd_heap (delete l (k_heap s)) s)))
      else if Ready.is_none e then Some (Done (upd_poll (PNext rest) s))
      else Some (at_node l s (λ n,
        let s := upd_out (k_out s ++ [Event.new e (n_token n)]) s in
        upd_poll (PNext rest) (if PollOpt.is_oneshot (poll_opts n) then put l (n_set_data RegistrationData_disable n) s else s)))
  | PUpdate l => Some (at_node l s (λ n, upd_poll (if is_empty (from_usize (events n)) then PIdle else PRequeue l QCas) s))
  | PRequeue l p =>
      Some (do_pre l p s (λ x s,
        match x with
        | inl p => Done (upd_poll (PRequeue l p) s)
        | inr true => Panic (* debug_assert!(!needs_wakeup) *)
        | inr false => Done (upd_poll PIdle s)
        end))
  | PDrop l =>
      Some (at_node l s (λ n,
        upd_poll (if ref_count n =? 1 then PLast l else PIdle)
          (upd_regs (k_regs s ∖ {[ l ]}) (put l (n_set_ref_count (wrap64 (ref_count n - 1)) n) s))))
  | PLast l => Some (at_node l s (λ n, upd_poll (PDropPre l QCas) (put l (n_set_events (as_usize event_drop) n) s)))
  | PDropPre l p =>
      Some (do_pre l p s (λ x s,
        Done (upd_poll match x with inl p => PDropPre l p | inr true => PDropWake | inr false => PIdle end s)))
  | PDropWake => Some (Done (upd_poll PIdle (upd_awake true s)))
  end.

Inductive Act : Type := ASet (i : nat) (cmd : SetCmd) | APoll (cmd : PollCmd).

Definition act (a : Act) (s : Conc) : option (outcome Conc) :=
  match a with ASet i cmd => set_step i cmd s | APoll cmd => poll_step cmd s end.

Fixpoint acts (l : list Act) (s : Conc) : option (outcome Conc) :=
  match l with
  | [] => Some (Done s)
  | a :: l => r ← act a s; match r with Done s => acts l s | r => Some r end
  end.
