(* ===== verification/QueueConcThm.v ===== *)
(** * The readiness queue under concurrency: invariant and theorems

    A node is queued exactly when it is in one of four places: on the list behind
    [head_readiness], on the list a poll has taken, in the hands of the polling
    thread, or in those of the one thread that is about to put it on the list.
    No two places share a node.  From this follow memory safety and that a sleeping
    poll has missed nothing. *)

From stdpp Require Import relations.
From S2P Require Import Prelude Event Iface DList ReadyQueue QueueInv QueueConc.

(** ** Lists and holders *)

Abbreviation rchain := (chain next_readiness).

(** [held]: the nodes that are queued but on no list. *)
Record core (h : Heap) (hd : Head) (rest : option loc) (hl rl held : list loc) : Prop := {
  c_head : rchain h (as_next hd) hl;
  c_rest : rchain h rest rl;
  c_nodup : NoDup (hl ++ rl ++ held);
  c_own l : l ∈ hl ++ rl ++ held → is_Some (h !! l);
  c_queued l n : h !! l = Some n → queued n = if decide (l ∈ hl ++ rl ++ held) then 1 else 0 }.

#[export] Instance core_perm h hd rest hl rl : Proper ((≡ₚ) ==> iff) (core h hd rest hl rl).
Proof.
  enough (∀ a b, a ≡ₚ b → core h hd rest hl rl a → core h hd rest hl rl b) as Hp by (intros a b Hab; split; by apply Hp).
  intros a b Hab [H1 H2 H3 H4 H5]. assert (hl ++ rl ++ a ≡ₚ hl ++ rl ++ b) as E by by rewrite Hab.
  split; [done|done|by rewrite <- E|intros l; rewrite <- E; auto|].
  intros l n Hl. rewrite (H5 l n Hl). apply decide_ext. by rewrite E.
Qed.

Lemma chain_insert (h : Heap) p ls l n n' :
  rchain h p ls → h !! l = Some n → l ∉ ls ∨ next_readiness n' = next_readiness n → rchain (<[l := n']> h) p ls.
Proof.
  intros Hc Hl Hn. eapply chain_frame; [exact Hc|]. intros x v Hx Hv. destruct (decide (x = l)) as [->|Hne].
  - rewrite lookup_insert_eq. exists n'. split; [done|]. destruct Hn; naive_solver.
  - rewrite lookup_insert_ne by done. eauto.
Qed.

(** Changing a node that keeps its link, unless it is on no list, and its flag. *)
Lemma core_touch h hd rest hl rl held l n n' :
  core h hd rest hl rl held → h !! l = Some n → queued n' = queued n → l ∈ held ∨ next_readiness n' = next_readiness n →
  core (<[l := n']> h) hd rest hl rl held.
Proof.
  intros [H1 H2 H3 H4 H5] Hl Hq Hn.
  assert ((l ∉ hl ∨ next_readiness n' = next_readiness n) ∧ (l ∉ rl ∨ next_readiness n' = next_readiness n)) as [Hh Hr].
  { destruct Hn as [Hheld|?]; [|by split; right]. apply NoDup_app in H3 as (_ & Hd & (_ & Hd' & _)%NoDup_app).
    split; left; intros Hin; [by apply (Hd l Hin), elem_of_app; right|by apply (Hd' l Hin)]. }
  split; [by eapply chain_insert..|done| |].
  - intros x Hx. apply lookup_insert_is_Some. destruct (decide (l = x)); [by left|right; split; [done|by apply H4]].
  - intros x m. rewrite lookup_insert. case_decide as Hx; [subst; intros [= <-]; rewrite Hq|]; by apply H5.
Qed.

Lemma core_acquire h hd rest hl rl held l n :
  core h hd rest hl rl held → h !! l = Some n → queued n = 0 →
  core (<[l := n_set_queued 1 n]> h) hd rest hl rl (l :: held) ∧ l ∉ hl ++ rl ++ held.
Proof.
  intros [H1 H2 H3 H4 H5] Hl Hq. assert (l ∉ hl ++ rl ++ held) as Hni.
  { intros Hin. rewrite (H5 l n Hl), decide_True in Hq by done. done. }
  split; [|done]. assert (∀ x, x ∈ hl ++ rl ++ l :: held ↔ x = l ∨ x ∈ hl ++ rl ++ held) as Hm by set_solver.
  split; [eapply chain_insert; [done..|by right]|eapply chain_insert; [done..|by right]| | |].
  - rewrite app_assoc, <- Permutation_middle, <- app_assoc. by constructor.
  - intros x Hx%Hm. apply lookup_insert_is_Some. destruct (decide (l = x)) as [|Hne]; [by left|right]. split; [done|]. apply H4. naive_solver.
  - intros x m. rewrite lookup_insert. case_decide as Hx.
    + intros [= <-]. subst. rewrite decide_True; [done|]. apply Hm. by left.
    + intros Hm'. rewrite (H5 x m Hm'). apply decide_ext. rewrite Hm. naive_solver.
Qed.

Lemma core_push h hd rest hl rl held l n :
  core h hd rest hl rl (l :: held) → h !! l = Some n → next_readiness n = as_next hd →
  core h (HNode l) rest (l :: hl) rl held.
Proof.
  intros [H1 H2 H3 H4 H5] Hl Hn. assert (hl ++ rl ++ l :: held ≡ₚ (l :: hl) ++ rl ++ held) as E.
  { rewrite app_assoc, <- Permutation_middle, <- app_assoc. done. }
  split; [|done|by rewrite <- E|intros x; rewrite <- E; auto|].
  - split; [done|]. exists n. split; [done|]. by rewrite Hn.
  - intros x m Hx. rewrite (H5 x m Hx). apply decide_ext. by rewrite E.
Qed.

Lemma core_take h hd hl held : core h hd None hl [] held → core h HNull (as_next hd) [] hl held.
Proof. by intros []. Qed.

Lemma core_next h hd hl rl held l n :
  core h hd (Some l) hl rl held → h !! l = Some n →
  ∃ rl', core (<[l := n_set_next_readiness None n]> h) hd (next_readiness n) hl rl' (l :: held).
Proof.
  intros [H1 H2 H3 H4 H5] Hl. destruct rl as [|x rl]; [done|]. destruct H2 as ([= <-] & v & Hv & H2). rewrite Hl in Hv. injection Hv as <-.
  exists rl. assert (hl ++ (l :: rl) ++ held ≡ₚ hl ++ rl ++ l :: held) as E by (cbn; by rewrite (Permutation_middle rl held l)).
  apply (core_touch _ _ _ _ _ _ _ n); [|done|done|left; by left].
  split; [done|done|by rewrite <- E|intros y; rewrite <- E; auto|].
  intros y m Hy. rewrite (H5 y m Hy). apply decide_ext. by rewrite E.
Qed.

Lemma core_held h hd rest hl rl held l : core h hd rest hl rl (l :: held) → ∃ n, h !! l = Some n ∧ queued n = 1 ∧ l ∉ hl ++ rl ++ held.
Proof.
  intros [H1 H2 H3 H4 H5]. destruct (H4 l) as [n Hn]; [set_solver|]. exists n. split; [done|]. split.
  - rewrite (H5 l n Hn). by rewrite decide_True by set_solver.
  - rewrite app_assoc, <- Permutation_middle, <- app_assoc in H3. by apply NoDup_cons in H3 as [? _].
Qed.

Lemma core_unqueue h hd rest hl rl held l n :
  core h hd rest hl rl (l :: held) → h !! l = Some n → core (<[l := n_set_queued 0 n]> h) hd rest hl rl held.
Proof.
  intros Hc Hl. destruct (core_held _ _ _ _ _ _ _ Hc) as (_ & _ & _ & Hni). destruct Hc as [H1 H2 H3 H4 H5].
  assert (∀ x, x ∈ hl ++ rl ++ l :: held ↔ x = l ∨ x ∈ hl ++ rl ++ held) as Hm by set_solver.
  split; [eapply chain_insert; [done..|by right]|eapply chain_insert; [done..|by right]| | |].
  - rewrite app_assoc, <- Permutation_middle, <- app_assoc in H3. by apply NoDup_cons in H3 as [_ ?].
  - intros x Hx. rewrite lookup_insert_ne by (intros ->; done). apply H4, Hm. by right.
  - intros x m. rewrite lookup_insert. case_decide as Hx.
    + intros [= <-]. subst. by rewrite decide_False.
    + intros Hx'. rewrite (H5 x m Hx'). apply decide_ext. rewrite Hm. naive_solver.
Qed.

Lemma core_free h hd rest hl rl held l : core h hd rest hl rl (l :: held) → core (delete l h) hd rest hl rl held.
Proof.
  intros Hc. destruct (core_held _ _ _ _ _ _ _ Hc) as (n & Hl & _ & Hni). destruct (core_unqueue _ _ _ _ _ _ _ _ Hc Hl) as [H1 H2 H3 H4 H5].
  assert (∀ p ls, l ∉ ls → rchain (<[l := n_set_queued 0 n]> h) p ls → rchain (delete l h) p ls) as Hch.
  { intros p ls Hls Hp. eapply chain_frame; [exact Hp|]. intros x v Hx Hv. assert (x ≠ l) by (intros ->; done).
    rewrite lookup_insert_ne in Hv by done. rewrite lookup_delete_ne by done. eauto. }
  split; [apply Hch; [set_solver|done]|apply Hch; [set_solver|done]|done| |].
  - intros x Hx. assert (x ≠ l) by (intros ->; done). destruct (H4 x Hx) as [m Hm]. rewrite lookup_insert_ne in Hm by done. rewrite lookup_delete_ne by done. by exists m.
  - intros x m. rewrite lookup_delete_Some. intros [Hne Hx]. apply H5. by rewrite lookup_insert_ne.
Qed.

(** ** Putting a node on the list *)

Definition pre_held (l : loc) (p : Pre) : list loc := match p with QCas => [] | _ => [l] end.
Definition pre_ok (h : Heap) (l : loc) (p : Pre) : Prop :=
  match p with QSwap cur => ∃ n, h !! l = Some n ∧ next_readiness n = as_next cur | _ => True end.

(** What the steps of [queue_for_processing] leave alone. *)
Definition facts (n : ReadinessNode) : RegistrationData * Z * Z := (registration_data n, events n, ref_count n).
Record pre_frame (h h' : Heap) (others : list loc) : Prop := {
  pf_facts l : facts <$> h' !! l = facts <$> h !! l;
  pf_next l : l ∈ others → next_readiness <$> h' !! l = next_readiness <$> h !! l;
  pf_queued l n : h !! l = Some n → queued n = 1 → ∃ n', h' !! l = Some n' ∧ queued n' = 1 }.

Lemma pre_frame_refl h others : pre_frame h h others.
Proof. split; eauto. Qed.

Lemma pre_frame_insert h others l n n' :
  h !! l = Some n → facts n' = facts n → l ∉ others ∨ next_readiness n' = next_readiness n → (queued n = 1 → queued n' = 1) →
  pre_frame h (<[l := n']> h) others.
Proof.
  intros Hl Hf Hn Hq. split.
  - intros x. destruct (decide (l = x)) as [<-|]; [rewrite lookup_insert_eq, Hl; cbn; by rewrite Hf|by rewrite lookup_insert_ne].
  - intros x Hx. destruct (decide (l = x)) as [<-|]; [|by rewrite lookup_insert_ne].
    rewrite lookup_insert_eq, Hl. cbn. destruct Hn as [?|Hn]; [done|by rewrite Hn].
  - intros x m Hx Hm. destruct (decide (l = x)) as [<-|].
    + rewrite lookup_insert_eq. exists n'. split; [done|]. apply Hq. congruence.
    + rewrite lookup_insert_ne by done. eauto.
Qed.

Definition out_held (l : loc) (x : Pre + bool) : list loc := match x with inl p => pre_held l p | inr _ => [] end.

Lemma pre_step_core h hd rest hl rl held l p :
  core h hd rest hl rl (pre_held l p ++ held) → is_Some (h !! l) → pre_ok h l p →
  ∃ h' hd' x hl', pre_step l p h hd = Done (h', hd', x) ∧ core h' hd' rest hl' rl (out_held l x ++ held) ∧ pre_frame h h' held ∧
    match x with inl p' => pre_ok h' l p' | inr _ => True end ∧
    (hd = HToken → x = inr true ∨ hd' = HToken) ∧ (hd' = HToken → hd = HToken) ∧ (x = inr true → hd = HToken) ∧
    (∃ n', h' !! l = Some n' ∧ (queued n' = 1 ∨ p ≠ QCas)).
Proof.
  intros Hc [n Hl] Hp. unfold pre_step. rewrite Hl. destruct p as [| |cur|cur].
  - destruct (queued n =? 0) eqn:Eq; zbool.
    + destruct (core_acquire _ _ _ _ _ _ _ _ Hc Hl Eq) as [Hc' _]. eexists _, _, _, _. split; [done|]. split; [exact Hc'|].
      split; [eapply pre_frame_insert; [done|done|by right|done]|]. split_and!; try by auto.
      rewrite lookup_insert_eq. eexists. split; [done|]. by left.
    + eexists _, _, _, _. split; [done|]. split; [exact Hc|]. split; [apply pre_frame_refl|]. split_and!; try by auto.
      exists n. split; [done|]. left. rewrite (c_queued _ _ _ _ _ _ Hc l n Hl) in *. by case_decide.
  - eexists _, _, _, _. split; [done|]. split; [exact Hc|]. split; [apply pre_frame_refl|]. split_and!; try by auto. exists n. auto.
  - eexists _, _, _, _. split; [done|]. split; [eapply core_touch; [exact Hc|done|done|left; by left]|].
    destruct (core_held _ _ _ _ _ _ _ Hc) as (_ & _ & _ & Hni). split.
    { eapply pre_frame_insert; [done|done|left; set_solver|done]. }
    cbn. rewrite lookup_insert_eq. split_and!; [|by auto..|]; eexists; (split; [done|]); [done|by right].
  - destruct Hp as (n' & Hn' & Hnext). rewrite Hl in Hn'. injection Hn' as <-. destruct (decide (hd = cur)) as [<-|Hne].
    + eexists _, _, _, _. split; [done|]. split; [eapply core_push; [exact Hc|done|done]|]. split; [apply pre_frame_refl|]. split; [done|].
      split_and!; [|done| |eauto].
      * intros ->. by left.
      * by intros [= ?%bool_decide_eq_true].
    + eexists _, _, _, _. split; [done|]. split; [exact Hc|]. split; [apply pre_frame_refl|]. split_and!; try by auto. eauto.
Qed.

(** ** The invariant *)

Definition s_held (t : loc * SetPc) : list loc := match t.2 with SPre _ p => pre_held t.1 p | _ => [] end.
Definition p_held (pc : PollPc) : list loc :=
  match pc with
  | PQueued l _ | PEvents l _ _ | PClear l _ _ => [l]
  | PAgain l _ _ p | PRequeue l p | PDropPre l p => pre_held l p
  | PReport l _ e => if is_drop e then [l] else []
  | _ => []
  end.
Definition p_rest (pc : PollPc) : option loc :=
  match pc with
  | PNext r | PQueued _ r | PEvents _ r _ | PClear _ r _ | PReread _ r _ _ | PAgain _ r _ _ | PReport _ r _ => r
  | _ => None
  end.

(** The handles of a node that other threads have. *)
Definition holds (l : loc) (t : loc * SetPc) : Z :=
  match t.2 with SGone => 0 | _ => if decide (t.1 = l) then 1 else 0 end.
Fixpoint holders (l : loc) (ts : list (loc * SetPc)) : Z := match ts with [] => 0 | t :: ts => holds l t + holders l ts end.

Definition dropped (n : ReadinessNode) : bool := is_drop (from_usize (events n)).

Definition set_ok (h : Heap) (l : loc) (pc : SetPc) : Prop :=
  match pc with
  | SGone => True
  | SLast | SPre true _ | SWake true => False
  | SPre false p => is_Some (h !! l) ∧ pre_ok h l p
  | SIdle | SWake false => is_Some (h !! l)
  end.

Definition poll_ok (h : Heap) (regs new : gset loc) (pc : PollPc) : Prop :=
  match pc with
  | PEvents _ _ q => q = 1
  | PClear l _ q => q = 1 ∧ ∃ n, h !! l = Some n ∧ dropped n = false
  | PReread l _ q next => q = next ∧ ∃ n, h !! l = Some n ∧ dropped n = false
  | PAgain l _ e p => p ≠ QCas ∧ pre_ok h l p ∧ is_drop e = false
  | PReport l _ e => ∃ n, h !! l = Some n ∧ (is_drop e = true → dropped n = true ∧ l ∉ new)
  | PUpdate l | PDrop l => l ∈ regs
  | PRequeue l p => l ∈ regs ∧ pre_ok h l p
  | PLast l => ∃ n, h !! l = Some n ∧ ref_count n = 0
  | PDropPre l p => is_Some (h !! l) ∧ pre_ok h l p
  | _ => True
  end.

Definition reg_count (regs : gset loc) (l : loc) : Z := if decide (l ∈ regs) then 1 else 0.

Record conc_ok (s : Conc) : Prop := {
  v_core : ∃ hl rl, core (k_heap s) (k_head s) (p_rest (k_poll s)) hl rl (p_held (k_poll s) ++ (k_set s ≫= s_held));
  v_set i l pc : k_set s !! i = Some (l, pc) → set_ok (k_heap s) l pc;
  v_poll : poll_ok (k_heap s) (k_regs s) (k_new s) (k_poll s);
  v_regs l : l ∈ k_regs s → is_Some (k_heap s !! l);
  v_refs l n : k_heap s !! l = Some n → ref_count n = holders l (k_set s) + reg_count (k_regs s) l;
  v_small : Z.of_nat (length (k_set s)) < ISIZE_MAX;
  v_drop l n : k_heap s !! l = Some n → dropped n = true → ref_count n = 0;
  v_token : k_head s = HToken → k_poll s = PSelect true ∨ k_poll s = PCleanup ∨ k_poll s = PTake;
  v_wake : k_poll s = PSelect true → k_head s = HToken ∨ k_awake s = true ∨ ∃ i l d, k_set s !! i = Some (l, SWake d);
  v_new l : l ∈ k_new s →
    (∃ n, k_heap s !! l = Some n ∧ queued n = 1) ∨ (∃ i d, k_set s !! i = Some (l, SPre d QCas)) ∨
    (∃ r q x, k_poll s = PReread l r q x) }.

(** ** Frames *)

(** [alive]: what the other threads need of the heap after a step; [keeps]: what
    the polling thread needs of it as well. *)
Definition alive (h h' : Heap) (others : list loc) : Prop :=
  ∀ l n, h !! l = Some n → ∃ n', h' !! l = Some n' ∧ (l ∈ others → next_readiness n' = next_readiness n).
Definition keeps (h h' : Heap) (others : list loc) : Prop :=
  ∀ l n, h !! l = Some n → ∃ n', h' !! l = Some n' ∧ (l ∈ others → next_readiness n' = next_readiness n) ∧
    (queued n = 1 → queued n' = 1) ∧ dropped n' = dropped n ∧ (ref_count n = 0 → ref_count n' = 0).

Lemma keeps_alive h h' others : keeps h h' others → alive h h' others.
Proof. intros Hk l n Hl. destruct (Hk l n Hl) as (n' & ? & ? & _). eauto. Qed.

Lemma keeps_refl h others : keeps h h others.
Proof. intros l n Hl. exists n. auto. Qed.

Lemma keeps_insert h l n n' others :
  h !! l = Some n → next_readiness n' = next_readiness n → queued n' = queued n → dropped n' = dropped n →
  (ref_count n = 0 → ref_count n' = 0) → keeps h (<[l := n']> h) others.
Proof.
  intros Hl Hn Hq Hd Hr x m Hx. rewrite lookup_insert. case_decide as E; [|by exists m; auto].
  subst x. rewrite Hl in Hx. injection Hx as <-. exists n'. rewrite Hq. auto.
Qed.

Lemma pre_frame_keeps h h' others : pre_frame h h' others → keeps h h' others.
Proof.
  intros [Hf Hn Hq] l n Hl. specialize (Hf l). rewrite Hl in Hf. destruct (h' !! l) as [n'|] eqn:Hl'; [|done].
  cbn in Hf. injection Hf as Hd He Hr. exists n'. split; [done|]. split.
  { intros Hin. specialize (Hn l Hin). rewrite Hl, Hl' in Hn. cbn in Hn. congruence. }
  split; [intros Hq1; destruct (Hq l n Hl Hq1) as (? & ? & ?); congruence|]. unfold dropped. rewrite He. split; [done|lia].
Qed.

Lemma pre_frame_back h h' others : pre_frame h h' others →
  ∀ l n', h' !! l = Some n' → ∃ n, h !! l = Some n ∧ ref_count n' = ref_count n ∧ dropped n' = dropped n.
Proof.
  intros [Hf _ _] l n' Hl. specialize (Hf l). rewrite Hl in Hf. cbn in Hf. destruct (h !! l) as [n|]; [|done].
  cbn in Hf. injection Hf as _ He Hr. exists n. unfold dropped. by rewrite He.
Qed.

Lemma pre_ok_frame h h' l p others : pre_ok h l p → (∀ x, x ∈ pre_held l p → x ∈ others) → alive h h' others → pre_ok h' l p.
Proof.
  destruct p as [| | |cur]; [done..|]. intros (n & Hl & Hn) Hin Ha. destruct (Ha l n Hl) as (n' & Hl' & Hn').
  exists n'. split; [done|]. rewrite Hn'; [done|]. apply Hin. by left.
Qed.

Lemma alive_some h h' others l : alive h h' others → is_Some (h !! l) → is_Some (h' !! l).
Proof. intros Ha [n Hn]. destruct (Ha l n Hn) as (n' & ? & _). by exists n'. Qed.

Lemma set_ok_frame h h' l pc others : set_ok h l pc → (∀ x, x ∈ s_held (l, pc) → x ∈ others) → alive h h' others → set_ok h' l pc.
Proof.
  intros Hs Hin Ha. destruct pc as [| |[] p|[]|]; cbn in *; try done; try by eapply alive_some.
  destruct Hs as [Hs Hp]. split; [by eapply alive_some|by eapply pre_ok_frame].
Qed.

Lemma poll_ok_frame h h' regs new new' pc others :
  poll_ok h regs new pc → (∀ x, x ∈ p_held pc → x ∈ others) → keeps h h' others →
  (∀ x n, x ∈ new' → h !! x = Some n → dropped n = true → x ∈ new) → poll_ok h' regs new' pc.
Proof.
  intros Hp Hin Hk Hnew. assert (∀ l, (∃ n, h !! l = Some n ∧ dropped n = false) → ∃ n, h' !! l = Some n ∧ dropped n = false) as Hd.
  { intros l (n & Hl & Hd). destruct (Hk l n Hl) as (n' & Hl' & _ & _ & Hd' & _). exists n'. by rewrite Hd'. }
  pose proof (keeps_alive _ _ _ Hk) as Ha.
  destruct pc; cbn in *; try done; try by (intuition eauto using pre_ok_frame).
  - destruct Hp as (n & Hl & Hdr). destruct (Hk _ n Hl) as (n' & Hl' & _ & _ & Hd' & _). exists n'. split; [done|]. rewrite Hd'.
    intros E. destruct (Hdr E) as [? Hni]. split; [done|]. intros Hn. by eapply Hni, Hnew.
  - destruct Hp as (n & Hl & Hr). destruct (Hk _ n Hl) as (n' & Hl' & _ & _ & _ & Hr'). eauto.
  - destruct Hp as [Hs Hp]. split; [by eapply alive_some|by eapply pre_ok_frame].
Qed.

Lemma holders_insert x ts i t t' : ts !! i = Some t → holders x (<[i := t']> ts) = holders x ts - holds x t + holds x t'.
Proof.
  revert i. induction ts as [|u ts IH]; intros [|i] Hi; cbn in Hi; simplify_eq; [cbn; lia|].
  change (holds x u + holders x (<[i := t']> ts) = holds x u + holders x ts - holds x t + holds x t'). rewrite (IH i Hi). lia.
Qed.

Lemma holds_bounds x t : 0 <= holds x t <= 1.
Proof. unfold holds. destruct t.2; try case_decide; lia. Qed.

Lemma holders_bounds x ts : 0 <= holders x ts <= Z.of_nat (length ts).
Proof. induction ts as [|t ts IH]; cbn -[Z.of_nat]; [lia|]. pose proof (holds_bounds x t). lia. Qed.

Lemma holders_pos x ts i pc : ts !! i = Some (x, pc) → pc ≠ SGone → 0 < holders x ts.
Proof.
  revert i. induction ts as [|u ts IH]; intros [|i] Hi Hpc; cbn in *; simplify_eq.
  - assert (holds x (x, pc) = 1) by (unfold holds; cbn; rewrite decide_True by done; by destruct pc). pose proof (holders_bounds x ts). lia.
  - specialize (IH i Hi Hpc). pose proof (holds_bounds x u). lia.
Qed.

Lemma held_split ts i t : ts !! i = Some t →
  ∃ others, (ts ≫= s_held) ≡ₚ s_held t ++ others ∧ (∀ t', (<[i := t']> ts ≫= s_held) ≡ₚ s_held t' ++ others) ∧
    ∀ j u, j ≠ i → ts !! j = Some u → ∀ x, x ∈ s_held u → x ∈ others.
Proof.
  revert i. induction ts as [|u ts IH]; intros [|i] Hi; cbn in *; simplify_eq.
  - exists (ts ≫= s_held). split_and!; [done|done|]. intros [|j] w Hj Hw x Hx; [done|]. cbn in Hw.
    apply list_elem_of_bind. exists w. split; [done|]. by eapply list_elem_of_lookup_2.
  - destruct (IH i Hi) as (o & H1 & H2 & H3). exists (s_held u ++ o). split_and!.
    + rewrite H1. by rewrite Permutation_app_swap_app.
    + intros t'. rewrite H2. by rewrite Permutation_app_swap_app.
    + intros [|j] w Hj Hw x Hx; cbn in Hw; simplify_eq; apply elem_of_app; [by left|right]. eapply (H3 j w); [lia|done..].
Qed.

(** ** Steps of the other threads *)

(** What a step of thread [i] may change. *)
Record set_moves (s : Conc) (i : nat) (l : loc) (pc pc' : SetPc) (s' : Conc) : Prop := {
  m_set : k_set s' = <[i := (l, pc')]> (k_set s);
  m_regs : k_regs s' = k_regs s;
  m_poll : k_poll s' = k_poll s;
  m_refs x n : k_heap s' !! x = Some n → ref_count n = holders x (k_set s') + reg_count (k_regs s) x;
  m_drop x n : k_heap s' !! x = Some n → dropped n = true → ref_count n = 0;
  m_token : k_head s' = HToken → k_head s = HToken;
  m_wake : k_head s = HToken → k_head s' = HToken ∨ ∃ d, pc' = SWake d;
  m_awake : k_awake s = true ∨ (∃ d, pc = SWake d) → k_awake s' = true;
  m_new x : x ∈ k_new s' → x ∈ k_new s ∨ (x = l ∧ pc' = SPre false QCas);
  m_fresh n : k_heap s !! l = Some n → dropped n = false;
  m_queued d : pc = SPre d QCas → ∃ n, k_heap s' !! l = Some n ∧ queued n = 1 }.

Lemma set_inv s i l pc pc' s' :
  conc_ok s → k_set s !! i = Some (l, pc) →
  (∀ hl rl others, core (k_heap s) (k_head s) (p_rest (k_poll s)) hl rl (s_held (l, pc) ++ others) →
    (∃ hl', core (k_heap s') (k_head s') (p_rest (k_poll s)) hl' rl (s_held (l, pc') ++ others)) ∧
    keeps (k_heap s) (k_heap s') others ∧ set_ok (k_heap s') l pc') →
  set_moves s i l pc pc' s' → conc_ok s'.
Proof.
  intros [(hl & rl & Hc) Hset Hpoll Hregs Hrefs Hsm Hdrop Htok Hwake Hnew] Hi Hstep [Es Er Ep Mrefs Mdrop Mtok Mwake Maw Mnew Mfr Mq].
  destruct (held_split _ _ _ Hi) as (oth & H1 & H2 & H3).
  destruct (Hstep hl rl (p_held (k_poll s) ++ oth)) as ((hl' & Hc') & Hk & Hok).
  { rewrite H1 in Hc. by rewrite (Permutation_app_swap_app (s_held (l, pc))). }
  pose proof (keeps_alive _ _ _ Hk) as Ha. split; rewrite ?Es, ?Er, ?Ep.
  - exists hl', rl. rewrite H2. by rewrite (Permutation_app_swap_app (p_held _)).
  - intros j x pcj. destruct (decide (i = j)) as [<-|Hne].
    + rewrite list_lookup_insert_eq by by eapply lookup_lt_Some. by intros [= <- <-].
    + rewrite list_lookup_insert_ne by done. intros Hj. eapply set_ok_frame; [by apply (Hset j)| |exact Ha].
      intros y Hy. apply elem_of_app. right. by eapply (H3 j (x, pcj)).
  - eapply poll_ok_frame; [exact Hpoll| |exact Hk|].
    + intros x Hx. apply elem_of_app. by left.
    + intros x n Hx Hl Hd. destruct (Mnew x Hx) as [?|[-> _]]; [done|]. by rewrite (Mfr n Hl) in Hd.
  - intros x Hx. eapply alive_some; [exact Ha|by apply Hregs].
  - intros x n Hx. rewrite <- Es. by apply Mrefs.
  - by rewrite length_insert.
  - exact Mdrop.
  - auto.
  - intros Hs. destruct (Hwake Hs) as [Hh|[Haw|(j & x & d & Hj)]].
    + destruct (Mwake Hh) as [?|[d ->]]; [by left|]. right. right. exists i, l, d. by rewrite list_lookup_insert_eq by by eapply lookup_lt_Some.
    + right. left. apply Maw. by left.
    + destruct (decide (i = j)) as [<-|Hne].
      * right. left. apply Maw. right. rewrite Hi in Hj. injection Hj as <- ->. by exists d.
      * right. right. exists j, x, d. by rewrite list_lookup_insert_ne.
  - intros x [Hx|[-> ->]]%Mnew.
    2:{ right. left. exists i, false. by rewrite list_lookup_insert_eq by by eapply lookup_lt_Some. }
    destruct (Hnew x Hx) as [(n & Hl & Hq)|[(j & d & Hj)|?]]; [left|..|by right; right].
    + destruct (Hk x n Hl) as (n' & Hl' & _ & Hq' & _). eauto.
    + destruct (decide (i = j)) as [<-|Hne].
      * left. rewrite Hi in Hj. injection Hj as <- ->. by eapply Mq.
      * right. left. exists j, d. by rewrite list_lookup_insert_ne.
Qed.

Lemma holds_same x l pc pc' : pc ≠ SGone → pc' ≠ SGone → holds x (l, pc') = holds x (l, pc).
Proof. unfold holds. cbn. by destruct pc, pc'. Qed.

(** A live thread: its node is there, counted and not dropped. *)
Lemma set_live s i l pc : conc_ok s → k_set s !! i = Some (l, pc) → pc ≠ SGone →
  ∃ n, k_heap s !! l = Some n ∧ 0 < ref_count n ∧ dropped n = false.
Proof.
  intros Hok Hi Hpc. assert (is_Some (k_heap s !! l)) as [n Hl].
  { pose proof (v_set _ Hok _ _ _ Hi) as Hs. destruct pc as [| |[] p|[]|]; cbn in Hs; try done. by destruct Hs. }
  exists n. split; [done|]. assert (0 < ref_count n) as Hr.
  { rewrite (v_refs _ Hok l n Hl). pose proof (holders_pos l _ _ _ Hi Hpc). unfold reg_count. case_decide; lia. }
  split; [done|]. destruct (dropped n) eqn:Ed; [|done]. pose proof (v_drop _ Hok l n Hl Ed). lia.
Qed.

(** The last handle of a node is dropped by the polling thread, and the selector
    does not fail. *)
Definition careful (a : Act) (s : Conc) : Prop :=
  match a with
  | ASet i CmdDrop => match k_set s !! i with Some (l, SIdle) => ref_count <$> k_heap s !! l ≠ Some 1 | _ => True end
  | APoll CmdFail => False
  | _ => True
  end.

Lemma set_store_ok s i l n r : conc_ok s → k_set s !! i = Some (l, SIdle) → k_heap s !! l = Some n → dropped n = false → is_drop r = false →
  let s1 := put l (n_set_events (as_usize r) n) s in
  conc_ok (if is_empty r then s1 else upd_set (<[i := (l, SPre false QCas)]> (k_set s)) (upd_new ({[ l ]} ∪ k_new s) s1)).
Proof.
  intros Hok Hi Hl Hd Hr s1. assert (dropped (n_set_events (as_usize r) n) = false) as Hd'.
  { unfold dropped, from_usize, as_usize. cbn. by destruct r. }
  set (pc' := if is_empty r then SIdle else SPre false QCas).
  apply (set_inv s i l SIdle pc'); [done|done|..].
  - intros hl rl oth Hc. assert (k_heap (if is_empty r then s1 else upd_set (<[i := (l, SPre false QCas)]> (k_set s)) (upd_new ({[ l ]} ∪ k_new s) s1))
      = <[l := n_set_events (as_usize r) n]> (k_heap s)) as -> by by case_match.
    assert (k_head (if is_empty r then s1 else upd_set (<[i := (l, SPre false QCas)]> (k_set s)) (upd_new ({[ l ]} ∪ k_new s) s1))
      = k_head s) as -> by by case_match.
    split; [|split].
    + exists hl. assert (s_held (l, pc') = []) as -> by (unfold pc'; by case_match). by eapply core_touch; [exact Hc|done|done|right].
    + eapply keeps_insert; try done. by rewrite Hd, Hd'.
    + assert (is_Some (<[l := n_set_events (as_usize r) n]> (k_heap s) !! l)) by by rewrite lookup_insert_eq. unfold pc'. by case_match.
  - assert (∀ x m, <[l := n_set_events (as_usize r) n]> (k_heap s) !! x = Some m →
      ref_count m = holders x (k_set s) + reg_count (k_regs s) x ∧ (dropped m = true → ref_count m = 0)) as Hm.
    { intros x m. rewrite lookup_insert. case_decide as E; [|intros Hx; split; [by apply (v_refs _ Hok)|by apply (v_drop _ Hok x)]].
      subst x. intros [= <-]. split; [by apply (v_refs _ Hok l n)|]. by rewrite Hd'. }
    assert (∀ m, k_heap s !! l = Some m → dropped m = false) as Hfr by (intros m Hm'; by simplify_eq).
    unfold pc', s1. destruct (is_empty r); split; cbn; try done; try (by intros x m Hx; apply (Hm x m Hx)); try by left.
    + symmetry. by apply list_insert_id.
    + by intros [?|[? ?]].
    + intros x m Hx. rewrite (holders_insert x _ _ _ _ Hi), (holds_same x l SIdle (SPre false QCas)) by done. rewrite (proj1 (Hm x m Hx)). lia.
    + by intros [?|[? ?]].
    + intros x [->%elem_of_singleton|Hx]%elem_of_union; [by right|by left].
Qed.

Lemma set_drop_ok s i l n : conc_ok s → k_set s !! i = Some (l, SIdle) → k_heap s !! l = Some n → dropped n = false → 0 < ref_count n →
  conc_ok (upd_set (<[i := (l, SGone)]> (k_set s)) (put l (n_set_ref_count (wrap64 (ref_count n - 1)) n) s)).
Proof.
  intros Hok Hi Hl Hd Hr. assert (wrap64 (ref_count n - 1) = ref_count n - 1) as Ew.
  { apply wrap64_id. pose proof (v_refs _ Hok l n Hl). pose proof (holders_bounds l (k_set s)). pose proof (v_small _ Hok).
    unfold reg_count, is_u64, ISIZE_MAX, U64_MAX in *. case_decide; lia. }
  rewrite Ew. assert (dropped (n_set_ref_count (ref_count n - 1) n) = false) as Hd' by done.
  apply (set_inv s i l SIdle SGone); [done|done|..].
  - intros hl rl oth Hc. split; [exists hl; by eapply core_touch; [exact Hc|done|done|right]|].
    split; [|done]. eapply keeps_insert; try done. cbn. lia.
  - split; cbn; try done; try by left.
    + intros x m. rewrite (holders_insert x _ _ _ _ Hi), lookup_insert. unfold holds. cbn. case_decide as E.
      * subst x. intros [= <-]. cbn. rewrite (v_refs _ Hok l n Hl). lia.
      * intros Hx. rewrite (v_refs _ Hok x m Hx). lia.
    + intros x m. rewrite lookup_insert. case_decide as E; [intros [= <-]; by rewrite Hd'|]. apply (v_drop _ Hok).
    + by intros [?|[? ?]].
    + intros m Hm. by simplify_eq.
Qed.

(** The invariant and the outcome of a step of the [queue_for_processing] of a
    thread. *)
Lemma set_pre_ok s i l p : conc_ok s → k_set s !! i = Some (l, SPre false p) →
  ∃ s', do_pre l p s (λ x s, Done (upd_set (<[i := (l, match x with inl p => SPre false p | inr true => SWake false | inr false => SIdle end)]>
    (k_set s)) s)) = Done s' ∧ conc_ok s'.
Proof.
  intros Hok Hi. destruct (set_live _ _ _ _ Hok Hi ltac:(done)) as (n & Hl & Hr & Hd). pose proof (v_set _ Hok _ _ _ Hi) as [_ Hp].
  assert (∀ hl rl oth, core (k_heap s) (k_head s) (p_rest (k_poll s)) hl rl (s_held (l, SPre false p) ++ oth) → _) as Hcore
    by (intros hl rl oth Hc; exact (pre_step_core _ _ _ _ _ _ _ _ Hc ltac:(by exists n) Hp)).
  destruct (v_core _ Hok) as (hl0 & rl0 & Hc0). destruct (held_split _ _ _ Hi) as (oth0 & H1 & _ & _).
  rewrite H1, (Permutation_app_swap_app (p_held _)) in Hc0.
  destruct (Hcore _ _ _ Hc0) as (h' & hd' & x & _ & E & _ & Hf0 & _ & Htok & Htok' & Hx & Hq). cbn [fst] in E.
  unfold do_pre. rewrite E. cbn. eexists. split; [done|].
  set (pc' := match x with inl p => SPre false p | inr true => SWake false | inr false => SIdle end).
  assert (pc' ≠ SGone) as Hng by (unfold pc'; by destruct x as [?|[]]).
  apply (set_inv s i l (SPre false p) pc'); [done|done|..].
  - intros hl rl oth Hc. destruct (Hcore _ _ _ Hc) as (h1 & hd1 & x1 & hl1 & E1 & Hc1 & Hf1 & Hp1 & _ & _ & _ & n' & Hn' & _).
    cbn [fst] in E1. rewrite E in E1. injection E1 as <- <- <-. cbn. split; [|split].
    + exists hl1. unfold pc'. by destruct x as [?|[]].
    + by apply pre_frame_keeps.
    + unfold pc'. destruct x as [p'|[]]; cbn; [split; [by exists n'|done]|by exists n'..].
  - pose proof (pre_frame_back _ _ _ Hf0) as Hback.
    split; cbn; try done; try by left.
    + intros y m Hm. destruct (Hback y m Hm) as (m0 & H0 & -> & _).
      rewrite (holders_insert y _ _ _ _ Hi), (holds_same y l (SPre false p) pc') by done. rewrite (v_refs _ Hok y m0 H0). lia.
    + intros y m Hm. destruct (Hback y m Hm) as (m0 & H0 & -> & ->). by apply (v_drop _ Hok y).
    + intros Hh. destruct (Htok Hh) as [->|?]; [right; by exists false|by left].
    + by intros [?|[? ?]].
    + intros m Hm. by simplify_eq.
    + intros d [= _ ->]. destruct Hq as (n' & ? & [?|?]); [eauto|done].
Qed.

Lemma set_step_ok s i cmd r : conc_ok s → careful (ASet i cmd) s → set_step i cmd s = Some r → ∃ s', r = Done s' ∧ conc_ok s'.
Proof.
  intros Hok Hca. unfold set_step. destruct (k_set s !! i) as [[l pc]|] eqn:Hi; [|done]. cbn.
  destruct (decide (pc = SGone)) as [->|Hg]; [done|]. destruct (set_live _ _ _ _ Hok Hi Hg) as (n & Hl & Hr & Hd).
  pose proof (v_set _ Hok _ _ _ Hi) as Hs. destruct pc as [| |[] p|[]|]; cbn in Hs; try done.
  - destruct cmd as [x|]; unfold at_node; rewrite Hl.
    + destruct (is_drop x) eqn:Ex; [done|]. intros [= <-]. eexists. split; [done|]. by apply set_store_ok.
    + intros [= <-]. eexists. split; [done|]. cbn in Hca. rewrite Hi, Hl in Hca. cbn in Hca.
      destruct (ref_count n =? 1) eqn:E1; zbool; [by destruct Hca; rewrite E1|]. by apply set_drop_ok.
  - intros [= <-]. by apply set_pre_ok.
  - intros [= <-]. eexists. split; [done|]. apply (set_inv s i l (SWake false) SIdle); [done|done|..].
    + intros hl rl oth Hc. split; [by exists hl|]. split; [apply keeps_refl|done].
    + split; cbn; try done; try by left.
      * intros x m Hx. rewrite (holders_insert x _ _ _ _ Hi), (holds_same x l (SWake false) SIdle) by done. rewrite (v_refs _ Hok x m Hx). lia.
      * apply (v_drop _ Hok).
      * intros m Hm. by simplify_eq.
Qed.

(** ** Steps of the polling thread *)

Abbreviation helds s := (k_set s ≫= s_held).

Lemma set_held_in s i l pc x : k_set s !! i = Some (l, pc) → x ∈ s_held (l, pc) → x ∈ helds s.
Proof. intros Hi Hx. apply list_elem_of_bind. exists (l, pc). split; [done|]. by eapply list_elem_of_lookup_2. Qed.

(** What must hold after a step of the polling thread, besides what the other
    threads rely on. *)
Record poll_after (s s' : Conc) : Prop := {
  a_core : ∃ hl rl, core (k_heap s') (k_head s') (p_rest (k_poll s')) hl rl (p_held (k_poll s') ++ helds s);
  a_poll : poll_ok (k_heap s') (k_regs s') (k_new s') (k_poll s');
  a_token : k_head s' = HToken → k_poll s' = PSelect true ∨ k_poll s' = PCleanup ∨ k_poll s' = PTake;
  a_wake : k_poll s' = PSelect true → k_head s' = HToken ∨ k_awake s' = true ∨ ∃ i l d, k_set s !! i = Some (l, SWake d);
  a_new l : l ∈ k_new s' →
    (∃ n, k_heap s' !! l = Some n ∧ queued n = 1) ∨ (∃ i d, k_set s !! i = Some (l, SPre d QCas)) ∨
    (∃ r q x, k_poll s' = PReread l r q x) }.

Lemma poll_inv s s' : conc_ok s → k_set s' = k_set s → poll_after s s' →
  (∀ l n, 0 < holders l (k_set s) → k_heap s !! l = Some n →
    ∃ n', k_heap s' !! l = Some n' ∧ (l ∈ helds s → next_readiness n' = next_readiness n)) →
  (∀ l, l ∈ k_regs s' → is_Some (k_heap s' !! l)) →
  (∀ l n, k_heap s' !! l = Some n → ref_count n = holders l (k_set s) + reg_count (k_regs s') l ∧ (dropped n = true → ref_count n = 0)) →
  conc_ok s'.
Proof.
  intros Hok Es [Hc Hp Htok Hwake Hnew] Hal Hreg Hrefs. split; rewrite ?Es; try done.
  - intros i l pc Hi. pose proof (v_set _ Hok _ _ _ Hi) as Hs. destruct (decide (pc = SGone)) as [->|Hg]; [done|].
    destruct (set_live _ _ _ _ Hok Hi Hg) as (n & Hl & _). destruct (Hal l n (holders_pos _ _ _ _ Hi Hg) Hl) as (n' & Hl' & Hn').
    assert (is_Some (k_heap s' !! l)) by by exists n'.
    destruct pc as [| |[] [| | |cur]|[]|]; cbn in *; try done; try (by split).
    destruct Hs as [_ (m & Hm & Hnx)]. simplify_eq. split; [done|]. exists n'. split; [done|]. rewrite Hn'; [done|].
    eapply set_held_in; [exact Hi|by left].
  - apply Hrefs.
  - apply (v_small _ Hok).
  - intros l n Hl. by apply (Hrefs l n).
Qed.

Lemma poll_still s s' : conc_ok s → k_set s' = k_set s → k_heap s' = k_heap s → k_regs s' = k_regs s → poll_after s s' → conc_ok s'.
Proof.
  intros Hok Es Eh Er Ha. apply (poll_inv s s'); try done; rewrite ?Eh, ?Er; [eauto|apply (v_regs _ Hok)|].
  intros l n Hl. split; [by apply (v_refs _ Hok)|by apply (v_drop _ Hok l)].
Qed.

Lemma poll_node s s' l n n' : conc_ok s → k_set s' = k_set s → k_heap s !! l = Some n → k_heap s' = <[l := n']> (k_heap s) → k_regs s' = k_regs s →
  ref_count n' = ref_count n → dropped n' = dropped n → (l ∈ helds s → next_readiness n' = next_readiness n) → poll_after s s' → conc_ok s'.
Proof.
  intros Hok Es Hl Eh Er Hr Hd Hn Ha. apply (poll_inv s s'); try done; rewrite ?Eh, ?Er.
  - intros x m _ Hx. rewrite lookup_insert. case_decide; [subst; simplify_eq|]; eauto.
  - intros x Hx. apply lookup_insert_is_Some. destruct (decide (l = x)); [by left|right; split; [done|by apply (v_regs _ Hok)]].
  - intros x m. rewrite lookup_insert. case_decide as E.
    + subst x. intros [= <-]. rewrite Hr, Hd. split; [by apply (v_refs _ Hok)|by apply (v_drop _ Hok l)].
    + intros Hx. split; [by apply (v_refs _ Hok)|by apply (v_drop _ Hok x)].
Qed.

(** The nodes that wait to be looked at, when the polling thread is not about to. *)
Lemma new_still s l : conc_ok s → l ∈ k_new s → (∀ r q x, k_poll s ≠ PReread l r q x) →
  (∃ n, k_heap s !! l = Some n ∧ queued n = 1) ∨ (∃ i d, k_set s !! i = Some (l, SPre d QCas)).
Proof. intros Hok Hl Hp. destruct (v_new _ Hok l Hl) as [?|[?|(? & ? & ? & E)]]; [by left|by right|]. by apply Hp in E. Qed.

Lemma no_token s : conc_ok s → k_head s = HToken → match k_poll s with PSelect true | PCleanup | PTake => True | _ => False end.
Proof. intros Hok Ht. by destruct (v_token _ Hok Ht) as [->|[->| ->]]. Qed.

(** The polling thread only goes on: nothing that is shared changes. *)
Lemma poll_goto s pc : conc_ok s → p_held pc = p_held (k_poll s) → p_rest pc = p_rest (k_poll s) → poll_ok (k_heap s) (k_regs s) (k_new s) pc →
  (k_head s = HToken → pc = PSelect true ∨ pc = PCleanup ∨ pc = PTake) → pc ≠ PSelect true →
  (∀ l r q x, k_poll s ≠ PReread l r q x) → conc_ok (upd_poll pc s).
Proof.
  intros Hok Eh Er Hp Ht Hs Hre. apply (poll_still s); try done. split; cbn; try done.
  - rewrite Eh, Er. apply (v_core _ Hok).
  - intros l Hl. destruct (new_still s l Hok Hl) as [?|?]; eauto.
Qed.

(** A step of [queue_for_processing] in the polling thread, which then goes to a
    place [pc x] that depends on the outcome [x]. *)
Lemma poll_pre_ok s l p (pc : Pre + bool → PollPc) :
  conc_ok s → p_held (k_poll s) = pre_held l p → is_Some (k_heap s !! l) → pre_ok (k_heap s) l p →
  (∀ a b c d, k_poll s ≠ PReread a b c d) → k_head s ≠ HToken →
  (∀ x, p_held (pc x) = out_held l x ∧ p_rest (pc x) = p_rest (k_poll s) ∧ pc x ≠ PSelect true) →
  (∀ x h', x ≠ inl QCas → match x with inl p' => pre_ok h' l p' | inr _ => True end → is_Some (h' !! l) → poll_ok h' (k_regs s) (k_new s) (pc x)) →
  ∃ h' hd' x, pre_step l p (k_heap s) (k_head s) = Done (h', hd', x) ∧ x ≠ inr true ∧ conc_ok (upd_poll (pc x) (upd_head hd' (upd_heap h' s))).
Proof.
  intros Hok Eh Hl Hp Hre Hnt Hpc Hpo. destruct (v_core _ Hok) as (hl & rl & Hc). rewrite Eh in Hc.
  destruct (pre_step_core _ _ _ _ _ _ _ _ Hc Hl Hp) as (h' & hd' & x & hl' & E & Hc' & Hf & Hp' & _ & Htok & Hx & n' & Hn' & _).
  exists h', hd', x. split; [done|]. split; [by intros ->; apply Hnt, Hx|].
  pose proof (pre_frame_keeps _ _ _ Hf) as Hk. pose proof (pre_frame_back _ _ _ Hf) as Hb. destruct (Hpc x) as (E1 & E2 & E3).
  apply (poll_inv s); cbn; try done.
  - split; cbn; try done.
    + rewrite E1, E2. by exists hl', rl.
    + apply Hpo; [|done|by exists n']. clear -E. unfold pre_step in E. by repeat case_match; simplify_eq.
    + intros Ht. by destruct Hnt; apply Htok.
    + intros y Hy. destruct (new_still s y Hok Hy) as [(m & Hm & Hq)|?]; [done|left|auto].
      destruct (Hk y m Hm) as (m' & ? & _ & ? & _). eauto.
  - intros y m _ Hm. destruct (Hk y m Hm) as (m' & ? & ? & _). eauto.
  - intros y Hy. destruct (v_regs _ Hok y Hy) as [m Hm]. destruct (Hk y m Hm) as (m' & ? & _). by exists m'.
  - intros y m Hm. destruct (Hb y m Hm) as (m0 & H0 & -> & ->). split; [by apply (v_refs _ Hok)|by apply (v_drop _ Hok y)].
Qed.

(** The node in the hands of the polling thread. *)
Lemma poll_held s l : conc_ok s → p_held (k_poll s) = [l] → ∃ n, k_heap s !! l = Some n ∧ queued n = 1 ∧ l ∉ helds s.
Proof.
  intros Hok Eh. destruct (v_core _ Hok) as (hl & rl & Hc). rewrite Eh in Hc.
  destruct (core_held _ _ _ _ _ _ _ Hc) as (n & ? & ? & Hni). exists n. split_and!; try done. set_solver.
Qed.

Lemma poll_take_ok s : conc_ok s → k_poll s = PTake → conc_ok (upd_poll (PNext (as_next (k_head s))) (upd_head HNull s)).
Proof.
  intros Hok E. destruct (v_core _ Hok) as (hl & rl & Hc). rewrite E in Hc. cbn in Hc.
  assert (rl = []) as -> by (destruct rl; [done|by destruct (c_rest _ _ _ _ _ _ Hc)]).
  apply (poll_still s); try done. split; cbn; try done.
  - exists [], hl. by apply core_take.
  - intros l Hl. destruct (new_still s l Hok Hl) as [?|?]; [by rewrite E|auto..].
Qed.

Lemma poll_next_ok s l : conc_ok s → k_poll s = PNext (Some l) →
  ∃ n, k_heap s !! l = Some n ∧ conc_ok (upd_poll (PQueued l (next_readiness n)) (put l (n_set_next_readiness None n) s)).
Proof.
  intros Hok E. destruct (v_core _ Hok) as (hl & rl & Hc). rewrite E in Hc. cbn in Hc.
  assert (l ∈ rl) as Hin by (destruct rl; [by pose proof (c_rest _ _ _ _ _ _ Hc)|destruct (c_rest _ _ _ _ _ _ Hc) as [[= ->] _]; by left]).
  assert (l ∉ helds s) as Hni.
  { intros Hh. pose proof (c_nodup _ _ _ _ _ _ Hc) as (_ & _ & (_ & Hd & _)%NoDup_app)%NoDup_app. by apply (Hd l). }
  destruct (c_own _ _ _ _ _ _ Hc l) as [n Hn]; [set_solver|]. exists n. split; [done|].
  destruct (core_next _ _ _ _ _ _ _ Hc Hn) as (rl' & Hc').
  eapply (poll_node s _ l n); try done. split; cbn; try done.
  - by exists hl, rl'.
  - intros Ht. pose proof (no_token s Hok Ht) as Hf. by rewrite E in Hf.
  - intros x Hx. destruct (new_still s x Hok Hx) as [(m & Hm & Hq)|?]; [by rewrite E|left|auto].
    rewrite lookup_insert. case_decide; [subst; simplify_eq|]; eauto.
Qed.

Lemma after_read_ok s l rest n : conc_ok s → p_held (k_poll s) = [l] → p_rest (k_poll s) = rest → k_heap s !! l = Some n → k_head s ≠ HToken →
  (∀ a b c d, k_poll s ≠ PReread a b c d) → conc_ok (upd_poll (after_read l rest 1 n) (seen l s)).
Proof.
  intros Hok Eh Er Hl Ht Hre. apply (poll_still s); try done.
  assert (p_held (after_read l rest 1 n) = [l] ∧ p_rest (after_read l rest 1 n) = rest) as [E1 E2].
  { unfold after_read. destruct (is_drop _) eqn:Ed; [cbn; by rewrite Ed|]. by destruct (_ || _). }
  split; cbn; try done.
  - rewrite E1, E2, <- Eh, <- Er. apply (v_core _ Hok).
  - unfold after_read. destruct (is_drop _) eqn:Ed.
    + exists n. split; [done|]. intros _. unfold dropped. rewrite <- is_drop_poll_events. split; [done|set_solver].
    + destruct (_ || _); cbn; [split; [done|]|done]. exists n. split; [done|]. unfold dropped. by rewrite <- is_drop_poll_events.
  - intros E. unfold after_read in E. by repeat case_match.
  - intros x Hx. destruct (new_still s x Hok) as [?|?]; [set_solver|done|auto..].
Qed.

Lemma poll_clear_ok s l rest n : conc_ok s → k_poll s = PClear l rest 1 → k_heap s !! l = Some n → queued n = 1 → dropped n = false →
  conc_ok (upd_poll (PReread l rest 1 1) (put l (n_set_queued 0 n) s)).
Proof.
  intros Hok E Hl Hq Hd. destruct (poll_held s l Hok) as (_ & _ & _ & Hni); [by rewrite E|].
  eapply (poll_node s _ l n); try done. destruct (v_core _ Hok) as (hl & rl & Hc). rewrite E in Hc. cbn in Hc. split; cbn; try done.
  - exists hl, rl. by eapply core_unqueue.
  - split; [done|]. rewrite lookup_insert_eq. by eexists.
  - intros Ht. pose proof (no_token s Hok Ht) as Hf. by rewrite E in Hf.
  - intros x Hx. destruct (decide (l = x)) as [<-|Hne]; [right; right; by eexists _, _, _|].
    rewrite lookup_insert_ne by done. destruct (new_still s x Hok Hx) as [?|?]; [by rewrite E|auto..].
Qed.

Lemma poll_free_ok s l rest e n : conc_ok s → k_poll s = PReport l rest e → is_drop e = true → k_heap s !! l = Some n →
  conc_ok (upd_poll (PNext rest) (upd_heap (delete l (k_heap s)) s)).
Proof.
  intros Hok E Ed Hl. pose proof (v_poll _ Hok) as Hp. rewrite E in Hp. cbn in Hp. destruct Hp as (n' & Hl' & Hd).
  simplify_eq. destruct (Hd Ed) as [Hdn Hnew]. pose proof (v_drop _ Hok l n Hl Hdn) as Hr. pose proof (v_refs _ Hok l n Hl) as Hr'.
  pose proof (holders_bounds l (k_set s)). assert ((l ∉ k_regs s) ∧ holders l (k_set s) = 0) as [Hreg Hh0].
  { unfold reg_count in Hr'. case_decide; [lia|]. split; [done|lia]. }
  destruct (v_core _ Hok) as (hl & rl & Hc). rewrite E in Hc. cbn in Hc. rewrite Ed in Hc.
  apply (poll_inv s); try done; cbn.
  - split; cbn; try done.
    + exists hl, rl. by eapply core_free.
    + intros Ht. pose proof (no_token s Hok Ht) as Hf. by rewrite E in Hf.
    + intros x Hx. assert (x ≠ l) by (intros ->; done). rewrite lookup_delete_ne by done.
      destruct (new_still s x Hok Hx) as [?|?]; [by rewrite E|auto..].
  - intros x m Hx Hm. rewrite lookup_delete_ne by (intros ->; lia). eauto.
  - intros x Hx. rewrite lookup_delete_ne by (intros ->; done). by apply (v_regs _ Hok).
  - intros x m [_ Hm]%lookup_delete_Some. split; [by apply (v_refs _ Hok)|by apply (v_drop _ Hok x)].
Qed.

(** Registration data: only the polling thread looks at them. *)
Lemma poll_data_ok s l n f pc : conc_ok s → k_heap s !! l = Some n → p_held pc = p_held (k_poll s) → p_rest pc = p_rest (k_poll s) →
  (∀ h', is_Some (h' !! l) → poll_ok h' (k_regs s) (k_new s) pc) → k_head s ≠ HToken → pc ≠ PSelect true →
  (∀ a b c d, k_poll s ≠ PReread a b c d) → conc_ok (upd_poll pc (put l (n_set_data f n) s)).
Proof.
  intros Hok Hl Eh Er Hp Ht Hs Hre. eapply (poll_node s _ l n); try done. split; cbn; try done.
  - rewrite Eh, Er. destruct (v_core _ Hok) as (hl & rl & Hc). exists hl, rl. by eapply core_touch; [exact Hc|done|done|right].
  - apply Hp. by rewrite lookup_insert_eq.
  - intros x Hx. destruct (new_still s x Hok Hx) as [(m & Hm & Hq)|?]; [done|left|auto].
    rewrite lookup_insert. case_decide; [subst; simplify_eq|]; eauto.
Qed.

Lemma poll_out_ok s x : conc_ok s → conc_ok (upd_out x s).
Proof. by intros []. Qed.

(** The polling thread drops its handle. *)
Lemma poll_drop_ok s l n : conc_ok s → k_poll s = PDrop l → k_heap s !! l = Some n →
  conc_ok (upd_poll (if ref_count n =? 1 then PLast l else PIdle)
    (upd_regs (k_regs s ∖ {[ l ]}) (put l (n_set_ref_count (wrap64 (ref_count n - 1)) n) s))).
Proof.
  intros Hok E Hl. pose proof (v_poll _ Hok) as Hreg. rewrite E in Hreg. cbn in Hreg.
  pose proof (v_refs _ Hok l n Hl) as Hr. pose proof (holders_bounds l (k_set s)) as Hb. unfold reg_count in Hr. rewrite decide_True in Hr by done.
  assert (wrap64 (ref_count n - 1) = ref_count n - 1) as Ew.
  { apply wrap64_id. pose proof (v_small _ Hok). unfold is_u64, ISIZE_MAX, U64_MAX in *. lia. }
  rewrite Ew. assert (k_head s ≠ HToken) as Ht by (intros Ht; pose proof (no_token s Hok Ht) as Hf; by rewrite E in Hf).
  set (pc := if ref_count n =? 1 then PLast l else PIdle).
  assert (p_held pc = [] ∧ p_rest pc = None ∧ pc ≠ PSelect true) as (E1 & E2 & E3) by (unfold pc; by case_match).
  apply (poll_inv s); try done; cbn.
  - split; cbn; try done.
    + rewrite E1, E2. destruct (v_core _ Hok) as (hl & rl & Hc). rewrite E in Hc. exists hl, rl. by eapply core_touch; [exact Hc|done|done|right].
    + unfold pc. destruct (ref_count n =? 1) eqn:E1'; zbool; cbn; [|done]. rewrite lookup_insert_eq. eexists. split; [done|]. cbn. lia.
    + intros x Hx. destruct (new_still s x Hok Hx) as [(m & Hm & Hq)|?]; [by rewrite E|left|auto].
      rewrite lookup_insert. case_decide; [subst; simplify_eq|]; eauto.
  - intros x m _ Hm. rewrite lookup_insert. case_decide; [subst; simplify_eq|]; eauto.
  - intros x Hx. apply lookup_insert_is_Some. destruct (decide (l = x)); [by left|right; split; [done|]]. apply (v_regs _ Hok). set_solver.
  - intros x m. rewrite lookup_insert. unfold reg_count. case_decide as Ex.
    + subst x. intros [= <-]. cbn. rewrite decide_False by set_solver. split; [lia|].
      change (dropped (n_set_ref_count (ref_count n - 1) n)) with (dropped n). intros Hd. pose proof (v_drop _ Hok l n Hl Hd). lia.
    + intros Hm. split; [|by apply (v_drop _ Hok x)]. rewrite (v_refs _ Hok x m Hm). unfold reg_count. f_equal. apply decide_ext. set_solver.
Qed.

Lemma poll_last_ok s l n : conc_ok s → k_poll s = PLast l → k_heap s !! l = Some n →
  conc_ok (upd_poll (PDropPre l QCas) (put l (n_set_events (as_usize event_drop) n) s)).
Proof.
  intros Hok E Hl. pose proof (v_poll _ Hok) as Hp. rewrite E in Hp. cbn in Hp. destruct Hp as (n' & Hl' & Hr). simplify_eq.
  assert (k_head s ≠ HToken) as Ht by (intros Ht; pose proof (no_token s Hok Ht) as Hf; by rewrite E in Hf).
  apply (poll_inv s); try done; cbn.
  - split; cbn; try done.
    + destruct (v_core _ Hok) as (hl & rl & Hc). rewrite E in Hc. exists hl, rl. by eapply core_touch; [exact Hc|done|done|right].
    + by rewrite lookup_insert_eq.
    + intros x Hx. destruct (new_still s x Hok Hx) as [(m & Hm & Hq)|?]; [by rewrite E|left|auto].
      rewrite lookup_insert. case_decide; [subst; simplify_eq|]; eauto.
  - intros x m _ Hm. rewrite lookup_insert. case_decide; [subst; simplify_eq|]; eauto.
  - intros x Hx. apply lookup_insert_is_Some. destruct (decide (l = x)); [by left|right; split; [done|by apply (v_regs _ Hok)]].
  - intros x m. rewrite lookup_insert. case_decide as Ex.
    + subst x. intros [= <-]. cbn. split; [|done]. by apply (v_refs _ Hok).
    + intros Hm. split; [by apply (v_refs _ Hok)|by apply (v_drop _ Hok x)].
Qed.

Lemma poll_step_ok s cmd r : conc_ok s → careful (APoll cmd) s → poll_step cmd s = Some r → ∃ s', r = Done s' ∧ conc_ok s'.
Proof.
  intros Hok Hca. pose proof (v_poll _ Hok) as Hp. pose proof (no_token s Hok) as Hnt. unfold poll_step.
  destruct (k_poll s) as [| |b| | |rest|l rest|l rest q|l rest q|l rest q x|l rest e p|l rest e|l|l p|l|l|l p|] eqn:E; cbn in Hp.
  - destruct cmd as [|l tok int op|l| |]; [|case_decide as Hl; [|done]..|done|done].
    + intros [= <-]. eexists. split; [done|]. case_decide; apply poll_goto; rewrite ?E; try done.
    + destruct (v_regs _ Hok l Hl) as [n Hn]. unfold at_node. rewrite Hn. intros [= <-]. eexists. split; [done|].
      apply poll_data_ok; rewrite ?E; done.
    + destruct (v_regs _ Hok l Hl) as [n Hn]. unfold at_node. rewrite Hn. intros [= <-]. eexists. split; [done|].
      apply poll_data_ok; rewrite ?E; done.
  - intros [= <-]. eexists. split; [done|]. case_decide as Hh; [|by apply poll_goto; rewrite ?E].
    apply (poll_still s); try done. destruct (v_core _ Hok) as (hl & rl & [H1 H2 H3 H4 H5]). rewrite E in *. rewrite Hh in *. split; cbn; try auto.
    + by exists hl, rl.
    + intros l Hl. destruct (new_still s l Hok Hl) as [?|?]; [by rewrite E|auto..].
  - destruct cmd; try done. intros [= <-]. eexists. split; [done|]. destruct (k_awake s); apply poll_goto; rewrite ?E; auto; done.
  - intros [= <-]. eexists. split; [done|]. apply (poll_still s); try done. destruct (v_core _ Hok) as (hl & rl & Hc). rewrite E in Hc. split; cbn; try auto.
    + by exists hl, rl.
    + done.
    + intros l Hl. destruct (new_still s l Hok Hl) as [?|?]; [by rewrite E|auto..].
  - intros [= <-]. eexists. split; [done|]. by apply poll_take_ok.
  - destruct rest as [l|].
    + destruct (poll_next_ok s l Hok E) as (n & Hn & Hok'). unfold at_node. rewrite Hn. intros [= <-]. eauto.
    + intros [= <-]. eexists. split; [done|]. apply poll_goto; rewrite ?E; try done.
  - destruct (poll_held s l Hok) as (n & Hn & Hq & _); [by rewrite E|]. unfold at_node. rewrite Hn. intros [= <-]. eexists. split; [done|].
    rewrite Hq. apply poll_goto; rewrite ?E; try done.
  - subst q. destruct (poll_held s l Hok) as (n & Hn & Hq & _); [by rewrite E|]. unfold at_node. rewrite Hn. intros [= <-]. eexists. split; [done|].
    apply after_read_ok; rewrite ?E; done.
  - destruct Hp as (-> & n & Hn & Hd). destruct (poll_held s l Hok) as (n' & Hn' & Hq & _); [by rewrite E|]. simplify_eq.
    unfold at_node. rewrite Hn, Hq. cbn. intros [= <-]. eexists. split; [done|]. by apply poll_clear_ok.
  - destruct Hp as (-> & n & Hn & Hd). unfold at_node. rewrite Hn, Z.eqb_refl. intros [= <-]. eexists. split; [done|].
    assert (is_drop (poll_events n) = false) as Hd' by by rewrite is_drop_poll_events.
    apply (poll_still s); try done. destruct (v_core _ Hok) as (hl & rl & Hc). rewrite E in Hc. split; cbn; try done.
    + rewrite Hd'. by exists hl, rl.
    + exists n. by rewrite Hd'.
    + intros y Hy. destruct (v_new _ Hok y) as [?|[?|(? & ? & ? & Ey)]]; [set_solver|by auto|by auto|]. rewrite E in Ey. simplify_eq. set_solver.
  - destruct Hp as (Hq & Hp & Hd). destruct (poll_held s l Hok) as (n & Hn & _ & _); [rewrite E; by destruct p|].
    destruct (poll_pre_ok s l p (λ x, match x with inl p' => PAgain l rest e p' | inr _ => PReport l rest e end)) as (h' & hd' & x & Ex & Hx & Hok');
      rewrite ?E; try done.
    + intros [?|?]; cbn; rewrite ?Hd; done.
    + intros [?|?] h' Hq'; cbn; [intros; split_and!; [congruence|done|done]|intros _ [m Hm]; exists m; by rewrite Hd].
    + unfold do_pre. rewrite Ex. cbn. destruct x as [p'|[]]; intros [= <-]; eauto. done.
  - destruct Hp as (n & Hn & Hd). destruct (is_drop e) eqn:Ed.
    { unfold at_node. rewrite Hn. intros [= <-]. eexists. split; [done|]. by eapply poll_free_ok. }
    destruct (Ready.is_none e).
    { intros [= <-]. eexists. split; [done|]. apply poll_goto; rewrite ?E; cbn; rewrite ?Ed; done. }
    unfold at_node. rewrite Hn. intros [= <-]. eexists. split; [done|]. case_match.
    + apply (poll_data_ok (upd_out (k_out s ++ [Event.new e (n_token n)]) s)); cbn; rewrite ?E; cbn; rewrite ?Ed; try done. by apply poll_out_ok.
    + apply poll_goto; cbn; rewrite ?E; cbn; rewrite ?Ed; try done. by apply poll_out_ok.
  - destruct (v_regs _ Hok l Hp) as [n Hn]. unfold at_node. rewrite Hn. intros [= <-]. eexists. split; [done|].
    case_match; apply poll_goto; rewrite ?E; try done.
  - destruct Hp as [Hreg Hp]. destruct (poll_pre_ok s l p (λ x, match x with inl p' => PRequeue l p' | inr _ => PIdle end)) as (h' & hd' & x & Ex & Hx & Hok');
      rewrite ?E; try done; [by apply (v_regs _ Hok)| | |].
    + by intros [?|?].
    + by intros [?|?].
    + unfold do_pre. rewrite Ex. cbn. destruct x as [p'|[]]; intros [= <-]; eauto. done.
  - destruct (v_regs _ Hok l Hp) as [n Hn]. unfold at_node. rewrite Hn. intros [= <-]. eexists. split; [done|]. by apply poll_drop_ok.
  - destruct Hp as (n & Hn & _). unfold at_node. rewrite Hn. intros [= <-]. eexists. split; [done|]. by apply poll_last_ok.
  - destruct Hp as [Hs Hp]. destruct (poll_pre_ok s l p (λ x, match x with inl p' => PDropPre l p' | inr true => PDropWake | inr false => PIdle end)) as (h' & hd' & x & Ex & Hx & Hok');
      rewrite ?E; try done.
    + by intros [?|[]].
    + by intros [?|[]].
    + unfold do_pre. rewrite Ex. cbn. intros [= <-]. eauto.
  - intros [= <-]. eexists. split; [done|]. apply (poll_still s); try done. destruct (v_core _ Hok) as (hl & rl & Hc). rewrite E in Hc. split; cbn; try auto.
    + by exists hl, rl.
    + done.
    + intros l Hl. destruct (new_still s l Hok Hl) as [?|?]; [by rewrite E|auto..].
Qed.

(** ** The theorems *)

Inductive careful_step (s s' : Conc) : Prop := CarefulStep a : careful a s → act a s = Some (Done s') → careful_step s s'.

Lemma act_ok s a r : conc_ok s → careful a s → act a s = Some r → ∃ s', r = Done s' ∧ conc_ok s'.
Proof. destruct a; [apply set_step_ok|apply poll_step_ok]. Qed.

(** A queue with nodes, none of them ready, and handles outside of any operation. *)
Record started (s : Conc) : Prop := {
  st_head : k_head s = HNull;
  st_poll : k_poll s = PIdle;
  st_new : k_new s = ∅;
  st_set : Forall (λ t, t.2 = SIdle ∧ is_Some (k_heap s !! t.1)) (k_set s);
  st_regs : set_Forall (λ l, is_Some (k_heap s !! l)) (k_regs s);
  st_nodes : map_Forall (λ l n, queued n = 0 ∧ events n = 0 ∧ ref_count n = holders l (k_set s) + reg_count (k_regs s) l) (k_heap s);
  st_small : Z.of_nat (length (k_set s)) < ISIZE_MAX }.

Lemma no_helds (ts : list (loc * SetPc)) : (∀ t, t ∈ ts → s_held t = []) → ts ≫= s_held = [].
Proof.
  induction ts as [|t ts IH]; intros Ht; [done|]. change (s_held t ++ (ts ≫= s_held) = []).
  rewrite Ht by by left. rewrite IH; [done|]. intros u Hu. apply Ht. by right.
Qed.

Lemma started_ok s : started s → conc_ok s.
Proof.
  intros [Hh Hp Hn Hs Hr Hnd Hsm]. rewrite Forall_forall in Hs.
  assert (helds s = []) as Eh by (apply no_helds; intros [l pc] Ht; destruct (Hs _ Ht) as [E _]; cbn in E; by rewrite E).
  split; rewrite ?Hh, ?Hp; try done.
  - exists [], []. rewrite Eh. split; try done; [constructor|by intros l ?%not_elem_of_nil|]. intros l n Hl. by apply (Hnd l n).
  - intros i l pc Hi. destruct (Hs (l, pc)) as [E Hl]; [by eapply list_elem_of_lookup_2|]. cbn in *. by subst pc.
  - intros l n Hl. by apply (Hnd l n).
  - intros l n Hl Hd. destruct (Hnd l n Hl) as (_ & He & _). unfold dropped in Hd. by rewrite He in Hd.
  - rewrite Hn. set_solver.
Qed.

Lemma reach_ok s0 s : started s0 → rtc careful_step s0 s → conc_ok s.
Proof.
  intros H0%started_ok Hs. induction Hs as [s|s s1 s2 [a Hc Ha] _ IH]; [done|]. apply IH.
  destruct (act_ok _ _ _ H0 Hc Ha) as (? & [= ->] & ?). done.
Qed.

(** C12: however the atomic steps of a poll and of any number of threads that set
    and drop readiness handles interleave, no step reaches into a freed node and
    no assertion fails, provided that the last handle of a node is dropped by the
    polling thread and the selector does not fail.  The list behind
    [head_readiness] is then always well formed: it has every node at most once,
    and only nodes whose flag says so. *)
Theorem queue_conc_safe (s0 s : Conc) (a : Act) (r : outcome Conc) :
  started s0 → rtc careful_step s0 s → careful a s → act a s = Some r →
  (∃ s', r = Done s') ∧
  ∃ hl, rchain (k_heap s) (as_next (k_head s)) hl ∧ NoDup hl ∧ Forall (λ l, queued <$> k_heap s !! l = Some 1) hl.
Proof.
  intros H0 Hs Hc Ha. pose proof (reach_ok _ _ H0 Hs) as Hok. split; [destruct (act_ok _ _ _ Hok Hc Ha) as (s' & ? & _); by exists s'|].
  destruct (v_core _ Hok) as (hl & rl & [H1 _ H3 H4 H5]). exists hl. split; [done|]. split; [by apply NoDup_app in H3 as (? & _)|].
  apply Forall_forall. intros l Hl. assert (l ∈ hl ++ rl ++ p_held (k_poll s) ++ helds s) as Hin by set_solver.
  destruct (H4 l Hin) as [n Hn]. rewrite Hn. cbn. by rewrite (H5 l n Hn), decide_True.
Qed.

(** No thread is inside of an operation. *)
Definition quiet (s : Conc) : Prop := Forall (λ t, t.2 = SIdle ∨ t.2 = SGone) (k_set s).

(** No node is queued, and every readiness that was set was looked at. *)
Definition nothing_missed (s : Conc) : Prop := k_new s = ∅ ∧ map_Forall (λ _ n, queued n = 0) (k_heap s).

Lemma quiet_sleeper s : conc_ok s → quiet s → k_poll s = PSelect true → k_awake s = true ∨ nothing_missed s.
Proof.
  intros Hok Hq Hp. unfold quiet in Hq. rewrite Forall_forall in Hq.
  assert (∀ i l pc, k_set s !! i = Some (l, pc) → pc = SIdle ∨ pc = SGone) as Hq' by (intros i l pc Hi; apply (Hq (l, pc)); by eapply list_elem_of_lookup_2).
  destruct (v_wake _ Hok Hp) as [Hh|[?|(i & l & d & Hi)]]; [right|by left|by destruct (Hq' _ _ _ Hi)].
  assert (helds s = []) as Eh by (apply no_helds; intros [l pc] Ht; by destruct (Hq _ Ht) as [E|E]; cbn in E; rewrite E).
  destruct (v_core _ Hok) as (hl & rl & [H1 H2 _ _ H5]). rewrite Hp, Eh in *. rewrite Hh in *. cbn in *.
  assert (hl = [] ∧ rl = []) as [-> ->] by (split; [by destruct hl as [|? ?]; [|destruct H1]|by destruct rl as [|? ?]; [|destruct H2]]).
  assert (map_Forall (λ _ n, queued n = 0) (k_heap s)) as Hqu by (intros l n Hl; by apply H5 in Hl).
  split; [|done]. apply elem_of_equiv_empty_L. intros l Hl. destruct (v_new _ Hok l Hl) as [(n & Hn & Hn1)|[(i & d & Hi)|(? & ? & ? & E)]].
  - apply Hqu in Hn. lia.
  - by destruct (Hq' _ _ _ Hi).
  - by rewrite Hp in E.
Qed.

(** C13: a poll that sleeps in the selector, with no signal from the awakener and
    no other thread in the middle of an operation, has missed nothing: no node is
    queued, and since the last readiness that was set on any node a poll has
    looked at it; provided that the last handle of a node is dropped by the polling
    thread and the selector does not fail. *)
Theorem sleeper_misses_nothing (s0 s : Conc) :
  started s0 → rtc careful_step s0 s → k_poll s = PSelect true → quiet s → k_awake s = false → nothing_missed s.
Proof. intros H0 Hs Hp Hq Ha. destruct (quiet_sleeper s) as [?|?]; [by eapply reach_ok|done|done|congruence|done]. Qed.

(** ** The operations under way come to an end *)

(** Steps a thread needs to the end of its operation, when nobody interferes. *)
Definition left_over (hd : Head) (pc : SetPc) : nat :=
  match pc with
  | SPre _ QCas => 5
  | SPre _ QLoad => 4
  | SPre _ (QLink cur) => if decide (cur = hd) then 3 else 5
  | SPre _ (QSwap cur) => if decide (cur = hd) then 2 else 4
  | SWake _ => 1
  | _ => 0
  end.

(** Whether it may still change the head of the list, and so make others try again. *)
Definition to_swap (pc : SetPc) : nat := match pc with SPre _ _ => 1 | _ => 0 end.

Definition busy (pc : SetPc) : bool := match pc with SIdle | SGone => false | _ => true end.

(** A step of another thread in an operation it has begun; no new ones are begun. *)
Definition other_step (s s' : Conc) : Prop :=
  ∃ i l pc, k_set s !! i = Some (l, pc) ∧ busy pc = true ∧ set_step i (CmdSet Ready.none) s = Some (Done s').

Lemma other_careful s s' : other_step s s' → careful_step s s'.
Proof. intros (i & _ & _ & _ & _ & E). by apply (CarefulStep _ _ (ASet i (CmdSet Ready.none))). Qed.

Lemma other_ok s s' : conc_ok s → other_step s s' → conc_ok s'.
Proof. intros Hok (i & _ & _ & _ & _ & E). destruct (set_step_ok s i (CmdSet Ready.none) _ Hok I E) as (? & [= ->] & ?). done. Qed.

(** A thread in an operation can go on, and comes closer to its end; where it changes
    the head, it has no more to change. *)
Lemma busy_step s i l pc : conc_ok s → k_set s !! i = Some (l, pc) → busy pc = true →
  ∃ s' pc', set_step i (CmdSet Ready.none) s = Some (Done s') ∧ k_set s' = <[i := (l, pc')]> (k_set s) ∧ k_poll s' = k_poll s ∧
    (left_over (k_head s') pc' < left_over (k_head s) pc)%nat ∧ (to_swap pc' <= to_swap pc)%nat ∧
    (k_head s' = k_head s ∨ (to_swap pc' < to_swap pc ∧ left_over (k_head s') pc' < 2 <= left_over (k_head s') pc)%nat).
Proof.
  intros Hok Hi Hb. assert (pc ≠ SGone) as Hg by (by intros ->). destruct (set_live _ _ _ _ Hok Hi Hg) as (n & Hl & _).
  pose proof (v_set _ Hok _ _ _ Hi) as Hs. unfold set_step. rewrite Hi. destruct pc as [| |[] p|[]|]; try done; cbn; unfold do_pre, pre_step.
  - rewrite Hl. destruct p as [| |cur|cur].
    + destruct (queued n =? 0) eqn:Eq; eexists _, _; (do 2 (split; [reflexivity|])); cbn; split_and!; auto; lia.
    + eexists _, _. do 2 (split; [reflexivity|]). cbn. rewrite decide_True by done. split_and!; auto; lia.
    + eexists _, _. do 2 (split; [reflexivity|]). cbn. split_and!; auto; case_decide; lia.
    + destruct (decide (k_head s = cur)) as [Hc|Hc]; (eexists _, _; do 2 (split; [reflexivity|])); cbn.
      * rewrite (decide_True _ _ (eq_sym Hc)). case_bool_decide; cbn; split_and!; auto; try lia; right; case_decide; lia.
      * rewrite (decide_True _ _ eq_refl), (decide_False (P := cur = k_head s)) by congruence. split_and!; auto; lia.
  - eexists _, _. do 2 (split; [reflexivity|]). cbn. split_and!; auto; lia.
Qed.

(** What is left to do, counting what each change of the head costs the others. *)
Definition cost (hd : Head) (n : nat) (t : loc * SetPc) : nat := left_over hd t.2 + 2 * n * to_swap t.2.
Definition work (s : Conc) : nat := sum_list (cost (k_head s) (length (k_set s)) <$> k_set s).

Lemma sum_insert {X} (f : X → nat) (l : list X) i x y : l !! i = Some x →
  (sum_list (f <$> <[i := y]> l) + f x = sum_list (f <$> l) + f y)%nat.
Proof.
  revert i. induction l as [|z l IH]; intros [|i] Hi; [done|done| |].
  - injection Hi as ->. cbn. lia.
  - specialize (IH i Hi). change (<[Datatypes.S i := y]> (z :: l)) with (z :: <[i := y]> l). rewrite !fmap_cons. cbn. lia.
Qed.
Lemma sum_grows {X} (f g : X → nat) (l : list X) c : (∀ x, g x <= f x + c)%nat → (sum_list (g <$> l) <= sum_list (f <$> l) + c * length l)%nat.
Proof. intros H. induction l as [|x l IH]; cbn; [lia|]. specialize (H x). lia. Qed.

Lemma left_over_max hd pc : (left_over hd pc <= 5)%nat.
Proof. destruct pc as [| |? []| |]; cbn; repeat case_decide; lia. Qed.
Lemma left_over_stale hd hd' pc : (left_over hd' pc <= left_over hd pc + 2)%nat.
Proof. destruct pc as [| |? []| |]; cbn; repeat case_decide; lia. Qed.

Lemma work_bound s : (work s <= length (k_set s) * (5 + 2 * length (k_set s)))%nat.
Proof.
  unfold work. generalize (length (k_set s)) at 1 3. intros n. induction (k_set s) as [|[l pc] ts IH]; cbn; [lia|].
  unfold cost at 1. cbn. pose proof (left_over_max (k_head s) pc). assert (to_swap pc <= 1)%nat by (destruct pc; cbn; lia). nia.
Qed.

Lemma work_decreases s s' : conc_ok s → other_step s s' →
  (work s' < work s)%nat ∧ k_poll s' = k_poll s ∧ length (k_set s') = length (k_set s).
Proof.
  intros Hok (i & l & pc & Hi & Hb & E). destruct (busy_step s i l pc Hok Hi Hb) as (s1 & pc' & E1 & Hset & Hp & Hlt & Hsw & Hhd).
  rewrite E in E1. injection E1 as <-. split; [|split; [done|by rewrite Hset, length_insert]].
  unfold work. rewrite Hset, length_insert. set (n := length (k_set s)). pose proof (lookup_lt_Some _ _ _ Hi) as Hn. fold n in Hn.
  pose proof (sum_insert (cost (k_head s') n) (k_set s) i (l, pc) (l, pc') Hi) as Hins. unfold cost at 2 4 in Hins. cbn [snd] in Hins.
  destruct Hhd as [Heq|[Hs2 [Hl2 Hl3]]].
  - rewrite Heq in *. nia.
  - pose proof (sum_grows (cost (k_head s) n) (cost (k_head s') n) (k_set s) 2) as Hgr. fold n in Hgr.
    assert (∀ x, cost (k_head s') n x <= cost (k_head s) n x + 2)%nat as Hx.
    { intros x. unfold cost. pose proof (left_over_stale (k_head s) (k_head s') x.2). lia. }
    specialize (Hgr Hx). nia.
Qed.

Lemma others_end k : ∀ s s', conc_ok s → nsteps other_step k s s' →
  (k + work s' <= work s)%nat ∧ k_poll s' = k_poll s ∧ conc_ok s'.
Proof.
  induction k as [|k IH]; intros s s' Hok Hst; inversion Hst as [|? ? s1 ? H1 H2]; subst; [by split_and!|].
  destruct (work_decreases _ _ Hok H1) as (Hw & Hp & _). destruct (IH s1 s' (other_ok _ _ Hok H1) H2) as (Hw' & Hp' & Hok').
  split_and!; [lia|congruence|done].
Qed.

(** Either all threads are at rest or one of them can go on. *)
Lemma quiet_or_step s : conc_ok s → quiet s ∨ ∃ s', other_step s s'.
Proof.
  intros Hok. destruct (decide (Forall (λ t, busy t.2 = false) (k_set s))) as [Hq|Hq].
  - left. eapply Forall_impl; [exact Hq|]. intros [l pc]. destruct pc; cbn; auto; done.
  - right. apply not_Forall_Exists, Exists_exists in Hq as ([l pc] & Hin & Hb); [|apply _]. apply list_elem_of_lookup in Hin as [i Hi].
    cbn in Hb. apply not_false_is_true in Hb. destruct (busy_step s i l pc Hok Hi Hb) as (s' & _ & E & _). exists s', i, l, pc. auto.
Qed.

(** C14: while a poll sleeps, let the other threads go on with the operations they have
    begun, in whatever order: with [n] threads there are at most [n * (5 + 2 * n)]
    steps, since a thread tries again only if another has changed the list; as long
    as an operation is under way one of them can go on; and when none is, the poll
    has been signalled, or there was nothing to be woken for.  Provided that the last
    handle of a node is dropped by the polling thread and the selector does not fail. *)
Theorem sleeper_gets_signal (s0 s s' : Conc) (k : nat) :
  started s0 → rtc careful_step s0 s → k_poll s = PSelect true → nsteps other_step k s s' →
  (k <= length (k_set s) * (5 + 2 * length (k_set s)))%nat ∧
  ((quiet s' ∧ k_poll s' = PSelect true ∧ (k_awake s' = true ∨ nothing_missed s')) ∨ ∃ s'', other_step s' s'').
Proof.
  intros H0 Hs Hp Hst. destruct (others_end k s s' (reach_ok _ _ H0 Hs) Hst) as (Hw & Hp' & Hok). split; [pose proof (work_bound s); lia|].
  destruct (quiet_or_step s' Hok) as [Hq|?]; [left|by right]. rewrite Hp in Hp'. split; [done|]. split; [done|]. by apply quiet_sleeper.
Qed.

(** ** The steps and the sequential model *)

Section sequential.
Context {A : Type} {awk_ops : AwakenerOps A}.

(** [pre_step] until the function returns. *)
Fixpoint pre_run (fuel : nat) (l : loc) (p : Pre) (h : Heap) (hd : Head) : outcome (Heap * Head * bool) :=
  match fuel with
  | O => OutOfFuel
  | S fuel =>
      '(h, hd, x) ← pre_step l p h hd;
      match x with inl p => pre_run fuel l p h hd | inr b => Done (h, hd, b) end
  end.

Definition head_of (q : Queue A) : Head :=
  match head_readiness q with
  | None => HNull
  | Some l => if decide (l = sleep_token q) then HToken else HNode l
  end.

Lemma pre_run_free (h : Heap) hd l n : h !! l = Some n → queued n = 0 →
  pre_run 4 l QCas h hd =
    Done (<[l := n_set_next_readiness (as_next hd) (n_set_queued NODE_QUEUED_FLAG n)]> (<[l := n_set_queued NODE_QUEUED_FLAG n]> h),
      HNode l, bool_decide (hd = HToken)).
Proof.
  intros Hl Hq. unfold pre_run, pre_step, mbind, outcome_bind. rewrite Hl, Hq. cbn. rewrite !lookup_insert_eq. cbn. by rewrite decide_True.
Qed.

(** without interruption, the steps of [queue_for_processing] do what the
    sequential model says: the same heap, head and result. *)
Theorem pre_run_is_queue_for_processing (q : Queue A) (i : Z) (l : loc) :
  is_Some (heap q !! l) → l ≠ sleep_token q →
  ∃ b q', queue_for_processing (mkHandle i l) q = Done (b, q') ∧ pre_run 4 l QCas (heap q) (head_of q) = Done (heap q', head_of q', b).
Proof.
  intros [n Hl] Hne. unfold queue_for_processing, cas_queued, read_node, write_node, mbind, M_bind. cbn -[pre_run]. rewrite Hl. cbn -[pre_run].
  destruct (queued n =? 0) eqn:Eq; zbool.
  - rewrite ?Hl. cbn -[pre_run]. rewrite Eq. cbn -[pre_run]. unfold prepend_readiness_node, prepend_loop, write_node, cas_head, gets, mbind, M_bind. cbn -[pre_run].
    rewrite lookup_insert_eq. cbn -[pre_run]. rewrite decide_True by done. cbn -[pre_run]. rewrite decide_True by done. eexists _, _. split; [done|].
    assert (head_of q = HToken ↔ head_readiness q = Some (sleep_token q)) as Ht by (unfold head_of; repeat case_match; naive_solver).
    assert (as_next (head_of q) = if decide (head_readiness q = Some (sleep_token q)) then None else head_readiness q) as En.
    { unfold head_of. destruct (head_readiness q) as [l0|]; [|done]. repeat case_decide; naive_solver. }
    rewrite (pre_run_free _ _ _ n Hl Eq), En. do 2 f_equal; [|by apply bool_decide_ext]. f_equal. unfold head_of. cbn. by rewrite decide_False.
  - unfold pre_run, pre_step, mbind, outcome_bind. rewrite Hl. pose proof (proj2 (Z.eqb_neq _ _) Eq) as E0. rewrite E0.
    exists false, q. split; [|done]. cbn. by rewrite E0.
Qed.
End sequential.
