(* ===== verification/QueueConcEx.v ===== *)
(** * Runs of the readiness queue under concurrency

    The theorems of [QueueConcThm.v] at concrete runs, and the two races that their
    hypotheses exclude. *)

From stdpp Require Import relations.
From S2P Require Import Prelude Event Iface DList ReadyQueue QueueInv QueueConc QueueConcThm.

#[export] Instance careful_dec a s : Decision (careful a s).
Proof.
  destruct a as [i [r|]|[]]; cbn; try apply _. destruct (k_set s !! i) as [[l []]|]; apply _.
Defined.

Fixpoint careful_acts (l : list Act) (s : Conc) : option Conc :=
  match l with
  | [] => Some s
  | a :: l => if decide (careful a s) then match act a s with Some (Done s) => careful_acts l s | _ => None end else None
  end.

Lemma careful_acts_reach l : ∀ s s', careful_acts l s = Some s' → rtc careful_step s s'.
Proof.
  induction l as [|a l IH]; intros s s'; cbn; [by intros [= <-]|]. case_decide; [|done]. destruct (act a s) as [[s1| |]|] eqn:E; [|done..].
  intros Hr%IH. eapply rtc_l; [by econstructor|done].
Qed.

(** A node with a [Registration] and one [SetReadiness]. *)
Definition one_node (regs : gset loc) (opts : PollOpt.t) : Conc :=
  mkConc {[ 1%positive := ReadinessNode_new (mkToken 7) Ready.readable opts (1 + reg_count regs 1%positive) ]} HNull false ∅ regs [] [(1%positive, SIdle)] PIdle.

Lemma one_node_started : started (one_node {[ 1%positive ]} PollOpt.edge).
Proof. split; try reflexivity; apply (bool_decide_unpack _); vm_compute; done. Qed.

Definition set_readable : list Act := [ASet 0 (CmdSet Ready.readable)].
Definition go_on (n : nat) : list Act := replicate n (ASet 0 (CmdSet Ready.none)).
Definition polls (n : nat) : list Act := replicate n (APoll CmdPoll).

(** The readiness is set and reported, then the next poll goes to sleep. *)
Definition full_round : list Act :=
  set_readable ++ go_on 4 ++ polls 1 ++ [APoll CmdReturn] ++ polls 8 ++ polls 2.

Definition after (l : list Act) : Conc := default (one_node {[ 1%positive ]} PollOpt.edge) (careful_acts l (one_node {[ 1%positive ]} PollOpt.edge)).

Lemma after_reach l : is_Some (careful_acts l (one_node {[ 1%positive ]} PollOpt.edge)) → rtc careful_step (one_node {[ 1%positive ]} PollOpt.edge) (after l).
Proof. intros [s E]. unfold after. rewrite E. by apply (careful_acts_reach l). Qed.

Example full_round_reports :
  k_out (after full_round) = [Event.new Ready.readable (mkToken 7)] ∧ k_poll (after full_round) = PSelect true.
Proof. by vm_compute. Qed.

Lemma queue_conc_safe_witness :
  ∃ s', act (ASet 0 CmdDrop) (after full_round) = Some (Done s').
Proof.
  destruct (act (ASet 0 CmdDrop) (after full_round)) as [r|] eqn:E; [|by vm_compute in E].
  destruct (queue_conc_safe _ (after full_round) (ASet 0 CmdDrop) r one_node_started) as [[s' ->] _];
    [apply after_reach; vm_compute; by eexists|apply (bool_decide_unpack _); by vm_compute|exact E|]. by exists s'.
Defined.

Lemma sleeper_misses_nothing_witness : nothing_missed (after full_round).
Proof.
  apply (sleeper_misses_nothing _ (after full_round) one_node_started);
    [apply after_reach; vm_compute; by eexists|by vm_compute|apply (bool_decide_unpack _); by vm_compute|by vm_compute].
Defined.

(** The thread goes on with what it has begun. *)
Fixpoint goes_on (n : nat) (s : Conc) : option Conc :=
  match n with
  | O => Some s
  | S n =>
      match k_set s !! 0%nat with
      | Some (_, pc) => if busy pc then match set_step 0 (CmdSet Ready.none) s with Some (Done s) => goes_on n s | _ => None end else None
      | None => None
      end
  end.
Lemma goes_on_steps n : ∀ s s', goes_on n s = Some s' → nsteps other_step n s s'.
Proof.
  induction n as [|n IH]; intros s s'; cbn; [intros [= <-]; constructor|]. destruct (k_set s !! 0%nat) as [[l pc]|] eqn:Ei; [|done].
  destruct (busy pc) eqn:Eb; [|done]. destruct (set_step 0 (CmdSet Ready.none) s) as [[s1| |]|] eqn:E; [|done..].
  intros Hs%IH. econstructor; [by exists 0%nat, l, pc|done].
Qed.

(** The readiness is set again while the poll sleeps; the thread goes on from half
    way to the end. *)
Lemma sleeper_gets_signal_witness :
  let s := after (full_round ++ set_readable ++ go_on 2) in
  ∃ s', nsteps other_step 3 s s' ∧ (3 <= length (k_set s) * (5 + 2 * length (k_set s)))%nat ∧
    ((quiet s' ∧ k_poll s' = PSelect true ∧ (k_awake s' = true ∨ nothing_missed s')) ∨ ∃ s'', other_step s' s'') ∧
    k_set s' = [(1%positive, SIdle)] ∧ k_awake s' = true.
Proof.
  intros s. destruct (goes_on 3 s) as [s'|] eqn:E; [|by vm_compute in E]. pose proof (goes_on_steps _ _ _ E) as Hst. exists s'. split; [exact Hst|].
  destruct (sleeper_gets_signal _ s s' 3 one_node_started) as [H1 H2];
    [apply after_reach; vm_compute; by eexists|by vm_compute|exact Hst|]. split; [exact H1|]. split; [exact H2|].
  vm_compute in E. injection E as <-. by vm_compute.
Defined.

(** ** Races *)

(** The [Registration] is gone, and the last handle of the node is dropped by
    another thread while a poll handles the node: the poll unsets [queued], the thread stores the drop flag, the poll
    reads it and frees the node, and the thread goes on to queue what was freed. *)
Example drop_races_with_poll :
  acts ([APoll (CmdDropReg 1%positive)] ++ polls 1 ++ set_readable ++ go_on 4 ++
        polls 1 ++ [APoll CmdReturn] ++ polls 5 ++ [ASet 0 CmdDrop] ++ go_on 1 ++ polls 2 ++ go_on 1)
    (one_node {[ 1%positive ]} PollOpt.edge) = Some Panic.
Proof. by vm_compute. Qed.

(** After a poll that failed in the selector, the sleep token is left: updating a
    registration that became ready meanwhile trips an assertion. *)
Example update_after_failed_select :
  acts (polls 2 ++ [APoll CmdFail] ++ [ASet 0 (CmdSet Ready.readable); APoll (CmdUpdate 1%positive (mkToken 7) Ready.readable PollOpt.edge)] ++ polls 5)
    (one_node {[ 1%positive ]} PollOpt.edge) = Some Panic.
Proof. by vm_compute. Qed.

(** ** The sequential model *)

#[local] Instance no_awakener : AwakenerOps unit := { awk_wakeup a := (Ok tt, a); awk_cleanup a := a }.

Lemma pre_run_is_queue_for_processing_witness :
  let q := mkQueue 0 tt None (Some 9%positive) 9%positive {[ 1%positive := ReadinessNode_new (mkToken 7) Ready.readable PollOpt.edge 2 ]} in
  ∃ b q', queue_for_processing (mkHandle 0 1%positive) q = Done (b, q') ∧ pre_run 4 1%positive QCas (heap q) (head_of q) = Done (heap q', head_of q', b).
Proof. intros q. apply (pre_run_is_queue_for_processing q 0 1%positive); [by eexists|done]. Defined.
