(* ===== verification/Handles.v ===== *)
(** * The handles of the readiness queue

    The readiness queue of [poll.rs] keeps the laws of ownership ([HandleLaws])
    that the sockets of Windows rely on: a [Registration] and a [SetReadiness] are
    both counted by the node they refer to. *)

From S2P Require Import Prelude Event Convert DList Iface ReadyQueue QueueInv QueueOps QueuePoll Poll PollThm.

(** An awakener that does not fail. *)
Class AwakenerReliable (A : Type) `{AwakenerOps A} : Prop := { awk_reliable a : fst (awk_wakeup a) = Ok tt }.

Section handles.
Context {A : Type} {awk_ops : AwakenerOps A} {reliable : AwakenerReliable A}.
Implicit Types q : Queue A.
Abbreviation RI := RegistrationInner.

#[export] Instance queue_drop_ops : HandleDropOps (Queue A) RI RI := {
  reg_drop := Registration_drop;
  rd_drop := SetReadiness_drop }.

Definition the_handle (x : RI + RI) : RI := match x with inl h => h | inr h => h end.
Definition handles_of (l : list (RI + RI)) : list RI := the_handle <$> l.

Definition queue_own q (l : list (RI + RI)) : Prop :=
  (∃ al rl, queue_good q al rl (cnt_of (handles_of l))) ∧ ∀ h, h ∈ handles_of l → is_Some (heap q !! h_node h).

#[export] Instance queue_handle_spec : HandleSpec (Queue A) RI RI := {
  rd_own := queue_own;
  rd_awake q := sleeping q = false }.

(** ** Counting *)

Lemma cnt_of_perm hs hs' l : hs ≡ₚ hs' → cnt_of hs l = cnt_of hs' l.
Proof. intros Hp. unfold cnt_of. by rewrite Hp. Qed.

Lemma cnt_of_in hs h : h ∈ hs → 0 < cnt_of hs (h_node h).
Proof. intros [i Hi]%list_elem_of_lookup_1. apply (cnt_of_live _ _ _ Hi). Qed.

Lemma owned_node q l x : queue_own q l → x ∈ l →
  ∃ al rl n, queue_good q al rl (cnt_of (handles_of l)) ∧ heap q !! h_node (the_handle x) = Some n ∧
    0 < cnt_of (handles_of l) (h_node (the_handle x)).
Proof.
  intros [(al & rl & Hg) Hh] Hx. assert (the_handle x ∈ handles_of l) as Hin by (by apply list_elem_of_fmap_2).
  destruct (Hh _ Hin) as [n Hn]. exists al, rl, n. eauto using cnt_of_in.
Qed.

(** ** Readiness *)

Lemma current_nodes q (h : RI) : rd_current q h = from_option (λ i, from_usize (i_events i)) Ready.none (nodes q !! h_node h).
Proof. cbn. unfold nodes. rewrite lookup_fmap. by destruct (heap q !! h_node h). Qed.

(** What has the same events has the same readiness. *)
Lemma current_same q q' l i (h : RI) :
  nodes q' = <[l := i]> (nodes q) → (h_node h = l → i_events <$> nodes q !! l = Some (i_events i)) → rd_current q' h = rd_current q h.
Proof.
  intros Hn Hl. rewrite !current_nodes, Hn. destruct (decide (l = h_node h)) as [->|Hne]; [|by rewrite lookup_insert_ne].
  rewrite lookup_insert_eq. specialize (Hl eq_refl). destruct (nodes q !! h_node h) as [i'|]; [|done]. cbn in *. congruence.
Qed.

Lemma owned_keep q q' l al rl :
  queue_own q l → queue_good q' al rl (cnt_of (handles_of l)) → (∀ x, is_Some (heap q !! x) → is_Some (heap q' !! x)) → queue_own q' l.
Proof. intros [_ Hh] Hg Hd. split; [eauto|]. intros h Hin. by apply Hd, Hh. Qed.

(** ** Each operation *)

(** Dropping a handle with code that does to the queue what [inner_drop] does, or
    changes the data of the node as well. *)
Lemma own_drop_gen (drop : RI → M (Queue A) unit) x h q l :
  the_handle x = h →
  (∀ al rl n cnt (Q : unit → Queue A → Prop), queue_good q al rl cnt → heap q !! h_node h = Some n → 0 < cnt (h_node h) →
    let c := cnt (h_node h) - 1 in
    (∀ q' i, queue_good q' al (if decide (c = 0) then enqueue (h_node h) rl else rl) (upd cnt (h_node h) c) →
      nodes q' = <[h_node h := i]> (nodes q) → (c ≠ 0 → i_events i = events n) → Q tt q') → wp (drop h) Q q) →
  queue_own q (x :: l) →
  ∃ q', drop h q = Done (tt, q') ∧ queue_own q' l ∧ ∀ h', inr h' ∈ l → rd_current q' h' = rd_current q h'.
Proof.
  intros <- Hdrop Hown. destruct (owned_node q (x :: l) x Hown) as (al & rl & n & Hg & Hn & Hc); [set_solver|]. set (h := the_handle x) in *.
  assert (wp (drop h) (λ _ q', queue_own q' l ∧ ∀ h', inr h' ∈ l → rd_current q' h' = rd_current q h') q) as ([] & q' & E & H1 & H2)%wp_done; [|eauto].
  eapply Hdrop; [done|done|done|]. intros q' i Hg' Hn' Hi. cbn [handles_of fmap list_fmap] in *. fold h in Hg', Hi, Hc.
  change (the_handle <$> l) with (handles_of l) in *.
  assert (∀ y, upd (cnt_of (h :: handles_of l)) (h_node h) (cnt_of (h :: handles_of l) (h_node h) - 1) y = cnt_of (handles_of l) y) as Hcnt.
  { intros y. unfold upd. rewrite !cnt_of_cons. rewrite (decide_True (P := h_node h = h_node h)) by done.
    destruct (decide (h_node h = y)) as [<-|]; lia. }
  assert (cnt_of (h :: handles_of l) (h_node h) - 1 = cnt_of (handles_of l) (h_node h)) as Hc' by (rewrite <- Hcnt; by rewrite upd_same).
  split; [split|].
  - eexists al, _. eapply queue_good_cnt; [exact Hg'|]. intros y _. by rewrite Hcnt.
  - intros g Hin. eapply heap_of_insert; [exact Hn'|]. apply Hown. set_solver.
  - intros g Hin. eapply current_same; [exact Hn'|]. intros Hgl.
    rewrite (nodes_lookup _ _ _ Hn). cbn. f_equal. symmetry. apply Hi. rewrite Hc'. rewrite <- Hgl.
    assert (g ∈ handles_of l) as Hg2 by (by apply (list_elem_of_fmap_2 the_handle _ (inr g))). pose proof (cnt_of_in _ _ Hg2). lia.
Qed.

Lemma wp_drop_node h n q al rl cnt (Q : unit → Queue A → Prop) :
  queue_good q al rl cnt → heap q !! h_node h = Some n → 0 < cnt (h_node h) →
  let c := cnt (h_node h) - 1 in
  (∀ q' i, queue_good q' al (if decide (c = 0) then enqueue (h_node h) rl else rl) (upd cnt (h_node h) c) →
    nodes q' = <[h_node h := i]> (nodes q) → (c ≠ 0 → i_events i = events n) → Q tt q') →
  wp (inner_drop h) Q q.
Proof.
  intros Hg Hn Hc c HQ. eapply wp_drop; [done..|]. fold c. intros q' Hg' Hn' _ _.
  destruct (decide (c = 0)) as [H0|H0]; [by eapply (HQ q'); [|exact Hn'|]|].
  apply (HQ q' (info n)); [done| |done]. rewrite Hn'. symmetry. apply insert_id. by apply nodes_lookup.
Qed.

Lemma queue_own_set q l h r :
  queue_own q l → inr h ∈ l → is_drop r = false →
  ∃ q', inner_set_readiness h r q = Done (Ok tt, q') ∧ queue_own q' l ∧ rd_current q' h = r.
Proof.
  intros Hown Hin Hr. destruct (owned_node q l _ Hown Hin) as (al & rl & n & Hg & Hn & Hc). cbn [the_handle] in *.
  assert (wp (inner_set_readiness h r) (λ res q', res = Ok tt ∧ queue_own q' l ∧ rd_current q' h = r) q) as (res & q' & E & -> & ?)%wp_done; [|eauto].
  eapply wp_set_live; [done|done|done|done|]. intros res q' Hg' Hs. split; [|split].
  - destruct (se_wake _ _ _ _ _ _ _ Hs) as [_ ->]. case_match; [apply awk_reliable|done].
  - eapply owned_keep; [done|done|]. intros x. eapply heap_of_insert, Hs.
  - by eapply set_effect_current.
Qed.

Lemma queue_own_new q l p token interest opts :
  queue_own q l →
  ∃ r h q', Registration_new p token interest opts q = Done ((r, h), q') ∧
    queue_own q' (inl r :: inr h :: l) ∧ rd_current q' h = Ready.none.
Proof.
  intros Hown. pose proof Hown as [(al & rl & Hg) Hh].
  assert (wp (Registration_new p token interest opts) (λ x q', queue_own q' (inl x.1 :: inr x.2 :: l) ∧ rd_current q' x.2 = Ready.none) q)
    as ([r h] & q' & E & ?)%wp_done; [|eauto].
  eapply wp_registration_new; [exact Hg|]. intros x q' Hx Hg' Hn _ _. cbn [fst snd]. split; [split|].
  - exists (x :: al), rl. eapply queue_good_cnt; [exact Hg'|]. intros y _. cbn [handles_of fmap list_fmap the_handle].
    rewrite !cnt_of_cons. cbn [h_node]. unfold upd. change (the_handle <$> l) with (handles_of l).
    assert (cnt_of (handles_of l) x = 0) as H0.
    { apply cnt_of_unused. intros g Hin <-. destruct (Hh g Hin) as [? ?]. congruence. }
    destruct (decide (x = y)) as [<-|]; lia.
  - assert (is_Some (heap q' !! x)) as Hxq by (apply nodes_dom; rewrite Hn, lookup_insert_eq; eauto).
    intros g Hin. cbn in Hin. apply elem_of_cons in Hin as [->|[->|Hin]%elem_of_cons]; [done..|].
    eapply heap_of_insert; [exact Hn|]. by apply Hh.
  - rewrite current_nodes, Hn. cbn [h_node]. by rewrite lookup_insert_eq.
Qed.

Lemma queue_own_update q l r p token interest opts :
  queue_own q l → sleeping q = false → inl r ∈ l →
  ∃ res q', inner_update r p token interest opts q = Done (res, q') ∧ queue_own q' l ∧
    ∀ h, inr h ∈ l → rd_current q' h = rd_current q h.
Proof.
  intros Hown Haw Hin. destruct (owned_node q l _ Hown Hin) as (al & rl & n & Hg & Hn & Hc). cbn [the_handle] in *.
  destruct (decide (p = h_queue r)) as [->|Hne].
  - assert (wp (inner_update r (h_queue r) token interest opts)
      (λ _ q', queue_own q' l ∧ ∀ h, inr h ∈ l → rd_current q' h = rd_current q h) q) as (res & q' & E & ?)%wp_done; [|eauto].
    eapply wp_update; [done|done|by right; right|]. intros q' Hg' Hn' _ _ _. split.
    + eapply owned_keep; [done|done|]. intros x. by eapply heap_of_insert.
    + intros h _. eapply current_same; [exact Hn'|]. intros _. by rewrite (nodes_lookup _ _ _ Hn).
  - eexists _, q. split; [|done]. unfold inner_update, registration_data_mut, mbind, M_bind.
    replace (h_queue r =? p) with false by lia. done.
Qed.

#[export] Instance queue_handle_laws : HandleLaws (Queue A) RI RI Z.
Proof.
  split.
  - intros q l l' Hp [(al & rl & Hg) Hh]. assert (handles_of l ≡ₚ handles_of l') as Hp' by (unfold handles_of; by rewrite Hp). split.
    + exists al, rl. eapply queue_good_cnt; [exact Hg|]. intros x _. by rewrite (cnt_of_perm _ _ _ Hp').
    + intros h. rewrite <- Hp'. apply Hh.
  - intros q l h Hown Hin. destruct (owned_node q l _ Hown Hin) as (al & rl & n & [Hi _] & Hn & Hc). cbn in *. rewrite Hn. cbn.
    rewrite (no_drop _ _ _ _ (qi_node _ _ _ Hi _ _ Hn)). apply bool_decide_eq_false. lia.
  - intros q l h Hown Hin. destruct (owned_node q l _ Hown Hin) as (al & rl & n & Hg & Hn & Hc). cbn in *.
    unfold inner_readiness, read_node, mbind, M_bind. by rewrite Hn.
  - apply queue_own_set.
  - apply queue_own_new.
  - intros q l r p token interest opts. apply queue_own_update.
  - intros q l r p. apply queue_own_update.
  - intros q l r. apply own_drop_gen; [done|]. intros al rl n cnt Q Hg Hn Hc c HQ. cbn [reg_drop queue_drop_ops]. unfold Registration_drop. wp_step.
    eapply wp_data_mut; [done|done|]. intros q1 Hg1 Hn1 Hnq1 _ _ _. cbn beta iota.
    eapply wp_drop_node; [done|done|done|]. intros q' i Hg' Hn' Hi. apply (HQ q' i); [done| |done].
    rewrite Hn', Hnq1. by rewrite insert_insert_eq.
  - intros q l h. apply own_drop_gen; [done|]. intros al rl n cnt Q Hg Hn Hc c HQ. exact (wp_drop_node h n q al rl cnt Q Hg Hn Hc HQ).
Qed.
End handles.
