(* ===== verification/Channel.v ===== *)
(** * channel.rs: a channel whose receiver can be polled

    The messages travel through [std::sync::mpsc]; next to it, [SenderCtl] and
    [ReceiverCtl] count the outstanding messages and keep the readiness of the
    receiver's registration in step.  The state of a channel is one record: the
    queue of the standard library, the counters of [Inner], the two lazy cells
    and the readiness queue.  Operations run one at a time here; [ChannelConc.v]
    interleaves them. *)

From S2P Require Import Prelude Event Iface.

(** ** std::sync::mpsc *)

(** [m_bound]: the capacity of a [sync_channel]. *)
Record Mpsc (T : Type) : Type := mkMpsc { m_queue : list T; m_bound : option nat; m_senders : Z; m_receiver : bool }.
Arguments mkMpsc {T} _ _ _ _.
Arguments m_queue {T} _.
Arguments m_bound {T} _.
Arguments m_senders {T} _.
Arguments m_receiver {T} _.

Inductive mpsc_TrySendError (T : Type) : Type := mpsc_Full (t : T) | mpsc_Disconnected (t : T).
Arguments mpsc_Full {T} _.
Arguments mpsc_Disconnected {T} _.
Inductive TryRecvError : Type := TR_Empty | TR_Disconnected.

Definition m_full {T} (m : Mpsc T) : bool :=
  match m_bound m with Some n => (n <=? length (m_queue m))%nat | None => false end.
Definition m_push {T} (t : T) (m : Mpsc T) : Mpsc T := mkMpsc (m_queue m ++ [t]) (m_bound m) (m_senders m) (m_receiver m).

(** [send]: the message comes back when the receiver is gone. *)
Definition mpsc_send {T} (t : T) (m : Mpsc T) : result T unit * Mpsc T :=
  if m_receiver m then (Ok tt, m_push t m) else (Err t, m).

(** [SyncSender::send]: [None] while the buffer is full, the thread blocks. *)
Definition mpsc_sync_send {T} (t : T) (m : Mpsc T) : option (result T unit * Mpsc T) :=
  if m_receiver m then if m_full m then None else Some (Ok tt, m_push t m) else Some (Err t, m).

Definition mpsc_try_send {T} (t : T) (m : Mpsc T) : result (mpsc_TrySendError T) unit * Mpsc T :=
  if m_receiver m
  then if m_full m then (Err (mpsc_Full t), m) else (Ok tt, m_push t m)
  else (Err (mpsc_Disconnected t), m).

Definition mpsc_try_recv {T} (m : Mpsc T) : result TryRecvError T * Mpsc T :=
  match m_queue m with
  | t :: q => (Ok t, mkMpsc q (m_bound m) (m_senders m) (m_receiver m))
  | [] => (Err (if m_senders m =? 0 then TR_Disconnected else TR_Empty), m)
  end.

Definition mpsc_clone {T} (m : Mpsc T) : Mpsc T := mkMpsc (m_queue m) (m_bound m) (m_senders m + 1) (m_receiver m).
Definition mpsc_drop {T} (m : Mpsc T) : Mpsc T := mkMpsc (m_queue m) (m_bound m) (m_senders m - 1) (m_receiver m).

(** ** Errors *)

Inductive SendError (T : Type) : Type := SE_Io (e : io_error) | SE_Disconnected (t : T).
Arguments SE_Io {T} _.
Arguments SE_Disconnected {T} _.
Inductive TrySendError (T : Type) : Type := TSE_Io (e : io_error) | TSE_Full (t : T) | TSE_Disconnected (t : T).
Arguments TSE_Io {T} _.
Arguments TSE_Full {T} _.
Arguments TSE_Disconnected {T} _.

Definition SendError_from_mpsc {T} (src : T) : SendError T := SE_Disconnected src.
Definition SendError_from_io {T} (src : io_error) : SendError T := SE_Io src.
Definition TrySendError_from_mpsc_try {T} (src : mpsc_TrySendError T) : TrySendError T :=
  match src with mpsc_Full v => TSE_Full v | mpsc_Disconnected v => TSE_Disconnected v end.
Definition TrySendError_from_mpsc {T} (src : T) : TrySendError T := TSE_Disconnected src.
Definition TrySendError_from_io {T} (src : io_error) : TrySendError T := TSE_Io src.

(** [io_err.description()] and its [Display] are those of [std::io::Error]. *)
Definition SendError_description {T} (io_description : io_error → string) (e : SendError T) : string :=
  match e with SE_Io io_err => io_description io_err | SE_Disconnected _ => "Disconnected" end.
Definition TrySendError_description {T} (io_description : io_error → string) (e : TrySendError T) : string :=
  match e with
  | TSE_Io io_err => io_description io_err | TSE_Full _ => "Full" | TSE_Disconnected _ => "Disconnected"
  end.
Definition format_send_error {T} (io_display : io_error → string) (e : SendError T) : string :=
  match e with SE_Io io_err => io_display io_err | SE_Disconnected _ => "Disconnected" end.
Definition format_try_send_error {T} (io_display : io_error → string) (e : TrySendError T) : string :=
  match e with
  | TSE_Io io_err => io_display io_err | TSE_Full _ => "Full" | TSE_Disconnected _ => "Disconnected"
  end.

(** [Debug] and [Display] of the errors are the same. *)
Definition SendError_debug {T} (io_display : io_error → string) (e : SendError T) : string := format_send_error io_display e.
Definition SendError_display {T} (io_display : io_error → string) (e : SendError T) : string := format_send_error io_display e.
Definition TrySendError_debug {T} (io_display : io_error → string) (e : TrySendError T) : string := format_try_send_error io_display e.
Definition TrySendError_display {T} (io_display : io_error → string) (e : TrySendError T) : string := format_try_send_error io_display e.

Section channel.
Context {C : Type → Type} {cell_ops : LazyCellOps C}.
Context {T R H P W : Type} {rd_ops : ReadinessOps W H} {reg_ops : RegistrationOps W R H P}.

(** [Inner], the [registration] of [ReceiverCtl], the queue and the world. *)
Record Chan : Type := mkChan {
  mpsc : Mpsc T;
  pending : Z;
  senders : Z;
  set_readiness : C H;
  registration : C R;
  c_world : W }.

Definition set_mpsc m c := mkChan m (pending c) (senders c) (set_readiness c) (registration c) (c_world c).
Definition set_pending x c := mkChan (mpsc c) x (senders c) (set_readiness c) (registration c) (c_world c).
Definition set_senders x c := mkChan (mpsc c) (pending c) x (set_readiness c) (registration c) (c_world c).
Definition set_c_world w c := mkChan (mpsc c) (pending c) (senders c) (set_readiness c) (registration c) w.

(** [channel], [sync_channel] and [ctl_pair]. *)
Definition ctl_pair (m : Mpsc T) (w : W) : Chan := mkChan m 0 1 lazy_new lazy_new w.
Definition channel (w : W) : Chan := ctl_pair (mkMpsc [] None 1 true) w.
Definition sync_channel (bound : nat) (w : W) : Chan := ctl_pair (mkMpsc [] (Some bound) 1 true) w.

(** A call of [set_readiness] through the cell, if it is filled. *)
Definition set_ready (r : Ready.t) : M Chan (io_result unit) := λ c,
  match lazy_borrow (set_readiness c) with
  | Some h => '(res, w) ← rd_set_readiness h r (c_world c); Done (res, set_c_world w c)
  | None => Done (Ok tt, c)
  end.

(** [SenderCtl::inc]. *)
Definition inc : M Chan (io_result unit) :=
  cnt ← gets pending;
  _ ← modify (set_pending (wrap64 (cnt + 1)));
  if 0 =? cnt
  then try! set_ready Ready.readable; mret (Ok tt)
  else mret (Ok tt).

(** [ReceiverCtl::dec]. *)
Definition dec : M Chan (io_result unit) :=
  first ← gets pending;
  try! (if first =? 1 then set_ready Ready.none else mret (Ok tt));
  second ← gets pending;
  _ ← modify (set_pending (wrap64 (second - 1)));
  try! (if (first =? 1) && (1 <? second) then set_ready Ready.readable else mret (Ok tt));
  mret (Ok tt).

Definition Sender_send (t : T) : M Chan (result (SendError T) unit) := λ c,
  match mpsc_send t (mpsc c) with
  | (Err t, m) => Done (Err (SendError_from_mpsc t), set_mpsc m c)
  | (Ok _, m) =>
      '(r, c) ← inc (set_mpsc m c);
      Done (match r with Ok _ => Ok tt | Err e => Err (SendError_from_io e) end, c)
  end.

(** [None]: the thread blocks. *)
Definition SyncSender_send (t : T) (c : Chan) : option (outcome (result (SendError T) unit * Chan)) :=
  match mpsc_sync_send t (mpsc c) with
  | None => None
  | Some (Err t, m) => Some (Done (Err (SendError_from_mpsc t), set_mpsc m c))
  | Some (Ok _, m) => Some (
      '(r, c) ← inc (set_mpsc m c);
      Done (match r with Ok _ => Ok tt | Err e => Err (SendError_from_io e) end, c))
  end.

Definition SyncSender_try_send (t : T) : M Chan (result (TrySendError T) unit) := λ c,
  match mpsc_try_send t (mpsc c) with
  | (Err e, m) => Done (Err (TrySendError_from_mpsc_try e), set_mpsc m c)
  | (Ok _, m) =>
      '(r, c) ← inc (set_mpsc m c);
      Done (match r with Ok _ => Ok tt | Err e => Err (TrySendError_from_io e) end, c)
  end.

(** [SenderCtl::clone] and its [drop]. *)
Definition SenderCtl_clone : M Chan unit := modify (λ c, set_senders (wrap64 (senders c + 1)) c).
Definition SenderCtl_drop : M Chan unit :=
  n ← gets senders;
  _ ← modify (set_senders (wrap64 (n - 1)));
  if n =? 1 then _ ← inc; mret tt else mret tt.

(** A sender has both halves: [tx] is dropped before [ctl]. *)
Definition Sender_clone : M Chan unit :=
  _ ← modify (λ c, set_mpsc (mpsc_clone (mpsc c)) c);
  SenderCtl_clone.
Definition Sender_drop : M Chan unit :=
  _ ← modify (λ c, set_mpsc (mpsc_drop (mpsc c)) c);
  SenderCtl_drop.

(** [SyncSender] has the same two halves. *)
Definition SyncSender_clone : M Chan unit :=
  _ ← modify (λ c, set_mpsc (mpsc_clone (mpsc c)) c);
  SenderCtl_clone.

Definition Receiver_try_recv : M Chan (result TryRecvError T) := λ c,
  match mpsc_try_recv (mpsc c) with
  | (Err e, m) => Done (Err e, set_mpsc m c)
  | (Ok res, m) => '(_, c) ← dec (set_mpsc m c); Done (Ok res, c)
  end.

(** ** Evented for ReceiverCtl *)

Definition register (p : P) (token : Token) (interest : Ready.t) (opts : PollOpt.t) : M Chan (io_result unit) := λ c,
  match lazy_borrow (registration c) with
  | Some _ => Done (Err (io_custom Other "receiver already registered"), c)
  | None =>
      '((r, h), w) ← reg_new p token interest opts (c_world c);
      '(_, w) ← (if 0 <? pending c then rd_set_readiness h Ready.readable w else Done (Ok tt, w));
      match lazy_fill r (registration c) with
      | (Err _, _) => Panic
      | (Ok _, cr) =>
          match lazy_fill h (set_readiness c) with
          | (Err _, _) => Panic
          | (Ok _, ch) => Done (Ok tt, mkChan (mpsc c) (pending c) (senders c) ch cr w)
          end
      end
  end.

Definition reregister (p : P) (token : Token) (interest : Ready.t) (opts : PollOpt.t) : M Chan (io_result unit) := λ c,
  match lazy_borrow (registration c) with
  | Some r => '(res, w) ← reg_update r p token interest opts (c_world c); Done (res, set_c_world w c)
  | None => Done (Err (io_custom Other "receiver not registered"), c)
  end.

Definition deregister (p : P) : M Chan (io_result unit) := λ c,
  match lazy_borrow (registration c) with
  | Some r => '(res, w) ← reg_deregister r p (c_world c); Done (res, set_c_world w c)
  | None => Done (Err (io_custom Other "receiver not registered"), c)
  end.

(** ** Evented for Receiver *)

Definition Receiver_register (p : P) (token : Token) (interest : Ready.t) (opts : PollOpt.t) : M Chan (io_result unit) :=
  register p token interest opts.
Definition Receiver_reregister (p : P) (token : Token) (interest : Ready.t) (opts : PollOpt.t) : M Chan (io_result unit) :=
  reregister p token interest opts.
Definition Receiver_deregister (p : P) : M Chan (io_result unit) := deregister p.
End channel.
Arguments Chan C T R H W : clear implicits.
