(* ===== verification/ChannelThm.v ===== *)
(** * Theorems about the channel, one operation at a time

    The receiver is readable exactly when something is waiting for it: a message
    or the news that the last sender is gone.  Messages arrive in the order they
    were sent, each once. *)

From S2P Require Import Prelude Event Iface ReadyQueue QueueInv Poll PollThm Channel.

(** ** Programs over a channel *)

Inductive COp (T : Type) : Type :=
  | CSend (t : T)
  | CTrySend (t : T)
  | CClone
  | CDropSender
  | CRecv
  | CRegister (token : Token) (interest : Ready.t) (opts : PollOpt.t).
Arguments CSend {T} _.
Arguments CTrySend {T} _.
Arguments CClone {T}.
Arguments CDropSender {T}.
Arguments CRecv {T}.
Arguments CRegister {T} _ _ _.

Section thms.
Context {C : Type → Type} {cell_ops : LazyCellOps C} {cell_laws : LazyCellLaws C}.
Context {T R H P W : Type} {rd_ops : ReadinessOps W H} {reg_ops : RegistrationOps W R H P}.
Context {rd_spec : ReadinessSpec W H} {rd_laws : ReadinessLaws W H} {reg_laws : RegistrationLaws W R H P}.
Implicit Types c : Chan C T R H W.

(** The channel, and what was accepted for sending and what was received. *)
Record Run : Type := mkRun { r_chan : Chan C T R H W; r_sent : list T; r_recv : list T }.

(** Did the message enter the queue?  A failure to wake the poller is reported
    as an error after the message has been queued. *)
Definition sent_by_send (r : result (SendError T) unit) (t : T) (sent : list T) : list T :=
  match r with Err (SE_Disconnected _) => sent | _ => sent ++ [t] end.
Definition sent_by_try_send (r : result (TrySendError T) unit) (t : T) (sent : list T) : list T :=
  match r with Err (TSE_Disconnected _) | Err (TSE_Full _) => sent | _ => sent ++ [t] end.

(** Operations of a sender need one; those of the receiver need it alive. *)
Definition run_cop (p : P) (op : COp T) (x : Run) : outcome Run :=
  let c := r_chan x in
  match op with
  | CSend t => if senders c =? 0 then Done x else
      '(r, c) ← Sender_send t c; Done (mkRun c (sent_by_send r t (r_sent x)) (r_recv x))
  | CTrySend t => if senders c =? 0 then Done x else
      '(r, c) ← SyncSender_try_send t c; Done (mkRun c (sent_by_try_send r t (r_sent x)) (r_recv x))
  | CClone => if senders c =? 0 then Done x else
      '(_, c) ← Sender_clone c; Done (mkRun c (r_sent x) (r_recv x))
  | CDropSender => if senders c =? 0 then Done x else
      '(_, c) ← Sender_drop c; Done (mkRun c (r_sent x) (r_recv x))
  | CRecv => if negb (m_receiver (mpsc c)) then Done x else
      '(r, c) ← Receiver_try_recv c;
      Done (mkRun c (r_sent x) (match r with Ok t => r_recv x ++ [t] | Err _ => r_recv x end))
  | CRegister token interest opts => if negb (m_receiver (mpsc c)) then Done x else
      '(_, c) ← register p token interest opts c; Done (mkRun c (r_sent x) (r_recv x))
  end.

Fixpoint run_cops (p : P) (ops : list (COp T)) (x : Run) : outcome Run :=
  match ops with [] => Done x | op :: ops => x ← run_cop p op x; run_cops p ops x end.

(** ** The invariant *)

(** How much is waiting for the receiver: messages, and the disconnect. *)
Definition waiting c : Z := Z.of_nat (length (m_queue (mpsc c))) + (if senders c =? 0 then 1 else 0).

Record chan_inv c : Prop := {
  ci_pending : pending c = waiting c;
  ci_senders : m_senders (mpsc c) = senders c ∧ 0 <= senders c;
  ci_cells : lazy_borrow (registration c) = None ↔ lazy_borrow (set_readiness c) = None;
  ci_world : lazy_borrow (set_readiness c) = None → rd_ok (c_world c);
  ci_ready h : lazy_borrow (set_readiness c) = Some h → rd_live (c_world c) h ∧
    rd_current (c_world c) h = (if 0 <? pending c then Ready.readable else Ready.none) }.

Lemma waiting_nonneg c : 0 <= waiting c.
Proof. unfold waiting. case_match; lia. Qed.

(** Storing a readiness that fits the counter. *)
Lemma wp_set_ready r c (Q : io_result unit → Chan C T R H W → Prop) :
  is_drop r = false →
  (∀ h, lazy_borrow (set_readiness c) = Some h → rd_live (c_world c) h) →
  (∀ res w, (lazy_borrow (set_readiness c) = None → w = c_world c) →
    (∀ h, lazy_borrow (set_readiness c) = Some h → rd_live w h ∧ rd_current w h = r) →
    (is_empty r = true → res = Ok tt) → Q res (set_c_world w c)) →
  wp (set_ready r) Q c.
Proof.
  intros Hr Hl HQ. unfold wp, set_ready. destruct (lazy_borrow (set_readiness c)) as [h|] eqn:Hb.
  - destruct (rd_set_ok (c_world c) h r (Hl h eq_refl) Hr) as (res & w & -> & Hc & Hlive & Hok). cbn.
    apply HQ; [done| |done]. intros h' [= <-]. auto.
  - assert (c = set_c_world (c_world c) c) as -> by (by destruct c). apply HQ; [done|by intros|done].
Qed.

(** The readiness after the counter has gone from [n] to [n']. *)
Definition ready_of (n : Z) : Ready.t := if 0 <? n then Ready.readable else Ready.none.

Definition ready_ok c (n : Z) : Prop :=
  (lazy_borrow (set_readiness c) = None → rd_ok (c_world c)) ∧
  ∀ h, lazy_borrow (set_readiness c) = Some h → rd_live (c_world c) h ∧ rd_current (c_world c) h = ready_of n.

Lemma wp_inc c (Q : io_result unit → Chan C T R H W → Prop) :
  ready_ok c (pending c) → 0 <= pending c < U64_MAX →
  (∀ res w, ready_ok (set_c_world w c) (pending c + 1) → Q res (set_c_world w (set_pending (pending c + 1) c))) →
  wp inc Q c.
Proof.
  intros [Hw Hr] Hp HQ. unfold inc. wp_steps. rewrite wrap64_id by (unfold is_u64; lia).
  set (c1 := set_pending _ c). destruct (0 =? pending c) eqn:E; zbool.
  - wp_step. apply wp_set_ready; [done|intros h Hh; by apply Hr|]. intros res w Hn Hs _.
    assert (ready_ok (set_c_world w c) (pending c + 1)) as Hok.
    { split; cbn; [intros Hb; rewrite (Hn Hb); auto|]. intros h Hh. unfold ready_of.
      replace (0 <? pending c + 1) with true by lia. by apply Hs. }
    destruct res; wp_step; by apply HQ.
  - wp_step. assert (c1 = set_c_world (c_world c) c1) as -> by done. apply HQ. split; [done|].
    intros h Hh. destruct (Hr h Hh) as [? Hc]. split; [done|]. cbn. rewrite Hc. unfold ready_of.
    by replace (0 <? pending c) with true by lia; replace (0 <? pending c + 1) with true by lia.
Qed.

Lemma wp_dec c (Q : io_result unit → Chan C T R H W → Prop) :
  ready_ok c (pending c) → 0 < pending c <= U64_MAX →
  (∀ res w, ready_ok (set_c_world w c) (pending c - 1) → Q res (set_c_world w (set_pending (pending c - 1) c))) →
  wp dec Q c.
Proof.
  intros [Hw Hr] Hp HQ. unfold dec. wp_steps. destruct (pending c =? 1) eqn:E; zbool.
  - apply wp_set_ready; [done|intros h Hh; by apply Hr|]. intros res w Hn Hs Hok. rewrite (Hok eq_refl).
    cbn beta iota. wp_steps. rewrite wrap64_id by (unfold is_u64; cbn; lia). cbn [pending set_c_world].
    replace (1 <? pending c) with false by lia. cbn [andb]. wp_steps.
    apply (HQ (Ok tt) w). split; [intros Hb; rewrite (Hn Hb); auto|]. intros h Hh. unfold ready_of.
    replace (0 <? pending c - 1) with false by lia. by apply Hs.
  - wp_steps. rewrite wrap64_id by (unfold is_u64; lia).
    assert (set_pending (pending c - 1) c = set_c_world (c_world c) (set_pending (pending c - 1) c)) as -> by done.
    apply HQ. split; [done|]. intros h Hh. destruct (Hr h Hh) as [? Hc]. split; [done|]. cbn. rewrite Hc. unfold ready_of.
    by replace (0 <? pending c) with true by lia; replace (0 <? pending c - 1) with true by lia.
Qed.

(** ** Each operation *)

Lemma chan_ready c : chan_inv c → ready_ok c (pending c).
Proof. intros [_ _ _ Hw Hr]. by split. Qed.

(** Rebuilding the invariant around a changed queue and counter. *)
Lemma chan_inv_step c m n k w :
  chan_inv c → ready_ok (set_c_world w c) n → m_senders m = k → 0 <= k →
  n = Z.of_nat (length (m_queue m)) + (if k =? 0 then 1 else 0) →
  chan_inv (mkChan m n k (set_readiness c) (registration c) w).
Proof. intros [_ _ Hc _ _] [Hw Hr] Hm Hk Hn. by split. Qed.

(** Sending appends to the queue and counts the message. *)
Lemma wp_send_inc t c (Q : io_result unit → Chan C T R H W → Prop) :
  chan_inv c → 0 < senders c → waiting c < U64_MAX →
  (∀ res c', chan_inv c' → m_queue (mpsc c') = m_queue (mpsc c) ++ [t] → senders c' = senders c →
    m_receiver (mpsc c') = m_receiver (mpsc c) → Q res c') →
  wp inc Q (set_mpsc (m_push t (mpsc c)) c).
Proof.
  intros Hi Hs Hw HQ. pose proof (chan_ready _ Hi) as Hr. pose proof (waiting_nonneg c).
  pose proof (ci_pending _ Hi) as Hp. apply wp_inc; [done|cbn; lia|]. intros res w Hr'. apply HQ; [|done..].
  apply (chan_inv_step c); [done|done|apply Hi|apply Hi|]. cbn. rewrite Hp. unfold waiting.
  rewrite length_app. cbn. lia.
Qed.

Definition bounded (x : Run) (k : Z) : Prop := waiting (r_chan x) + senders (r_chan x) <= k.

Record run_ok (x : Run) : Prop := {
  ro_inv : chan_inv (r_chan x);
  ro_fifo : r_recv x ++ m_queue (mpsc (r_chan x)) = r_sent x }.

Definition cop_step (p : P) (op : COp T) (x : Run) : Prop :=
  ∃ x', run_cop p op x = Done x' ∧ run_ok x' ∧ ∀ k, bounded x k → bounded x' (k + 1).

Lemma cop_noop (p : P) op x : run_cop p op x = Done x → run_ok x → cop_step p op x.
Proof. intros E Hx. exists x. split; [done|]. split; [done|]. unfold bounded. intros. lia. Qed.

(** A step that leaves the channel alone. *)
Lemma run_ok_same x c sent recv :
  run_ok x → c = r_chan x → sent = r_sent x → recv = r_recv x →
  run_ok (mkRun c sent recv) ∧ ∀ k, bounded x k → bounded (mkRun c sent recv) (k + 1).
Proof. intros [Hi Hf] -> -> ->. split; [by split|]. unfold bounded. cbn. lia. Qed.

Lemma set_mpsc_id c : set_mpsc (mpsc c) c = c.
Proof. by destruct c. Qed.

(** After a message has been queued and counted. *)
Lemma run_ok_pushed x c' t :
  run_ok x → chan_inv c' → m_queue (mpsc c') = m_queue (mpsc (r_chan x)) ++ [t] → senders c' = senders (r_chan x) →
  run_ok (mkRun c' (r_sent x ++ [t]) (r_recv x)) ∧
  ∀ k, bounded x k → bounded (mkRun c' (r_sent x ++ [t]) (r_recv x)) (k + 1).
Proof.
  intros [Hi Hf] Hi' Hq Hs. split.
  - split; cbn; [done|]. by rewrite Hq, app_assoc, Hf.
  - unfold bounded, waiting. cbn. rewrite Hq, Hs, length_app. cbn. lia.
Qed.

Lemma wp_push_ok t c :
  chan_inv c → 0 < senders c → waiting c < U64_MAX →
  ∃ res c', inc (set_mpsc (m_push t (mpsc c)) c) = Done (res, c') ∧ chan_inv c' ∧
    m_queue (mpsc c') = m_queue (mpsc c) ++ [t] ∧ senders c' = senders c.
Proof.
  intros Hi Hs Hw. apply (wp_done inc (λ res c', chan_inv c' ∧ m_queue (mpsc c') = m_queue (mpsc c) ++ [t] ∧
    senders c' = senders c)), wp_send_inc; auto.
Qed.

Lemma step_send p t x : run_ok x → waiting (r_chan x) < U64_MAX → cop_step p (CSend t) x.
Proof.
  intros Hx Hw. pose proof Hx as [Hi Hf]. pose proof (proj2 (ci_senders _ Hi)) as Hs0.
  destruct (senders (r_chan x) =? 0) eqn:E0; [apply cop_noop; [cbn; by rewrite E0|done]|].
  unfold cop_step. cbn [run_cop]. rewrite E0. zbool. unfold Sender_send, mpsc_send.
  destruct (m_receiver (mpsc (r_chan x))).
  - destruct (wp_push_ok t (r_chan x) Hi ltac:(lia) Hw) as (res & c' & -> & Hi' & Hq & Hs). cbn.
    eexists. split; [done|]. destruct res; by apply run_ok_pushed.
  - cbn. eexists. split; [done|]. apply run_ok_same; [done|apply set_mpsc_id|done|done].
Qed.

Lemma step_try_send p t x : run_ok x → waiting (r_chan x) < U64_MAX → cop_step p (CTrySend t) x.
Proof.
  intros Hx Hw. pose proof Hx as [Hi Hf]. pose proof (proj2 (ci_senders _ Hi)) as Hs0.
  destruct (senders (r_chan x) =? 0) eqn:E0; [apply cop_noop; [cbn; by rewrite E0|done]|].
  unfold cop_step. cbn [run_cop]. rewrite E0. zbool. unfold SyncSender_try_send, mpsc_try_send.
  destruct (m_receiver (mpsc (r_chan x))), (m_full (mpsc (r_chan x))).
  2:{ destruct (wp_push_ok t (r_chan x) Hi ltac:(lia) Hw) as (res & c' & -> & Hi' & Hq & Hs). cbn.
      eexists. split; [done|]. destruct res; by apply run_ok_pushed. }
  all: cbn; eexists; (split; [done|]); apply run_ok_same; [done|apply set_mpsc_id|done|done].
Qed.

Lemma step_clone p x : run_ok x → senders (r_chan x) < U64_MAX → cop_step p CClone x.
Proof.
  intros Hx Hw. pose proof Hx as [Hi Hf]. pose proof (ci_senders _ Hi) as [Hms Hs0].
  destruct (senders (r_chan x) =? 0) eqn:E0; [apply cop_noop; [cbn; by rewrite E0|done]|].
  unfold cop_step. cbn [run_cop]. rewrite E0. zbool.
  unfold Sender_clone, SenderCtl_clone, modify, mbind, M_bind, outcome_bind. cbn [senders set_mpsc].
  rewrite wrap64_id by (unfold is_u64; lia). eexists. split; [done|]. split.
  - split; [|done]. cbn. apply (chan_inv_step (r_chan x) _ (pending (r_chan x)) (senders (r_chan x) + 1) (c_world (r_chan x)));
      [done| |cbn; lia|lia|].
    + assert (set_c_world (c_world (r_chan x)) (r_chan x) = r_chan x) as -> by (by destruct (r_chan x)). by apply chan_ready.
    + rewrite (ci_pending _ Hi). unfold waiting. cbn.
      replace (senders (r_chan x) =? 0) with false by lia. by replace (senders (r_chan x) + 1 =? 0) with false by lia.
  - unfold bounded, waiting. cbn. replace (senders (r_chan x) =? 0) with false by lia.
    replace (senders (r_chan x) + 1 =? 0) with false by lia. lia.
Qed.

Lemma step_drop_sender p x : run_ok x → waiting (r_chan x) < U64_MAX → senders (r_chan x) < U64_MAX → cop_step p CDropSender x.
Proof.
  intros Hx Hw Hsm. pose proof Hx as [Hi Hf]. pose proof (ci_senders _ Hi) as [Hms Hs0]. pose proof (ci_pending _ Hi) as Hp.
  destruct (senders (r_chan x) =? 0) eqn:E0; [apply cop_noop; [cbn; by rewrite E0|done]|].
  unfold cop_step. cbn [run_cop]. rewrite E0. zbool. set (c := r_chan x) in *.
  assert (wp Sender_drop (λ _ c', chan_inv c' ∧ m_queue (mpsc c') = m_queue (mpsc c) ∧ senders c' = senders c - 1) c) as Hwp.
  { unfold Sender_drop, SenderCtl_drop. wp_steps. cbn [senders set_mpsc]. rewrite wrap64_id by (unfold is_u64; lia).
    assert ((senders c =? 0) = false) as Ez by lia. unfold waiting in Hp, Hw. rewrite Ez in Hp, Hw.
    destruct (senders c =? 1) eqn:E1; zbool; wp_steps.
    - apply wp_inc; [exact (chan_ready c Hi)|cbn; lia|].
      intros res w Hr. wp_step. split; [|done].
      apply (chan_inv_step c (mpsc_drop (mpsc c)) (pending c + 1) (senders c - 1) w); [done|exact Hr|cbn; lia|lia|].
      cbn. replace (senders c - 1 =? 0) with true by lia. lia.
    - split; [|done].
      apply (chan_inv_step c _ (pending c) (senders c - 1) (c_world c)); [done| |cbn; lia|lia|].
      + assert (set_c_world (c_world c) c = c) as -> by (by destruct c). by apply chan_ready.
      + cbn. replace (senders c - 1 =? 0) with false by lia. lia. }
  apply wp_done in Hwp as (u & c' & -> & Hi' & Hq & Hs). cbn. eexists. split; [done|]. split; [split; cbn; [done|]|].
  - by rewrite Hq.
  - unfold bounded, waiting. cbn. rewrite Hq, Hs. fold c. repeat case_match; zbool; lia.
Qed.

(** Receiving takes the oldest message, if there is one. *)
Lemma try_recv_ok c : chan_inv c → waiting c <= U64_MAX →
  match m_queue (mpsc c) with
  | [] => ∃ e, Receiver_try_recv c = Done (Err e, c)
  | t :: q => ∃ c', Receiver_try_recv c = Done (Ok t, c') ∧ chan_inv c' ∧ m_queue (mpsc c') = q ∧ senders c' = senders c ∧
      registration c' = registration c ∧ set_readiness c' = set_readiness c
  end.
Proof.
  intros Hi Hw. pose proof (ci_senders _ Hi) as [Hms Hs0]. pose proof (ci_pending _ Hi) as Hp.
  unfold Receiver_try_recv, mpsc_try_recv. destruct (m_queue (mpsc c)) as [|t q] eqn:Eq; [rewrite set_mpsc_id; eauto|].
  set (m := mkMpsc q _ _ _).
  assert (wp dec (λ _ c', chan_inv c' ∧ m_queue (mpsc c') = q ∧ senders c' = senders c ∧
    registration c' = registration c ∧ set_readiness c' = set_readiness c) (set_mpsc m c)) as Hwp.
  { unfold waiting in Hp, Hw. rewrite Eq in Hp, Hw. cbn [length] in Hp, Hw.
    apply wp_dec; [exact (chan_ready c Hi)|cbn; destruct (senders c =? 0); lia|]. intros res w Hr. split; [|done].
    apply (chan_inv_step c m (pending c - 1) (senders c) w); [done|exact Hr|done|done|]. cbn. lia. }
  apply wp_done in Hwp as (u & c' & -> & Hc'). exists c'. done.
Qed.

Lemma step_recv p x : run_ok x → waiting (r_chan x) <= U64_MAX → cop_step p CRecv x.
Proof.
  intros Hx Hw. pose proof Hx as [Hi Hf]. pose proof (try_recv_ok _ Hi Hw) as Hr.
  destruct (m_receiver (mpsc (r_chan x))) eqn:Er; [|apply cop_noop; [cbn; by rewrite Er|done]].
  unfold cop_step. cbn [run_cop]. rewrite Er. cbn [negb]. destruct (m_queue (mpsc (r_chan x))) as [|t q] eqn:Eq.
  - destruct Hr as (e & ->). cbn. eexists. split; [done|]. by apply run_ok_same.
  - destruct Hr as (c' & -> & Hi' & Hq & Hs & _). cbn. eexists. split; [done|]. split; [split; cbn; [done|]|].
    + by rewrite Hq, <- app_assoc.
    + unfold bounded, waiting. cbn. rewrite Hq, Hs, Eq. cbn. lia.
Qed.

Lemma step_register p token interest opts x : run_ok x → cop_step p (CRegister token interest opts) x.
Proof.
  intros Hx. pose proof Hx as [Hi Hf].
  destruct (m_receiver (mpsc (r_chan x))) eqn:Er; [|apply cop_noop; [cbn; by rewrite Er|done]].
  unfold cop_step. cbn [run_cop]. rewrite Er. cbn [negb]. set (c := r_chan x) in *. unfold register.
  destruct (lazy_borrow (registration c)) as [r0|] eqn:Eb.
  { cbn. eexists. split; [done|]. by apply run_ok_same. }
  assert (lazy_borrow (set_readiness c) = None) as Es by (by apply Hi).
  destruct (reg_new_ok (c_world c) p token interest opts (ci_world _ Hi Es)) as (r & h & w & -> & Hl & Hc).
  cbn.
  assert (∃ w2 v, (if 0 <? pending c then rd_set_readiness h Ready.readable w else Done (Ok tt, w)) = Done (v, w2) ∧
    rd_live w2 h ∧ rd_current w2 h = ready_of (pending c)) as (w2 & v & -> & Hl2 & Hc2).
  { unfold ready_of. destruct (0 <? pending c); [|by eauto].
    destruct (rd_set_ok w h Ready.readable Hl eq_refl) as (res & w2 & -> & ? & Hlive & _). exists w2, res. auto. }
  destruct (lazy_fill_empty _ r Eb) as (cr & -> & Hcr), (lazy_fill_empty _ h Es) as (ch & -> & Hch). cbn.
  eexists. split; [done|]. split; [|intros k Hk; change (waiting c + senders c <= k) in Hk; change (waiting c + senders c <= k + 1); lia].
  split; [|done]. destruct Hi as [Hp Hs _ _ _]. split; cbn; [done|done| | |]; rewrite ?Hcr, ?Hch; [done|done|].
  by intros h' [= <-].
Qed.

(** ** Sequences of operations *)

Lemma cop_ok p op x k : run_ok x → bounded x k → k < U64_MAX → cop_step p op x.
Proof.
  intros Hx Hb Hk. unfold bounded in Hb. pose proof (waiting_nonneg (r_chan x)).
  pose proof (proj2 (ci_senders _ (ro_inv _ Hx))).
  destruct op; [apply step_send|apply step_try_send|apply step_clone|apply step_drop_sender|apply step_recv|apply step_register]; auto; lia.
Qed.

Lemma run_cops_ok p ops : ∀ x k,
  run_ok x → bounded x k → k + Z.of_nat (length ops) <= U64_MAX →
  ∃ x', run_cops p ops x = Done x' ∧ run_ok x'.
Proof.
  induction ops as [|op ops IH]; intros x k Hx Hb Hk; cbn [run_cops length] in *; [by eauto|].
  destruct (cop_ok p op x k Hx Hb ltac:(lia)) as (x1 & -> & Hx1 & Hb1). cbn.
  apply (IH x1 (k + 1)); [done|by apply Hb1|lia].
Qed.

Lemma ctl_pair_ok (m : Mpsc T) (w : W) :
  m_queue m = [] → m_senders m = 1 → rd_ok w → run_ok (mkRun (ctl_pair m w) [] []) ∧ bounded (mkRun (ctl_pair m w) [] []) 1.
Proof.
  intros Hq Hs Hw. split; [split|]; cbn.
  - split; cbn; rewrite ?lazy_borrow_new; [unfold waiting; cbn; by rewrite Hq|lia|done|done|done].
  - by rewrite Hq.
  - unfold bounded, waiting. cbn. by rewrite Hq.
Qed.

(** C17: any sequence of sends, attempts to send, clones and drops of senders, receives
    and registrations on a new channel (but not reregistering, deregistering or
    dropping the receiver) runs without a panic.  What was received,
    followed by what is still queued, is exactly what was accepted for sending,
    in order.  A registered receiver is readable when a message is queued or the
    last sender is gone, and not ready otherwise. *)
Theorem channel_fifo_ready (p : P) (bound : option nat) (w : W) (ops : list (COp T)) :
  rd_ok w → Z.of_nat (length ops) < U64_MAX →
  ∃ c sent recv,
    run_cops p ops (mkRun (match bound with None => channel w | Some n => sync_channel n w end) [] []) = Done (mkRun c sent recv) ∧
    recv ++ m_queue (mpsc c) = sent ∧
    ∀ h, lazy_borrow (set_readiness c) = Some h →
      rd_live (c_world c) h ∧
      (m_queue (mpsc c) ≠ [] ∨ senders c = 0 → rd_current (c_world c) h = Ready.readable) ∧
      (m_queue (mpsc c) = [] ∧ senders c ≠ 0 → rd_current (c_world c) h = Ready.none).
Proof.
  intros Hw Hlen. set (x0 := mkRun _ [] []).
  assert (run_ok x0 ∧ bounded x0 1) as [Hx Hb] by (destruct bound; by apply ctl_pair_ok).
  destruct (run_cops_ok p ops x0 1 Hx Hb ltac:(lia)) as ([c sent recv] & E & [Hi Hf]). cbn in Hi, Hf.
  exists c, sent, recv. split; [done|]. split; [done|]. intros h Hh.
  destruct (ci_ready _ Hi h Hh) as [Hl Hr]. split; [done|]. rewrite Hr, (ci_pending _ Hi). unfold waiting. cbn.
  split; [intros Hq|intros [-> Hs]].
  - replace (0 <? _) with true; [done|]. symmetry. apply Z.ltb_lt. pose proof (waiting_nonneg c). unfold waiting in *.
    destruct Hq as [Hq| ->]; [|cbn; lia]. destruct (m_queue (mpsc c)); [done|]. cbn. case_match; lia.
  - replace (senders c =? 0) with false by lia. done.
Qed.

(** once the receiver is gone, both kinds of sender hand the message back
    and leave the channel as it was; a full bounded channel does the same. *)
Theorem send_gives_back (t : T) (c : Chan C T R H W) :
  (m_receiver (mpsc c) = false →
    Sender_send t c = Done (Err (SE_Disconnected t), c) ∧
    SyncSender_send t c = Some (Done (Err (SE_Disconnected t), c)) ∧
    SyncSender_try_send t c = Done (Err (TSE_Disconnected t), c)) ∧
  (m_receiver (mpsc c) = true → m_full (mpsc c) = true →
    SyncSender_send t c = None ∧ SyncSender_try_send t c = Done (Err (TSE_Full t), c)).
Proof.
  unfold Sender_send, SyncSender_send, SyncSender_try_send, mpsc_send, mpsc_sync_send, mpsc_try_send.
  split; [intros ->|intros -> ->]; cbn; by rewrite set_mpsc_id.
Qed.
End thms.

(** ** A channel on the readiness queue of poll.rs *)

Lemma q0_wf : queue_wf q0.
Proof.
  destruct (po_queue _ (demo_ops_ok [] eq_refl ltac:(cbn; lia))) as (al & rl & Hg). by exists al, rl, (cnt_of []).
Qed.

Abbreviation queue_chan T := (Chan option T RegistrationInner RegistrationInner (Queue counter)).

Definition chan_ops : list (COp Z) :=
  [CSend 1; CRegister (mkToken 3) Ready.readable PollOpt.edge; CSend 2; CRecv; CClone; CRecv; CRecv; CSend 3; CDropSender; CDropSender].

Lemma channel_fifo_ready_witness :
  ∃ (c : queue_chan Z) sent recv,
    run_cops 7 chan_ops (mkRun (channel q0) [] []) = Done (mkRun c sent recv) ∧ recv ++ m_queue (mpsc c) = sent.
Proof.
  destruct (channel_fifo_ready (C:=option) (R:=RegistrationInner) (H:=RegistrationInner) 7 None q0 chan_ops) as (c & sent & recv & H1 & H2 & _);
    [exact q0_wf|vm_compute; reflexivity|].
  exists c, sent, recv. exact (conj H1 H2).
Defined.

Lemma send_gives_back_witness :
  Sender_send 4 (ctl_pair (C:=option) (R:=unit) (mkMpsc [] None 1 false) Ready.none)
  = Done (Err (SE_Disconnected 4), ctl_pair (C:=option) (R:=unit) (mkMpsc [] None 1 false) Ready.none).
Proof.
  apply (proj1 (send_gives_back 4 (ctl_pair (C:=option) (R:=unit) (mkMpsc [] None 1 false) Ready.none))). reflexivity.
Defined.

(** The numbers of [chan_ops]: the first two messages were received, the third
    and the disconnect are pending. *)
Example chan_ops_result :
  match run_cops 7 chan_ops (mkRun (channel q0 : queue_chan Z) [] []) with
  | Done x => r_recv x = [1; 2] ∧ m_queue (mpsc (r_chan x)) = [3] ∧ pending (r_chan x) = 2
  | _ => False
  end.
Proof. vm_compute. auto. Qed.
