(* ===== verification/ChannelConc.v ===== *)
(** * The channel's readiness protocol under concurrency

    [Channel.v] runs [inc] and [dec] as one step each.  Here every atomic access
    to the shared state (the message queue, the counters, the lazy cell, the
    readiness of the node) is a step of its own, any number of senders run, and
    the receiver runs next to them.  [Receiver] is not [Sync], so its operations
    do not overlap each other.  Storing a readiness cannot fail part way: only
    the wakeup that follows a store may, and it follows no store of [none]. *)

From stdpp Require Import relations.
From S2P Require Import Prelude Event Iface Channel.

(** ** Steps *)

(** [drop]: the [inc] belongs to the drop of the last sender. *)
Inductive SPc : Type :=
  | SIdle                              (** outside of any operation *)
  | SPushed (drop : bool)              (** queued ([drop]: [senders] is 0); [inc] begins *)
  | SInc (drop : bool) (cnt : Z)       (** [fetch_add] returned [cnt] *)
  | SSet (drop : bool)                 (** the cell was filled: about to set readable *)
  | SGone.

Inductive RPc : Type :=
  | RIdle
  | RDec                               (** a message was taken; [dec] begins *)
  | RLoaded (first : Z)
  | RUnset                             (** about to unset the readiness *)
  | RSub (first : Z)                   (** about to decrement *)
  | RReset                             (** about to set readable again *)
  | GNew                               (** [register]: the node exists, not ready *)
  | GLoaded (cnt : Z)
  | GFill.                             (** about to fill the cells *)

Record Conc : Type := mkConc {
  k_len : Z;
  k_pending : Z;
  k_senders : Z;
  k_filled : bool;
  k_ready : bool;
  k_snd : list SPc;
  k_rcv : RPc }.

Definition upd_snd (i : nat) (pc : SPc) (s : Conc) : Conc :=
  mkConc (k_len s) (k_pending s) (k_senders s) (k_filled s) (k_ready s) (<[i := pc]> (k_snd s)) (k_rcv s).
Definition upd_rcv (pc : RPc) (s : Conc) : Conc :=
  mkConc (k_len s) (k_pending s) (k_senders s) (k_filled s) (k_ready s) (k_snd s) pc.
Definition upd_len (x : Z) (s : Conc) : Conc :=
  mkConc x (k_pending s) (k_senders s) (k_filled s) (k_ready s) (k_snd s) (k_rcv s).
Definition upd_pending (x : Z) (s : Conc) : Conc :=
  mkConc (k_len s) (wrap64 x) (k_senders s) (k_filled s) (k_ready s) (k_snd s) (k_rcv s).
Definition upd_ready (b : bool) (s : Conc) : Conc :=
  mkConc (k_len s) (k_pending s) (k_senders s) (k_filled s) b (k_snd s) (k_rcv s).

(** What a step of a sender is told to do when it is idle. *)
Inductive SCmd : Type := CmdSend | CmdClone | CmdDrop.
Inductive RCmd : Type := CmdRecv | CmdRegister.
Inductive Act : Type := ASender (i : nat) (cmd : SCmd) | AReceiver (cmd : RCmd).

Definition after_inc (drop : bool) : SPc := if drop then SGone else SIdle.

Definition sender_step (i : nat) (cmd : SCmd) (s : Conc) : option Conc :=
  match k_snd s !! i with
  | Some SIdle =>
      match cmd with
      | CmdSend => Some (upd_len (k_len s + 1) (upd_snd i (SPushed false) s))
      | CmdClone => Some (mkConc (k_len s) (k_pending s) (k_senders s + 1) (k_filled s) (k_ready s) (k_snd s ++ [SIdle]) (k_rcv s))
      | CmdDrop => Some (mkConc (k_len s) (k_pending s) (k_senders s - 1) (k_filled s) (k_ready s)
          (<[i := if k_senders s =? 1 then SPushed true else SGone]> (k_snd s)) (k_rcv s))
      end
  | Some (SPushed d) => Some (upd_pending (k_pending s + 1) (upd_snd i (SInc d (k_pending s)) s))
  | Some (SInc d cnt) => Some (upd_snd i (if (0 =? cnt) && k_filled s then SSet d else after_inc d) s)
  | Some (SSet d) => Some (upd_ready true (upd_snd i (after_inc d) s))
  | Some SGone | None => None
  end.

Definition receiver_step (cmd : RCmd) (s : Conc) : option Conc :=
  match k_rcv s with
  | RIdle =>
      match cmd with
      | CmdRecv => if 0 <? k_len s then Some (upd_len (k_len s - 1) (upd_rcv RDec s)) else None
      | CmdRegister => if k_filled s then None else Some (upd_ready false (upd_rcv GNew s))
      end
  | RDec => Some (upd_rcv (RLoaded (k_pending s)) s)
  | RLoaded first => Some (upd_rcv (if (first =? 1) && k_filled s then RUnset else RSub first) s)
  | RUnset => Some (upd_ready false (upd_rcv (RSub 1) s))
  | RSub first =>
      Some (upd_pending (k_pending s - 1)
        (upd_rcv (if (first =? 1) && (1 <? k_pending s) && k_filled s then RReset else RIdle) s))
  | RReset => Some (upd_ready true (upd_rcv RIdle s))
  | GNew => Some (upd_rcv (GLoaded (k_pending s)) s)
  | GLoaded cnt => Some (upd_ready (0 <? cnt) (upd_rcv GFill s))
  | GFill => Some (mkConc (k_len s) (k_pending s) (k_senders s) true (k_ready s) (k_snd s) RIdle)
  end.

Definition act (a : Act) (s : Conc) : option Conc :=
  match a with ASender i cmd => sender_step i cmd s | AReceiver cmd => receiver_step cmd s end.

Inductive conc_step (s s' : Conc) : Prop := ConcStep a : act a s = Some s' → conc_step s s'.

Fixpoint acts (l : list Act) (s : Conc) : option Conc :=
  match l with [] => Some s | a :: l => s ← act a s; acts l s end.

(** ** The invariant *)

Fixpoint sumz (f : SPc → Z) (l : list SPc) : Z := match l with [] => 0 | x :: l => f x + sumz f l end.

(** Counted by [senders]; queued but not counted; responsible for the readiness. *)
Definition is_live (pc : SPc) : Z := match pc with SIdle | SPushed false | SInc false _ | SSet false => 1 | _ => 0 end.
Definition uncounted (pc : SPc) : Z := match pc with SPushed _ => 1 | _ => 0 end.
Definition setter (pc : SPc) : Z := match pc with SInc _ cnt => if 0 =? cnt then 1 else 0 | SSet _ => 1 | _ => 0 end.

Definition taken (pc : RPc) : Z := match pc with RDec | RLoaded _ | RUnset | RSub _ => 1 | _ => 0 end.
Definition resetter (pc : RPc) : bool := match pc with RSub first => first =? 1 | RReset => true | _ => false end.
(** The decrement is known to start from at least one. *)
Definition saw_one (pc : RPc) : bool := match pc with RLoaded first | RSub first => first =? 1 | RUnset => true | _ => false end.

Definition is_waiting (s : Conc) : Z := k_len s + (if k_senders s =? 0 then 1 else 0).

(** The counter as a number that may be negative: a message can be taken before
    its sender has counted it. *)
Definition balance (s : Conc) : Z := is_waiting s - sumz uncounted (k_snd s) + taken (k_rcv s).

Record conc_ok (n : Z) (s : Conc) : Prop := {
  co_bounds : 0 <= k_len s <= n ∧ Z.of_nat (length (k_snd s)) <= n + 1;
  co_pending : k_pending s = wrap64 (balance s);
  co_senders : k_senders s = sumz is_live (k_snd s);
  co_filled : k_filled s = true;
  co_registered : match k_rcv s with GNew | GLoaded _ | GFill => False | _ => True end;
  co_one : saw_one (k_rcv s) = true → 1 <= balance s;
  co_ready : 0 < balance s → k_ready s = true ∨ 0 < sumz setter (k_snd s) ∨ resetter (k_rcv s) = true }.

(** The sums after one thread has moved. *)
Lemma sumz_insert f l i x y : l !! i = Some x → sumz f (<[i := y]> l) = sumz f l - f x + f y.
Proof.
  revert i. induction l as [|z l IH]; intros [|i] Hi; try done.
  - injection Hi as ->. cbn. lia.
  - change (f z + sumz f (<[i := y]> l) = f z + sumz f l - f x + f y). rewrite (IH i Hi). lia.
Qed.

Lemma sumz_app f l k : sumz f (l ++ k) = sumz f l + sumz f k.
Proof. induction l as [|z l IH]; cbn; [done|]. rewrite IH. lia. Qed.

Lemma sumz_bounds f l : (∀ x, 0 <= f x <= 1) → 0 <= sumz f l <= Z.of_nat (length l).
Proof. intros Hf. induction l as [|z l IH]; cbn; [lia|]. pose proof (Hf z). lia. Qed.

Lemma flag_bounds : (∀ x, 0 <= is_live x <= 1) ∧ (∀ x, 0 <= uncounted x <= 1) ∧ (∀ x, 0 <= setter x <= 1).
Proof. split; [|split]; intros []; cbn; repeat case_match; lia. Qed.

Lemma sumz_ge f l i x : (∀ x, 0 <= f x <= 1) → l !! i = Some x → f x <= sumz f l.
Proof.
  intros Hf. revert i. induction l as [|z l IH]; intros [|i] Hi; try done; cbn in *.
  - injection Hi as ->. pose proof (sumz_bounds f l Hf). lia.
  - pose proof (IH i Hi). pose proof (Hf z). lia.
Qed.

(** The counter as read is the balance, when the balance is small. *)
Lemma wrap_small x : - ISIZE_MAX <= x <= ISIZE_MAX → (wrap64 x = 0 ↔ x = 0) ∧ (wrap64 x = 1 ↔ x = 1) ∧
  (0 <= x → wrap64 x = x).
Proof.
  unfold wrap64, ISIZE_MAX. intros Hx.
  assert (x mod 18446744073709551616 = if x <? 0 then x + 18446744073709551616 else x) as ->.
  { case_match; zbool; [|by rewrite Z.mod_small by lia].
    symmetry. apply Zmod_unique with (-1); lia. }
  case_match; zbool; lia.
Qed.

Lemma wrap_wrap x y : wrap64 (wrap64 x + y) = wrap64 (x + y).
Proof. unfold wrap64. by rewrite Zplus_mod_idemp_l. Qed.

(** ** Preservation *)

Section steps.
Context (n : Z) (s : Conc) (Hn : 2 * n + 4 <= ISIZE_MAX) (Hok : conc_ok n s).

Lemma balance_bounds : - ISIZE_MAX <= balance s <= ISIZE_MAX.
Proof.
  destruct Hok as [[Hl Hs] _ _ _ _ _ _]. pose proof (sumz_bounds uncounted (k_snd s) (proj1 (proj2 flag_bounds))).
  unfold balance, is_waiting. assert (0 <= taken (k_rcv s) <= 1) by (destruct (k_rcv s); cbn; lia).
  destruct (k_senders s =? 0); lia.
Qed.

Lemma pending_zero : (k_pending s = 0 ↔ balance s = 0) ∧ (k_pending s = 1 ↔ balance s = 1) ∧ (0 <= balance s → k_pending s = balance s).
Proof. rewrite (co_pending _ _ Hok). apply wrap_small, balance_bounds. Qed.

(** A thread moved: the sums, the balance and the number of threads. *)
Lemma moved i x y : k_snd s !! i = Some x →
  sumz uncounted (<[i := y]> (k_snd s)) = sumz uncounted (k_snd s) - uncounted x + uncounted y ∧
  sumz setter (<[i := y]> (k_snd s)) = sumz setter (k_snd s) - setter x + setter y ∧
  sumz is_live (<[i := y]> (k_snd s)) = sumz is_live (k_snd s) - is_live x + is_live y ∧
  is_live x <= sumz is_live (k_snd s) ∧ 0 <= sumz setter (k_snd s) - setter x.
Proof.
  intros Hi. destruct flag_bounds as (H1 & H2 & H3).
  rewrite !(sumz_insert _ _ _ _ _ Hi). pose proof (sumz_ge is_live _ _ _ H1 Hi). pose proof (sumz_ge setter _ _ _ H3 Hi).
  lia.
Qed.

(** A step that changes the counter and the balance by the same amount. *)
Lemma conc_ok_move d s' :
  0 <= k_len s' <= n + 1 → Z.of_nat (length (k_snd s')) <= n + 2 →
  k_pending s' = wrap64 (k_pending s + d) → balance s' = balance s + d →
  k_senders s' = sumz is_live (k_snd s') → k_filled s' = true →
  match k_rcv s' with GNew | GLoaded _ | GFill => False | _ => True end →
  (saw_one (k_rcv s') = true → 1 <= balance s') →
  (0 < balance s' → k_ready s' = true ∨ 0 < sumz setter (k_snd s') ∨ resetter (k_rcv s') = true) →
  conc_ok (n + 1) s'.
Proof.
  intros Hl Hs Hp Hb ?????. split; try done; [lia|]. by rewrite Hp, Hb, (co_pending _ _ Hok), wrap_wrap.
Qed.

Lemma pending_same : k_pending s = wrap64 (k_pending s + 0).
Proof. rewrite (co_pending _ _ Hok), wrap_wrap. by rewrite Z.add_0_r. Qed.

(** Move thread [i] from [x] to [y], with the counter, queue and readiness given. *)
Lemma sender_move i x y len d pend ready :
  k_snd s !! i = Some x → 0 <= len <= n + 1 → is_live x = is_live y →
  len - uncounted y = k_len s - uncounted x + d → pend = wrap64 (k_pending s + d) →
  0 <= d →
  (0 < balance s + d → ready = true ∨ 0 < sumz setter (k_snd s) - setter x + setter y ∨ resetter (k_rcv s) = true) →
  conc_ok (n + 1) (mkConc len pend (k_senders s) (k_filled s) ready (<[i := y]> (k_snd s)) (k_rcv s)).
Proof.
  intros Hi Hlen Hlv Hd -> Hd0 Hready. pose proof Hok as [[Hl Hs] _ Hsnd Hf Hg H1 Hr].
  destruct (moved i x y Hi) as (Hu & Hset & Hlive & _).
  assert (balance (mkConc len (wrap64 (k_pending s + d)) (k_senders s) (k_filled s) ready (<[i:=y]> (k_snd s)) (k_rcv s)) = balance s + d) as Eb.
  { unfold balance, is_waiting. cbn. rewrite Hu. lia. }
  apply (conc_ok_move d); rewrite ?Eb; cbn; rewrite ?length_insert, ?Hset, ?Hlive; auto; try lia.
  intros Ho. specialize (H1 Ho). lia.
Qed.

Lemma clone_ok : 1 <= k_senders s →
  conc_ok (n + 1) (mkConc (k_len s) (k_pending s) (k_senders s + 1) (k_filled s) (k_ready s) (k_snd s ++ [SIdle]) (k_rcv s)).
Proof.
  intros H0. pose proof Hok as [[Hl Hs] _ Hsnd Hf Hg H1 Hr]. set (s' := mkConc _ _ _ _ _ _ _).
  assert (balance s' = balance s + 0) as Eb.
  { unfold balance, is_waiting. cbn. rewrite sumz_app. cbn. replace (k_senders s + 1 =? 0) with false by lia.
    replace (k_senders s =? 0) with false by lia. lia. }
  apply (conc_ok_move 0); rewrite ?Eb, ?Z.add_0_r; cbn; rewrite ?length_app, ?sumz_app; cbn; auto; try lia.
  - rewrite <- (Z.add_0_r (k_pending s)) at 2. apply pending_same.
  - intros. destruct (Hr ltac:(lia)) as [?|[?|?]]; auto. right. left. lia.
Qed.

Lemma drop_ok i : k_snd s !! i = Some SIdle →
  conc_ok (n + 1) (mkConc (k_len s) (k_pending s) (k_senders s - 1) (k_filled s) (k_ready s)
    (<[i := if k_senders s =? 1 then SPushed true else SGone]> (k_snd s)) (k_rcv s)).
Proof.
  intros Hi. pose proof Hok as [[Hl Hs] _ Hsnd Hf Hg H1 Hr]. set (y := if _ : bool then _ else _). set (s' := mkConc _ _ _ _ _ _ _).
  destruct (moved i _ y Hi) as (Hu & Hset & Hlive & Hge & _). cbn in Hge.
  assert (uncounted y = (if k_senders s =? 1 then 1 else 0) ∧ setter y = 0 ∧ is_live y = 0) as (Ey & Es & El)
    by (unfold y; by destruct (k_senders s =? 1)).
  assert (balance s' = balance s + 0) as Eb.
  { unfold balance, is_waiting. cbn. rewrite Hu, Ey. cbn. replace (k_senders s =? 0) with false by lia.
    destruct (k_senders s =? 1) eqn:E; zbool; [replace (k_senders s - 1 =? 0) with true by lia|
      replace (k_senders s - 1 =? 0) with false by lia]; lia. }
  apply (conc_ok_move 0); rewrite ?Eb; cbn; rewrite ?length_insert, ?Hset, ?Hlive, ?Es, ?El; cbn; auto; try lia.
  - apply pending_same.
  - rewrite Z.add_0_r. exact H1.
  - intros. destruct (Hr ltac:(lia)) as [?|[?|?]]; auto. right. left. lia.
Qed.

Lemma sender_ok i cmd s' : sender_step i cmd s = Some s' → conc_ok (n + 1) s'.
Proof.
  pose proof pending_zero as (Hz & _ & _). pose proof pending_same as Hps.
  pose proof Hok as [[Hl Hs] _ Hsnd Hf _ _ Hr]. unfold sender_step.
  destruct (k_snd s !! i) as [pc|] eqn:Hi; [|done].
  destruct (moved i _ SIdle Hi) as (_ & _ & _ & Hlv & Hset).
  destruct pc as [|d|d cnt|d|]; [destruct cmd|..]; intros [= <-]; cbn in Hlv, Hset.
  - apply (sender_move i SIdle (SPushed false) _ 0); cbn; auto; try lia.
    intros. destruct (Hr ltac:(lia)) as [?|[?|?]]; auto. right. left. lia.
  - apply clone_ok. lia.
  - by apply drop_ok.
  - apply (sender_move i (SPushed d) (SInc d (k_pending s)) (k_len s) 1); cbn [uncounted is_live setter]; auto; try lia.
    intros. destruct (decide (balance s = 0)) as [E|E].
    + right. left. apply Hz in E. rewrite E, Z.eqb_refl. lia.
    + destruct (Hr ltac:(lia)) as [?|[?|?]]; auto. right. left. destruct (0 =? k_pending s); lia.
  - rewrite Hf, andb_true_r. set (y := if _ : bool then _ else _).
    assert (is_live (SInc d cnt) = is_live y ∧ uncounted y = 0 ∧ setter (SInc d cnt) = setter y) as (El & Eu & Es)
      by (unfold y; cbn [setter]; by destruct cnt, d).
    apply (sender_move i (SInc d cnt) y (k_len s) 0); [done|lia|done|cbn; lia|done|done|].
    rewrite Es. intros. destruct (Hr ltac:(lia)) as [?|[?|?]]; auto. right. left. lia.
  - apply (sender_move i (SSet d) (after_inc d) (k_len s) 0); auto; try lia; destruct d; cbn; lia.
Qed.

(** The receiver moves; no sender does. *)
Lemma receiver_move d len pend ready pc :
  0 <= len <= n + 1 → pend = wrap64 (k_pending s + d) → len + taken pc = k_len s + taken (k_rcv s) + d →
  match pc with GNew | GLoaded _ | GFill => False | _ => True end →
  (saw_one pc = true → 1 <= balance s + d) →
  (0 < balance s + d → ready = true ∨ 0 < sumz setter (k_snd s) ∨ resetter pc = true) →
  conc_ok (n + 1) (mkConc len pend (k_senders s) (k_filled s) ready (k_snd s) pc).
Proof.
  intros Hlen Hp Hd Hpc H1 Hready. pose proof Hok as [[Hl Hs] _ Hsnd Hf _ _ _]. set (s' := mkConc _ _ _ _ _ _ _).
  assert (balance s' = balance s + d) as Eb by (unfold balance, is_waiting; cbn; lia).
  apply (conc_ok_move d); rewrite ?Eb; cbn; auto; lia.
Qed.

Lemma receiver_ok cmd s' : receiver_step cmd s = Some s' → conc_ok (n + 1) s'.
Proof.
  pose proof pending_zero as (_ & Hz & Hpos). pose proof pending_same as Hps.
  pose proof Hok as [[Hl Hs] _ _ Hf Hg H1 Hr]. unfold receiver_step.
  destruct (k_rcv s) as [| |first| |first| | | |] eqn:Epc; [destruct cmd|..]; try done; rewrite ?Hf, ?andb_true_r; cbn [saw_one] in H1; try done.
  - destruct (0 <? k_len s) eqn:E; [|done]. zbool. intros [= <-].
    apply (receiver_move 0); cbn; rewrite ?Epc; cbn; auto; try lia. rewrite Z.add_0_r. intros H. destruct (Hr H) as [?|[?|?]]; auto.
  - intros [= <-]. apply (receiver_move 0); cbn [k_len k_pending upd_rcv]; rewrite ?Epc; cbn [taken saw_one]; auto; try lia.
    rewrite Z.add_0_r. intros H. destruct (Hr H) as [?|[?|?]]; auto.
  - intros E. injection E as <-. set (pc := if _ : bool then _ else _).
    assert (taken pc = 1 ∧ (saw_one pc = true → first = 1)) as [Et Hs1] by (unfold pc; destruct (first =? 1) eqn:E; split; cbn; auto; lia).
    apply (receiver_move 0); cbn; rewrite ?Epc, ?Et, ?Z.add_0_r; auto; try lia.
    + rewrite <- (Z.add_0_r (k_pending s)) at 2. done.
    + unfold pc. by destruct (first =? 1).
    + intros Ho. apply H1. by rewrite (Hs1 Ho).
    + intros H. destruct (Hr H) as [?|[?|?]]; [auto..|done].
  - intros [= <-]. apply (receiver_move 0); cbn; rewrite ?Epc; cbn; auto; try lia.
  - intros E. injection E as <-. apply (receiver_move (-1)); cbn [k_len k_pending upd_rcv upd_pending k_rcv]; rewrite ?Epc; try lia.
    + done.
    + destruct (_ && _); cbn; lia || done.
    + destruct (_ && _); cbn; lia || done.
    + destruct (_ && _); cbn; lia || done.
    + intros H. destruct (first =? 1) eqn:Ef; cbn [andb].
      * rewrite (Hpos ltac:(lia)). replace (1 <? balance s) with true by lia. auto.
      * destruct (Hr ltac:(lia)) as [?|[?|E]]; auto. cbn in E. congruence.
  - intros [= <-]. apply (receiver_move 0); cbn; rewrite ?Epc; cbn; auto; lia.
Qed.

Lemma step_ok s' : conc_step s s' → conc_ok (n + 1) s'.
Proof. intros [[i cmd|cmd] E]; [by eapply sender_ok|by eapply receiver_ok]. Qed.
End steps.

(** ** Theorems *)

Definition quiet (pc : SPc) : bool := match pc with SIdle | SGone => true | _ => false end.
(** No operation is under way. *)
Definition quiescent (s : Conc) : Prop := Forall (λ pc, quiet pc = true) (k_snd s) ∧ k_rcv s = RIdle.
#[export] Instance RPc_eq_dec : EqDecision RPc.
Proof. solve_decision. Defined.
#[export] Instance quiescent_dec s : Decision (quiescent s).
Proof. unfold quiescent. apply _. Defined.

(** A registered channel between operations. *)
Record calm (s : Conc) : Prop := {
  ca_quiescent : quiescent s;
  ca_len : 0 <= k_len s;
  ca_pending : k_pending s = is_waiting s;
  ca_senders : k_senders s = sumz is_live (k_snd s);
  ca_filled : k_filled s = true;
  ca_ready : 0 < is_waiting s → k_ready s = true }.

Lemma quiet_sums l : Forall (λ pc, quiet pc = true) l → sumz uncounted l = 0 ∧ sumz setter l = 0.
Proof. induction 1 as [|[] l Hx _ [IH1 IH2]]; cbn in *; try done; lia. Qed.

Lemma calm_ok s n : calm s → k_len s <= n → Z.of_nat (length (k_snd s)) <= n + 1 → n <= ISIZE_MAX → conc_ok n s.
Proof.
  intros [[Hq Hi] Hl Hp Hs Hf Hr] Hln Hsn Hn. destruct (quiet_sums _ Hq) as [Hu _].
  assert (balance s = is_waiting s) as Eb by (unfold balance; rewrite Hu, Hi; cbn; lia).
  split; rewrite ?Hi; try done; rewrite ?Eb; auto.
  rewrite Hp, wrap64_id; [done|]. unfold is_waiting, is_u64, ISIZE_MAX, U64_MAX in *. destruct (k_senders s =? 0); lia.
Qed.

Lemma steps_ok k : ∀ n s s', nsteps conc_step k s s' → conc_ok n s → 2 * (n + Z.of_nat k) + 4 <= ISIZE_MAX → conc_ok (n + Z.of_nat k) s'.
Proof.
  induction k as [|k IH]; intros n s s' Hst Hok Hk; inversion Hst as [|? ? s1 ? H1 H2]; subst.
  - by rewrite Z.add_0_r.
  - replace (n + Z.of_nat (S k)) with ((n + 1) + Z.of_nat k) by lia. apply (IH _ s1); [done| |lia].
    apply (step_ok n s); [lia|done|done].
Qed.

Lemma quiescent_ready n s : 2 * n + 4 <= ISIZE_MAX → conc_ok n s → quiescent s →
  k_pending s = is_waiting s ∧ (0 < is_waiting s → k_ready s = true).
Proof.
  intros Hn Hok [Hq Hi]. destruct (quiet_sums _ Hq) as [Hu Hset].
  assert (balance s = is_waiting s) as Eb by (unfold balance; rewrite Hu, Hi; cbn; lia).
  pose proof (co_bounds _ _ Hok) as [Hl _]. split.
  - rewrite <- Eb. apply (pending_zero n s Hn Hok). rewrite Eb. unfold is_waiting. destruct (k_senders s =? 0); lia.
  - intros Hw. destruct (co_ready _ _ Hok) as [?|[?|E]]; [lia|done|lia|]. by rewrite Hi in E.
Qed.

(** C19: from a state between operations in which the receiver is registered ([calm]),
    however the atomic steps of sending, cloning and dropping senders and of
    receiving interleave: whenever no operation is under way the counter is the
    number of waiting messages, plus one when all senders are gone, and if that is
    not zero the receiver is readable.  The registration itself must not race with a
    send ([register_races_with_send]). *)
Theorem receiver_never_missed (s0 s : Conc) (k : nat) :
  calm s0 → nsteps conc_step k s0 s →
  2 * (k_len s0 + Z.of_nat (length (k_snd s0)) + Z.of_nat k) + 4 <= ISIZE_MAX →
  quiescent s →
  k_pending s = is_waiting s ∧ (0 < is_waiting s → k_ready s = true).
Proof.
  intros Hc Hst Hk Hq. pose proof (ca_len _ Hc). set (n := k_len s0 + Z.of_nat (length (k_snd s0))) in *.
  assert (conc_ok n s0) as Hok by (apply calm_ok; [done|lia..]).
  apply (quiescent_ready (n + Z.of_nat k)); [lia| |done]. by apply (steps_ok k n s0).
Qed.

(** ** The operations under way can always be finished *)

Definition s_left (pc : SPc) : Z := match pc with SPushed _ => 3 | SInc _ _ => 2 | SSet _ => 1 | _ => 0 end.
Definition r_left (pc : RPc) : Z :=
  match pc with RDec => 5 | RLoaded _ => 4 | RUnset => 3 | RSub _ => 2 | RReset => 1 | GNew => 3 | GLoaded _ => 2 | GFill => 1 | RIdle => 0 end.
Definition steps_left (s : Conc) : Z := sumz s_left (k_snd s) + r_left (k_rcv s).

Lemma sumz_max f m l : (∀ x, 0 <= f x <= m) → 0 <= sumz f l <= m * Z.of_nat (length l).
Proof. intros Hf. induction l as [|z l IH]; cbn -[Z.of_nat]; [lia|]. pose proof (Hf z). lia. Qed.

Lemma s_left_bound x : 0 <= s_left x <= 3.
Proof. destruct x; cbn; lia. Qed.

Lemma receiver_finish s : k_rcv s ≠ RIdle →
  ∃ s', conc_step s s' ∧ steps_left s' < steps_left s ∧ is_waiting s' = is_waiting s.
Proof.
  intros Hr. destruct (receiver_step CmdRecv s) as [s'|] eqn:E.
  - exists s'. split; [by apply (ConcStep _ _ (AReceiver CmdRecv))|].
    unfold receiver_step in E. destruct (k_rcv s) eqn:Epc; try done; injection E as <-; unfold steps_left; cbn; rewrite Epc; cbn;
      (split; [|done]); repeat case_match; cbn; lia.
  - unfold receiver_step in E. by destruct (k_rcv s).
Qed.

Lemma sender_finish s i pc : k_snd s !! i = Some pc → quiet pc = false →
  ∃ s', conc_step s s' ∧ steps_left s' < steps_left s ∧ is_waiting s' = is_waiting s.
Proof.
  intros Hi Hq. destruct (sender_step i CmdSend s) as [s'|] eqn:E.
  - exists s'. split; [by apply (ConcStep _ _ (ASender i CmdSend))|].
    unfold sender_step in E. rewrite Hi in E.
    assert (∃ y, k_snd s' = <[i := y]> (k_snd s) ∧ s_left y < s_left pc ∧ k_rcv s' = k_rcv s ∧ is_waiting s' = is_waiting s)
      as (y & Hs & Hl & Hr & Hw).
    { destruct pc as [|d|d cnt|d|]; try done; injection E as <-; eexists; (split; [done|]); (split; [|done]);
        cbn; try lia; repeat case_match; cbn; try lia; destruct d; cbn; lia. }
    split; [|done]. unfold steps_left. rewrite Hs, Hr, (sumz_insert _ _ _ _ _ Hi). lia.
  - unfold sender_step in E. rewrite Hi in E. by destruct pc.
Qed.

Lemma can_finish s : ¬ quiescent s → ∃ s', conc_step s s' ∧ steps_left s' < steps_left s ∧ is_waiting s' = is_waiting s.
Proof.
  intros Hq. destruct (decide (k_rcv s = RIdle)) as [Hr|Hr]; [|by apply receiver_finish].
  assert (¬ Forall (λ pc, quiet pc = true) (k_snd s)) as Hs by (intros ?; by apply Hq).
  apply not_Forall_Exists, Exists_exists in Hs as (pc & Hpc & Hn); [|apply _].
  apply list_elem_of_lookup in Hpc as [i Hi]. apply (sender_finish s i pc Hi). by apply not_true_is_false.
Qed.

Lemma settles m : ∀ s, steps_left s <= Z.of_nat m →
  ∃ k s', nsteps conc_step k s s' ∧ quiescent s' ∧ is_waiting s' = is_waiting s ∧ (k <= m)%nat.
Proof.
  induction m as [|m IH]; intros s Hm; (destruct (decide (quiescent s)) as [Hq|Hq];
    [exists 0%nat, s; split; [constructor|split; [done|split; [done|lia]]]|]).
  - destruct (can_finish s Hq) as (s' & _ & Hl & _). exfalso.
    pose proof (sumz_max s_left 3 (k_snd s') s_left_bound). unfold steps_left in *. destruct (k_rcv s'); cbn in *; lia.
  - destruct (can_finish s Hq) as (s1 & Hst & Hl & Hw). destruct (IH s1 ltac:(lia)) as (k & s' & Hk & Hq' & Hw' & Hkm).
    exists (S k), s'. split; [by econstructor|]. split; [done|]. split; [congruence|lia].
Qed.

(** from every state that the senders and the receiver can reach, the
    operations under way can run to their end, and then the receiver of a channel
    in which something waits is readable. *)
Theorem receiver_gets_ready (s0 s : Conc) (k : nat) :
  calm s0 → nsteps conc_step k s0 s →
  8 * (k_len s0 + Z.of_nat (length (k_snd s0)) + Z.of_nat k) + 20 <= ISIZE_MAX →
  ∃ s', rtc conc_step s s' ∧ quiescent s' ∧ is_waiting s' = is_waiting s ∧
    (0 < is_waiting s → k_ready s' = true).
Proof.
  intros Hc Hst Hk. pose proof (ca_len _ Hc). set (n := k_len s0 + Z.of_nat (length (k_snd s0))) in *.
  assert (conc_ok (n + Z.of_nat k) s) as Hok by (apply (steps_ok k n s0); [done| |lia]; apply calm_ok; [done|lia..]).
  set (m := 3 * (n + Z.of_nat k + 1) + 5).
  assert (steps_left s <= m) as Hm.
  { pose proof (sumz_max s_left 3 (k_snd s) s_left_bound). pose proof (co_bounds _ _ Hok) as [_ ?].
    unfold steps_left, m. destruct (k_rcv s); cbn; lia. }
  destruct (settles (Z.to_nat m) s ltac:(lia)) as (k' & s' & Hst' & Hq & Hw & Hk').
  exists s'. split; [apply rtc_nsteps; by eauto|]. split; [done|]. split; [done|]. rewrite <- Hw.
  apply (quiescent_ready (n + Z.of_nat k + Z.of_nat k')); [lia| |done]. apply (steps_ok k' _ s); [done|done|lia].
Qed.

(** ** A concrete channel: two senders, nothing sent, registered *)

Definition calm0 : Conc := mkConc 0 0 2 true false [SIdle; SIdle] RIdle.
Lemma calm0_calm : calm calm0.
Proof. by split; [split; [repeat constructor|]|..]. Qed.

Lemma acts_nsteps l : ∀ s s', acts l s = Some s' → nsteps conc_step (length l) s s'.
Proof.
  induction l as [|a l IH]; intros s s' E; cbn in E; [injection E as ->; constructor|].
  destruct (act a s) as [s1|] eqn:E1; [|done]. econstructor; [by apply (ConcStep _ _ a)|by apply IH].
Qed.

(** Both senders queue a message; the receiver takes one before it is counted. *)
Definition tr_overlap : list Act :=
  [ASender 0 CmdSend; ASender 1 CmdSend; AReceiver CmdRecv; ASender 0 CmdSend; AReceiver CmdRecv; AReceiver CmdRecv;
   ASender 1 CmdSend; AReceiver CmdRecv; ASender 0 CmdSend; ASender 0 CmdSend; AReceiver CmdRecv; ASender 1 CmdSend; AReceiver CmdRecv].

Lemma receiver_never_missed_witness :
  ∃ s, acts tr_overlap calm0 = Some s ∧ k_pending s = is_waiting s ∧ (0 < is_waiting s → k_ready s = true).
Proof.
  eexists. split; [vm_compute; reflexivity|].
  apply (receiver_never_missed calm0 _ (length tr_overlap) calm0_calm);
    [apply acts_nsteps; vm_compute; reflexivity|vm_compute; discriminate|].
  split; [repeat constructor|reflexivity].
Defined.

Lemma receiver_gets_ready_witness :
  ∃ s s', acts (take 5 tr_overlap) calm0 = Some s ∧ rtc conc_step s s' ∧ quiescent s' ∧ k_ready s' = true.
Proof.
  eexists _. destruct (receiver_gets_ready calm0 (default calm0 (acts (take 5 tr_overlap) calm0)) 5 calm0_calm)
    as (s' & H1 & H2 & _ & H3);
    [apply (acts_nsteps (take 5 tr_overlap)); vm_compute; reflexivity|vm_compute; discriminate|].
  exists s'. split; [vm_compute; reflexivity|]. split; [exact H1|]. split; [exact H2|]. apply H3. vm_compute. reflexivity.
Defined.

(** The readiness may be spurious: a sender is about to set it while the receiver
    takes the message and unsets it. *)
Example readable_but_empty :
  match acts [ASender 0 CmdSend; ASender 0 CmdSend; ASender 0 CmdSend; AReceiver CmdRecv; AReceiver CmdRecv; AReceiver CmdRecv;
              AReceiver CmdRecv; AReceiver CmdRecv; ASender 0 CmdSend] calm0 with
  | Some s => bool_decide (quiescent s) = true ∧ is_waiting s = 0 ∧ k_ready s = true
  | None => False
  end.
Proof. vm_compute. auto. Qed.

(** Registering while a message is sent: the sender counts it after [register]
    has read the counter and looks for the cell before it is filled.  The
    message waits, nothing is under way, and the receiver is not ready. *)
Example register_races_with_send :
  match acts [AReceiver CmdRegister; AReceiver CmdRegister; ASender 0 CmdSend; ASender 0 CmdSend; ASender 0 CmdSend;
              AReceiver CmdRegister; AReceiver CmdRegister] (mkConc 0 0 1 false false [SIdle] RIdle) with
  | Some s => bool_decide (quiescent s) = true ∧ k_filled s = true ∧ is_waiting s = 1 ∧ k_ready s = false
  | None => False
  end.
Proof. vm_compute. auto. Qed.

(** ** The steps are those of [inc], [dec] and [register]

    Run without interruption, the steps of one operation do what the operation of
    [Channel.v] does; the readiness queue is the one-node instance. *)

Section solo.
Context {T : Type}.
Abbreviation Ch := (Chan option T unit unit Ready.t).
Implicit Types (c : Ch) (s : Conc).

Record same_view c s : Prop := {
  sv_len : k_len s = Z.of_nat (length (m_queue (mpsc c)));
  sv_pending : k_pending s = pending c;
  sv_senders : k_senders s = senders c;
  sv_filled : k_filled s = bool_decide (is_Some (set_readiness c));
  sv_registered : registration c = set_readiness c;
  sv_ready : k_filled s = true → k_ready s = bool_decide (c_world c = Ready.readable) }.

(** One thread alone. *)
Inductive alone (a : Act) : Conc → Conc → Prop :=
  | alone_refl s : alone a s s
  | alone_step s s1 s2 : act a s = Some s1 → alone a s1 s2 → alone a s s2.

Lemma sender_at i cmd len pend k filled ready snd rcv pc s' :
  snd !! i = Some pc →
  match pc with
  | SPushed d => Some (mkConc len (wrap64 (pend + 1)) k filled ready (<[i := SInc d pend]> snd) rcv)
  | SInc d cnt => Some (mkConc len pend k filled ready (<[i := if (0 =? cnt) && filled then SSet d else after_inc d]> snd) rcv)
  | SSet d => Some (mkConc len pend k filled true (<[i := after_inc d]> snd) rcv)
  | _ => None end = Some s' →
  act (ASender i cmd) (mkConc len pend k filled ready snd rcv) = Some s'.
Proof. intros Hi E. cbn. unfold sender_step. cbn. rewrite Hi. by destruct pc. Qed.

Lemma inc_steps c s i d cmd :
  same_view c s → k_snd s !! i = Some (SPushed d) →
  ∃ c' s', inc c = Done (Ok tt, c') ∧ alone (ASender i cmd) s s' ∧ same_view c' s' ∧
    k_snd s' = <[i := after_inc d]> (k_snd s) ∧ k_rcv s' = k_rcv s.
Proof.
  destruct c as [m pend k sr rg w], s as [len pend' k' filled ready snd rcv].
  intros [Hl Hp Hs Hf Hg Hr] Hi. cbn in *. subst.
  assert (∀ x y, <[i := y]> (<[i := x]> snd) = <[i := y]> snd) as Hii by (intros; apply list_insert_insert_eq).
  assert (∀ x, <[i := x]> snd !! i = Some x) as Hlk by (intros; apply list_lookup_insert_eq; by eapply lookup_lt_Some).
  unfold inc, mbind, M_bind, gets, modify, set_ready, set_pending. cbn [pending mpsc senders set_readiness registration c_world].
  destruct (0 =? pend) eqn:E; [destruct sr as [[]|]|].
  - eexists _, _. split; [reflexivity|]. split.
    { eapply alone_step; [by eapply sender_at|]. eapply alone_step; [by eapply sender_at|]. rewrite E. cbn.
      rewrite Hii. eapply alone_step; [by eapply sender_at|]. apply alone_refl. }
    split; [by split|]. cbn. by rewrite Hii.
  - eexists _, _. split; [reflexivity|]. split.
    { eapply alone_step; [by eapply sender_at|]. eapply alone_step; [by eapply sender_at|]. rewrite E. cbn.
      rewrite Hii. apply alone_refl. }
    split; [by split|]. done.
  - eexists _, _. split; [reflexivity|]. split.
    { eapply alone_step; [by eapply sender_at|]. eapply alone_step; [by eapply sender_at|]. rewrite E. cbn.
      rewrite Hii. apply alone_refl. }
    split; [by split|]. done.
Qed.

Lemma dec_steps c s cmd :
  same_view c s → k_rcv s = RDec →
  ∃ c' s', dec c = Done (Ok tt, c') ∧ alone (AReceiver cmd) s s' ∧ same_view c' s' ∧ k_rcv s' = RIdle ∧ k_snd s' = k_snd s.
Proof.
  destruct c as [m pend k sr rg w], s as [len pend' k' filled ready snd rcv].
  intros [Hl Hp Hs Hf Hg Hr] Hi. cbn in *. subst.
  unfold dec, mbind, M_bind, gets, modify, set_ready, set_pending. cbn [pending mpsc senders set_readiness registration c_world].
  destruct (pend =? 1) eqn:E; [apply Z.eqb_eq in E as ->; destruct sr as [[]|]|].
  - eexists _, _. split; [reflexivity|]. split.
    { eapply alone_step; [reflexivity|]. eapply alone_step; [reflexivity|]. eapply alone_step; [reflexivity|].
      eapply alone_step; [reflexivity|]. apply alone_refl. }
    split; [by split|]. done.
  - eexists _, _. split; [reflexivity|]. split.
    { eapply alone_step; [reflexivity|]. eapply alone_step; [reflexivity|]. eapply alone_step; [reflexivity|]. apply alone_refl. }
    split; [by split|]. done.
  - eexists _, _. split; [reflexivity|]. split.
    { eapply alone_step; [reflexivity|]. cbn. eapply alone_step; [reflexivity|]. cbn. rewrite E. cbn.
      eapply alone_step; [reflexivity|]. cbn. rewrite E. apply alone_refl. }
    split; [by split|]. done.
Qed.

(** a sender that runs the steps of its [inc] without interruption, and a
    receiver that so runs its [dec], change counter and readiness exactly as the
    operations of the sequential model do. *)
Theorem steps_are_inc_dec (c : Chan option T unit unit Ready.t) (s : Conc) (i : nat) (d : bool) (cmd : SCmd) (rcmd : RCmd) :
  same_view c s →
  (k_snd s !! i = Some (SPushed d) →
    ∃ c' s', inc c = Done (Ok tt, c') ∧ alone (ASender i cmd) s s' ∧ same_view c' s' ∧
      k_snd s' = <[i := after_inc d]> (k_snd s) ∧ k_rcv s' = k_rcv s) ∧
  (k_rcv s = RDec →
    ∃ c' s', dec c = Done (Ok tt, c') ∧ alone (AReceiver rcmd) s s' ∧ same_view c' s' ∧
      k_rcv s' = RIdle ∧ k_snd s' = k_snd s).
Proof. intros Hv. split; [by apply inc_steps|by apply dec_steps]. Qed.
End solo.

Definition chan_view : Chan option Z unit unit Ready.t := mkChan (mkMpsc [4] None 1 true) 0 1 (Some tt) (Some tt) Ready.none.

Lemma steps_are_inc_dec_witness :
  ∃ c' s', inc chan_view = Done (Ok tt, c') ∧
    alone (ASender 0 CmdSend) (mkConc 1 0 1 true false [SPushed false] RIdle) s' ∧ same_view c' s'.
Proof.
  destruct (proj1 (steps_are_inc_dec chan_view (mkConc 1 0 1 true false [SPushed false] RIdle) 0 false CmdSend CmdRecv
    ltac:(by split)) eq_refl) as (c' & s' & H1 & H2 & H3 & _).
  exists c', s'. exact (conj H1 (conj H2 H3)).
Defined.
