(* ===== verification/ChannelBlock.v ===== *)
(** * Blocking sends

    [SyncSender::send] blocks while the buffer of a bounded channel is full.  Here
    any number of threads send, and the receiver is registered and receives when its
    readiness says so.  If the buffer has room for one message at least, all messages
    get through, in the order of the calls.  A channel without a buffer hands a
    message over from thread to thread, and the call that makes the receiver readable
    comes after that: the receiver never becomes readable, and every send blocks. *)

From S2P Require Import Prelude Event Iface ReadyQueue Poll PollThm Channel ChannelThm.

Inductive BOp (T : Type) : Type :=
  | BSend (t : T)
  | BRecv.
Arguments BSend {T} _.
Arguments BRecv {T}.

Section blocking.
Context {C : Type → Type} {cell_ops : LazyCellOps C} {cell_laws : LazyCellLaws C}.
Context {T R H P W : Type} {rd_ops : ReadinessOps W H} {reg_ops : RegistrationOps W R H P}.
Context {rd_spec : ReadinessSpec W H} {rd_laws : ReadinessLaws W H} {reg_laws : RegistrationLaws W R H P}.
Abbreviation Ch := (Chan C T R H W).
Implicit Types c : Ch.

(** [k_blocked]: the messages of the threads that are blocked in [send], the first
    one longest; [k_recv]: what was received. *)
Record Blocking : Type := mkBlocking { k_chan : Ch; k_blocked : list T; k_recv : list T }.

(** A thread calls [send]. *)
Definition thread_send (t : T) (s : Blocking) : outcome Blocking :=
  match SyncSender_send t (k_chan s) with
  | None => Done (mkBlocking (k_chan s) (k_blocked s ++ [t]) (k_recv s))
  | Some m => '(_, c) ← m; Done (mkBlocking c (k_blocked s) (k_recv s))
  end.

(** A slot may have become free: the thread that waits longest tries again. *)
Definition unblock (s : Blocking) : outcome Blocking :=
  match k_blocked s with
  | [] => Done s
  | t :: rest =>
      match SyncSender_send t (k_chan s) with
      | None => Done s
      | Some m => '(_, c) ← m; Done (mkBlocking c rest (k_recv s))
      end
  end.

(** The readiness of the registered receiver, as a poll reports it. *)
Definition readable (c : Ch) : outcome bool :=
  match lazy_borrow (set_readiness c) with
  | Some h => '(r, _) ← rd_readiness h (c_world c); Done (Ready.is_readable r)
  | None => Done false
  end.

(** [try_recv], once the receiver is readable.  Without a buffer it takes the message
    of a blocked thread, which then goes on to [inc]. *)
Definition receive (s : Blocking) : outcome Blocking :=
  b ← readable (k_chan s);
  if b : bool then
    match m_bound (mpsc (k_chan s)), m_queue (mpsc (k_chan s)), k_blocked s with
    | Some O, [], t :: rest =>
        '(_, c) ← dec (k_chan s);
        '(_, c) ← inc c;
        Done (mkBlocking c rest (k_recv s ++ [t]))
    | _, _, _ =>
        '(r, c) ← Receiver_try_recv (k_chan s);
        match r with
        | Ok t => unblock (mkBlocking c (k_blocked s) (k_recv s ++ [t]))
        | Err _ => Done (mkBlocking c (k_blocked s) (k_recv s))
        end
    end
  else Done s.

Definition run_bop (op : BOp T) (s : Blocking) : outcome Blocking :=
  match op with BSend t => thread_send t s | BRecv => receive s end.
Fixpoint run_bops (ops : list (BOp T)) (s : Blocking) : outcome Blocking :=
  match ops with [] => Done s | op :: ops => s ← run_bop op s; run_bops ops s end.

(** A new channel with a registered receiver. *)
Definition registered_channel (bound : nat) (p : P) (token : Token) (interest : Ready.t) (opts : PollOpt.t) (w : W) : outcome Blocking :=
  '(_, c) ← register p token interest opts (sync_channel bound w);
  Done (mkBlocking c [] []).

Definition sends (ops : list (BOp T)) : list T := omap (λ op, match op with BSend t => Some t | BRecv => None end) ops.

(** ** The invariant *)

Record chan_live (bound : nat) c : Prop := {
  cl_inv : chan_inv c;
  cl_bound : m_bound (mpsc c) = Some bound;
  cl_receiver : m_receiver (mpsc c) = true;
  cl_senders : 0 < senders c;
  cl_cell : is_Some (lazy_borrow (set_readiness c)) }.

Lemma live_waiting bound c : chan_live bound c → waiting c = Z.of_nat (length (m_queue (mpsc c))).
Proof. intros [_ _ _ Hs _]. unfold waiting. replace (senders c =? 0) with false by lia. lia. Qed.

Lemma readable_ok bound c : chan_live bound c →
  readable c = Done (match m_queue (mpsc c) with [] => false | _ => true end).
Proof.
  intros Hl. pose proof (live_waiting _ _ Hl) as Hw. destruct Hl as [Hi _ _ _ [h Hh]]. unfold readable. rewrite Hh.
  destruct (ci_ready _ Hi h Hh) as [Hlive Hc]. rewrite (rd_get_ok _ _ Hlive). cbn. rewrite Hc, (ci_pending _ Hi), Hw.
  by destruct (m_queue (mpsc c)).
Qed.

Lemma live_register bound p token interest opts (w : W) : rd_ok w →
  ∃ s, registered_channel bound p token interest opts w = Done s ∧ chan_live bound (k_chan s) ∧
    m_queue (mpsc (k_chan s)) = [] ∧ k_blocked s = [] ∧ k_recv s = [].
Proof.
  intros Hw. unfold registered_channel, register, sync_channel, ctl_pair. cbn. rewrite lazy_borrow_new.
  destruct (reg_new_ok w p token interest opts Hw) as (r & h & w1 & -> & Hl & Hc). cbn.
  destruct (lazy_fill_empty _ r (lazy_borrow_new (A:=R))) as (cr & -> & Hcr), (lazy_fill_empty _ h (lazy_borrow_new (A:=H))) as (ch & -> & Hch).
  cbn. eexists. split; [reflexivity|]. cbn. split; [|done].
  split; cbn; try done. split; cbn; rewrite ?Hcr, ?Hch; try done. by intros h' [= <-].
Qed.

(** A send with room in the buffer. *)
Lemma live_send bound t c : chan_live bound c → (length (m_queue (mpsc c)) < bound)%nat → Z.of_nat (length (m_queue (mpsc c))) < U64_MAX →
  ∃ r c', SyncSender_send t c = Some (Done (r, c')) ∧ chan_live bound c' ∧ m_queue (mpsc c') = m_queue (mpsc c) ++ [t].
Proof.
  intros Hl Hroom Hlen. pose proof (live_waiting _ _ Hl) as Hw. destruct Hl as [Hi Hb Hr Hs Hc]. unfold SyncSender_send, mpsc_sync_send.
  rewrite Hr. unfold m_full. rewrite Hb. replace (bound <=? length (m_queue (mpsc c)))%nat with false by (symmetry; apply Nat.leb_gt; lia).
  assert (wp inc (λ _ c', chan_live bound c' ∧ m_queue (mpsc c') = m_queue (mpsc c) ++ [t]) (set_mpsc (m_push t (mpsc c)) c)) as Hwp.
  { pose proof (ci_pending _ Hi) as Hp. apply wp_inc; [exact (chan_ready _ Hi)|cbn; lia|]. intros res w Hr'. split; [|done].
    split; cbn; try done. apply (chan_inv_step c); [done|done|apply Hi|apply Hi|]. cbn. rewrite Hp. unfold waiting. rewrite length_app. cbn. lia. }
  apply wp_done in Hwp as (r & c' & -> & Hl' & Hq). cbn. eauto.
Qed.

Lemma live_full bound t c : chan_live bound c → (bound ≤ length (m_queue (mpsc c)))%nat → SyncSender_send t c = None.
Proof.
  intros [Hi Hb Hr Hs Hc] Hfull. unfold SyncSender_send, mpsc_sync_send, m_full. rewrite Hr, Hb.
  by rewrite (proj2 (Nat.leb_le _ _) Hfull).
Qed.

Lemma live_recv bound c t q : chan_live bound c → m_queue (mpsc c) = t :: q → Z.of_nat (length (t :: q)) <= U64_MAX →
  ∃ c', Receiver_try_recv c = Done (Ok t, c') ∧ chan_live bound c' ∧ m_queue (mpsc c') = q.
Proof.
  intros Hl Hq Hlen. pose proof (live_waiting _ _ Hl) as Hw. rewrite Hq in Hw. cbn [length] in Hw, Hlen. destruct Hl as [Hi Hb Hr Hs Hc].
  unfold Receiver_try_recv, mpsc_try_recv. rewrite Hq. set (m := mkMpsc q _ _ _).
  assert (wp dec (λ _ c', chan_live bound c' ∧ m_queue (mpsc c') = q) (set_mpsc m c)) as Hwp.
  { pose proof (ci_pending _ Hi) as Hp. apply wp_dec; [exact (chan_ready _ Hi)|cbn [pending set_mpsc]; lia|]. intros res w Hr'. split; [|done].
    split; cbn; try done. apply (chan_inv_step c); [done|done|apply Hi|apply Hi|]. cbn.
    replace (senders c =? 0) with false by lia. lia. }
  apply wp_done in Hwp as (u & c' & -> & Hl' & Hq'). cbn. eauto.
Qed.

(** ** With a buffer *)

(** Threads are blocked only while the buffer is full; [all]: what was sent so far. *)
Record delivering (bound : nat) (all : list T) (s : Blocking) : Prop := {
  dl_live : chan_live bound (k_chan s);
  dl_full : k_blocked s ≠ [] → length (m_queue (mpsc (k_chan s))) = bound;
  dl_room : (length (m_queue (mpsc (k_chan s))) ≤ bound)%nat;
  dl_all : k_recv s ++ m_queue (mpsc (k_chan s)) ++ k_blocked s = all }.

Lemma thread_send_ok bound t all s : delivering bound all s → Z.of_nat (length all) < U64_MAX →
  ∃ s', thread_send t s = Done s' ∧ delivering bound (all ++ [t]) s'.
Proof.
  intros [Hl Hf Hr Ha] Hlen. unfold thread_send. rewrite <- Ha, !length_app in Hlen.
  destruct (decide (length (m_queue (mpsc (k_chan s))) < bound)%nat) as [Hlt|Hge].
  - destruct (live_send bound t _ Hl Hlt ltac:(lia)) as (r & c & -> & Hl' & Hq). cbn.
    assert (k_blocked s = []) as Hb by (destruct (k_blocked s); [done|exfalso; specialize (Hf ltac:(done)); lia]).
    eexists. split; [reflexivity|]. split; cbn; rewrite ?Hq, ?Hb; [done|done|rewrite length_app; cbn; lia|].
    rewrite <- Ha, Hb, !app_nil_r. by rewrite app_assoc.
  - rewrite (live_full bound t _ Hl) by lia. eexists. split; [reflexivity|]. split; cbn; [done|intros _; lia|done|].
    by rewrite <- Ha, !app_assoc.
Qed.

(** A receive takes a message if there is one. *)
Lemma receive_ok bound all s : delivering bound all s → (0 < bound)%nat → Z.of_nat (length all) <= U64_MAX →
  ∃ s', receive s = Done s' ∧ delivering bound all s' ∧
    length (m_queue (mpsc (k_chan s')) ++ k_blocked s') = Nat.pred (length (m_queue (mpsc (k_chan s)) ++ k_blocked s)).
Proof.
  intros Hd Hb Hlen. pose proof Hd as [Hl Hf Hr Ha]. unfold receive. rewrite (readable_ok _ _ Hl). cbn [mbind outcome_bind].
  assert (Z.of_nat (length (m_queue (mpsc (k_chan s)))) <= U64_MAX) as Hql by (rewrite <- Ha, !length_app in Hlen; lia).
  destruct (m_queue (mpsc (k_chan s))) as [|t q] eqn:Eq.
  { eexists. split; [reflexivity|]. split; [done|]. rewrite Eq. destruct (k_blocked s); [done|]. specialize (Hf ltac:(done)). cbn in Hf. lia. }
  destruct (live_recv bound _ t q Hl Eq Hql) as (c & E & Hl' & Hq). cbn in Hr.
  assert (∃ s', unblock (mkBlocking c (k_blocked s) (k_recv s ++ [t])) = Done s' ∧ delivering bound all s' ∧
    length (m_queue (mpsc (k_chan s')) ++ k_blocked s') = length (q ++ k_blocked s)) as Hu.
  { unfold unblock. cbn. destruct (k_blocked s) as [|t' rest] eqn:Eb.
    - eexists. split; [reflexivity|]. split; [split; cbn; rewrite ?Hq; try done; [lia|]|by cbn; rewrite Hq].
      rewrite <- Ha. by rewrite <- app_assoc.
    - specialize (Hf ltac:(done)). cbn in Hf. cbn in Hql.
      destruct (live_send bound t' c Hl') as (r & c2 & -> & Hl2 & Hq2); [rewrite Hq; lia|rewrite Hq; lia|]. cbn.
      eexists. split; [reflexivity|]. cbn. rewrite Hq2, Hq. split; [|by rewrite <- app_assoc].
      split; cbn; rewrite ?Hq2, ?Hq, ?length_app; cbn; [done|lia|lia|]. rewrite <- Ha. by rewrite <- !app_assoc. }
  assert (match m_bound (mpsc (k_chan s)) with Some O => False | _ => True end) as Hnz.
  { rewrite (cl_bound _ _ Hl). destruct bound; [lia|done]. }
  destruct (m_bound (mpsc (k_chan s))) as [[|n]|]; [done| |]; rewrite E; cbn [mbind outcome_bind];
    destruct Hu as (s' & -> & Hd' & Hn); eauto.
Qed.

Lemma run_bops_ok bound ops : ∀ all s,
  delivering bound all s → (0 < bound)%nat → Z.of_nat (length all + length ops) <= U64_MAX →
  ∃ s', run_bops ops s = Done s' ∧ delivering bound (all ++ sends ops) s'.
Proof.
  induction ops as [|op ops IH]; intros all s Hd Hb Hlen; cbn [run_bops length] in *.
  { exists s. unfold sends. cbn. by rewrite app_nil_r. }
  destruct op as [t|]; cbn [run_bop].
  - destruct (thread_send_ok bound t all s Hd ltac:(lia)) as (s1 & -> & H1). cbn [mbind outcome_bind].
    destruct (IH _ s1 H1 Hb) as (s2 & E & H2); [rewrite length_app; cbn; lia|]. exists s2. split; [done|].
    unfold sends in *. cbn. by rewrite <- app_assoc in H2.
  - destruct (receive_ok bound all s Hd Hb ltac:(lia)) as (s1 & -> & H1 & _). cbn [mbind outcome_bind].
    destruct (IH _ s1 H1 Hb) as (s2 & E & H2); [lia|]. exists s2. by split.
Qed.

Lemma drain_bops bound k : ∀ all s,
  delivering bound all s → (0 < bound)%nat → Z.of_nat (length all) <= U64_MAX →
  (length (m_queue (mpsc (k_chan s)) ++ k_blocked s) ≤ k)%nat →
  ∃ s', run_bops (replicate k BRecv) s = Done s' ∧ k_recv s' = all ∧ k_blocked s' = [].
Proof.
  induction k as [|k IH]; intros all s Hd Hb Hlen Hk; cbn [replicate run_bops].
  { exists s. split; [done|]. destruct Hd as [_ _ _ Ha]. destruct (m_queue _), (k_blocked s); cbn in Hk; try lia. by rewrite !app_nil_r in Ha. }
  destruct (receive_ok bound all s Hd Hb Hlen) as (s1 & E & H1 & Hn). cbn [run_bop]. rewrite E. cbn [mbind outcome_bind].
  apply IH; [done..|]. rewrite Hn. lia.
Qed.

Lemma run_bops_app ops1 ops2 s : run_bops (ops1 ++ ops2) s = run_bops ops1 s ≫= run_bops ops2.
Proof. revert s. induction ops1 as [|op ops IH]; intros s; cbn; [done|]. destruct (run_bop op s); [apply IH|done..]. Qed.

(** C18: a bounded channel with a buffer: however sends and receives alternate, if the
    receiver then goes on to receive when it is readable it gets all messages, each
    once and in the order the sends were called, and no thread stays blocked. *)
Theorem blocked_sends_get_through (bound : nat) (p : P) (token : Token) (interest : Ready.t) (opts : PollOpt.t) (w : W) (ops : list (BOp T)) (k : nat) :
  rd_ok w → (0 < bound)%nat → (length (sends ops) ≤ k)%nat → Z.of_nat (length ops) <= U64_MAX →
  ∃ s0 s, registered_channel bound p token interest opts w = Done s0 ∧
    run_bops (ops ++ replicate k BRecv) s0 = Done s ∧ k_recv s = sends ops ∧ k_blocked s = [].
Proof.
  intros Hw Hb Hk Hlen. destruct (live_register bound p token interest opts w Hw) as (s0 & E0 & Hl & Hq & Hbl & Hrc).
  assert (delivering bound [] s0) as Hd by (split; rewrite ?Hq, ?Hbl, ?Hrc; cbn; try done; lia).
  destruct (run_bops_ok bound ops [] s0 Hd Hb) as (s1 & E1 & H1); [cbn; lia|]. cbn in H1.
  assert (length (sends ops) ≤ length ops)%nat as Hle by (apply length_omap_le || (unfold sends; clear; induction ops as [|[] ? ?]; cbn; lia)).
  destruct (drain_bops bound k (sends ops) s1 H1 Hb) as (s2 & E2 & Hr & Hbl2); [lia| |].
  { destruct H1 as [_ _ _ Ha]. rewrite <- Ha, length_app in Hk. lia. }
  exists s0, s2. split; [done|]. rewrite run_bops_app, E1. cbn [mbind outcome_bind]. done.
Qed.

(** ** Without a buffer *)

Lemma rendezvous_step op s : chan_live 0 (k_chan s) → m_queue (mpsc (k_chan s)) = [] →
  run_bop op s = Done (mkBlocking (k_chan s) (k_blocked s ++ sends [op]) (k_recv s)).
Proof.
  intros Hl Hq. destruct op as [t|]; cbn.
  - unfold thread_send. rewrite (live_full 0 t _ Hl); [done|lia].
  - unfold receive. rewrite (readable_ok _ _ Hl), Hq. cbn. rewrite app_nil_r. by destruct s.
Qed.

(** a channel with bound 0: every send blocks for good, and a receiver that waits
    to become readable never receives anything. *)
Theorem rendezvous_sends_block (p : P) (token : Token) (interest : Ready.t) (opts : PollOpt.t) (w : W) (ops : list (BOp T)) :
  rd_ok w →
  ∃ s0 s, registered_channel 0 p token interest opts w = Done s0 ∧ run_bops ops s0 = Done s ∧
    k_blocked s = sends ops ∧ k_recv s = [] ∧ readable (k_chan s) = Done false.
Proof.
  intros Hw. destruct (live_register 0 p token interest opts w Hw) as (s0 & E0 & Hl & Hq & Hbl & Hrc).
  exists s0. assert (∀ ops s, chan_live 0 (k_chan s) → m_queue (mpsc (k_chan s)) = [] →
    run_bops ops s = Done (mkBlocking (k_chan s) (k_blocked s ++ sends ops) (k_recv s))) as Hrun.
  { clear -cell_laws rd_laws reg_laws. induction ops as [|op ops IH]; intros s Hl Hq; cbn [run_bops]; [unfold sends; cbn; rewrite app_nil_r; by destruct s|].
    rewrite (rendezvous_step op s Hl Hq). cbn [mbind outcome_bind]. rewrite IH by done. cbn. unfold sends. cbn. do 2 f_equal.
    rewrite <- app_assoc. f_equal. by destruct op. }
  eexists. split; [done|]. split; [by apply Hrun|]. cbn. rewrite Hbl, Hrc, (readable_ok _ _ Hl), Hq. done.
Qed.
End blocking.

(** ** On the readiness queue of poll.rs *)

Definition five_sends : list (BOp Z) := [BSend 1; BSend 2; BSend 3; BRecv; BSend 4; BSend 5].
Abbreviation new_channel bound := (registered_channel (C:=option) (T:=Z) (R:=RegistrationInner) (H:=RegistrationInner) bound 7 (mkToken 3) Ready.readable PollOpt.edge q0).

Lemma blocked_sends_get_through_witness :
  ∃ s0 s, new_channel 2 = Done s0 ∧ run_bops (five_sends ++ replicate 5 BRecv) s0 = Done s ∧ k_recv s = [1; 2; 3; 4; 5] ∧ k_blocked s = [].
Proof.
  apply (blocked_sends_get_through (C:=option) (R:=RegistrationInner) (H:=RegistrationInner) 2 7 (mkToken 3) Ready.readable PollOpt.edge q0 five_sends 5).
  - exact q0_wf.
  - lia.
  - cbn. lia.
  - vm_compute. discriminate.
Defined.

(** With room for two, two threads are blocked in the middle of that run. *)
Example two_threads_blocked :
  match new_channel 2 ≫= run_bops five_sends with Done s => k_blocked s = [4; 5] ∧ k_recv s = [1] | _ => False end.
Proof. vm_compute. auto. Qed.

Lemma rendezvous_sends_block_witness :
  ∃ s0 s, new_channel 0 = Done s0 ∧ run_bops five_sends s0 = Done s ∧ k_blocked s = [1; 2; 3; 4; 5] ∧ k_recv s = [] ∧ readable (k_chan s) = Done false.
Proof.
  apply (rendezvous_sends_block (C:=option) (R:=RegistrationInner) (H:=RegistrationInner) 7 (mkToken 3) Ready.readable PollOpt.edge q0 five_sends).
  exact q0_wf.
Defined.
