(* ===== verification/Epoll.v ===== *)
(** * sys/unix/epoll.rs: the selector of Linux and Android

    The kernel is an interface: its calls ([EpollSys]) and the values of the
    constants of libc ([EpollConsts]), of which only the documented facts are
    assumed ([EpollConstLaws]: eight different bits of a 32-bit word).  [c_int]
    words are written as their 32-bit patterns; the code only combines them
    bitwise, so the sign plays no part. *)

From S2P Require Import Prelude Event Convert Iface Poll.

(** ** libc *)

Inductive Flag : Type := IN | PRI | OUT | ERR | HUP | RDHUP | ONESHOT | ET.
#[export] Instance Flag_eq_dec : EqDecision Flag.
Proof. solve_decision. Defined.

Class EpollConsts : Type := { epoll_const : Flag → Z }.
Class EpollConstLaws `{EpollConsts} : Prop := {
  epoll_const_bit f : ∃ k, 0 <= k < 32 ∧ epoll_const f = 2 ^ k;
  epoll_const_inj f g : epoll_const f = epoll_const g → f = g }.

Record epoll_event : Type := mkEpollEvent { ee_events : Z; ee_u64 : Z }.
#[export] Instance epoll_event_eq_dec : EqDecision epoll_event.
Proof. solve_decision. Defined.

Inductive CtlOp : Type := EPOLL_CTL_ADD | EPOLL_CTL_MOD | EPOLL_CTL_DEL.

(** The calls return their [c_int]; [epoll_wait] also what it wrote. *)
Class EpollSys (K : Type) : Type := {
  k_errno : K → Z;
  k_has_epoll_create1 : K → bool;
  k_epoll_create1 : K → Z * K;
  k_epoll_create : Z → K → Z * K;
  k_ioctl_fioclex : Z → K → Z * K;
  k_epoll_ctl : Z → CtlOp → Z → epoll_event → K → Z * K;
  k_epoll_wait : Z → Z → Z → K → (Z * list epoll_event) * K;
  k_close : Z → K → Z * K }.

(** [epoll_wait] fills as many entries as it returns, at most the number asked for. *)
Class EpollSysLaws (K : Type) `{EpollSys K} : Prop := {
  k_epoll_wait_count epfd cap ms k cnt evs k' :
    k_epoll_wait epfd cap ms k = ((cnt, evs), k') →
    cnt = -1 ∨ (cnt = Z.of_nat (length evs) ∧ cnt <= cap) }.

(** How a [Vec] grows when it is full. *)
Class VecGrowth : Type := { vec_grow : Z → Z }.

(** ** sys/unix/mod.rs *)

Section epoll.
Context {K : Type} {sys : EpollSys K} {consts : EpollConsts} {growth : VecGrowth}.

Definition is_minus_one (t : Z) : bool := t =? -1.
Definition cvt (t : Z) : M K (io_result Z) := λ k,
  Done (if is_minus_one t then Err (io_os (k_errno k)) else Ok t, k).

(** A call of the kernel. *)
Definition syscall {X} (f : K → X * K) : M K X := λ k, Done (f k).

Definition set_cloexec (fd : Z) : M K (io_result unit) :=
  r ← syscall (k_ioctl_fioclex fd);
  res ← cvt r;
  mret (result_map (λ _, tt) res).

(** ** Events *)

Definition EPOLLIN := epoll_const IN.
Definition EPOLLPRI := epoll_const PRI.
Definition EPOLLOUT := epoll_const OUT.
Definition EPOLLERR := epoll_const ERR.
Definition EPOLLHUP := epoll_const HUP.
Definition EPOLLRDHUP := epoll_const RDHUP.
Definition EPOLLONESHOT := epoll_const ONESHOT.
Definition EPOLLET := epoll_const ET.

Definition not32 (x : Z) : Z := Z.lxor x U32_MAX.

Definition ioevent_to_epoll (interest : Ready.t) (opts : PollOpt.t) : Z :=
  let kind := 0 in
  let kind := if Ready.is_readable interest
              then if PollOpt.is_urgent opts then Z.lor kind EPOLLPRI else Z.lor kind EPOLLIN
              else kind in
  let kind := if Ready.is_writable interest then Z.lor kind EPOLLOUT else kind in
  let kind := if Ready.is_hup interest then Z.lor kind EPOLLRDHUP else kind in
  let kind := if PollOpt.is_edge opts then Z.lor kind EPOLLET else kind in
  let kind := if PollOpt.is_oneshot opts then Z.lor kind EPOLLONESHOT else kind in
  if PollOpt.is_level opts then Z.land kind (not32 EPOLLET) else kind.

Record EpollEvents : Type := mkEpollEvents { events : list epoll_event; capacity : Z }.

Definition with_capacity (u : Z) : EpollEvents := mkEpollEvents [] u.
Definition len (e : EpollEvents) : Z := Z.of_nat (length (events e)).
Definition is_empty (e : EpollEvents) : bool := match events e with [] => true | _ => false end.

Definition nonzero (x : Z) : bool := negb (x =? 0).

Definition epoll_to_ready (epoll : Z) : Ready.t :=
  let kind := Ready.none in
  let kind := if nonzero (Z.land epoll EPOLLIN) || nonzero (Z.land epoll EPOLLPRI)
              then kind |ᵣ Ready.readable else kind in
  let kind := if nonzero (Z.land epoll EPOLLOUT) then kind |ᵣ Ready.writable else kind in
  let kind := if nonzero (Z.land epoll EPOLLERR) then kind |ᵣ Ready.error else kind in
  if nonzero (Z.land epoll EPOLLRDHUP) || nonzero (Z.land epoll EPOLLHUP)
  then kind |ᵣ Ready.hup else kind.

Definition get (e : EpollEvents) (idx : Z) : option Event.t :=
  (λ event, Event.new (epoll_to_ready (ee_events event)) (mkToken (ee_u64 event))) <$> events e !! Z.to_nat idx.

Definition push_event (event : Event.t) (e : EpollEvents) : EpollEvents :=
  mkEpollEvents
    (events e ++ [mkEpollEvent (ioevent_to_epoll (Event.kind event) PollOpt.empty) (usize_from_token (Event.token event))])
    (if len e <? capacity e then capacity e else vec_grow (capacity e)).

(** ** Selector *)

Record Selector : Type := mkSelector { id : Z; epfd : Z }.

(** The counter [NEXT_ID] is the first component of the state. *)
Definition on_kernel {X} (m : M K X) : M (Z * K) X := λ '(next_id, k),
  '(x, k) ← m k; Done (x, (next_id, k)).

Definition create_epfd : M K (io_result Z) :=
  has ← gets k_has_epoll_create1;
  if has : bool
  then r ← syscall k_epoll_create1; cvt r
  else
    r ← syscall (k_epoll_create 1024);
    fd ←? cvt r;
    _ ← set_cloexec fd;
    mret (Ok fd).

Definition Selector_new : M (Z * K) (io_result Selector) :=
  epfd ←? on_kernel create_epfd;
  next_id ← gets fst;
  _ ← modify (λ st, (wrap64 (next_id + 1), snd st));
  id ← lift (add64 next_id 1);
  mret (Ok (mkSelector id epfd)).

(** The timeout in milliseconds: [-1] waits forever. *)
Definition timeout_ms (timeout : option Duration) : outcome Z :=
  match timeout with
  | Some to => ms ← millis to; Done (Z.min ms I32_MAX)
  | None => Done (-1)
  end.

(** [x as i32]. *)
Definition as_i32 (x : Z) : Z := (x + 2147483648) mod 4294967296 - 2147483648.

(** The loop of [select]: the first event of the awakener is removed. *)
Fixpoint take_awakener (awakener : Token) (evs : list epoll_event) : bool * list epoll_event :=
  match evs with
  | [] => (false, [])
  | e :: rest =>
      if ee_u64 e =? usize_from_token awakener then (true, rest)
      else let (found, rest) := take_awakener awakener rest in (found, e :: rest)
  end.

Definition select (s : Selector) (evts : EpollEvents) (awakener : Token) (timeout : option Duration)
    : M K (io_result bool * EpollEvents) :=
  ms ← lift (timeout_ms timeout);
  r ← syscall (k_epoll_wait (epfd s) (as_i32 (capacity evts)) ms);
  let '(cnt, written) := r in
  res ← cvt cnt;
  match res with
  | Err e => mret (Err e, mkEpollEvents [] (capacity evts))
  | Ok cnt =>
      let (found, rest) := take_awakener awakener (take (Z.to_nat cnt) written) in
      mret (Ok found, mkEpollEvents rest (capacity evts))
  end.

Definition ctl (op : CtlOp) (s : Selector) (fd : Z) (info : epoll_event) : M K (io_result unit) :=
  r ← syscall (k_epoll_ctl (epfd s) op fd info);
  try! cvt r;
  mret (Ok tt).

Definition Selector_register (s : Selector) (fd : Z) (token : Token) (interests : Ready.t) (opts : PollOpt.t) : M K (io_result unit) :=
  ctl EPOLL_CTL_ADD s fd (mkEpollEvent (ioevent_to_epoll interests opts) (usize_from_token token)).
Definition Selector_reregister (s : Selector) (fd : Z) (token : Token) (interests : Ready.t) (opts : PollOpt.t) : M K (io_result unit) :=
  ctl EPOLL_CTL_MOD s fd (mkEpollEvent (ioevent_to_epoll interests opts) (usize_from_token token)).
Definition Selector_deregister (s : Selector) (fd : Z) : M K (io_result unit) :=
  ctl EPOLL_CTL_DEL s fd (mkEpollEvent 0 0).
Definition Selector_drop (s : Selector) : M K unit :=
  _ ← syscall (k_close (epfd s)); mret tt.

(** ** The interface of poll.rs *)

#[export] Instance epoll_events_ops : SysEventsOps EpollEvents := {
  ev_with_capacity := with_capacity;
  ev_len := len;
  ev_is_empty := is_empty;
  ev_get := get;
  ev_push := push_event }.

(** A selector and the kernel it calls. *)
#[export] Instance epoll_selector_ops : SelectorOps (Selector * K) EpollEvents := {
  sel_select evts awakener timeout := λ '(s, k),
    '(r, k) ← select s evts awakener timeout k; Done (r, (s, k)) }.
End epoll.
