(* ===== verification/EpollThm.v ===== *)
(** * Theorems about the epoll selector *)

From S2P Require Import Prelude Event Convert Iface Poll Epoll.

Section flags.
Context {consts : EpollConsts} {laws : EpollConstLaws}.

(** Is a flag set in a word? *)
Definition has (v : Z) (f : Flag) : bool := nonzero (Z.land v (epoll_const f)).

Lemma land_pow2 v k : 0 <= k → Z.land v (2 ^ k) = if Z.testbit v k then 2 ^ k else 0.
Proof.
  intros Hk. apply Z.bits_inj'. intros i Hi. rewrite Z.land_spec, Z.pow2_bits_eqb by done.
  destruct (k =? i) eqn:E; zbool; subst.
  - rewrite andb_true_r. destruct (Z.testbit v i); [by rewrite Z.pow2_bits_true|by rewrite Z.bits_0].
  - rewrite andb_false_r. destruct (Z.testbit v k); [by rewrite Z.pow2_bits_false|by rewrite Z.bits_0].
Qed.

Lemma has_testbit v f k : 0 <= k → epoll_const f = 2 ^ k → has v f = Z.testbit v k.
Proof.
  intros Hk E. unfold has, nonzero. rewrite E, land_pow2 by done. destruct (Z.testbit v k); [|done].
  apply negb_true_iff, Z.eqb_neq. pose proof (Z.pow_pos_nonneg 2 k). lia.
Qed.

Lemma has_zero f : has 0 f = false.
Proof. done. Qed.

Lemma has_lor a b f : has (Z.lor a b) f = has a f || has b f.
Proof. destruct (epoll_const_bit f) as (k & Hk & E). rewrite !(has_testbit _ f k) by (done || lia). apply Z.lor_spec. Qed.

Lemma has_const f g : has (epoll_const g) f = bool_decide (f = g).
Proof.
  destruct (epoll_const_bit f) as (k & Hk & E), (epoll_const_bit g) as (j & Hj & E').
  rewrite (has_testbit _ f k), E', Z.pow2_bits_eqb by (done || lia). apply eq_true_iff_eq. rewrite bool_decide_eq_true, Z.eqb_eq.
  split; [intros ->; apply epoll_const_inj; congruence|intros ->].
  apply (Z.pow_inj_r 2); [lia|lia|lia|congruence].
Qed.

Lemma has_clear a f g : has (Z.land a (not32 (epoll_const g))) f = has a f && bool_decide (f ≠ g).
Proof.
  destruct (epoll_const_bit f) as (k & Hk & E). rewrite !(has_testbit _ f k) by (done || lia).
  rewrite Z.land_spec. f_equal. unfold not32. rewrite Z.lxor_spec.
  replace (Z.testbit U32_MAX k) with true by (change U32_MAX with (Z.ones 32); by rewrite Z.ones_spec_low by lia).
  rewrite <- (has_testbit _ f k), has_const by (done || lia).
  repeat case_bool_decide; done.
Qed.

Lemma lor_u32 a b : is_u32 a → is_u32 b → is_u32 (Z.lor a b).
Proof.
  unfold is_u32, U32_MAX. intros Ha Hb.
  assert (Z.lor a b mod 2 ^ 32 = Z.lor a b) as E.
  { rewrite <- Z.land_ones, Z.land_lor_distr_l, !Z.land_ones, !Z.mod_small by lia. done. }
  rewrite <- E. pose proof (Z.mod_pos_bound (Z.lor a b) (2 ^ 32) ltac:(lia)). lia.
Qed.

Lemma land_u32 a b : is_u32 a → is_u32 (Z.land a b).
Proof.
  unfold is_u32, U32_MAX. intros Ha.
  assert (Z.land a b mod 2 ^ 32 = Z.land a b) as E.
  { rewrite <- Z.land_ones by lia. rewrite <- Z.land_assoc, (Z.land_comm b), Z.land_assoc.
    rewrite Z.land_ones, Z.mod_small by lia. done. }
  rewrite <- E. pose proof (Z.mod_pos_bound (Z.land a b) (2 ^ 32) ltac:(lia)). lia.
Qed.

Lemma const_u32 f : is_u32 (epoll_const f).
Proof.
  destruct (epoll_const_bit f) as (k & Hk & ->). unfold is_u32, U32_MAX.
  pose proof (Z.pow_le_mono_r 2 k 31 ltac:(lia) ltac:(lia)). pose proof (Z.pow_pos_nonneg 2 k). lia.
Qed.

(** What is asked of the kernel, flag by flag. *)
Definition wanted (interest : Ready.t) (opts : PollOpt.t) (f : Flag) : bool :=
  match f with
  | IN => Ready.is_readable interest && negb (PollOpt.is_urgent opts)
  | PRI => Ready.is_readable interest && PollOpt.is_urgent opts
  | OUT => Ready.is_writable interest
  | RDHUP => Ready.is_hup interest
  | ET => PollOpt.is_edge opts && negb (PollOpt.is_level opts)
  | ONESHOT => PollOpt.is_oneshot opts
  | ERR | HUP => false
  end.

Lemma has_ioevent interest opts f : has (ioevent_to_epoll interest opts) f = wanted interest opts f.
Proof.
  unfold ioevent_to_epoll, EPOLLPRI, EPOLLIN, EPOLLOUT, EPOLLRDHUP, EPOLLET, EPOLLONESHOT.
  destruct (Ready.is_readable interest) eqn:E1, (PollOpt.is_urgent opts) eqn:E2, (Ready.is_writable interest) eqn:E3,
    (Ready.is_hup interest) eqn:E4, (PollOpt.is_edge opts) eqn:E5, (PollOpt.is_oneshot opts) eqn:E6, (PollOpt.is_level opts) eqn:E7;
    rewrite ?has_clear, ?has_lor, ?has_const, ?has_zero; unfold wanted; rewrite ?E1, ?E2, ?E3, ?E4, ?E5, ?E6, ?E7; by destruct f.
Qed.

(** the event mask handed to [epoll_ctl] is a 32-bit word with exactly the
    bits the interest and the options ask for: urgent readable interest selects
    the priority band only, level overrides edge. *)
Theorem ioevent_to_epoll_bits (interest : Ready.t) (opts : PollOpt.t) :
  is_u32 (ioevent_to_epoll interest opts) ∧
  (∀ f, has (ioevent_to_epoll interest opts) f = wanted interest opts f) ∧
  (∀ i, 0 <= i → (∀ f, epoll_const f ≠ 2 ^ i) → Z.testbit (ioevent_to_epoll interest opts) i = false).
Proof.
  split; [|split; [apply has_ioevent|]].
  - unfold ioevent_to_epoll. assert (is_u32 0) by (unfold is_u32, U32_MAX; lia).
    repeat case_match; repeat first [apply land_u32|apply lor_u32|apply const_u32]; done.
  - intros i Hi Hf.
    assert (∀ f, Z.testbit (epoll_const f) i = false) as Hb.
    { intros f. destruct (epoll_const_bit f) as (k & Hk & E). rewrite E. apply Z.pow2_bits_false. intros ->. by apply (Hf f). }
    unfold ioevent_to_epoll, EPOLLPRI, EPOLLIN, EPOLLOUT, EPOLLRDHUP, EPOLLET, EPOLLONESHOT.
    repeat case_match; rewrite ?Z.land_spec, ?Z.lor_spec, ?Hb, ?Z.bits_0; done.
Qed.

(** What the events of the kernel mean: these flags and no others. *)
Lemma epoll_to_ready_flags v :
  Ready.is_readable (epoll_to_ready v) = has v IN || has v PRI ∧ Ready.is_writable (epoll_to_ready v) = has v OUT ∧
  Ready.is_error (epoll_to_ready v) = has v ERR ∧ Ready.is_hup (epoll_to_ready v) = has v RDHUP || has v HUP ∧
  0 <= Ready.val (epoll_to_ready v) < 16.
Proof.
  unfold epoll_to_ready, EPOLLIN, EPOLLPRI, EPOLLOUT, EPOLLERR, EPOLLRDHUP, EPOLLHUP.
  fold (has v IN) (has v PRI) (has v OUT) (has v ERR) (has v RDHUP) (has v HUP).
  destruct (has v IN || has v PRI), (has v OUT), (has v ERR), (has v RDHUP || has v HUP); repeat split; vm_compute; (reflexivity || congruence).
Qed.

(** What survives in the buffer of events. *)
Definition kept : Ready.t := Ready.readable |ᵣ Ready.writable |ᵣ Ready.hup.

Lemma small_bits v i : 0 <= v < 16 → 4 <= i → Z.testbit v i = false.
Proof.
  intros Hv Hi. destruct (decide (v = 0)) as [->|]; [apply Z.bits_0|]. apply Z.bits_above_log2; [lia|].
  assert (Z.log2 v < 4) by (apply Z.log2_lt_pow2; lia). lia.
Qed.

Lemma pushed_kind kind : epoll_to_ready (ioevent_to_epoll kind PollOpt.empty) = kind &ᵣ kept.
Proof.
  destruct (epoll_to_ready_flags (ioevent_to_epoll kind PollOpt.empty)) as (Hr & Hw & He & Hh & Hb).
  repeat setoid_rewrite has_ioevent in Hr. rewrite has_ioevent in Hw, He. repeat setoid_rewrite has_ioevent in Hh. cbn [wanted] in Hr, Hw, He, Hh.
  change (PollOpt.is_urgent PollOpt.empty) with false in Hr. cbn [negb] in Hr.
  rewrite andb_true_r, andb_false_r, orb_false_r in Hr. rewrite orb_false_r in Hh.
  rewrite !is_readable_bit in Hr. rewrite !is_writable_bit in Hw. rewrite is_error_bit in He. rewrite !is_hup_bit in Hh.
  apply Ready_ext. intros i Hi. rewrite rbit_bitand. destruct (decide (i < 4)).
  - assert (i = 0 ∨ i = 1 ∨ i = 2 ∨ i = 3) as [->|[->|[->| ->]]] by lia;
      rewrite ?Hr, ?Hw, ?He, ?Hh; change (rbit kept 0) with true; change (rbit kept 1) with true;
      change (rbit kept 2) with false; change (rbit kept 3) with true; by rewrite ?andb_true_r, ?andb_false_r.
  - unfold rbit. rewrite (small_bits _ _ Hb), (small_bits (Ready.val kept)), andb_false_r by (done || lia). done.
Qed.

(** an event of the readiness queue that is stored in the buffer of epoll
    events is read back with its token and with its readable, writable and hup
    flags; the events before it are unchanged. *)
Theorem push_get {growth : VecGrowth} (event : Event.t) (e : EpollEvents) :
  get (push_event event e) (len e) = Some (Event.new (Event.kind event &ᵣ kept) (Event.token event)) ∧
  len (push_event event e) = len e + 1 ∧
  ∀ i, 0 <= i < len e → get (push_event event e) i = get e i.
Proof.
  unfold get, push_event, len. cbn. rewrite length_app. cbn. split; [|split; [lia|]].
  - rewrite list_lookup_middle by lia. cbn. rewrite pushed_kind. by destruct event as [? []].
  - intros i Hi. by rewrite lookup_app_l by lia.
Qed.
End flags.

(** ** select *)

Definition is_awk (awakener : Token) (e : epoll_event) : Prop := ee_u64 e = usize_from_token awakener.
#[export] Instance is_awk_dec awakener e : Decision (is_awk awakener e).
Proof. unfold is_awk. apply _. Defined.

Lemma take_awakener_spec awakener evs :
  let (found, rest) := take_awakener awakener evs in
  found = bool_decide (Exists (is_awk awakener) evs) ∧
  filter (λ e, ¬ is_awk awakener e) rest = filter (λ e, ¬ is_awk awakener e) evs ∧
  length (filter (is_awk awakener) rest) = pred (length (filter (is_awk awakener) evs)).
Proof.
  induction evs as [|e evs IH]; cbn [take_awakener]; [by rewrite bool_decide_eq_false_2 by (by intros ?%Exists_nil)|].
  destruct (ee_u64 e =? usize_from_token awakener) eqn:E; zbool.
  - rewrite bool_decide_eq_true_2 by (by left). split; [done|].
    rewrite (filter_cons_False _ e) by (intros Hn; by apply Hn). rewrite (filter_cons_True _ e) by done. done.
  - destruct (take_awakener awakener evs) as [found rest]. destruct IH as (Hf & Hn & Hl).
    assert (¬ is_awk awakener e) as Hne by done.
    rewrite (filter_cons_True (λ e, ¬ is_awk awakener e) e) by done. rewrite (filter_cons_True (λ e, ¬ is_awk awakener e) e evs) by done.
    rewrite !(filter_cons_False (is_awk awakener) e) by done. split; [|split; [by rewrite Hn|done]].
    rewrite Hf. apply bool_decide_ext. rewrite Exists_cons. tauto.
Qed.

Section select.
Context {K : Type} {sys : EpollSys K} {laws : EpollSysLaws K}.

(** [select] asks the kernel for at most the capacity of the buffer and
    returns its error, with an empty buffer, or what it reported: every event
    that is not the awakener's is kept, in order, and the answer tells whether
    the awakener's was among them; if the kernel reports it at most once, the
    user never sees it. *)
Theorem select_spec (s : Selector) (evts : EpollEvents) awakener timeout ms k cnt written k' :
  timeout_ms timeout = Done ms →
  k_epoll_wait (epfd s) (as_i32 (capacity evts)) ms k = ((cnt, written), k') →
  if decide (cnt = -1)
  then select s evts awakener timeout k = Done ((Err (io_os (k_errno k')), mkEpollEvents [] (capacity evts)), k')
  else ∃ found rest,
    select s evts awakener timeout k = Done ((Ok found, mkEpollEvents rest (capacity evts)), k') ∧
    (found = true ↔ ∃ e, e ∈ written ∧ is_awk awakener e) ∧
    filter (λ e, ¬ is_awk awakener e) rest = filter (λ e, ¬ is_awk awakener e) written ∧
    ((length (filter (is_awk awakener) written) <= 1)%nat → ∀ e, e ∈ rest → ¬ is_awk awakener e).
Proof.
  intros Hms Hwait. unfold select, mbind, M_bind, lift, syscall, cvt, is_minus_one. rewrite Hms, Hwait. cbn.
  destruct (decide (cnt = -1)) as [->|Hne]; [done|]. replace (cnt =? -1) with false by lia.
  destruct (k_epoll_wait_count _ _ _ _ _ _ _ Hwait) as [|[Hc _]]; [done|]. rewrite take_ge by lia.
  pose proof (take_awakener_spec awakener written) as Ht. destruct (take_awakener awakener written) as [found rest].
  destruct Ht as (Hf & Hn & Hl). exists found, rest. split; [done|]. split; [|split; [done|]].
  - rewrite Hf, bool_decide_eq_true, Exists_exists. done.
  - intros H1 e He Hawk. assert (e ∈ filter (is_awk awakener) rest) as Hin by (by apply list_elem_of_filter).
    destruct (filter (is_awk awakener) rest); [by apply not_elem_of_nil in Hin|]. cbn in Hl. lia.
Qed.
End select.

(** C29: the timeout given to the kernel is in range, never shorter than the one
    asked for unless it saturates, and less than a millisecond longer; no timeout
    waits forever. *)
Theorem timeout_ms_spec (timeout : option Duration) :
  (∀ d, timeout = Some d → Duration_wf d) →
  ∃ ms, timeout_ms timeout = Done ms ∧ -1 <= ms <= I32_MAX ∧ (ms = -1 ↔ timeout = None) ∧
    ∀ d, timeout = Some d → ms = I32_MAX ∨ total_nanos d <= ms * NANOS_PER_MILLI < total_nanos d + NANOS_PER_MILLI.
Proof.
  intros Hwf. destruct timeout as [d|].
  - specialize (Hwf d eq_refl). cbn. rewrite millis_value by done. eexists. split; [reflexivity|].
    destruct (ceil_div_spec (total_nanos d) NANOS_PER_MILLI ltac:(done)) as [H1 H2].
    assert (0 <= total_nanos d) by (destruct Hwf as [[? _] [? _]]; unfold total_nanos, NANOS_PER_SEC; lia).
    assert (0 <= ceil_div (total_nanos d) NANOS_PER_MILLI) by (unfold NANOS_PER_MILLI in *; lia).
    unfold I32_MAX, U64_MAX. split; [lia|]. split; [split; [lia|done]|]. intros d' [= <-].
    unfold NANOS_PER_MILLI in *. lia.
  - exists (-1). split; [done|]. unfold I32_MAX. split; [lia|]. split; [done|]. by intros d.
Qed.

(** ** The constants of Linux and a kernel that plays back a script *)

#[export] Instance linux_consts : EpollConsts := {
  epoll_const f := match f with
    | IN => 0x1 | PRI => 0x2 | OUT => 0x4 | ERR => 0x8 | HUP => 0x10
    | RDHUP => 0x2000 | ONESHOT => 0x40000000 | ET => 0x80000000 end }.
#[export] Instance linux_const_laws : EpollConstLaws.
Proof.
  split.
  - intros f. exists (match f with IN => 0 | PRI => 1 | OUT => 2 | ERR => 3 | HUP => 4 | RDHUP => 13 | ONESHOT => 30 | ET => 31 end).
    destruct f; (split; [lia|reflexivity]).
  - by intros [] [].
Qed.

#[export] Instance doubling : VecGrowth := { vec_grow cap := Z.max 4 (2 * cap) }.

(** The kernel answers [epoll_wait] with the next list of events, cut to size. *)
Record scripted : Type := mkScripted { s_waits : list (list epoll_event); s_ctls : list (CtlOp * Z * epoll_event) }.
#[export] Instance scripted_sys : EpollSys scripted := {
  k_errno _ := 4;
  k_has_epoll_create1 _ := true;
  k_epoll_create1 k := (3, k);
  k_epoll_create _ k := (3, k);
  k_ioctl_fioclex _ k := (0, k);
  k_epoll_ctl _ op fd info k := (0, mkScripted (s_waits k) (s_ctls k ++ [(op, fd, info)]));
  k_epoll_wait _ cap _ k := match s_waits k with
    | [] => ((-1, []), k)
    | evs :: rest =>
        if cap <? 1 then ((-1, []), k)
        else ((Z.of_nat (length (take (Z.to_nat cap) evs)), take (Z.to_nat cap) evs), mkScripted rest (s_ctls k))
    end;
  k_close _ k := (0, k) }.
#[export] Instance scripted_laws : EpollSysLaws scripted.
Proof.
  split. intros epfd cap ms k cnt evs k'. cbn. destruct (s_waits k); [intros [= <- <- <-]; auto|].
  destruct (cap <? 1) eqn:E; intros [= <- <- <-]; [auto|]. zbool. right. split; [done|]. rewrite length_take. lia.
Qed.

Lemma ioevent_to_epoll_bits_witness :
  ioevent_to_epoll (Ready.readable |ᵣ Ready.hup) (PollOpt.edge |ₒ PollOpt.oneshot) = 0xC0002001 ∧
  has (ioevent_to_epoll (Ready.readable |ᵣ Ready.hup) (PollOpt.edge |ₒ PollOpt.oneshot)) ET = true.
Proof.
  split; [vm_compute; reflexivity|].
  rewrite (proj1 (proj2 (ioevent_to_epoll_bits (Ready.readable |ᵣ Ready.hup) (PollOpt.edge |ₒ PollOpt.oneshot)))).
  vm_compute. reflexivity.
Defined.

Lemma push_get_witness :
  get (push_event (Event.new Ready.readable (mkToken 5)) (with_capacity 8)) 0 = Some (Event.new Ready.readable (mkToken 5)).
Proof. apply (proj1 (push_get (Event.new Ready.readable (mkToken 5)) (with_capacity 8))). Defined.

(** An error reported by the readiness queue does not survive. *)
Example pushed_error_is_lost :
  get (push_event (Event.new Ready.error (mkToken 5)) (with_capacity 8)) 0 = Some (Event.new Ready.none (mkToken 5)).
Proof. vm_compute. reflexivity. Qed.

Definition three_events : list epoll_event := [mkEpollEvent 1 7; mkEpollEvent 1 USIZE_MAX; mkEpollEvent 4 8].

Lemma select_spec_witness :
  ∃ found rest,
    select (mkSelector 1 3) (with_capacity 8) (mkToken USIZE_MAX) None (mkScripted [three_events] [])
      = Done ((Ok found, mkEpollEvents rest 8), mkScripted [] []) ∧
    filter (λ e, ¬ is_awk (mkToken USIZE_MAX) e) rest = filter (λ e, ¬ is_awk (mkToken USIZE_MAX) e) three_events.
Proof.
  destruct (select_spec (sys:=scripted_sys) (mkSelector 1 3) (with_capacity 8) (mkToken USIZE_MAX) None (-1) (mkScripted [three_events] [])
    3 three_events (mkScripted [] []) eq_refl eq_refl) as (found & rest & H1 & _ & H2 & _).
  exists found, rest. exact (conj H1 H2).
Defined.

Lemma timeout_ms_spec_witness :
  timeout_ms (Some (mkDuration 1 500001)) = Done 1001 ∧
  ∃ ms, timeout_ms (Some (mkDuration 1 500001)) = Done ms ∧ -1 <= ms <= I32_MAX.
Proof.
  split; [vm_compute; reflexivity|].
  destruct (timeout_ms_spec (Some (mkDuration 1 500001))) as (ms & H1 & H2 & _).
  - intros d [= <-]. unfold Duration_wf, is_u64, U64_MAX, NANOS_PER_SEC. cbn. lia.
  - exists ms. exact (conj H1 H2).
Defined.
