(* ===== verification/Kqueue.v ===== *)
(** * sys/unix/kqueue.rs: the selector of the BSDs and macOS

    The kernel and the constants of libc are interfaces, as in [Epoll.v]; of the
    constants only what the code relies on is assumed ([KqConstLaws]). *)

From S2P Require Import Prelude Event Convert Iface Poll.

(** ** libc *)

Class KqConsts : Type := {
  EV_ADD : Z; EV_DELETE : Z; EV_ENABLE : Z; EV_DISABLE : Z; EV_CLEAR : Z; EV_ONESHOT : Z; EV_ERROR : Z; EV_EOF : Z;
  EVFILT_READ : Z; EVFILT_WRITE : Z;
  TIME_T_MAX : Z }.

Record kevent : Type := mkKevent { ident : Z; kfilter : Z; flags : Z; fflags : Z; kdata : Z; udata : Z }.
Record timespec : Type := mkTimespec { tv_sec : Z; tv_nsec : Z }.

(** [kevent(kq, changes, nchanges, events, nevents, timeout)]. *)
Class KqSys (K : Type) : Type := {
  kq_errno : K → Z;
  kq_kqueue : K → Z * K;
  kq_fioclex : Z → K → Z * K;
  kq_kevent : Z → list kevent → Z → option timespec → K → (Z * list kevent) * K;
  kq_close : Z → K → Z * K }.

(** It fills as many entries as it returns. *)
Class KqSysLaws (K : Type) `{KqSys K} : Prop := {
  kq_kevent_count kq ch cap ts k cnt evs k' :
    kq_kevent kq ch cap ts k = ((cnt, evs), k') → cnt = -1 ∨ cnt = Z.of_nat (length evs) }.

Section kqueue.
Context {K : Type} {sys : KqSys K} {consts : KqConsts}.

(** ** Events *)

Record KqEvents : Type := mkKqEvents {
  sys_events : list kevent;
  sys_capacity : Z;
  events : list Event.t;
  event_map : gmap Token nat }.

Definition with_capacity (cap : Z) : KqEvents := mkKqEvents [] cap [] ∅.
Definition len (e : KqEvents) : Z := Z.of_nat (length (events e)).
Definition is_empty (e : KqEvents) : bool := match events e with [] => true | _ => false end.
Definition get (e : KqEvents) (idx : Z) : option Event.t := events e !! Z.to_nat idx.
Definition push_event (event : Event.t) (e : KqEvents) : KqEvents :=
  mkKqEvents (sys_events e) (sys_capacity e) (events e ++ [event]) (event_map e).

Definition nonzero (x : Z) : bool := negb (x =? 0).

(** [kind_mut(&mut events[idx]).insert(r)]; indexing past the end panics. *)
Definition insert_at (idx : nat) (r : Ready.t) (evs : list Event.t) : outcome (list Event.t) :=
  match evs !! idx with
  | Some e => Done (<[idx := kind_mut (λ k, Ready.insert k r) e]> evs)
  | None => Panic
  end.
Definition insert_if (b : bool) (idx : nat) (r : Ready.t) (evs : list Event.t) : outcome (list Event.t) :=
  if b then insert_at idx r evs else Done evs.

(** The flags a kernel event adds to its entry. *)
Definition mark (e : kevent) (idx : nat) (evs : list Event.t) : outcome (list Event.t) :=
  evs ← insert_if (nonzero (Z.land (flags e) EV_ERROR)) idx Ready.error evs;
  evs ← (if kfilter e =? EVFILT_READ then insert_at idx Ready.readable evs
         else if kfilter e =? EVFILT_WRITE then insert_at idx Ready.writable evs else Done evs);
  if nonzero (Z.land (flags e) EV_EOF)
  then evs ← insert_at idx Ready.hup evs; insert_if (nonzero (fflags e)) idx Ready.error evs
  else Done evs.

(** The body of the loop of [coalesce]. *)
Definition coalesce_one (awakener : Token) (e : kevent) (st : bool * list Event.t * gmap Token nat)
    : outcome (bool * list Event.t * gmap Token nat) :=
  let '(ret, evs, emap) := st in
  let token := mkToken (udata e) in
  let len := length evs in
  if decide (token = awakener) then Done (true, evs, emap)
  else
    let (idx, emap) := match emap !! token with Some i => (i, emap) | None => (len, <[token := len]> emap) end in
    let evs := if decide (idx = len) then evs ++ [Event.new Ready.none token] else evs in
    evs ← mark e idx evs;
    Done (ret, evs, emap).

Fixpoint coalesce_loop (awakener : Token) (l : list kevent) (st : bool * list Event.t * gmap Token nat)
    : outcome (bool * list Event.t * gmap Token nat) :=
  match l with [] => Done st | e :: l => st ← coalesce_one awakener e st; coalesce_loop awakener l st end.

Definition coalesce (awakener : Token) : M KqEvents bool := λ e,
  '(ret, evs, emap) ← coalesce_loop awakener (sys_events e) (false, [], ∅);
  Done (ret, mkKqEvents (sys_events e) (sys_capacity e) evs emap).

(** ** Selector *)

Record KqSelector : Type := mkKqSelector { id : Z; kq : Z; changes : list kevent }.

(** The selector with the kernel behind it. *)
Abbreviation KM := (M (KqSelector * K)).

Definition is_minus_one (t : Z) : bool := t =? -1.
Definition cvt (t : Z) : KM (io_result Z) := λ st,
  Done (if is_minus_one t then Err (io_os (kq_errno (snd st))) else Ok t, st).
Definition syscall {X} (f : K → X * K) : KM X := λ '(s, k), let (x, k) := f k in Done (x, (s, k)).
Definition set_changes (l : list kevent) : KM unit := modify (λ '(s, k), (mkKqSelector (id s) (kq s) l, k)).

(** [Selector::new]: the id is taken before the kernel is asked for a queue; the
    first component of the state is [NEXT_ID]. *)
Definition create_kq (id : Z) : M (Z * K) (io_result KqSelector) := λ '(n, k),
  let (fd, k) := kq_kqueue k in
  if is_minus_one fd then Done (Err (io_os (kq_errno k)), (n, k))
  else let (_, k) := kq_fioclex fd k in Done (Ok (mkKqSelector id fd []), (n, k)).

Definition Selector_new : M (Z * K) (io_result KqSelector) :=
  next_id ← gets fst;
  _ ← modify (λ st, (wrap64 (next_id + 1), snd st));
  id ← lift (add64 next_id 1);
  create_kq id.

Definition to_timespec (to : Duration) : timespec :=
  mkTimespec (Z.min (as_secs to) TIME_T_MAX) (subsec_nanos to).

(** [x as i32]. *)
Definition as_i32 (x : Z) : Z := (x + 2147483648) mod 4294967296 - 2147483648.

Definition select (evts : KqEvents) (awakener : Token) (timeout : option Duration) : KM (io_result bool * KqEvents) :=
  fd ← gets (kq ∘ fst);
  r ← syscall (kq_kevent fd [] (as_i32 (sys_capacity evts)) (to_timespec <$> timeout));
  let '(cnt, written) := r in
  res ← cvt cnt;
  match res with
  | Err e => mret (Err e, evts)
  | Ok cnt =>
      _ ← set_changes [];
      let evts := mkKqEvents (take (Z.to_nat cnt) written) (sys_capacity evts) (events evts) (event_map evts) in
      r ← lift (coalesce awakener evts);
      mret (Ok (fst r), snd r)
  end.

Definition ev_push (fd token filter flags : Z) : KM unit :=
  modify (λ '(s, k), (mkKqSelector (id s) (kq s) (changes s ++ [mkKevent fd filter flags 0 0 token]), k)).

Definition ev_register (fd token filter : Z) (enable : bool) (opts : PollOpt.t) : KM unit :=
  let flags := EV_ADD in
  let flags := if enable then Z.lor flags EV_ENABLE else Z.lor flags EV_DISABLE in
  let flags := if PollOpt.contains opts PollOpt.edge then Z.lor flags EV_CLEAR else flags in
  let flags := if PollOpt.contains opts PollOpt.oneshot then Z.lor flags EV_ONESHOT else flags in
  ev_push fd token filter flags.

Definition flush_changes : KM (io_result unit) :=
  fd ← gets (kq ∘ fst);
  ch ← gets (changes ∘ fst);
  r ← syscall (kq_kevent fd ch 0 None);
  try! cvt (fst r);
  _ ← set_changes [];
  mret (Ok tt).

Definition Selector_register (fd : Z) (token : Token) (interests : Ready.t) (opts : PollOpt.t) : KM (io_result unit) :=
  _ ← ev_register fd (usize_from_token token) EVFILT_READ (Ready.contains interests Ready.readable) opts;
  _ ← ev_register fd (usize_from_token token) EVFILT_WRITE (Ready.contains interests Ready.writable) opts;
  flush_changes.

Definition Selector_reregister := Selector_register.

Definition Selector_deregister (fd : Z) : KM (io_result unit) :=
  _ ← ev_push fd 0 EVFILT_READ EV_DELETE;
  _ ← ev_push fd 0 EVFILT_WRITE EV_DELETE;
  flush_changes.

Definition Selector_drop : KM unit :=
  fd ← gets (kq ∘ fst); _ ← syscall (kq_close fd); mret tt.

(** ** The interface of poll.rs *)

#[export] Instance kqueue_events_ops : SysEventsOps KqEvents := {
  ev_with_capacity := with_capacity;
  ev_len := len;
  ev_is_empty := is_empty;
  ev_get := get;
  Poll.ev_push := push_event }.

#[export] Instance kqueue_selector_ops : SelectorOps (KqSelector * K) KqEvents := { sel_select := select }.
End kqueue.
