(* ===== verification/KqueueThm.v ===== *)
(** * Theorems about the kqueue selector *)

From S2P Require Import Prelude Event Convert Iface Poll Kqueue.

Section coalesce.
Context {consts : KqConsts}.

(** ** What the loop computes *)

Definition if_bit (b : bool) (r : Ready.t) : Z := if b then Ready.val r else 0.

(** The readiness one kernel event stands for. *)
Definition kevent_bits (e : kevent) : Z :=
  Z.lor (if_bit (nonzero (Z.land (flags e) EV_ERROR)) Ready.error)
    (Z.lor (if kfilter e =? EVFILT_READ then Ready.val Ready.readable
            else if_bit (kfilter e =? EVFILT_WRITE) Ready.writable)
      (if nonzero (Z.land (flags e) EV_EOF)
       then Z.lor (Ready.val Ready.hup) (if_bit (nonzero (fflags e)) Ready.error) else 0)).

Definition tok (e : kevent) : Token := mkToken (udata e).

(** The tokens, in the order of their first event, and the union of the events of one. *)
Definition add_token (awakener : Token) (acc : list Token) (e : kevent) : list Token :=
  if decide (tok e = awakener ∨ tok e ∈ acc) then acc else acc ++ [tok e].
Definition tokens_of (awakener : Token) (l : list kevent) : list Token := foldl (add_token awakener) [] l.
Definition merge (t : Token) (k : Z) (e : kevent) : Z := if decide (tok e = t) then Z.lor k (kevent_bits e) else k.
Definition merged (t : Token) (l : list kevent) : Z := foldl (merge t) 0 l.
Definition report (awakener : Token) (l : list kevent) : list Event.t :=
  (λ t, Event.new (Ready.mk (merged t l)) t) <$> tokens_of awakener l.

Lemma tokens_snoc awakener l e : tokens_of awakener (l ++ [e]) = add_token awakener (tokens_of awakener l) e.
Proof. unfold tokens_of. by rewrite foldl_app. Qed.
Lemma merged_snoc t l e : merged t (l ++ [e]) = merge t (merged t l) e.
Proof. unfold merged. by rewrite foldl_app. Qed.

Lemma tokens_spec awakener l :
  NoDup (tokens_of awakener l) ∧ ∀ t, t ∈ tokens_of awakener l ↔ t ≠ awakener ∧ ∃ e, e ∈ l ∧ tok e = t.
Proof.
  induction l as [|e l [IH1 IH2]] using rev_ind.
  { split; [constructor|]. intros t. split; [by intros ?%not_elem_of_nil|by intros [_ (e & ?%not_elem_of_nil & _)]]. }
  rewrite tokens_snoc. unfold add_token. destruct (decide _) as [Hd|Hd].
  - split; [done|]. intros t. rewrite IH2. split; [set_solver|]. intros [Hne (e' & [He|He%list_elem_of_singleton]%elem_of_app & <-)].
    + set_solver.
    + subst e'. destruct Hd as [Hd|Hd%IH2]; [done|]. naive_solver.
  - split; [apply NoDup_app; split; [done|split; [|apply NoDup_singleton]]; set_solver|].
    intros t. rewrite elem_of_app, IH2, list_elem_of_singleton. set_solver.
Qed.

Lemma merged_absent t l : (∀ e, e ∈ l → tok e ≠ t) → merged t l = 0.
Proof.
  induction l as [|e l IH] using rev_ind; [done|]. intros H. rewrite merged_snoc. unfold merge.
  rewrite decide_False by (apply H; set_solver). apply IH. set_solver.
Qed.

(** ** The updates of one entry *)

Lemma insert_if_ok b idx r evs k t :
  evs !! idx = Some (Event.mk (Ready.mk k) t) →
  insert_if b idx r evs = Done (<[idx := Event.mk (Ready.mk (Z.lor k (if_bit b r))) t]> evs).
Proof.
  intros Hi. unfold insert_if, insert_at, if_bit. destruct b; [by rewrite Hi|].
  rewrite Z.lor_0_r. by rewrite list_insert_id.
Qed.

Lemma mark_ok e idx evs k t :
  evs !! idx = Some (Event.mk (Ready.mk k) t) →
  mark e idx evs = Done (<[idx := Event.mk (Ready.mk (Z.lor k (kevent_bits e))) t]> evs).
Proof.
  intros Hi. unfold mark, kevent_bits. rewrite (insert_if_ok _ _ _ _ _ _ Hi). cbn [mbind outcome_bind].
  set (k1 := Z.lor k (if_bit (nonzero (Z.land (flags e) EV_ERROR)) Ready.error)).
  set (f := if kfilter e =? EVFILT_READ then _ else if_bit _ _).
  assert (∀ k, <[idx := Event.mk (Ready.mk k) t]> evs !! idx = Some (Event.mk (Ready.mk k) t)) as Hlk
    by (intros; apply list_lookup_insert_eq; by eapply lookup_lt_Some).
  assert (∀ a b, <[idx := a]> (<[idx := b]> evs) = <[idx := a]> evs) as Hii by (intros; apply list_insert_insert_eq).
  assert ((if kfilter e =? EVFILT_READ then insert_at idx Ready.readable (<[idx := Event.mk (Ready.mk k1) t]> evs)
    else if kfilter e =? EVFILT_WRITE then insert_at idx Ready.writable (<[idx := Event.mk (Ready.mk k1) t]> evs)
    else Done (<[idx := Event.mk (Ready.mk k1) t]> evs)) = Done (<[idx := Event.mk (Ready.mk (Z.lor k1 f)) t]> evs)) as ->.
  { unfold f, insert_at, if_bit. rewrite Hlk. destruct (kfilter e =? EVFILT_READ); [by rewrite Hii|].
    destruct (kfilter e =? EVFILT_WRITE); [by rewrite Hii|]. by rewrite Z.lor_0_r. }
  cbn [mbind outcome_bind]. rewrite (Z.lor_assoc k), (Z.lor_assoc k1). fold k1.
  destruct (nonzero (Z.land (flags e) EV_EOF)); [|by rewrite Z.lor_0_r].
  unfold insert_at. rewrite Hlk, Hii. cbn [mbind outcome_bind]. erewrite insert_if_ok by apply Hlk.
  by rewrite Hii, (Z.lor_assoc (Z.lor k1 f)).
Qed.

(** ** The loop *)

Record coalesced (awakener : Token) (l : list kevent) (st : bool * list Event.t * gmap Token nat) : Prop := {
  cs_ret : fst (fst st) = true ↔ ∃ e, e ∈ l ∧ tok e = awakener;
  cs_events : snd (fst st) = report awakener l;
  cs_map t i : snd st !! t = Some i ↔ tokens_of awakener l !! i = Some t }.

Lemma report_length awakener l : length (report awakener l) = length (tokens_of awakener l).
Proof. apply length_fmap. Qed.

Lemma report_lookup awakener l i t :
  tokens_of awakener l !! i = Some t → report awakener l !! i = Some (Event.mk (Ready.mk (merged t l)) t).
Proof. intros Ht. unfold report. by rewrite list_lookup_fmap, Ht. Qed.

(** The report changes only in the entry of the new event's token. *)
Lemma report_same awakener l e :
  (∀ t, t ∈ tokens_of awakener l → tok e ≠ t) →
  (λ t, Event.new (Ready.mk (merged t (l ++ [e]))) t) <$> tokens_of awakener l = report awakener l.
Proof.
  intros H. apply list_fmap_ext. intros i t Ht. rewrite merged_snoc. unfold merge. rewrite decide_False; [done|].
  apply H. by eapply list_elem_of_lookup_2.
Qed.

Lemma report_old awakener l e i :
  tokens_of awakener l !! i = Some (tok e) →
  (λ t, Event.new (Ready.mk (merged t (l ++ [e]))) t) <$> tokens_of awakener l =
  <[i := Event.mk (Ready.mk (Z.lor (merged (tok e) l) (kevent_bits e))) (tok e)]> (report awakener l).
Proof.
  intros Hi. destruct (tokens_spec awakener l) as [Hnd _]. apply list_eq. intros j. rewrite list_lookup_fmap.
  destruct (decide (j = i)) as [->|Hne].
  - rewrite list_lookup_insert_eq by (rewrite report_length; by eapply lookup_lt_Some). rewrite Hi. cbn.
    rewrite merged_snoc. unfold merge. by rewrite decide_True.
  - rewrite list_lookup_insert_ne by done. unfold report. rewrite list_lookup_fmap.
    destruct (tokens_of awakener l !! j) as [t|] eqn:Hj; [|done]. cbn. rewrite merged_snoc. unfold merge.
    rewrite decide_False; [done|]. intros <-. by apply Hne, (NoDup_lookup _ _ _ (tok e) Hnd).
Qed.

Lemma ret_snoc ret awakener l e : (ret = true ↔ ∃ e, e ∈ l ∧ tok e = awakener) → tok e ≠ awakener →
  (ret = true ↔ ∃ e', e' ∈ l ++ [e] ∧ tok e' = awakener).
Proof. intros -> Hne. set_solver. Qed.

Lemma coalesce_one_ok awakener l e st :
  coalesced awakener l st → ∃ st', coalesce_one awakener e st = Done st' ∧ coalesced awakener (l ++ [e]) st'.
Proof.
  destruct st as [[ret evs] emap]. intros [Hret Hevs Hmap]. cbn in Hret, Hevs, Hmap. subst evs.
  destruct (tokens_spec awakener l) as [Hnd Hin]. unfold coalesce_one. fold (tok e).
  destruct (decide (tok e = awakener)) as [Ha|Hne].
  { eexists. split; [done|]. split; cbn; unfold report; rewrite ?tokens_snoc; unfold add_token; rewrite ?decide_True by auto; [|symmetry|done].
    - split; [|done]. intros _. exists e. set_solver.
    - apply report_same. intros t [Ht _]%Hin. congruence. }
  destruct (emap !! tok e) as [i|] eqn:Em.
  - apply Hmap in Em as Hi. pose proof (lookup_lt_Some _ _ _ Hi) as Hlt.
    rewrite (decide_False (P := i = _)) by (rewrite report_length; lia).
    rewrite (mark_ok e i _ _ _ (report_lookup _ _ _ _ Hi)). cbn [mbind outcome_bind]. eexists. split; [done|].
    assert (add_token awakener (tokens_of awakener l) e = tokens_of awakener l) as Et
      by (unfold add_token; rewrite decide_True; [done|right; by eapply list_elem_of_lookup_2]).
    split; cbn; unfold report; rewrite ?tokens_snoc, ?Et; [by apply ret_snoc| |done].
    symmetry. by apply report_old.
  - assert (tok e ∉ tokens_of awakener l) as Hnin.
    { intros [i Hi]%list_elem_of_lookup. apply Hmap in Hi. congruence. }
    assert (add_token awakener (tokens_of awakener l) e = tokens_of awakener l ++ [tok e]) as Et
      by (unfold add_token; rewrite decide_False; [done|tauto]).
    rewrite decide_True by done.
    erewrite mark_ok by (rewrite list_lookup_middle; done). cbn [mbind outcome_bind].
    eexists. split; [done|]. split; cbn; unfold report; rewrite ?tokens_snoc, ?Et; [by apply ret_snoc| |].
    + rewrite fmap_app, report_same by (intros t Ht Heq; by rewrite Heq in Hnin). rewrite insert_app_r_alt, Nat.sub_diag by done. cbn. fold (report awakener l).
      do 2 f_equal. rewrite merged_snoc. unfold merge. rewrite decide_True by done. rewrite merged_absent; [done|].
      intros e' He' Het. apply Hnin, Hin. eauto.
    + intros t i. rewrite length_fmap. destruct (decide (t = tok e)) as [->|Ht].
      * rewrite lookup_insert_eq. split; [intros [= <-]; by apply list_lookup_middle|].
        intros Hi. f_equal. symmetry. apply (NoDup_lookup (tokens_of awakener l ++ [tok e]) _ _ (tok e)); [|done|by apply list_lookup_middle].
        apply NoDup_app. split; [done|]. split; [set_solver|apply NoDup_singleton].
      * rewrite lookup_insert_ne by done. rewrite Hmap. split; [intros Hi; by apply lookup_app_l_Some|].
        intros [Hi|[_ [_ Hi]%list_lookup_singleton_Some]]%lookup_app_Some; [done|congruence].
Qed.

Lemma coalesce_loop_ok awakener l' : ∀ l st, coalesced awakener l st →
  ∃ st', coalesce_loop awakener l' st = Done st' ∧ coalesced awakener (l ++ l') st'.
Proof.
  induction l' as [|e l' IH]; intros l st Hst; cbn; [rewrite app_nil_r; eauto|].
  destruct (coalesce_one_ok awakener l e st Hst) as (st1 & -> & H1). cbn.
  destruct (IH (l ++ [e]) st1 H1) as (st2 & -> & H2). rewrite <- app_assoc in H2. eauto.
Qed.

Lemma coalesced_nil awakener : coalesced awakener [] (false, [], ∅).
Proof. split; cbn; [split; [done|by intros (? & ?%not_elem_of_nil & _)]|done|]. intros. by rewrite lookup_empty, lookup_nil. Qed.

Lemma coalesce_total awakener (e : KqEvents) : ∃ ret e', coalesce awakener e = Done (ret, e').
Proof.
  destruct (coalesce_loop_ok awakener (sys_events e) [] _ (coalesced_nil awakener)) as ([[ret evs] emap] & E & _).
  unfold coalesce. rewrite E. cbn. eauto.
Qed.

(** C30: [coalesce] never indexes out of range and merges the kernel's events
    into one event per token, in the order in which the tokens first occur, whose
    readiness is the union of what the token's kernel events say; the awakener's
    are left out and reported by the result. *)
Theorem coalesce_spec (awakener : Token) (e : KqEvents) :
  ∃ ret e', coalesce awakener e = Done (ret, e') ∧
    (ret = true ↔ ∃ k, k ∈ sys_events e ∧ tok k = awakener) ∧
    events e' = report awakener (sys_events e) ∧
    NoDup (Event.token <$> events e') ∧
    (∀ t, t ∈ Event.token <$> events e' ↔ t ≠ awakener ∧ ∃ k, k ∈ sys_events e ∧ tok k = t).
Proof.
  destruct (coalesce_loop_ok awakener (sys_events e) [] _ (coalesced_nil awakener)) as ([[ret evs] emap] & E & [Hr He _]).
  cbn [fst snd app] in Hr, He. subst evs. unfold coalesce. rewrite E. cbn [mbind outcome_bind]. eexists _, _. split; [done|]. split; [done|]. cbn [events]. split; [done|].
  assert (Event.token <$> report awakener (sys_events e) = tokens_of awakener (sys_events e)) as Et.
  { unfold report. rewrite <- list_fmap_compose. cbn. apply list_fmap_id. }
  rewrite Et. destruct (tokens_spec awakener (sys_events e)). done.
Qed.
End coalesce.

(** ** Registration *)

Section register.
Context {K : Type} {sys : KqSys K} {consts : KqConsts}.

Definition add_flags (enable : bool) (opts : PollOpt.t) : Z :=
  Z.lor (Z.lor (Z.lor EV_ADD (if enable then EV_ENABLE else EV_DISABLE)) (if PollOpt.is_edge opts then EV_CLEAR else 0))
    (if PollOpt.is_oneshot opts then EV_ONESHOT else 0).

(** The two changes of a registration. *)
Definition reg_changes (fd : Z) (token : Token) (interests : Ready.t) (opts : PollOpt.t) : list kevent :=
  [mkKevent fd EVFILT_READ (add_flags (Ready.is_readable interests) opts) 0 0 (token_0 token);
   mkKevent fd EVFILT_WRITE (add_flags (Ready.is_writable interests) opts) 0 0 (token_0 token)].

Lemma ev_register_ok fd token filter enable opts (s : KqSelector) (k : K) :
  ev_register fd token filter enable opts (s, k)
  = Done (tt, (mkKqSelector (id s) (kq s) (changes s ++ [mkKevent fd filter (add_flags enable opts) 0 0 token]), k)).
Proof.
  unfold ev_register, ev_push, modify, add_flags, PollOpt.is_edge, PollOpt.is_oneshot.
  destruct enable, (PollOpt.contains opts PollOpt.edge), (PollOpt.contains opts PollOpt.oneshot); by rewrite ?Z.lor_0_r.
Qed.

(** a registration hands the kernel both filters in one call, the ones not
    asked for disabled, after whatever changes are still pending; when the call
    succeeds nothing is pending, when it fails its error is returned and the
    changes stay pending. *)
Theorem kq_register_spec (s : KqSelector) (k k' : K) fd token interests opts cnt evs :
  kq_kevent (kq s) (changes s ++ reg_changes fd token interests opts) 0 None k = ((cnt, evs), k') →
  Selector_register fd token interests opts (s, k) =
    Done (if decide (cnt = -1)
          then (Err (io_os (kq_errno k')), (mkKqSelector (id s) (kq s) (changes s ++ reg_changes fd token interests opts), k'))
          else (Ok tt, (mkKqSelector (id s) (kq s) [], k'))).
Proof.
  intros E. unfold Selector_register, mbind, M_bind. rewrite ev_register_ok. rewrite ev_register_ok.
  unfold flush_changes, mbind, M_bind, gets, syscall, set_changes, modify, cvt, is_minus_one. cbn [fst snd kq changes id compose].
  rewrite <- app_assoc. cbn [app]. fold (Ready.is_readable interests) (Ready.is_writable interests).
  unfold compose. cbn [fst kq changes]. fold (usize_from_token token). unfold reg_changes in E. unfold usize_from_token. rewrite E. cbn [fst snd].
  destruct (decide (cnt = -1)) as [->|Hne]; [done|]. by replace (cnt =? -1) with false by lia.
Qed.

(** [select] returns the kernel's error and leaves the buffer as it was, or
    the coalesced events of the kernel; pending changes are discarded then. *)
Theorem kq_select_spec {laws : KqSysLaws K} (s : KqSelector) (k k' : K) (evts : KqEvents) awakener timeout cnt written :
  kq_kevent (kq s) [] (as_i32 (sys_capacity evts)) (to_timespec <$> timeout) k = ((cnt, written), k') →
  if decide (cnt = -1)
  then select evts awakener timeout (s, k) = Done ((Err (io_os (kq_errno k')), evts), (s, k'))
  else ∃ ret evts', select evts awakener timeout (s, k) = Done ((Ok ret, evts'), (mkKqSelector (id s) (kq s) [], k')) ∧
    (ret = true ↔ ∃ e, e ∈ written ∧ tok e = awakener) ∧ events evts' = report awakener written.
Proof.
  intros E. unfold select, mbind, M_bind, gets, syscall, cvt, is_minus_one, set_changes, modify, compose, lift. cbn [fst snd kq]. rewrite E.
  cbn [fst snd]. destruct (decide (cnt = -1)) as [->|Hne]; [done|]. replace (cnt =? -1) with false by lia.
  destruct (kq_kevent_count _ _ _ _ _ _ _ _ E) as [?|Hc]; [done|]. rewrite take_ge by lia.
  destruct (coalesce_loop_ok awakener written [] (false, [], ∅)) as ([[ret evs] emap] & El & [Hr He _]).
  { split; cbn; [split; [done|by intros (? & ?%not_elem_of_nil & _)]|done|]. intros. by rewrite lookup_empty, lookup_nil. }
  cbn [fst snd app] in Hr, He. unfold coalesce. cbn [sys_events]. rewrite El. cbn [mbind outcome_bind fst snd sys_capacity].
  eexists _, _. split; [reflexivity|]. done.
Qed.
End register.

(** ** The constants of macOS and a kernel that plays back a script *)

#[export] Instance macos_consts : KqConsts := {
  EV_ADD := 0x1; EV_DELETE := 0x2; EV_ENABLE := 0x4; EV_DISABLE := 0x8; EV_CLEAR := 0x20; EV_ONESHOT := 0x10;
  EV_ERROR := 0x4000; EV_EOF := 0x8000; EVFILT_READ := -1; EVFILT_WRITE := -2; TIME_T_MAX := 9223372036854775807 }.

(** The script: events to report, or a failure; and the changes received. *)
Record kq_script : Type := mkKqScript { ks_answers : list (option (list kevent)); ks_received : list (list kevent) }.
#[export] Instance kq_script_sys : KqSys kq_script := {
  kq_errno _ := 9;
  kq_kqueue k := (3, k);
  kq_fioclex _ k := (0, k);
  kq_kevent _ ch cap _ k := match ks_answers k with
    | Some evs :: rest => ((Z.of_nat (length (take (Z.to_nat cap) evs)), take (Z.to_nat cap) evs), mkKqScript rest (ks_received k ++ [ch]))
    | None :: rest => ((-1, []), mkKqScript rest (ks_received k ++ [ch]))
    | [] => ((0, []), mkKqScript [] (ks_received k ++ [ch]))
    end;
  kq_close _ k := (0, k) }.
#[export] Instance kq_script_laws : KqSysLaws kq_script.
Proof. split. intros kq ch cap ts k cnt evs k'. cbn. destruct (ks_answers k) as [|[]]; intros [= <- <- <-]; auto. Qed.

Lemma kq_register_spec_witness :
  Selector_register 8 (mkToken 5) Ready.readable PollOpt.edge (mkKqSelector 1 3 [], mkKqScript [] [])
  = Done (Ok tt, (mkKqSelector 1 3 [],
      mkKqScript [] [[mkKevent 8 (-1) 0x25 0 0 5; mkKevent 8 (-2) 0x29 0 0 5]])).
Proof.
  rewrite (kq_register_spec (sys:=kq_script_sys) (consts:=macos_consts) (mkKqSelector 1 3 []) (mkKqScript [] [])
    (mkKqScript [] [[mkKevent 8 (-1) 0x25 0 0 5; mkKevent 8 (-2) 0x29 0 0 5]]) 8 (mkToken 5) Ready.readable PollOpt.edge 0 []
    ltac:(vm_compute; reflexivity)).
  reflexivity.
Defined.

Definition two_reads : list kevent := [mkKevent 8 (-1) 0 0 0 5; mkKevent 9 (-2) 0 0 0 6; mkKevent 8 (-2) 0x8000 1 0 5].

Lemma kq_select_spec_witness :
  ∃ ret evts', select (with_capacity 8) (mkToken USIZE_MAX) None (mkKqSelector 1 3 [], mkKqScript [Some two_reads] [])
      = Done ((Ok ret, evts'), (mkKqSelector 1 3 [], mkKqScript [] [[]])) ∧
    events evts' = [Event.new (Ready.mk 0xF) (mkToken 5); Event.new (Ready.mk 2) (mkToken 6)].
Proof.
  destruct (kq_select_spec (sys:=kq_script_sys) (consts:=macos_consts) (mkKqSelector 1 3 []) (mkKqScript [Some two_reads] []) (mkKqScript [] [[]]) (with_capacity 8)
    (mkToken USIZE_MAX) None 3 two_reads eq_refl) as (ret & evts' & H1 & _ & H2).
  exists ret, evts'. exact (conj H1 H2).
Defined.

(** A failed registration is repeated by the next one: its changes are still
    pending, and the kernel receives them again. *)
Example failed_changes_are_resubmitted :
  match Selector_register 8 (mkToken 5) Ready.readable PollOpt.edge (mkKqSelector 1 3 [], mkKqScript [None] []) with
  | Done (Err _, st) =>
      match Selector_register 9 (mkToken 6) Ready.readable PollOpt.edge st with
      | Done (Ok _, (_, k)) => ident <$> (List.last (ks_received k) []) = [8; 8; 9; 9]
      | _ => False
      end
  | _ => False
  end.
Proof. vm_compute. reflexivity. Qed.
