(* ===== verification/KqReg.v ===== *)
(** * Registrations with kqueue

    The changes the kqueue selector submits, against what kevent(2) documents of
    them ([KqSpec], [KqNoteLaws]): they are applied in order up to the first that
    fails.  An operation that is accepted leaves exactly the filters that were asked
    for.  A deregistration of a descriptor whose one-shot filter has fired
    fails, and the changes it leaves behind make every later registration fail
    until a poll succeeds, which forgets them. *)

From S2P Require Import Prelude Event Convert Iface Poll Kqueue KqueueThm.

(** ** Filters in the kernel *)

Record Knote : Type := mkKnote { kn_token : Z; kn_enabled : bool; kn_oneshot : bool }.

(** [kq_notes k kq]: the filters of the queue, by descriptor and filter. *)
Class KqSpec (K : Type) : Type := { kq_notes : K → Z → gmap (Z * Z) Knote }.

Section changes.
Context {consts : KqConsts}.

Definition flag (c : kevent) (f : Z) : bool := nonzero (Z.land (flags c) f).
Definition key (c : kevent) : Z * Z := (ident c, kfilter c).

(** One change; [None]: there is no filter to delete. *)
Definition change (c : kevent) (m : gmap (Z * Z) Knote) : option (gmap (Z * Z) Knote) :=
  if flag c EV_DELETE then if decide (is_Some (m !! key c)) then Some (delete (key c) m) else None
  else if flag c EV_ADD then Some (<[key c := mkKnote (udata c) (negb (flag c EV_DISABLE)) (flag c EV_ONESHOT)]> m)
  else Some m.
Fixpoint change_all (l : list kevent) (m : gmap (Z * Z) Knote) : option (gmap (Z * Z) Knote) :=
  match l with [] => Some m | c :: l => m ← change c m; change_all l m end.
End changes.

(** The flags are different bits. *)
Definition change_flags `{KqConsts} : list Z := [EV_ADD; EV_DELETE; EV_ENABLE; EV_DISABLE; EV_CLEAR; EV_ONESHOT].
Class KqFlagLaws `{KqConsts} : Prop := {
  kf_nodup : NoDup change_flags;
  kf_land f g : f ∈ change_flags → g ∈ change_flags → Z.land f g ≠ 0 ↔ f = g }.

Class KqNoteLaws (K : Type) `{KqSys K, KqConsts, KqSpec K} : Prop := {
  kn_changes fd ch k r evs k' : kq_kevent fd ch 0 None k = ((r, evs), k') →
    (r ≠ -1 ∧ change_all ch (kq_notes k fd) = Some (kq_notes k' fd)) ∨
    (r = -1 ∧ ∃ before c after, ch = before ++ c :: after ∧ change_all before (kq_notes k fd) = Some (kq_notes k' fd));
  kn_wait fd cap ts k cnt evs k' : kq_kevent fd [] cap ts k = ((cnt, evs), k') →
    (cnt = -1 ∧ kq_notes k' fd = kq_notes k fd) ∨
    (cnt = Z.of_nat (length evs) ∧
     Forall (λ e, ∃ n, kq_notes k fd !! key e = Some n ∧ kn_enabled n = true ∧ udata e = kn_token n) evs ∧
     ∀ x, kq_notes k' fd !! x =
       (n ← kq_notes k fd !! x; if decide (x ∈ key <$> evs) then if kn_oneshot n then None else Some n else Some n)) }.

Section kqueue.
Context {K : Type} {sys : KqSys K} {consts : KqConsts} {flag_laws : KqFlagLaws} {spec : KqSpec K} {laws : KqNoteLaws K}.
Implicit Types (s : KqSelector) (k : K).

Definition notes_of s k : gmap (Z * Z) Knote := kq_notes k (kq s).

Lemma nonzero_lor a b : nonzero (Z.lor a b) = nonzero a || nonzero b.
Proof.
  unfold nonzero. destruct (Z.eq_dec a 0) as [->|Ha]; [by rewrite Z.lor_0_l|]. replace (a =? 0) with false by lia. cbn.
  destruct (Z.lor a b =? 0) eqn:E; [|done]. zbool. apply Z.lor_eq_0_iff in E. lia.
Qed.
Lemma land_flag f g : f ∈ change_flags → g ∈ change_flags → nonzero (Z.land f g) = bool_decide (f = g).
Proof.
  intros Hf Hg. apply eq_true_iff_eq. rewrite bool_decide_eq_true, <- (kf_land f g Hf Hg). unfold nonzero.
  rewrite negb_true_iff, Z.eqb_neq. done.
Qed.

Ltac destruct_not_or := repeat match goal with H : ¬ (_ ∨ _) |- _ => apply Decidable.not_or in H as [??] end.

(** What the changes of a registration and of a deregistration ask for. *)
Lemma add_flags_bits enable opts c : flags c = add_flags enable opts →
  flag c EV_DELETE = false ∧ flag c EV_ADD = true ∧ flag c EV_DISABLE = negb enable ∧ flag c EV_ONESHOT = PollOpt.is_oneshot opts.
Proof.
  intros E. unfold flag. rewrite E. unfold add_flags. pose proof kf_nodup as Hn. unfold change_flags in Hn. rewrite !NoDup_cons in Hn. set_unfold in Hn.
  destruct_and!. destruct_not_or. rewrite !Z.land_lor_distr_l, !nonzero_lor.
  destruct enable, (PollOpt.is_edge opts), (PollOpt.is_oneshot opts); rewrite ?Z.land_0_l, !land_flag by (unfold change_flags; repeat constructor);
    repeat match goal with |- context [bool_decide (?f = ?g)] =>
      first [rewrite (bool_decide_eq_true_2 (f = g)) by reflexivity|rewrite (bool_decide_eq_false_2 (f = g)) by congruence] end; done.
Qed.

Lemma delete_bit c : flags c = EV_DELETE → flag c EV_DELETE = true.
Proof. intros E. unfold flag. rewrite E, land_flag by (unfold change_flags; set_solver). by apply bool_decide_eq_true. Qed.

Definition note (token : Token) (enable : bool) (opts : PollOpt.t) : Knote := mkKnote (token_0 token) enable (PollOpt.is_oneshot opts).

Lemma change_add fd filter enable opts token m :
  change (mkKevent fd filter (add_flags enable opts) 0 0 (token_0 token)) m = Some (<[(fd, filter) := note token enable opts]> m).
Proof.
  set (c := mkKevent _ _ _ _ _ _). destruct (add_flags_bits enable opts c eq_refl) as (Hd & Ha & Hdis & Hone). unfold change. rewrite Hd, Ha, Hdis, Hone.
  by rewrite negb_involutive.
Qed.

(** ** The operations of a selector *)


Inductive KOp : Type :=
  | KRegister (fd : Z) (token : Token) (interests : Ready.t) (opts : PollOpt.t)
  | KReregister (fd : Z) (token : Token) (interests : Ready.t) (opts : PollOpt.t)
  | KDeregister (fd : Z).
Definition run_kop (op : KOp) : M (KqSelector * K) (io_result unit) :=
  match op with
  | KRegister fd token interests opts => Selector_register fd token interests opts
  | KReregister fd token interests opts => Selector_reregister fd token interests opts
  | KDeregister fd => Selector_deregister fd
  end.
Fixpoint run_kops (ops : list KOp) : M (KqSelector * K) (list (io_result unit)) :=
  match ops with
  | [] => mret []
  | op :: ops => r ← run_kop op; l ← run_kops ops; mret (r :: l)
  end.

Definition op_changes (op : KOp) : list kevent :=
  match op with
  | KRegister fd token interests opts | KReregister fd token interests opts => reg_changes fd token interests opts
  | KDeregister fd => [mkKevent fd EVFILT_READ EV_DELETE 0 0 0; mkKevent fd EVFILT_WRITE EV_DELETE 0 0 0]
  end.

(** Every operation submits what waits together with its own changes. *)
Lemma run_kop_flushes op s k cnt evs k' :
  kq_kevent (kq s) (changes s ++ op_changes op) 0 None k = ((cnt, evs), k') →
  run_kop op (s, k) = Done (if decide (cnt = -1)
    then (Err (io_os (kq_errno k')), (mkKqSelector (id s) (kq s) (changes s ++ op_changes op), k'))
    else (Ok tt, (mkKqSelector (id s) (kq s) [], k'))).
Proof.
  destruct op; [apply kq_register_spec|apply kq_register_spec|]. intros E. cbn [run_kop op_changes] in *.
  unfold Selector_deregister, ev_push, flush_changes, mbind, M_bind, gets, syscall, set_changes, modify, cvt, is_minus_one, compose. cbn [fst snd kq changes id].
  rewrite <- app_assoc. cbn [app]. rewrite E. cbn [fst snd]. destruct (decide (cnt = -1)) as [->|Hne]; [done|]. by replace (cnt =? -1) with false by lia.
Qed.

(** An operation that is accepted has had its changes applied and leaves none; one that
    is refused keeps them. *)
Lemma run_kop_cases op s k : changes s = [] →
  ∃ r s' k', run_kop op (s, k) = Done (r, (s', k')) ∧ kq s' = kq s ∧
    match r with
    | Ok _ => changes s' = [] ∧ change_all (op_changes op) (notes_of s k) = Some (notes_of s' k')
    | Err e => changes s' = op_changes op ∧ e = io_os (kq_errno k')
    end.
Proof.
  intros Hc. destruct (kq_kevent (kq s) (op_changes op) 0 None k) as [[cnt evs] k'] eqn:E.
  pose proof (run_kop_flushes op s k cnt evs k') as Hs. rewrite Hc in Hs. specialize (Hs E).
  destruct (kn_changes _ _ _ _ _ _ E) as [[Hne Hall]|[-> _]].
  - exists (Ok tt), (mkKqSelector (id s) (kq s) []), k'. rewrite Hs, decide_False by done. done.
  - eexists (Err _), _, k'. rewrite Hs. done.
Qed.

(** What the filters are after an operation that is accepted. *)
Definition filters_after (op : KOp) (m : gmap (Z * Z) Knote) : gmap (Z * Z) Knote :=
  match op with
  | KRegister fd token interests opts | KReregister fd token interests opts =>
      <[(fd, EVFILT_WRITE) := note token (Ready.is_writable interests) opts]> (<[(fd, EVFILT_READ) := note token (Ready.is_readable interests) opts]> m)
  | KDeregister fd => delete (fd, EVFILT_WRITE) (delete (fd, EVFILT_READ) m)
  end.

Lemma change_delete c m m' : flags c = EV_DELETE → change c m = Some m' → is_Some (m !! key c) ∧ m' = delete (key c) m.
Proof. intros E. unfold change. rewrite delete_bit by done. case_decide; [|done]. by intros [= <-]. Qed.

Lemma op_filters op m m' : change_all (op_changes op) m = Some m' →
  m' = filters_after op m ∧ ∀ fd, op = KDeregister fd → is_Some (m !! (fd, EVFILT_READ)) ∧ is_Some (m !! (fd, EVFILT_WRITE)).
Proof.
  destruct op as [fd token interests opts|fd token interests opts|fd]; cbn [op_changes reg_changes change_all].
  1,2: rewrite change_add; cbn [mbind option_bind]; rewrite change_add; by intros [= <-].
  intros (m1 & [H1 ->]%change_delete & (m2 & [H2 ->]%change_delete & [= <-])%bind_Some)%bind_Some; [|done..]. split; [done|].
  intros fd' [= <-]. split; [exact H1|]. by apply lookup_delete_is_Some in H2 as [_ H2].
Qed.

(** C36: on kqueue, with no changes left over from a refused call: a registration or
    reregistration that is accepted sets both filters of the descriptor, each with
    the token, enabled exactly if it is of interest, one-shot if asked for, and
    leaves those of other descriptors alone; a deregistration that is accepted has
    found both filters and removes them; a call that is refused returns the error of
    the system and keeps its changes for the next one. *)
Theorem kq_ops_filters (op : KOp) (s : KqSelector) (k : K) : changes s = [] →
  ∃ r s' k', run_kop op (s, k) = Done (r, (s', k')) ∧
    match r with
    | Ok _ => changes s' = [] ∧ notes_of s' k' = filters_after op (notes_of s k) ∧
        ∀ fd, op = KDeregister fd → is_Some (notes_of s k !! (fd, EVFILT_READ)) ∧ is_Some (notes_of s k !! (fd, EVFILT_WRITE))
    | Err e => changes s' = op_changes op ∧ e = io_os (kq_errno k')
    end.
Proof.
  intros Hc. destruct (run_kop_cases op s k Hc) as (r & s' & k' & E & _ & Hr). exists r, s', k'. split; [done|].
  destruct r as [[]|e]; [|done]. destruct Hr as [Hc' Hall]. split; [done|]. by apply op_filters.
Qed.

(** Reregistering adds the filters of a descriptor the queue does not have: a socket
    that is registered with one selector can be reregistered with a second one. *)
Theorem kq_reregister_adds (s : KqSelector) (k : K) (fd : Z) (token : Token) (interests : Ready.t) (opts : PollOpt.t) :
  changes s = [] →
  ∃ r s' k', Selector_reregister fd token interests opts (s, k) = Done (r, (s', k')) ∧
    (is_ok r = true → notes_of s' k' !! (fd, EVFILT_WRITE) = Some (note token (Ready.is_writable interests) opts)).
Proof.
  intros Hc. destruct (run_kop_cases (KReregister fd token interests opts) s k Hc) as (r & s' & k' & E & _ & Hr). exists r, s', k'. split; [exact E|].
  destruct r as [[]|]; [|done]. intros _. destruct Hr as [_ [-> _]%op_filters]. apply lookup_insert_eq.
Qed.

(** ** Changes that cannot be applied *)

(** The first change that waits to be submitted again cannot be applied. *)
Definition stuck s k : Prop := ∃ c rest, changes s = c :: rest ∧ change c (notes_of s k) = None.

(** A list of changes whose first cannot be applied is refused as a whole. *)
Lemma refused_whole c rest fd k cnt evs k' : change c (kq_notes k fd) = None →
  kq_kevent fd (c :: rest) 0 None k = ((cnt, evs), k') → cnt = -1 ∧ kq_notes k' fd = kq_notes k fd.
Proof.
  intros Hch E. destruct (kn_changes _ _ _ _ _ _ E) as [[_ Hall]|(-> & before & c' & after & Heq & Hb)].
  - cbn in Hall. by rewrite Hch in Hall.
  - destruct before as [|c0 before]; cbn in Heq, Hb; injection Heq as <- _; [by injection Hb as ->|by rewrite Hch in Hb].
Qed.

Definition refused (r : io_result unit) : Prop := ∃ e, r = Err (io_os e).

(** The first change of what waits and of the operation's own cannot be applied. *)
Lemma blocked_refused op s k c rest : changes s ++ op_changes op = c :: rest → change c (notes_of s k) = None →
  ∃ r s' k', run_kop op (s, k) = Done (r, (s', k')) ∧ refused r ∧ stuck s' k' ∧ kq s' = kq s ∧ kq_notes k' (kq s) = kq_notes k (kq s).
Proof.
  intros Hc Hch. destruct (kq_kevent (kq s) (changes s ++ op_changes op) 0 None k) as [[cnt evs] k'] eqn:E.
  rewrite (run_kop_flushes _ _ _ _ _ _ E). rewrite Hc in E. destruct (refused_whole _ _ _ _ _ _ _ Hch E) as [-> Hn]. rewrite decide_True by done.
  eexists _, _, k'. split; [reflexivity|]. split; [by eexists|]. split; [|done]. exists c, rest. cbn. split; [done|]. unfold notes_of in *. cbn. by rewrite Hn.
Qed.

(** While the changes that wait cannot be applied, every operation is refused and
    the filters stay as they are. *)
Theorem stuck_refuses_all (ops : list KOp) : ∀ s k, stuck s k →
  ∃ l s' k', run_kops ops (s, k) = Done (l, (s', k')) ∧ length l = length ops ∧ Forall refused l ∧ kq_notes k' (kq s) = kq_notes k (kq s).
Proof.
  induction ops as [|op ops IH]; intros s k Hst; [by exists [], s, k|]. destruct Hst as (c & rest & Hc & Hch).
  destruct (blocked_refused op s k c (rest ++ op_changes op)) as (r & s1 & k1 & E1 & Hr & Hst1 & Hkq & Hn1); [by rewrite Hc|done|].
  destruct (IH s1 k1 Hst1) as (l & s' & k' & E' & Hl & Hall & Hn'). exists (r :: l), s', k'. cbn [run_kops]. unfold mbind, M_bind. rewrite E1, E'.
  split_and!; [done|cbn; by rewrite Hl|by constructor|]. by rewrite <- Hn1, <- Hkq.
Qed.

Lemma deregister_gone fd ops s k : changes s = [] → notes_of s k !! (fd, EVFILT_READ) = None →
  ∃ l s' k', run_kops (KDeregister fd :: ops) (s, k) = Done (l, (s', k')) ∧ length l = S (length ops) ∧ Forall refused l ∧
    kq_notes k' (kq s) = kq_notes k (kq s).
Proof.
  intros Hc Hn. set (c := mkKevent fd EVFILT_READ EV_DELETE 0 0 0).
  assert (change c (notes_of s k) = None) as Hch.
  { unfold change. rewrite delete_bit by done. rewrite decide_False; [done|]. change (key c) with (fd, EVFILT_READ). rewrite Hn. by intros [??]. }
  destruct (blocked_refused (KDeregister fd) s k c [mkKevent fd EVFILT_WRITE EV_DELETE 0 0 0]) as (r & s1 & k1 & E1 & Hr & Hst & Hkq & Hn1); [by rewrite Hc|done|].
  destruct (stuck_refuses_all ops s1 k1 Hst) as (l & s' & k' & E' & Hl & Hall & Hn'). exists (r :: l), s', k'. cbn [run_kops]. unfold mbind, M_bind.
  cbn [run_kops mbind] in *. rewrite E1, E'. split_and!; [done|cbn; by rewrite Hl|by constructor|]. by rewrite <- Hn1, <- Hkq.
Qed.

(** A poll that reports a one-shot read filter removes it. *)
Lemma reported_oneshot_gone (fd : Z) s k cap ts cnt evs k' n :
  kq_kevent (kq s) [] cap ts k = ((cnt, evs), k') → cnt ≠ -1 → (fd, EVFILT_READ) ∈ key <$> evs →
  notes_of s k !! (fd, EVFILT_READ) = Some n → kn_oneshot n = true → kq_notes k' (kq s) !! (fd, EVFILT_READ) = None.
Proof.
  intros E Hcnt Hin Hn Hone. destruct (kn_wait _ _ _ _ _ _ _ E) as [[-> _]|(_ & _ & Hx)]; [done|].
  unfold notes_of in Hn. rewrite Hx, Hn. cbn [mbind option_bind]. by rewrite decide_True, Hone.
Qed.

(** A descriptor is registered one-shot and a poll reports it readable.  Its
    deregistration is then refused, its filters stay as they are, and every operation
    that follows, on whatever descriptor, is refused, too. *)
Theorem deregister_after_oneshot {sys_laws : KqSysLaws K} (s : KqSelector) (k k' : K) (evts : KqEvents) awakener timeout (fd : Z) (n : Knote)
    (cnt : Z) (written : list kevent) (ops : list KOp) :
  notes_of s k !! (fd, EVFILT_READ) = Some n → kn_oneshot n = true →
  kq_kevent (kq s) [] (as_i32 (sys_capacity evts)) (to_timespec <$> timeout) k = ((cnt, written), k') → cnt ≠ -1 → (fd, EVFILT_READ) ∈ key <$> written →
  ∃ ret evts' s', select evts awakener timeout (s, k) = Done ((Ok ret, evts'), (s', k')) ∧
    ∃ l s'' k'', run_kops (KDeregister fd :: ops) (s', k') = Done (l, (s'', k'')) ∧ length l = S (length ops) ∧ Forall refused l ∧
      kq_notes k'' (kq s) = kq_notes k' (kq s).
Proof.
  intros Hn Hone E Hcnt Hin. pose proof (kq_select_spec s k k' evts awakener timeout cnt written E) as Hs. rewrite decide_False in Hs by done.
  destruct Hs as (ret & evts' & Hs & _). eexists ret, evts', _. split; [exact Hs|].
  apply (deregister_gone fd ops (mkKqSelector (id s) (kq s) []) k'); [done|]. by eapply reported_oneshot_gone.
Qed.
End kqueue.

(** ** A kernel with one queue *)

(** [kd_ready]: the filter whose condition holds. *)
Record kq_demo : Type := mkKqDemo { kd_notes : gmap (Z * Z) Knote; kd_ready : option (Z * Z) }.

Fixpoint change_upto (l : list kevent) (m : gmap (Z * Z) Knote) : bool * gmap (Z * Z) Knote :=
  match l with
  | [] => (true, m)
  | c :: l => match change c m with Some m => change_upto l m | None => (false, m) end
  end.
Definition demo_report (k : kq_demo) : (Z * list kevent) * kq_demo :=
  match kd_ready k with
  | Some x => match kd_notes k !! x with
      | Some n => if kn_enabled n
          then ((1, [mkKevent x.1 x.2 0 0 0 (kn_token n)]), mkKqDemo (if kn_oneshot n then delete x (kd_notes k) else kd_notes k) (Some x))
          else ((0, []), k)
      | None => ((0, []), k)
      end
  | None => ((0, []), k)
  end.
#[export] Instance kq_demo_sys : KqSys kq_demo := {
  kq_errno _ := 2;
  kq_kqueue k := (3, k);
  kq_fioclex _ k := (0, k);
  kq_kevent _ ch cap _ k :=
    let '(ok, m) := change_upto ch (kd_notes k) in
    if negb ok then ((-1, []), mkKqDemo m (kd_ready k))
    else if cap =? 0 then ((0, []), mkKqDemo m (kd_ready k)) else demo_report (mkKqDemo m (kd_ready k));
  kq_close _ k := (0, k) }.
#[export] Instance kq_demo_spec : KqSpec kq_demo := { kq_notes k _ := kd_notes k }.

Lemma change_upto_spec l m : match change_upto l m with
  | (true, m') => change_all l m = Some m'
  | (false, m') => ∃ before c after, l = before ++ c :: after ∧ change_all before m = Some m'
  end.
Proof.
  revert m. induction l as [|c l IH]; intros m; [done|]. cbn. destruct (change c m) as [m1|] eqn:E; [|by exists [], c, l].
  specialize (IH m1). destruct (change_upto l m1) as [[] m']; [done|]. destruct IH as (b & c' & a & -> & Hb).
  exists (c :: b), c', a. split; [done|]. cbn. by rewrite E.
Qed.

#[export] Instance macos_flag_laws : KqFlagLaws.
Proof.
  split; [by apply (bool_decide_unpack _); vm_compute|]. intros f g Hf Hg. unfold change_flags in *. cbn in *. set_unfold in Hf. set_unfold in Hg.
  destruct_or!; subst; vm_compute; by split.
Qed.

Lemma demo_report_spec k cnt evs k' : demo_report k = ((cnt, evs), k') →
  cnt = Z.of_nat (length evs) ∧
  Forall (λ e, ∃ n, kd_notes k !! key e = Some n ∧ kn_enabled n = true ∧ udata e = kn_token n) evs ∧
  ∀ x, kd_notes k' !! x =
    (n ← kd_notes k !! x; if decide (x ∈ key <$> evs) then if kn_oneshot n then None else Some n else Some n).
Proof.
  assert (∀ x, kd_notes k !! x = (n ← kd_notes k !! x; if decide (x ∈ key <$> []) then if kn_oneshot n then None else Some n else Some n)) as Hid.
  { intros x. by destruct (kd_notes k !! x). }
  unfold demo_report. destruct (kd_ready k) as [[a b]|]; [|by intros [= <- <- <-]].
  destruct (kd_notes k !! (a, b)) as [n|] eqn:En; [|by intros [= <- <- <-]].
  destruct (kn_enabled n) eqn:Een; [|by intros [= <- <- <-]]. intros [= <- <- <-]. split_and!; [done| |].
  { repeat constructor. by exists n. }
  intros x. cbn [kd_notes fmap list_fmap]. change (key _) with (a, b). destruct (decide (x = (a, b))) as [->|Hne].
  - rewrite En. cbn. rewrite decide_True by set_solver. destruct (kn_oneshot n); [apply lookup_delete_eq|done].
  - replace ((if kn_oneshot n then delete (a, b) (kd_notes k) else kd_notes k) !! x) with (kd_notes k !! x) by (destruct (kn_oneshot n); rewrite ?lookup_delete_ne; done).
    destruct (kd_notes k !! x); cbn; [|done]. rewrite decide_False; [done|set_solver].
Qed.

#[export] Instance kq_demo_laws : KqNoteLaws kq_demo.
Proof.
  split.
  - intros fd ch k r evs k'. cbn. pose proof (change_upto_spec ch (kd_notes k)) as H. destruct (change_upto ch (kd_notes k)) as [[] m']; cbn.
    + intros [= <- <- <-]. by left.
    + intros [= <- <- <-]. by right.
  - intros fd cap ts k cnt evs k'. cbn. destruct (cap =? 0).
    + intros [= <- <- <-]. right. split_and!; [done|done|]. intros x. cbn. by destruct (kd_notes k !! x).
    + destruct k. intros E. right. by apply demo_report_spec.
Qed.
#[export] Instance kq_demo_sys_laws : KqSysLaws kq_demo.
Proof.
  split. intros kq ch cap ts k cnt evs k'. cbn. destruct (change_upto ch (kd_notes k)) as [[] m']; cbn; [|intros [= <- <- <-]; auto].
  destruct (cap =? 0); [intros [= <- <- <-]; auto|]. intros E. right. by apply demo_report_spec in E as [-> _].
Qed.

(** Descriptor 8 is registered one-shot, reported readable and deregistered; then
    descriptor 9 cannot be registered any more. *)
Definition oneshot_notes : gmap (Z * Z) Knote :=
  <[(8, EVFILT_WRITE) := mkKnote 5 false true]> (<[(8, EVFILT_READ) := mkKnote 5 true true]> ∅).

Example deregister_after_oneshot_example :
  ∃ ret evts' s' k', select (with_capacity 8) (mkToken USIZE_MAX) None (mkKqSelector 1 3 [], mkKqDemo oneshot_notes (Some (8, EVFILT_READ)))
      = Done ((Ok ret, evts'), (s', k')) ∧
    ∃ l s'' k'', run_kops [KDeregister 8; KRegister 9 (mkToken 6) Ready.readable PollOpt.edge] (s', k') = Done (l, (s'', k'')) ∧
      length l = 2%nat ∧ Forall refused l.
Proof.
  destruct (deregister_after_oneshot (mkKqSelector 1 3 []) (mkKqDemo oneshot_notes (Some (8, EVFILT_READ)))
    (mkKqDemo (delete (8, EVFILT_READ) oneshot_notes) (Some (8, EVFILT_READ))) (with_capacity 8) (mkToken USIZE_MAX) None 8 (mkKnote 5 true true)
    1 [mkKevent 8 (-1) 0 0 0 5] [KRegister 9 (mkToken 6) Ready.readable PollOpt.edge]) as (ret & evts' & s' & E & l & s'' & k'' & E2 & Hl & Hr & _);
    [reflexivity..|done|by left|].
  eexists ret, evts', s', _. split; [exact E|]. by exists l, s'', k''.
Qed.

Lemma kq_ops_filters_witness :
  ∃ r s' k', run_kop (KDeregister 8) (mkKqSelector 1 3 [], mkKqDemo oneshot_notes None) = Done (r, (s', k')) ∧ is_ok r = true ∧
    kd_notes k' !! (8, EVFILT_WRITE) = None.
Proof.
  destruct (kq_ops_filters (KDeregister 8) (mkKqSelector 1 3 []) (mkKqDemo oneshot_notes None) eq_refl) as (r & s' & k' & E & Hr).
  exists r, s', k'. split; [exact E|]. vm_compute in E. injection E as <- <- <-. split; [done|]. destruct Hr as (_ & Hn & _). by vm_compute.
Defined.
