(* ===== verification/UnixIo.v ===== *)
(** * sys/unix: file descriptors, the awakener's pipe, sockets and their selector

    [io.rs] (the non-blocking helpers), [sys/unix/eventedfd.rs], [sys/unix/io.rs],
    [sys/unix/awakener.rs] with the pipe of [deprecated/unix.rs], and the
    association of sockets with a selector of [net/mod.rs].  The pipe of the
    kernel is an interface, [PipeOps], with the documented behaviour of a
    non-blocking pipe as its laws. *)

From S2P Require Import Prelude Event Convert Iface ReadyQueue Poll Epoll.

(** ** io.rs *)

(** [err.kind()]: the kind of an OS error is found from its number. *)
Definition EAGAIN : Z := 11.
Definition EINTR : Z := 4.
Definition err_kind (e : io_error) : ErrorKind :=
  match e with
  | io_custom k _ => k
  | io_os c => if c =? EAGAIN then WouldBlock else if c =? EINTR then Interrupted else Uncategorized
  end.

Definition map_non_block {A} (r : io_result A) : io_result (option A) :=
  match r with
  | Ok value => Ok (Some value)
  | Err err => if decide (err_kind err = WouldBlock) then Ok None else Err err
  end.

Definition would_block : io_error := io_os EAGAIN.

(** [TryRead::try_read] and [TryWrite::try_write] of [deprecated/io.rs], for any
    reader and writer. *)
Definition try_read {S} (read : Z → M S (io_result Z)) (len : Z) : M S (io_result (option Z)) :=
  r ← read len; mret (map_non_block r).
Definition try_write {S} (write : list Z → M S (io_result Z)) (src : list Z) : M S (io_result (option Z)) :=
  r ← write src; mret (map_non_block r).

(** ** A pipe *)

(** [p_write src] and [p_read len]: the number of bytes moved, or an error. *)
Class PipeOps (P : Type) : Type := {
  p_write : list Z → P → io_result Z * P;
  p_read : Z → P → io_result Z * P }.

(** [p_avail]: bytes waiting; [p_open]: both ends are open. *)
Class PipeSpec (P : Type) : Type := { p_avail : P → Z; p_open : P → Prop }.

Class PipeLaws (P : Type) `{PipeOps P, PipeSpec P} : Prop := {
  p_avail_nonneg p : 0 <= p_avail p;
  (** One byte is written, or there is no room because bytes wait. *)
  p_write_one p b :
    p_open p → ∃ r p', p_write [b] p = (r, p') ∧ p_open p' ∧
      ((r = Ok 1 ∧ p_avail p' = p_avail p + 1) ∨
       (r = Err would_block ∧ p_avail p' = p_avail p ∧ 0 < p_avail p));
  (** Reading takes at least one byte and at most [len], if any wait. *)
  p_read_some p len :
    p_open p → 0 < len → 0 < p_avail p →
    ∃ n p', p_read len p = (Ok n, p') ∧ p_open p' ∧ 0 < n <= len ∧ p_avail p' = p_avail p - n;
  p_read_none p len :
    p_open p → p_avail p = 0 → p_read len p = (Err would_block, p) }.

(** ** sys/unix/awakener.rs *)

Section awakener.
Context {P : Type} {pipe_ops : PipeOps P} {pipe_spec : PipeSpec P}.

(** The two ends of one pipe. *)
Record Awakener : Type := mkAwakener { aw_pipe : P }.

Definition Awakener_new (pipe : io_result P) : io_result Awakener := result_map mkAwakener pipe.

Definition wakeup (a : Awakener) : io_result unit * Awakener :=
  let (r, p) := p_write [1] (aw_pipe a) in
  (match r with
   | Ok _ => Ok tt
   | Err e => if decide (err_kind e = WouldBlock) then Ok tt else Err e
   end, mkAwakener p).

Fixpoint cleanup (fuel : nat) (a : Awakener) : outcome Awakener :=
  match fuel with
  | O => OutOfFuel
  | S fuel =>
      let (r, p) := p_read 128 (aw_pipe a) in
      match r with
      | Ok i => if 0 <? i then cleanup fuel (mkAwakener p) else Done (mkAwakener p)
      | Err _ => Done (mkAwakener p)
      end
  end.

(** The awakener of the readiness queue; every read takes a byte, so the bytes
    that wait bound the reads. *)
Definition cleanup_all (a : Awakener) : Awakener :=
  match cleanup (S (Z.to_nat (p_avail (aw_pipe a)))) a with Done a' => a' | _ => a end.

#[export] Instance pipe_awakener_ops : AwakenerOps Awakener := {
  awk_wakeup := wakeup;
  awk_cleanup := cleanup_all }.
End awakener.
Arguments Awakener P : clear implicits.

(** ** File descriptors and sockets as event sources *)

Section sources.
Context {A : Type} {awk_ops : AwakenerOps A}.
Context {K : Type} {sys : EpollSys K} {consts : EpollConsts}.
Abbreviation EPoll := (Poll A (Selector * K)).

(** [poll::selector(poll)]: a call of the selector. *)
Definition on_selector {X} (f : Selector → M K X) : M EPoll X := λ p,
  let '(s, k) := selector p in
  '(x, k) ← f s k; Done (x, mkPoll (s, k) (readiness_queue p)).

(** [EventedFd(&fd)]; [Io], [PipeReader], [PipeWriter] and the Unix sockets only
    call it. *)
Definition EventedFd (fd : Z) : Evented (A := A) (Sel := Selector * K) := mkEvented
  (λ token interest opts, on_selector (λ s, Selector_register s fd token interest opts))
  (λ token interest opts, on_selector (λ s, Selector_reregister s fd token interest opts))
  (on_selector (λ s, Selector_deregister s fd)).

(** [net::SelectorId]: the id of the selector the socket belongs to, 0 for none;
    it is the first component of the state. *)
Definition SelectorId_new : Z := 0.

Definition associate_selector : M (Z * EPoll) (io_result unit) :=
  selector_id ← gets fst;
  poll_id ← gets (λ st, id (fst (selector (snd st))));
  if negb (selector_id =? 0) && negb (selector_id =? poll_id)
  then mret (Err (io_custom Other "socket already registered"))
  else _ ← modify (λ st, (poll_id, snd st)); mret (Ok tt).

Definition on_poll {X} (m : M EPoll X) : M (Z * EPoll) X := λ '(i, p), '(x, p) ← m p; Done (x, (i, p)).

(** [Evented] for [TcpStream], [TcpListener] and [UdpSocket] with descriptor [fd]. *)
Definition Socket_register (fd : Z) (token : Token) (interest : Ready.t) (opts : PollOpt.t) : M (Z * EPoll) (io_result unit) :=
  try! associate_selector;
  on_poll (e_register (EventedFd fd) token interest opts).
Definition Socket_reregister (fd : Z) (token : Token) (interest : Ready.t) (opts : PollOpt.t) : M (Z * EPoll) (io_result unit) :=
  on_poll (e_reregister (EventedFd fd) token interest opts).
Definition Socket_deregister (fd : Z) : M (Z * EPoll) (io_result unit) :=
  on_poll (e_deregister (EventedFd fd)).

End sources.

(** ** sys/unix/tcp.rs: connecting *)

(** [TcpStream::connect]: the socket is made non-blocking, then connected; a
    connection in progress is not an error.  [set_nonblock] and [connect] are the
    calls of the system on the stream. *)
Definition tcp_connect {S} (EINPROGRESS : Z) (set_nonblock connect : M S (io_result unit)) : M S (io_result unit) :=
  try! set_nonblock;
  r ← connect;
  mret (match r with
        | Ok _ => Ok tt
        | Err e => if decide (e = io_os EINPROGRESS) then Ok tt else Err e
        end).

(** [readv] and [writev]: the number of buffers is cut to what [c_int] holds, and
    a negative result is an error. *)
Definition vectored {S} (call : Z → S → Z * S) (errno : S → Z) (nbufs : Z) : M S (io_result Z) := λ s,
  let len := Z.min I32_MAX nbufs in
  let (rc, s) := call len s in
  Done (if rc <? 0 then Err (io_os (errno s)) else Ok rc, s).

(** ** net/tcp.rs: the wildcard address of a family *)

Definition inaddr_any (other : SocketAddr) : SocketAddr :=
  match other with
  | V4 _ _ => V4 (0, 0, 0, 0) 0
  | V6 _ _ _ _ => V6 [0; 0; 0; 0; 0; 0; 0; 0] 0 0 0
  end.
