(* ===== verification/UnixThm.v ===== *)
(** * Theorems about the awakener and the association of sockets *)

From S2P Require Import Prelude Event Convert Iface ReadyQueue Poll Epoll EpollThm UnixIo.

(** ** The awakener *)

Section awakener.
Context {P : Type} {pipe_ops : PipeOps P} {pipe_spec : PipeSpec P} {pipe_laws : PipeLaws P}.
Implicit Types a : Awakener P.

Abbreviation avail a := (p_avail (aw_pipe a)).
Abbreviation is_open a := (p_open (aw_pipe a)).

Lemma wakeup_ok a : is_open a → ∃ a', wakeup a = (Ok tt, a') ∧ is_open a' ∧ 0 < avail a'.
Proof.
  intros Ho. unfold wakeup. destruct (p_write_one (aw_pipe a) 1 Ho) as (r & p' & -> & Ho' & [[-> Hp]|(-> & Hp & Hpos)]).
  - exists (mkAwakener p'). split; [done|]. split; [done|]. cbn. rewrite Hp. pose proof (p_avail_nonneg (aw_pipe a)). lia.
  - exists (mkAwakener p'). split; [done|]. split; [done|]. cbn. by rewrite Hp.
Qed.

Lemma cleanup_ok fuel : ∀ a, is_open a → (Z.to_nat (avail a) < fuel)%nat →
  ∃ a', cleanup fuel a = Done a' ∧ is_open a' ∧ avail a' = 0.
Proof.
  induction fuel as [|fuel IH]; intros a Ho Hf; [lia|]. cbn. destruct (decide (avail a = 0)) as [Hz|Hnz].
  - rewrite (p_read_none _ _ Ho Hz). by exists (mkAwakener (aw_pipe a)).
  - pose proof (p_avail_nonneg (aw_pipe a)).
    destruct (p_read_some (aw_pipe a) 128 Ho ltac:(lia) ltac:(lia)) as (n & p' & -> & Ho' & Hn & Hp).
    replace (0 <? n) with true by lia. apply IH; [done|]. cbn. lia.
Qed.

(** C31: a wakeup succeeds, also when the pipe is full, and leaves the pipe
    readable; [cleanup] ends after at most as many reads as bytes wait and one
    more, and leaves it empty. *)
Theorem awakener_signal (a : Awakener P) :
  p_open (aw_pipe a) →
  (∃ a', wakeup a = (Ok tt, a') ∧ p_open (aw_pipe a') ∧ 0 < p_avail (aw_pipe a')) ∧
  (∀ fuel, (Z.to_nat (p_avail (aw_pipe a)) < fuel)%nat →
    ∃ a', cleanup fuel a = Done a' ∧ p_open (aw_pipe a') ∧ p_avail (aw_pipe a') = 0) ∧
  p_avail (aw_pipe (cleanup_all a)) = 0.
Proof.
  intros Ho. split; [by apply wakeup_ok|]. split; [intros fuel; by apply cleanup_ok|].
  unfold cleanup_all. destruct (cleanup_ok (S (Z.to_nat (avail a))) a Ho ltac:(lia)) as (a' & -> & _ & Hz). done.
Qed.
End awakener.

(** A pipe of 64 KiB: a full one refuses to write, an empty one to read. *)
Record byte_pipe : Type := mkPipe { bytes : Z }.
#[export] Instance byte_pipe_ops : PipeOps byte_pipe := {
  p_write src p := if bytes p + Z.of_nat (length src) <=? 65536
                   then (Ok (Z.of_nat (length src)), mkPipe (bytes p + Z.of_nat (length src))) else (Err would_block, p);
  p_read len p := if bytes p <=? 0 then (Err would_block, p)
                  else (Ok (Z.min len (bytes p)), mkPipe (bytes p - Z.min len (bytes p))) }.
#[export] Instance byte_pipe_spec : PipeSpec byte_pipe := { p_avail p := Z.max 0 (bytes p); p_open p := 0 <= bytes p }.
#[export] Instance byte_pipe_laws : PipeLaws byte_pipe.
Proof.
  split; intros p; cbn -[Z.leb Z.add].
  - lia.
  - intros b Hp. destruct (bytes p + Z.of_nat 1 <=? 65536) eqn:E; zbool; eexists _, _; (split; [reflexivity|]); cbn -[Z.add].
    + split; [lia|]. left. split; [done|lia].
    + split; [lia|]. right. split; [done|lia].
  - intros len Hp Hl Ha. replace (bytes p <=? 0) with false by lia.
    eexists _, _. split; [reflexivity|]. cbn. lia.
  - intros len Hp Ha. by replace (bytes p <=? 0) with true by lia.
Qed.

Lemma awakener_signal_witness :
  (∃ a', wakeup (mkAwakener (mkPipe 300)) = (Ok tt, a') ∧ p_open (aw_pipe a') ∧ 0 < p_avail (aw_pipe a')) ∧
  p_avail (aw_pipe (cleanup_all (mkAwakener (mkPipe 300)))) = 0.
Proof.
  destruct (awakener_signal (pipe_spec:=byte_pipe_spec) (mkAwakener (mkPipe 300)) ltac:(cbn; lia)) as (H1 & _ & H2). exact (conj H1 H2).
Defined.

(** ** Sockets *)

Section sockets.
Context {A : Type} {awk_ops : AwakenerOps A}.
Context {K : Type} {sys : EpollSys K} {consts : EpollConsts}.
Abbreviation EPoll := (Poll A (Selector * K)).

Definition poll_id (p : EPoll) : Z := id (fst (selector p)).

Lemma associate_ok i (p : EPoll) :
  associate_selector (i, p) =
    Done (if bool_decide (i = 0 ∨ i = poll_id p) then (Ok tt, (poll_id p, p))
          else (Err (io_custom Other "socket already registered"), (i, p))).
Proof.
  unfold associate_selector, mbind, M_bind, gets, modify. cbn [fst snd]. fold (poll_id p).
  destruct (i =? 0) eqn:E0, (i =? poll_id p) eqn:E1; zbool; cbn [negb andb];
    (rewrite bool_decide_eq_true_2 by auto; done) || (rewrite bool_decide_eq_false_2 by (intros [?|?]; done); done).
Qed.

Lemma ctl_total op (s : Selector) fd info (k : K) : ∃ r k', ctl op s fd info k = Done (r, k').
Proof.
  unfold ctl, syscall, cvt, mbind, M_bind. destruct (k_epoll_ctl (epfd s) op fd info k) as [c k'].
  destruct (is_minus_one c); eexists _, _; reflexivity.
Qed.

(** registering a fresh socket ties it to the selector of that [Poll]
    whatever the kernel answers; from then on registering it with a [Poll] of
    another id fails and touches neither the kernel nor the socket, while
    registering with the first one reaches the kernel again. *)
Theorem socket_one_selector fd token interest opts (p p' : EPoll) :
  poll_id p ≠ 0 → poll_id p' ≠ poll_id p →
  (∃ r p1, Socket_register fd token interest opts (SelectorId_new, p) = Done (r, (poll_id p, p1)) ∧ poll_id p1 = poll_id p) ∧
  Socket_register fd token interest opts (poll_id p, p')
    = Done (Err (io_custom Other "socket already registered"), (poll_id p, p')) ∧
  Socket_register fd token interest opts (poll_id p, p) = on_poll (e_register (EventedFd fd) token interest opts) (poll_id p, p).
Proof.
  intros H0 Hne. unfold Socket_register, mbind, M_bind. rewrite !associate_ok.
  rewrite (bool_decide_eq_true_2 (SelectorId_new = 0 ∨ _)) by (by left).
  rewrite (bool_decide_eq_false_2 (poll_id p = 0 ∨ poll_id p = poll_id p')) by (intros [?|?]; congruence).
  rewrite (bool_decide_eq_true_2 (poll_id p = 0 ∨ poll_id p = poll_id p)) by (by right).
  split; [|done]. unfold on_poll, EventedFd. cbn [e_register]. unfold on_selector, Selector_register, poll_id.
  destruct (selector p) as [s k] eqn:Es.
  destruct (ctl_total EPOLL_CTL_ADD s fd (mkEpollEvent (ioevent_to_epoll interest opts) (usize_from_token token)) k) as (r & k' & ->).
  cbn. eauto.
Qed.

(** selectors created one after the other have different ids, none of which
    is the id 0 of a socket without a selector; a failed creation uses up none. *)
Theorem Selector_new_ids (n n1 n2 : Z) (k k1 k2 : K) (r1 r2 : io_result Selector) :
  0 <= n → n + 2 <= U64_MAX →
  Selector_new (n, k) = Done (r1, (n1, k1)) → Selector_new (n1, k1) = Done (r2, (n2, k2)) →
  (∀ s1, r1 = Ok s1 → n < id s1 <= n1) ∧
  (∀ s1 s2, r1 = Ok s1 → r2 = Ok s2 → id s1 < id s2) ∧
  ((∃ e, r1 = Err e) → n1 = n).
Proof.
  intros Hn0 Hn.
  assert (∀ n k r n' k', 0 <= n → n + 1 <= U64_MAX → Selector_new (n, k) = Done (r, (n', k')) →
    (∀ s, r = Ok s → id s = n + 1 ∧ n' = n + 1) ∧ ((∃ e, r = Err e) → n' = n)) as Hone.
  { clear. intros n k r n' k' Hn0 Hn. unfold Selector_new, mbind, M_bind, on_kernel. cbn.
    destruct (create_epfd k) as [[[fd|e] k1]| |]; cbn; try done.
    - unfold lift, add64, gets, modify. cbn. replace (n + 1 <=? U64_MAX) with true by lia. rewrite wrap64_id by (unfold is_u64; lia).
      intros [= <- <- <-]. split; [by intros s [= <-]|by intros [e ?]].
    - intros [= <- <- <-]. split; [done|done]. }
  intros E1 E2. destruct (Hone _ _ _ _ _ Hn0 ltac:(lia) E1) as [H1 H1e].
  assert (n1 = n + 1 ∨ n1 = n) as Hn1 by (destruct r1 as [s|e]; [left; by apply (H1 s)|right; apply H1e; eauto]).
  destruct (Hone n1 k1 r2 n2 k2 ltac:(lia) ltac:(lia) E2) as [H2 _].
  split; [intros s1 Hs; destruct (H1 s1 Hs); lia|]. split; [|done].
  intros s1 s2 Hs1 Hs2. destruct (H1 s1 Hs1), (H2 s2 Hs2). lia.
Qed.
End sockets.

Definition poll_with_id (i : Z) : Poll unit (Selector * scripted) :=
  mkPoll (mkSelector i 3, mkScripted [] []) (mkQueue 7 tt None None 1%positive ∅).

#[export] Instance unit_awakener : AwakenerOps unit := { awk_wakeup _ := (Ok tt, tt); awk_cleanup _ := tt }.

Lemma socket_one_selector_witness :
  Socket_register 8 (mkToken 5) Ready.readable PollOpt.edge (1, poll_with_id 2)
  = Done (Err (io_custom Other "socket already registered"), (1, poll_with_id 2)).
Proof.
  apply (socket_one_selector 8 (mkToken 5) Ready.readable PollOpt.edge (poll_with_id 1) (poll_with_id 2)); vm_compute; discriminate.
Defined.

Lemma Selector_new_ids_witness :
  ∃ s1 s2 st1 st2, Selector_new (0, mkScripted [] []) = Done (Ok s1, st1) ∧ Selector_new st1 = Done (Ok s2, st2) ∧ id s1 < id s2.
Proof.
  exists (mkSelector 1 3), (mkSelector 2 3), (1, mkScripted [] []), (2, mkScripted [] []).
  split; [vm_compute; reflexivity|]. split; [vm_compute; reflexivity|].
  apply (Selector_new_ids (sys:=scripted_sys) 0 1 2 (mkScripted [] []) (mkScripted [] []) (mkScripted [] [])
    (Ok (mkSelector 1 3)) (Ok (mkSelector 2 3))); first [reflexivity|vm_compute; discriminate].
Defined.
