(* ===== verification/EpollReg.v ===== *)
(** * Registrations and polls on Linux

    [Poll] with the epoll selector and sources that are file descriptors, against an
    abstract specification: a map from descriptors to registrations.  What the
    kernel does with its interest list is an interface ([EpollSpec], [EpollLaws]);
    the code in between is that of [Poll], [EventedFd] and the selector.  The
    specification takes what the kernel answers and what the readiness queue holds
    as inputs ([Obs]); given them it determines the answer of every operation. *)

From S2P Require Import Prelude Event Convert DList Iface ReadyQueue QueueInv QueueOps QueuePoll Poll PollThm.
From S2P Require Import Epoll EpollThm UnixIo.

Definition EEXIST : Z := 17.

(** ** The specification *)

(** A registration; [rg_armed]: it can still be reported. *)
Record Reg : Type := mkReg { rg_token : Token; rg_interest : Ready.t; rg_opts : PollOpt.t; rg_armed : bool }.
Abbreviation Registry := (gmap Z Reg).

Inductive POp : Type :=
  | PRegister (fd : Z) (token : Token) (interest : Ready.t) (opts : PollOpt.t)
  | PReregister (fd : Z) (token : Token) (interest : Ready.t) (opts : PollOpt.t)
  | PDeregister (fd : Z)
  | PPoll (timeout : option Duration).
Inductive PAns : Type :=
  | ADone (r : io_result unit)
  | APoll (r : io_result Z) (events : list Event.t).

(** What the kernel answers during an operation: the error of epoll_ctl, if any; the
    error of epoll_wait, or the descriptors it reports with their flags, and with it
    what the readiness queue holds then. *)
Inductive Obs : Type :=
  | OCtl (refused : option Z)
  | OWaitFailed (code : Z)
  | OWait (reported : list (Z * Z)) (queued : list Event.t).

Section spec.
Context {consts : EpollConsts}.

(** What the kernel reports for a registration: only what it is interested in,
    besides errors and hang-ups, and only while it is armed. *)
Definition allowed (g : Reg) (flags : Z) : Prop :=
  rg_armed g = true ∧
  (Ready.is_readable (epoll_to_ready flags) = true → Ready.is_readable (rg_interest g) = true) ∧
  (Ready.is_writable (epoll_to_ready flags) = true → Ready.is_writable (rg_interest g) = true).
Definition may_report (m : Registry) (x : Z * Z) : Prop := ∃ g, m !! x.1 = Some g ∧ allowed g x.2.

(** The event of a poll for a descriptor; there is none for the awakener. *)
Definition fd_event (m : Registry) (x : Z * Z) : option Event.t :=
  g ← m !! x.1; if decide (rg_token g = AWAKEN) then None else Some (Event.new (epoll_to_ready x.2) (rg_token g)).
(** The event of a poll for one of the readiness queue: errors are not kept. *)
Definition queue_event (e : Event.t) : Event.t := Event.new (Event.kind e &ᵣ kept) (Event.token e).

(** A one-shot registration that was reported is disarmed. *)
Definition disarm (fds : list Z) (m : Registry) : Registry :=
  map_imap (λ fd g, Some (if decide (fd ∈ fds) then if PollOpt.is_oneshot (rg_opts g)
    then mkReg (rg_token g) (rg_interest g) (rg_opts g) false else g else g)) m.

(** An operation with valid arguments does what the kernel answers, and the kernel
    does not register twice; a poll gives one event for each descriptor reported, in
    order, and then one for each of the readiness queue. *)
Inductive reg_step (m : Registry) : POp → Obs → PAns → Registry → Prop :=
  | rs_invalid fd token interest opts e op obs :
      validate_args token interest = Err e → op = PRegister fd token interest opts ∨ op = PReregister fd token interest opts →
      reg_step m op obs (ADone (Err e)) m
  | rs_register fd token interest opts :
      validate_args token interest = Ok tt → m !! fd = None →
      reg_step m (PRegister fd token interest opts) (OCtl None) (ADone (Ok tt)) (<[fd := mkReg token interest opts true]> m)
  | rs_register_refused fd token interest opts code :
      validate_args token interest = Ok tt → (is_Some (m !! fd) → code = EEXIST) →
      reg_step m (PRegister fd token interest opts) (OCtl (Some code)) (ADone (Err (io_os code))) m
  | rs_reregister fd token interest opts :
      validate_args token interest = Ok tt → is_Some (m !! fd) →
      reg_step m (PReregister fd token interest opts) (OCtl None) (ADone (Ok tt)) (<[fd := mkReg token interest opts true]> m)
  | rs_reregister_refused fd token interest opts code :
      validate_args token interest = Ok tt →
      reg_step m (PReregister fd token interest opts) (OCtl (Some code)) (ADone (Err (io_os code))) m
  | rs_deregister fd : is_Some (m !! fd) → reg_step m (PDeregister fd) (OCtl None) (ADone (Ok tt)) (delete fd m)
  | rs_deregister_refused fd code : reg_step m (PDeregister fd) (OCtl (Some code)) (ADone (Err (io_os code))) m
  | rs_poll_failed timeout code : reg_step m (PPoll timeout) (OWaitFailed code) (APoll (Err (io_os code)) []) m
  | rs_poll timeout reported queued events :
      NoDup reported.*1 → Forall (may_report m) reported →
      events = omap (fd_event m) reported ++ (queue_event <$> queued) →
      reg_step m (PPoll timeout) (OWait reported queued) (APoll (Ok (Z.of_nat (length events))) events) (disarm reported.*1 m).

Inductive reg_steps : Registry → list POp → list Obs → list PAns → Registry → Prop :=
  | reg_none m : reg_steps m [] [] [] m
  | reg_more m op obs ans m1 ops obss anss m' :
      reg_step m op obs ans m1 → reg_steps m1 ops obss anss m' → reg_steps m (op :: ops) (obs :: obss) (ans :: anss) m'.

(** The answer is determined by the operation and the observation. *)
Lemma reg_step_det m op obs a1 m1 a2 m2 : reg_step m op obs a1 m1 → reg_step m op obs a2 m2 → a1 = a2 ∧ m1 = m2.
Proof. intros H1 H2. inversion H1; subst; inversion H2; subst; naive_solver congruence. Qed.
End spec.

(** ** The kernel *)

(** [k_interest k epfd]: for each descriptor what was asked last; [k_disarmed]: the
    one-shot ones reported since; [k_reported]: the descriptors of the events of the
    last epoll_wait. *)
Class EpollSpec (K : Type) : Type := {
  k_interest : K → Z → gmap Z epoll_event;
  k_disarmed : K → Z → gset Z;
  k_reported : K → Z → list Z }.

Section laws.
Context {K : Type} {sys : EpollSys K} {consts : EpollConsts} {spec : EpollSpec K}.

Definition ctl_pre (op : CtlOp) (o : option epoll_event) : Prop :=
  match op with EPOLL_CTL_ADD => o = None | _ => is_Some o end.
Definition ctl_effect (op : CtlOp) (fd : Z) (ev : epoll_event) (m : gmap Z epoll_event) : gmap Z epoll_event :=
  match op with EPOLL_CTL_DEL => delete fd m | _ => <[fd := ev]> m end.
Definition epoll_same (epfd : Z) (k k' : K) : Prop :=
  k_interest k' epfd = k_interest k epfd ∧ k_disarmed k' epfd = k_disarmed k epfd.

(** An event reported for [fd]: flags that were asked for, or an error or hang-up. *)
Definition kernel_reports (epfd : Z) (k : K) (fd : Z) (e : epoll_event) : Prop :=
  ∃ ev, k_interest k epfd !! fd = Some ev ∧ (fd ∉ k_disarmed k epfd) ∧ ee_u64 e = ee_u64 ev ∧
    ∀ f, has (ee_events e) f = true → has (ee_events ev) f = true ∨ f = ERR ∨ f = HUP.
End laws.

Class EpollLaws (K : Type) `{EpollSys K, EpollConsts, EpollSpec K} : Prop := {
  el_ctl epfd op fd ev k r k' : k_epoll_ctl epfd op fd ev k = (r, k') →
    (r = -1 ∧ epoll_same epfd k k' ∧ (op = EPOLL_CTL_ADD → is_Some (k_interest k epfd !! fd) → k_errno k' = EEXIST)) ∨
    (r ≠ -1 ∧ ctl_pre op (k_interest k epfd !! fd) ∧ k_interest k' epfd = ctl_effect op fd ev (k_interest k epfd) ∧
     k_disarmed k' epfd = k_disarmed k epfd ∖ {[fd]});
  el_wait epfd cap ms k cnt evs k' : k_epoll_wait epfd cap ms k = ((cnt, evs), k') →
    (cnt = -1 ∧ epoll_same epfd k k') ∨
    (cnt = Z.of_nat (length evs) ∧ NoDup (k_reported k' epfd) ∧ Forall2 (kernel_reports epfd k) (k_reported k' epfd) evs ∧
      k_interest k' epfd = k_interest k epfd ∧
      ∀ fd, fd ∈ k_disarmed k' epfd ↔ fd ∈ k_disarmed k epfd ∨
        (fd ∈ k_reported k' epfd ∧ ∃ ev, k_interest k epfd !! fd = Some ev ∧ has (ee_events ev) ONESHOT = true)) }.

(** ** Running the operations *)

Section refinement.
Context {A : Type} {awk_ops : AwakenerOps A}.
Context {K : Type} {sys : EpollSys K} {consts : EpollConsts} {const_laws : EpollConstLaws} {growth : VecGrowth}.
Context {spec : EpollSpec K} {laws : EpollLaws K}.
Abbreviation EPoll := (Poll A (Selector * K)).
Implicit Types (p : EPoll) (m : Registry).

(** What other threads do to the queue during a poll. *)
Context (others : Queue A → Queue A) (others_wf : ∀ q, queue_wf q → queue_wf (others q)).

(** The events in a buffer. *)
Definition seen_events (e : EpollEvents) : list Event.t :=
  (λ ev, Event.new (epoll_to_ready (ee_events ev)) (mkToken (ee_u64 ev))) <$> Epoll.events e.

Definition run_pop (op : POp) : M (EPoll * Events EpollEvents) PAns := λ '(p, evs),
  match op with
  | PRegister fd token interest opts =>
      '(r, p) ← Poll_register (EventedFd fd) token interest opts p; Done (ADone r, (p, evs))
  | PReregister fd token interest opts =>
      '(r, p) ← Poll_reregister (EventedFd fd) token interest opts p; Done (ADone r, (p, evs))
  | PDeregister fd => '(r, p) ← Poll_deregister (EventedFd fd) p; Done (ADone r, (p, evs))
  | PPoll timeout =>
      '((r, evs), p) ← Poll_poll others evs timeout p; Done (APoll r (seen_events (ev_inner evs)), (p, evs))
  end.
Fixpoint run_pops (ops : list POp) : M (EPoll * Events EpollEvents) (list PAns) :=
  match ops with
  | [] => mret []
  | op :: ops => a ← run_pop op; l ← run_pops ops; mret (a :: l)
  end.

(** ** What an operation finds *)

(** What the kernel is asked for a registration. *)
Definition asked (g : Reg) : epoll_event := mkEpollEvent (ioevent_to_epoll (rg_interest g) (rg_opts g)) (usize_from_token (rg_token g)).

Definition ctl_answer (op : CtlOp) (fd : Z) (ev : epoll_event) p : Obs :=
  let '(r, k) := k_epoll_ctl (epfd (selector p).1) op fd ev (selector p).2 in
  OCtl (if r =? -1 then Some (k_errno k) else None).

(** All that a queue reports. *)
Definition collected (q : Queue A) : list Event.t :=
  match queue_poll (λ e l, l ++ [e]) [] q with Done (l, _) => l | _ => [] end.

(** Without anything in the queue a poll waits for as long as it is told; the queue is
    then marked, and other threads act on it before it is looked at. *)
Definition wait_answer (timeout : option Duration) p (evs : Events EpollEvents) : Obs :=
  let s := (selector p).1 in
  let k := (selector p).2 in
  let q := readiness_queue p in
  let idle := bool_decide (head_readiness q = None) in
  match timeout_ms (if idle then timeout else Some (from_millis 0)) with
  | Done ms =>
      let '((cnt, written), k') := k_epoll_wait (epfd s) (as_i32 (capacity (ev_inner evs))) ms k in
      if cnt =? -1 then OWaitFailed (k_errno k')
      else OWait (zip (k_reported k' (epfd s)) (ee_events <$> written))
             (collected (others (if idle then set_head_readiness (Some (sleep_token q)) q else q)))
  | _ => OWaitFailed 0
  end.

Definition observe (op : POp) '(p, evs) : Obs :=
  match op with
  | PRegister fd token interest opts => ctl_answer EPOLL_CTL_ADD fd (asked (mkReg token interest opts true)) p
  | PReregister fd token interest opts => ctl_answer EPOLL_CTL_MOD fd (asked (mkReg token interest opts true)) p
  | PDeregister fd => ctl_answer EPOLL_CTL_DEL fd (mkEpollEvent 0 0) p
  | PPoll timeout => wait_answer timeout p evs
  end.
Fixpoint observe_all (ops : list POp) (st : EPoll * Events EpollEvents) : list Obs :=
  match ops with
  | [] => []
  | op :: ops => observe op st :: match run_pop op st with Done (_, st') => observe_all ops st' | _ => [] end
  end.

(** ** The relation between the [Poll] and the map *)

Definition interest_of p : gmap Z epoll_event := k_interest (selector p).2 (epfd (selector p).1).
Definition disarmed_of p : gset Z := k_disarmed (selector p).2 (epfd (selector p).1).

Record refines p m : Prop := {
  rf_queue : queue_wf (readiness_queue p);
  rf_interest : interest_of p = asked <$> m;
  rf_disarmed fd g : m !! fd = Some g → fd ∈ disarmed_of p ↔ rg_armed g = false;
  rf_awakener fd fd' g g' : m !! fd = Some g → m !! fd' = Some g' → rg_token g = AWAKEN → rg_token g' = AWAKEN → fd = fd' }.

Lemma refines_lookup p m fd : refines p m → interest_of p !! fd = asked <$> m !! fd.
Proof. intros Hr. by rewrite (rf_interest _ _ Hr), lookup_fmap. Qed.

(** One call of epoll_ctl, through the selector of a [Poll]. *)
Lemma wp_on_ctl op fd ev p m (Q : io_result unit → EPoll → Prop) :
  refines p m →
  (∀ code p', ctl_answer op fd ev p = OCtl (Some code) → refines p' m → (op = EPOLL_CTL_ADD → is_Some (m !! fd) → code = EEXIST) →
    Q (Err (io_os code)) p') →
  (∀ p', ctl_answer op fd ev p = OCtl None → ctl_pre op (asked <$> m !! fd) → queue_wf (readiness_queue p') → interest_of p' = ctl_effect op fd ev (asked <$> m) →
    disarmed_of p' = disarmed_of p ∖ {[fd]} → Q (Ok tt) p') →
  wp (on_selector (λ s, ctl op s fd ev)) Q p.
Proof.
  intros Hr Herr Hok. destruct p as [[s k] q]. unfold wp, on_selector, ctl, mbind, M_bind, syscall, cvt. cbn.
  pose proof (refines_lookup _ _ fd Hr) as Hfd. unfold interest_of in Hfd. cbn in Hfd.
  destruct (k_epoll_ctl (epfd s) op fd ev k) as [r k'] eqn:E. cbn. unfold is_minus_one.
  destruct (el_ctl _ _ _ _ _ _ _ E) as [(-> & [Hi Hd] & Hex)|(Hne & Hpre & Hi & Hd)].
  - cbn. apply Herr.
    + unfold ctl_answer. cbn. by rewrite E.
    + destruct Hr as [Hq Hin Hdis Haw]. split; [done| |..|done]; unfold interest_of, disarmed_of in *; cbn in *; [by rewrite Hi|by rewrite Hd].
    + intros Hop Hs. apply Hex; [done|]. rewrite Hfd. by apply fmap_is_Some.
  - replace (r =? -1) with false by lia. cbn. rewrite Hfd in Hpre. apply Hok; [|done|apply Hr| |done].
    { unfold ctl_answer. cbn. rewrite E. by replace (r =? -1) with false by lia. }
    unfold interest_of. cbn. rewrite Hi. f_equal. apply (rf_interest _ _ Hr).
Qed.

Lemma refines_insert p p' m fd g :
  refines p m → queue_wf (readiness_queue p') → interest_of p' = <[fd := asked g]> (asked <$> m) →
  disarmed_of p' = disarmed_of p ∖ {[fd]} → rg_armed g = true → rg_token g ≠ AWAKEN → refines p' (<[fd := g]> m).
Proof.
  intros [_ _ Hdis Haw] Hq Hi Hd Harm Htok. split; [done|by rewrite fmap_insert| |].
  - intros fd' g'. rewrite Hd. destruct (decide (fd' = fd)) as [->|Hne].
    + rewrite lookup_insert_eq. intros [= <-]. rewrite Harm. set_solver.
    + rewrite lookup_insert_ne by done. intros Hg'. rewrite <- (Hdis _ _ Hg'). set_solver.
  - intros fd1 fd2 g1 g2. rewrite !lookup_insert_Some. naive_solver.
Qed.

Lemma refines_delete p p' m fd :
  refines p m → queue_wf (readiness_queue p') → interest_of p' = delete fd (asked <$> m) →
  disarmed_of p' = disarmed_of p ∖ {[fd]} → refines p' (delete fd m).
Proof.
  intros [_ _ Hdis Haw] Hq Hi Hd. split; [done|by rewrite fmap_delete| |].
  - intros fd' g' [Hne Hg']%lookup_delete_Some. rewrite Hd, <- (Hdis _ _ Hg'). set_solver.
  - intros fd1 fd2 g1 g2. rewrite !lookup_delete_Some. naive_solver.
Qed.

Lemma valid_token token interest : validate_args token interest = Ok tt → token ≠ AWAKEN.
Proof. unfold validate_args. by case_decide. Qed.

(** An operation refines the map: it returns, and its answer and the new state are
    those of a step of the map. *)
Definition op_refines (op : POp) (m : Registry) (obs : Obs) (a : PAns) (st : EPoll * Events EpollEvents) : Prop :=
  ∃ m', reg_step m op obs a m' ∧ refines st.1 m'.

Ltac observed Ho := cbn [observe]; unfold asked; cbn [rg_interest rg_opts rg_token]; rewrite Ho.

Lemma register_refines fd token interest opts p evs m :
  refines p m → wp (run_pop (PRegister fd token interest opts)) (op_refines (PRegister fd token interest opts) m (observe (PRegister fd token interest opts) (p, evs))) (p, evs).
Proof.
  intros Hr. unfold wp, run_pop, Poll_register. destruct (validate_args token interest) as [[]|e] eqn:Ev.
  2: { cbn. exists m. split; [|done]. by eapply rs_invalid; [|left]. }
  assert (wp (on_selector (λ s, Selector_register s fd token interest opts)) (λ r p', op_refines (PRegister fd token interest opts) m (observe (PRegister fd token interest opts) (p, evs)) (ADone r) (p', evs)) p)
    as (r & p' & E & Ho)%wp_done.
  { eapply wp_on_ctl; [exact Hr| |].
    - intros code p' Ho Hr' Hex. exists m. split; [|done]. observed Ho. apply rs_register_refused; [done|auto].
    - intros p' Ho Hpre Hq Hi Hd. cbn in Hpre. apply fmap_None in Hpre. eexists. split; [observed Ho; by apply rs_register|].
      by eapply refines_insert; [..|eapply valid_token]. }
  cbn. unfold mbind, M_bind. cbn. rewrite E. destruct r as [[]|e]; exact Ho.
Qed.

Lemma reregister_refines fd token interest opts p evs m :
  refines p m → wp (run_pop (PReregister fd token interest opts)) (op_refines (PReregister fd token interest opts) m (observe (PReregister fd token interest opts) (p, evs))) (p, evs).
Proof.
  intros Hr. unfold wp, run_pop, Poll_reregister. destruct (validate_args token interest) as [[]|e] eqn:Ev.
  2: { cbn. exists m. split; [|done]. by eapply rs_invalid; [|right]. }
  assert (wp (on_selector (λ s, Selector_reregister s fd token interest opts)) (λ r p', op_refines (PReregister fd token interest opts) m (observe (PReregister fd token interest opts) (p, evs)) (ADone r) (p', evs)) p)
    as (r & p' & E & Ho)%wp_done.
  { eapply wp_on_ctl; [exact Hr| |].
    - intros code p' Ho Hr' Hex. exists m. split; [|done]. observed Ho. by apply rs_reregister_refused.
    - intros p' Ho Hpre Hq Hi Hd. cbn in Hpre. apply fmap_is_Some in Hpre. eexists. split; [observed Ho; by apply rs_reregister|].
      by eapply refines_insert; [..|eapply valid_token]. }
  cbn. unfold mbind, M_bind. cbn. rewrite E. destruct r as [[]|e]; exact Ho.
Qed.

Lemma deregister_refines fd p evs m : refines p m → wp (run_pop (PDeregister fd)) (op_refines (PDeregister fd) m (observe (PDeregister fd) (p, evs))) (p, evs).
Proof.
  intros Hr. unfold wp, run_pop, Poll_deregister.
  assert (wp (on_selector (λ s, Selector_deregister s fd)) (λ r p', op_refines (PDeregister fd) m (observe (PDeregister fd) (p, evs)) (ADone r) (p', evs)) p)
    as (r & p' & E & Ho)%wp_done.
  { eapply wp_on_ctl; [exact Hr| |].
    - intros code p' Ho Hr' Hex. exists m. split; [|done]. observed Ho. apply rs_deregister_refused.
    - intros p' Ho Hpre Hq Hi Hd. cbn in Hpre. apply fmap_is_Some in Hpre. eexists. split; [observed Ho; by apply rs_deregister|].
      by eapply refines_delete. }
  cbn. unfold mbind, M_bind. cbn. rewrite E. destruct r as [[]|e]; exact Ho.
Qed.

(** ** Polls *)

Lemma take_awakener_split awakener evs found rest : take_awakener awakener evs = (found, rest) →
  (found = false ∧ rest = evs ∧ Forall (λ e, ¬ is_awk awakener e) evs) ∨
  (found = true ∧ ∃ l1 e l2, evs = l1 ++ e :: l2 ∧ rest = l1 ++ l2 ∧ is_awk awakener e ∧ Forall (λ e, ¬ is_awk awakener e) l1).
Proof.
  revert found rest. induction evs as [|e evs IH]; intros found rest; cbn [take_awakener]; [intros [= <- <-]; auto|].
  destruct (ee_u64 e =? usize_from_token awakener) eqn:E; zbool.
  - intros [= <- <-]. right. split; [done|]. by exists [], e, evs.
  - destruct (take_awakener awakener evs) as [f r]. intros [= <- <-]. destruct (IH _ _ eq_refl) as [(-> & -> & Ha)|(-> & l1 & a & l2 & -> & -> & Ha & Hl1)].
    + left. split; [done|]. split; [done|]. by constructor.
    + right. split; [done|]. exists (e :: l1), a, l2. do 3 (split; [done|]). by constructor.
Qed.

Definition event_of (e : epoll_event) : Event.t := Event.new (epoll_to_ready (ee_events e)) (mkToken (ee_u64 e)).

(** What the kernel reports for a descriptor is allowed by its registration, and is
    taken for an event with its token. *)
Lemma kernel_reports_allowed p m fd e :
  refines p m → kernel_reports (epfd (selector p).1) (selector p).2 fd e →
  ∃ g, m !! fd = Some g ∧ allowed g (ee_events e) ∧ mkToken (ee_u64 e) = rg_token g.
Proof.
  intros Hr (ev & Hev & Hd & Hu & Hf). fold (interest_of p) in Hev. rewrite (refines_lookup _ _ fd Hr) in Hev.
  apply fmap_Some in Hev as (g & Hg & ->). exists g. split; [done|]. cbn in Hu, Hf. unfold allowed.
  destruct (epoll_to_ready_flags (ee_events e)) as (Hre & Hwr & _). rewrite Hre, Hwr. setoid_rewrite has_ioevent in Hf. split; [split; [|split]|].
  - apply not_false_iff_true. intros Ha. apply Hd. by apply (rf_disarmed _ _ Hr fd g Hg).
  - intros [H|H]%orb_true_iff; destruct (Hf _ H) as [Hw|[?|?]]; try done; cbn in Hw; by apply andb_true_iff in Hw as [? _].
  - intros H. by destruct (Hf _ H) as [Hw|[?|?]].
  - rewrite Hu. by destruct (rg_token g).
Qed.

(** What was reported: the descriptors with the flags of their events. *)
Definition reported_as (fds : list Z) (evs : list epoll_event) : list (Z * Z) := zip fds (ee_events <$> evs).

Lemma reported_fds fds evs : length fds = length evs → (reported_as fds evs).*1 = fds.
Proof. intros H. apply fst_zip. rewrite length_fmap. lia. Qed.

(** Events of the kernel with the descriptors they are for. *)
Definition for_fds (m : Registry) : list Z → list epoll_event → Prop :=
  Forall2 (λ fd e, ∃ g, m !! fd = Some g ∧ allowed g (ee_events e) ∧ mkToken (ee_u64 e) = rg_token g).

Lemma for_fds_may_report m fds evs : for_fds m fds evs → Forall (may_report m) (reported_as fds evs).
Proof. induction 1 as [|fd e fds evs (g & Hg & Ha & _) _ IH]; constructor; [by exists g|done]. Qed.

Lemma is_awk_token e g : mkToken (ee_u64 e) = rg_token g → is_awk AWAKEN e ↔ rg_token g = AWAKEN.
Proof. intros <-. unfold is_awk. split; [by intros ->|by intros [= ->]]. Qed.

(** Events none of which is the awakener's are all seen. *)
Lemma fd_events_all m fds evs : for_fds m fds evs → Forall (λ e, ¬ is_awk AWAKEN e) evs →
  omap (fd_event m) (reported_as fds evs) = event_of <$> evs.
Proof.
  induction 1 as [|fd e fds evs (g & Hg & _ & Ht) _ IH]; [done|]. intros [He Hevs]%Forall_cons. cbn. unfold fd_event at 1. cbn.
  rewrite Hg. cbn. rewrite decide_False by (by rewrite <- (is_awk_token e g)). rewrite <- (IH Hevs). unfold event_of. by rewrite Ht.
Qed.

Lemma for_fds_app_inv m fds l1 l2 : for_fds m fds (l1 ++ l2) → ∃ f1 f2, fds = f1 ++ f2 ∧ for_fds m f1 l1 ∧ for_fds m f2 l2.
Proof. intros (f1 & f2 & H1 & H2 & ->)%Forall2_app_inv_r. eauto. Qed.
Lemma reported_app f1 f2 (l1 l2 : list epoll_event) : length f1 = length l1 →
  reported_as (f1 ++ f2) (l1 ++ l2) = reported_as f1 l1 ++ reported_as f2 l2.
Proof. intros H. unfold reported_as. rewrite fmap_app. apply zip_with_app. by rewrite length_fmap. Qed.

(** Only one registration has the awakener's token, so [select] leaves no event of it,
    and it leaves all others. *)
Lemma without_awakener p m fds evs found rest :
  refines p m → NoDup fds → for_fds m fds evs → take_awakener AWAKEN evs = (found, rest) →
  omap (fd_event m) (reported_as fds evs) = event_of <$> rest.
Proof.
  intros Hr Hnd Hall Ht. destruct (take_awakener_split _ _ _ _ Ht) as [(_ & -> & Ha)|(_ & l1 & a & l2 & -> & -> & Ha & Hl1)]; [by apply fd_events_all|].
  apply for_fds_app_inv in Hall as (f1 & f2' & -> & H1 & H2). apply Forall2_cons_inv_r in H2 as (fa & f2 & (ga & Hga & _ & Hta) & H2 & ->).
  rewrite reported_app by (by eapply Forall2_length). rewrite omap_app, fmap_app. f_equal; [by apply fd_events_all|].
  cbn. unfold fd_event at 1. cbn. rewrite Hga. cbn. apply (is_awk_token a ga Hta) in Ha. rewrite decide_True by done.
  apply fd_events_all; [done|]. apply Forall_lookup. intros i e He Hawk.
  destruct (Forall2_lookup_r _ _ _ _ _ H2 He) as (fd & Hfd & g & Hg & _ & Htok). apply (is_awk_token e g Htok) in Hawk.
  assert (fd = fa) as -> by (by eapply (rf_awakener _ _ Hr)).
  apply NoDup_app in Hnd as (_ & _ & Hnd). apply NoDup_cons in Hnd as [Hnin _]. apply Hnin. by eapply list_elem_of_lookup_2.
Qed.

Lemma disarm_lookup fds m fd : disarm fds m !! fd =
  (λ g, if decide (fd ∈ fds) then if PollOpt.is_oneshot (rg_opts g) then mkReg (rg_token g) (rg_interest g) (rg_opts g) false else g else g) <$> m !! fd.
Proof. unfold disarm. rewrite map_lookup_imap. by destruct (m !! fd). Qed.

Lemma refines_disarm p p' m fds :
  refines p m → queue_wf (readiness_queue p') → interest_of p' = interest_of p →
  (∀ fd, fd ∈ disarmed_of p' ↔ fd ∈ disarmed_of p ∨ (fd ∈ fds ∧ ∃ ev, interest_of p !! fd = Some ev ∧ has (ee_events ev) ONESHOT = true)) →
  refines p' (disarm fds m).
Proof.
  intros Hr Hq Hi Hd.
  assert (∀ fd g', disarm fds m !! fd = Some g' → ∃ g, m !! fd = Some g ∧ rg_token g' = rg_token g ∧
    (rg_armed g' = false ↔ rg_armed g = false ∨ (fd ∈ fds ∧ PollOpt.is_oneshot (rg_opts g) = true))) as Hdis.
  { intros fd g'. rewrite disarm_lookup. intros (g & Hg & ->)%fmap_Some. exists g. split; [done|]. case_decide; [|naive_solver].
    destruct (PollOpt.is_oneshot (rg_opts g)); naive_solver. }
  split; [done| | |].
  - rewrite Hi, (rf_interest _ _ Hr). apply map_eq. intros fd. rewrite !lookup_fmap, disarm_lookup. destruct (m !! fd) as [g|]; [|done].
    cbn. by repeat case_match.
  - intros fd g' Hg'. destruct (Hdis _ _ Hg') as (g & Hg & _ & Harm). rewrite Hd, Harm, (rf_disarmed _ _ Hr _ _ Hg).
    rewrite (refines_lookup _ _ fd Hr), Hg. cbn. split.
    + intros [?|(Hin & ev & [= <-] & Hone)]; [by left|right]. cbn in Hone. by rewrite has_ioevent in Hone.
    + intros [?|[Hin Hone]]; [by left|right]. split; [done|]. eexists. split; [done|]. cbn. by rewrite has_ioevent.
  - intros fd fd' g g' Hg Hg' Ht Ht'. destruct (Hdis _ _ Hg) as (g1 & Hg1 & Et1 & _), (Hdis _ _ Hg') as (g2 & Hg2 & Et2 & _).
    eapply (rf_awakener _ _ Hr); [exact Hg1|exact Hg2|congruence..].
Qed.

(** One call of the selector. *)
Lemma select_refines evts timeout p m :
  refines p m → from_option Duration_wf True timeout →
  ∃ ms cnt written k' r evs, let s := (selector p).1 in
    timeout_ms timeout = Done ms ∧ k_epoll_wait (epfd s) (as_i32 (capacity evts)) ms (selector p).2 = ((cnt, written), k') ∧
    sel_select evts AWAKEN timeout (selector p) = Done ((r, evs), (s, k')) ∧ k_interest k' (epfd s) = interest_of p ∧
    match r with
    | Err e => cnt = -1 ∧ e = io_os (k_errno k') ∧ Epoll.events evs = [] ∧ k_disarmed k' (epfd s) = disarmed_of p
    | Ok _ => cnt ≠ -1 ∧ NoDup (k_reported k' (epfd s)) ∧ for_fds m (k_reported k' (epfd s)) written ∧
        seen_events evs = omap (fd_event m) (reported_as (k_reported k' (epfd s)) written) ∧
        ∀ fd, fd ∈ k_disarmed k' (epfd s) ↔ fd ∈ disarmed_of p ∨
          (fd ∈ k_reported k' (epfd s) ∧ ∃ ev, interest_of p !! fd = Some ev ∧ has (ee_events ev) ONESHOT = true)
    end.
Proof.
  intros Hr Hto. destruct p as [[s k] q]. cbn [selector fst snd sel_select epoll_selector_ops].
  assert (∃ ms, timeout_ms timeout = Done ms) as [ms Ems].
  { destruct timeout as [d|]; cbn; [|eauto]. rewrite millis_value by done. cbn. eauto. }
  unfold select, mbind, M_bind, lift, syscall, cvt. rewrite Ems. destruct (k_epoll_wait _ _ _ k) as [[cnt written] k'] eqn:Ew. cbn.
  unfold is_minus_one. destruct (el_wait _ _ _ _ _ _ _ Ew) as [(-> & Hi & Hd)|(-> & Hnd & Hk & Hi & Hd)].
  - cbn. eexists ms, _, written, k', _, _. split; [done|]. split; [exact Ew|]. split; [reflexivity|]. done.
  - assert ((Z.of_nat (length written) =? -1) = false) as -> by (apply Z.eqb_neq; lia). cbn [mbind outcome_bind mret M_ret]. rewrite Nat2Z.id, take_ge by lia.
    destruct (take_awakener AWAKEN written) as [found rest] eqn:Et. eexists ms, _, written, k', _, _. split; [done|]. split; [exact Ew|]. split; [reflexivity|]. cbn.
    assert (for_fds m (k_reported k' (epfd s)) written) as Hall.
    { eapply Forall2_impl; [exact Hk|]. intros fd e. by apply (kernel_reports_allowed (mkPoll (s, k) q)). }
    split; [done|]. split; [lia|]. do 2 (split; [done|]). split; [|done]. symmetry. by eapply (without_awakener (mkPoll (s, k) q)).
Qed.

Lemma push_events_app l : ∀ evs, seen_events (foldl (λ d e, ev_push e d) evs l) = seen_events evs ++ (queue_event <$> l).
Proof.
  induction l as [|e l IH]; intros evs; cbn [foldl]; [by rewrite app_nil_r|]. rewrite IH.
  unfold seen_events at 1. cbn. rewrite fmap_app, <- app_assoc. cbn. rewrite pushed_kind. by destruct e as [? []].
Qed.

Lemma collected_good q al rl cnt : queue_good q al rl cnt → collected q = visited_events (nodes q) rl.
Proof.
  intros Hg. assert (wp (queue_poll (λ e l, l ++ [e]) []) (λ l _, l = visited_events (nodes q) rl) q) as (l & q' & E & ->)%wp_done.
  { eapply wp_queue_poll; [exact Hg|]. intros. generalize (visited_events (nodes q) rl). intros l.
    enough (∀ l', foldl (λ d e, d ++ [e]) l' l = l' ++ l) as -> by done.
    induction l as [|e l IH]; intros l'; cbn; [by rewrite app_nil_r|]. rewrite IH. by rewrite <- app_assoc. }
  unfold collected. by rewrite E.
Qed.

Lemma queue_poll_collected (dst : EpollEvents) q : queue_wf q →
  ∃ d q', queue_poll ev_push dst q = Done (d, q') ∧ seen_events d = seen_events dst ++ (queue_event <$> collected q) ∧ queue_wf q'.
Proof.
  intros (al & rl & cnt & Hg). rewrite (collected_good _ _ _ _ Hg).
  assert (wp (queue_poll ev_push dst) (λ d q', seen_events d = seen_events dst ++ (queue_event <$> visited_events (nodes q) rl) ∧ queue_wf q') q)
    as (d & q' & E & H)%wp_done; [|by exists d, q'].
  eapply wp_queue_poll; [exact Hg|]. intros q' al' Hg' _ _ _ _. split; [apply push_events_app|by exists al', (visited_ready (nodes q) rl), cnt].
Qed.

(** Draining the awakener does not change what the queue reports. *)
Lemma drained q (awoken : bool) : queue_wf q → let q2 := if awoken then set_awakener (awk_cleanup (awakener q)) q else q in
  queue_wf q2 ∧ collected q2 = collected q.
Proof.
  intros (al & rl & cnt & Hg) q2. assert (queue_good q2 al rl cnt) as Hg2 by (subst q2; destruct awoken; [|done]; destruct Hg as [[] Hz]; by split).
  split; [by exists al, rl, cnt|]. rewrite (collected_good _ _ _ _ Hg), (collected_good _ _ _ _ Hg2). subst q2. by destruct awoken.
Qed.

Lemma poll_refines timeout p evs m :
  refines p m → from_option Duration_wf True timeout → wp (run_pop (PPoll timeout)) (op_refines (PPoll timeout) m (observe (PPoll timeout) (p, evs))) (p, evs).
Proof.
  intros Hr Hto. cbn [observe]. unfold wait_answer. unfold wp, run_pop, Poll_poll. rewrite poll_timeout_on. set (q := readiness_queue p).
  set (idle := bool_decide (head_readiness q = None)). set (q1 := if idle then set_head_readiness _ q else q).
  assert (queue_wf q1) as Hq1.
  { subst q1. destruct (rf_queue _ _ Hr) as (al & rl & cnt & Hg). fold q in Hg. subst idle. case_bool_decide as Hh; [|by exists al, rl, cnt].
    exists al, [], cnt. by eapply sleep_good. }
  cbn [mbind outcome_bind selector readiness_queue].
  destruct (select_refines (ev_inner evs) (if idle then timeout else Some (from_millis 0)) p m Hr) as (ms & cnt & written & k' & r & evs' & Hms & Hw & Hs & Hi & Hres).
  { destruct idle; [done|]. cbn. apply (bool_decide_unpack _). by vm_compute. }
  rewrite Hs. fold q idle. rewrite Hms, Hw. cbn [mbind outcome_bind]. pose proof (others_wf q1 Hq1) as Hqo. destruct r as [awoken|e].
  - destruct Hres as (Hc & Hnd & Hall & Hseen & Hd). replace (cnt =? -1) with false by lia.
    destruct (drained (others q1) awoken Hqo) as [Hq2 Hcol]. set (q2 := if awoken then set_awakener _ _ else others q1) in Hq2, Hcol.
    destruct (queue_poll_collected evs' q2 Hq2) as (d & q3 & E & Hl & Hq3).
    replace (if awoken then _ else _) with (mkPoll ((selector p).1, k') q2) by (subst q2; by destruct awoken).
    unfold on_queue. cbn [readiness_queue]. rewrite E. cbn. rewrite Hcol, Hseen in Hl.
    pose proof (reported_fds _ _ (Forall2_length _ _ _ Hall)) as Hfds. exists (disarm (k_reported k' (epfd (selector p).1)) m). split.
    + rewrite <- Hfds at 2. unfold Events_len. cbn. replace (len d) with (Z.of_nat (length (seen_events d))) by (unfold seen_events, len; by rewrite length_fmap).
      apply rs_poll; [by rewrite Hfds|by apply for_fds_may_report|exact Hl].
    + eapply refines_disarm; [exact Hr|done|exact Hi|exact Hd].
  - destruct Hres as (-> & -> & Hevs & Hd). cbn. exists m. unfold seen_events. rewrite Hevs. split; [apply rs_poll_failed|].
    destruct Hr as [Hq Hin Hdis Haw]. split; [done| | |done].
    + unfold interest_of. cbn. by rewrite Hi.
    + intros fd g Hg'. unfold disarmed_of. cbn. rewrite Hd. by apply Hdis.
Qed.

Definition op_wf (op : POp) : Prop := match op with PPoll timeout => from_option Duration_wf True timeout | _ => True end.

(** C16: a [Poll] over epoll refines a map from descriptors to registrations: whatever
    sequence of registrations, reregistrations, deregistrations and polls is run, and
    whatever the kernel answers, no call panics, and every answer is the one the map
    determines from what the kernel answers and the readiness queue holds.  A
    registration with valid arguments succeeds exactly if the kernel accepts what the
    interest and the options ask for, and no descriptor is registered twice.  A poll
    gives, for every descriptor the kernel reports but the awakener's, in order, one
    event with the token of its registration and the readiness of the flags, and
    after them one for every event of the readiness queue, and nothing else; what the
    kernel reports is registered, armed and of interest, and a one-shot registration
    that was reported is disarmed until it is registered again. *)
Theorem epoll_refines_registry (ops : list POp) : ∀ (p : EPoll) (evs : Events EpollEvents) (m : Registry),
  refines p m → Forall op_wf ops →
  ∃ answers p' evs' m', run_pops ops (p, evs) = Done (answers, (p', evs')) ∧
    reg_steps m ops (observe_all ops (p, evs)) answers m' ∧ refines p' m'.
Proof.
  induction ops as [|op ops IH]; intros p evs m Hr Hwf; [exists [], p, evs, m; by repeat (split; [constructor|])|].
  apply Forall_cons in Hwf as [Hop Hwf].
  assert (wp (run_pop op) (op_refines op m (observe op (p, evs))) (p, evs)) as (a & [p1 evs1] & E & m1 & Hstep & Hr1)%wp_done.
  { destruct op; [by apply register_refines|by apply reregister_refines|by apply deregister_refines|by apply poll_refines]. }
  destruct (IH p1 evs1 m1 Hr1 Hwf) as (l & p' & evs' & m' & E' & Hsteps & Hr'). exists (a :: l), p', evs', m'.
  cbn [run_pops observe_all]. unfold mbind, M_bind. rewrite E, E'. split; [done|]. split; [by eapply reg_more|done].
Qed.
End refinement.

(** ** A new [Poll] *)

Section new.
Context {A : Type} {awk_ops : AwakenerOps A}.
Context {K : Type} {sys : EpollSys K} {consts : EpollConsts} {const_laws : EpollConstLaws}.
Context {spec : EpollSpec K} {laws : EpollLaws K}.

(** [Evented] of the awakener: that of the reading end of its pipe. *)
Definition Awakener_evented (reader : Z) : Evented (A := A) (Sel := Selector * K) := EventedFd reader.

(** [Poll::new] on a fresh epoll descriptor: the awakener is the only registration,
    if it could be registered. *)
Theorem Poll_new_refines (s : Selector) (k : K) (id : Z) (sleep : loc) (aw : A) (reader : Z) :
  k_interest k (epfd s) = ∅ →
  ∃ r, Poll_new (Ok (s, k)) id sleep (Ok aw) (Awakener_evented reader) = Done r ∧
    match r with
    | Ok p => refines p {[reader := mkReg AWAKEN Ready.readable PollOpt.edge true]}
    | Err e => ∃ code, e = io_os code
    end.
Proof.
  intros Hi. unfold Poll_new. cbn. unfold on_selector, Selector_register, ctl, mbind, M_bind, syscall, cvt. cbn.
  destruct (k_epoll_ctl _ _ _ _ k) as [r k'] eqn:E. cbn. unfold is_minus_one.
  destruct (el_ctl _ _ _ _ _ _ _ E) as [(-> & _)|(Hne & _ & Hi' & Hd')]; cbn.
  { eexists. split; [reflexivity|]. by eexists. }
  replace (r =? -1) with false by lia. cbn. eexists. split; [reflexivity|]. split; cbn.
  - destruct (po_queue _ (empty_pool id sleep aw)) as (al & rl & Hg). eexists al, rl, _. exact Hg.
  - unfold interest_of. cbn. rewrite Hi', Hi. cbn. by rewrite insert_empty, map_fmap_singleton.
  - intros fd g [-> <-]%lookup_singleton_Some. unfold disarmed_of. cbn. rewrite Hd'. cbn. set_solver.
  - intros fd fd' g g' [-> _]%lookup_singleton_Some [-> _]%lookup_singleton_Some. done.
Qed.
End new.

(** ** A kernel with an interest list

    [d_ready]: what the next calls of epoll_wait find: a descriptor with its flags. *)

Section demo_flags.
Context {consts : EpollConsts} {const_laws : EpollConstLaws}.
(** The flags reported: those asked for, errors and hang-ups. *)
Definition demo_flags (flags asked : Z) : Z := Z.land flags (Z.lor asked (Z.lor (epoll_const ERR) (epoll_const HUP))).
Lemma demo_flags_has flags asked f : has (demo_flags flags asked) f = true → has asked f = true ∨ f = ERR ∨ f = HUP.
Proof.
  destruct (epoll_const_bit f) as (b & Hb & Eb). unfold demo_flags. rewrite (has_testbit _ f b), Z.land_spec by (done || lia).
  intros [_ H]%andb_true_iff. rewrite <- (has_testbit _ f b), !has_lor, !has_const in H by (done || lia).
  apply orb_true_iff in H as [H|[H|H]%orb_true_iff]; [by left|right; left|right; right]; by apply bool_decide_eq_true in H.
Qed.
End demo_flags.

Record DemoKernel : Type := mkDemoKernel {
  d_interest : gmap Z epoll_event; d_disarmed : gset Z; d_reported : list Z; d_ready : list (Z * Z); d_errno : Z }.
Definition demo_ctl (op : CtlOp) (fd : Z) (ev : epoll_event) (k : DemoKernel) : Z * DemoKernel :=
  let fail code := (-1, mkDemoKernel (d_interest k) (d_disarmed k) (d_reported k) (d_ready k) code) in
  match op, d_interest k !! fd with
  | EPOLL_CTL_ADD, Some _ => fail EEXIST
  | EPOLL_CTL_MOD, None | EPOLL_CTL_DEL, None => fail 2
  | _, _ => (0, mkDemoKernel (ctl_effect op fd ev (d_interest k)) (d_disarmed k ∖ {[fd]}) (d_reported k) (d_ready k) (d_errno k))
  end.
Definition demo_wait (k : DemoKernel) : (Z * list epoll_event) * DemoKernel :=
  let nothing rest := ((0, []), mkDemoKernel (d_interest k) (d_disarmed k) [] rest (d_errno k)) in
  match d_ready k with
  | [] => ((-1, []), mkDemoKernel (d_interest k) (d_disarmed k) [] [] 4)
  | (fd, flags) :: rest =>
      match d_interest k !! fd with
      | Some ev =>
          if decide (fd ∈ d_disarmed k) then nothing rest
          else ((1, [mkEpollEvent (demo_flags flags (ee_events ev)) (ee_u64 ev)]),
            mkDemoKernel (d_interest k) (if has (ee_events ev) ONESHOT then {[fd]} ∪ d_disarmed k else d_disarmed k) [fd] rest (d_errno k))
      | None => nothing rest
      end
  end.
#[export] Instance demo_epoll : EpollSys DemoKernel := {
  k_errno := d_errno;
  k_has_epoll_create1 _ := true;
  k_epoll_create1 k := (3, k);
  k_epoll_create _ k := (3, k);
  k_ioctl_fioclex _ k := (0, k);
  k_epoll_ctl _ := demo_ctl;
  k_epoll_wait _ _ _ := demo_wait;
  k_close _ k := (0, k) }.
#[export] Instance demo_epoll_spec : EpollSpec DemoKernel := { k_interest k _ := d_interest k; k_disarmed k _ := d_disarmed k; k_reported k _ := d_reported k }.
#[export] Instance demo_epoll_laws : EpollLaws DemoKernel.
Proof.
  split.
  - intros epfd op fd ev k r k'. cbn. unfold demo_ctl, epoll_same. cbn.
    destruct op, (d_interest k !! fd) as [o|] eqn:E; intros [= <- <-]; cbn; rewrite ?E; first [left; naive_solver | right; naive_solver].
  - intros epfd cap ms k cnt evs k'. cbn. unfold demo_wait, epoll_same, kernel_reports. cbn. destruct (d_ready k) as [|[fd flags] rest]; [intros [= <- <- <-]; by left|].
    destruct (d_interest k !! fd) as [ev|] eqn:E; [case_decide as Hd|]; intros [= <- <- <-]; right.
    + do 4 (split; [by repeat constructor|]). set_solver.
    + split; [done|]. split; [apply NoDup_singleton|]. split.
      * apply Forall2_cons. split; [|constructor]. exists ev. do 3 (split; [done|]). intros f. apply demo_flags_has.
      * split; [done|]. intros fd'. cbn [d_disarmed d_reported]. destruct (has (ee_events ev) ONESHOT) eqn:Eo.
        { rewrite elem_of_union, elem_of_singleton, list_elem_of_singleton. naive_solver. }
        rewrite list_elem_of_singleton. split; [by left|]. intros [?|(-> & ev' & Hev' & Ho)]; [done|]. cbn in Hev'. congruence.
    + do 4 (split; [by repeat constructor|]). set_solver.
Qed.

(** A [Poll] whose awakener is descriptor 4.  Descriptor 9 is registered for reading,
    once, and then reported twice by the kernel; in between the awakener is woken. *)
Definition demo_kernel : DemoKernel := mkDemoKernel ∅ ∅ [] [(9, 5); (4, 1); (9, 1); (9, 1)] 0.
Definition demo_epoll_poll : Poll counter (Selector * DemoKernel) :=
  match Poll_new (Ok (mkSelector 1 3, demo_kernel)) 7 1%positive (Ok (mkCounter 0)) (Awakener_evented 4) with
  | Done (Ok p) => p
  | _ => mkPoll (mkSelector 1 3, demo_kernel) q0
  end.
Definition zero : option Duration := Some (from_millis 0).
Definition demo_pops : list POp :=
  [PRegister 9 (mkToken 5) Ready.readable PollOpt.oneshot; PRegister 9 (mkToken 6) Ready.readable PollOpt.oneshot;
   PPoll zero; PPoll zero; PPoll zero; PReregister 9 (mkToken 6) Ready.readable PollOpt.oneshot; PPoll zero; PDeregister 9; PDeregister 9].

Lemma demo_epoll_poll_refines : refines demo_epoll_poll {[4 := mkReg AWAKEN Ready.readable PollOpt.edge true]}.
Proof.
  destruct (Poll_new_refines (spec := demo_epoll_spec) (laws := demo_epoll_laws) (mkSelector 1 3) demo_kernel 7 1%positive (mkCounter 0) 4 ltac:(reflexivity)) as (r & E & Hr).
  unfold demo_epoll_poll. rewrite E. destruct r as [p|e]; [done|]. vm_compute in E. discriminate.
Qed.

Lemma epoll_refines_registry_witness :
  ∃ answers p' evs' m', run_pops Datatypes.id demo_pops (demo_epoll_poll, Events_with_capacity 8) = Done (answers, (p', evs')) ∧
    reg_steps {[4 := mkReg AWAKEN Ready.readable PollOpt.edge true]} demo_pops
      (observe_all Datatypes.id demo_pops (demo_epoll_poll, Events_with_capacity 8)) answers m' ∧ refines p' m'.
Proof.
  apply (epoll_refines_registry Datatypes.id (λ q Hq, Hq) demo_pops demo_epoll_poll (Events_with_capacity 8)).
  - exact demo_epoll_poll_refines.
  - repeat constructor; apply (bool_decide_unpack _); by vm_compute.
Defined.

(** What the kernel answers in that run. *)
Example demo_observations :
  observe_all Datatypes.id demo_pops (demo_epoll_poll, Events_with_capacity 8) =
  [OCtl None; OCtl (Some EEXIST); OWait [(9, 1)] []; OWait [(4, 1)] []; OWait [] []; OCtl None; OWait [(9, 1)] []; OCtl None; OCtl (Some 2)].
Proof. vm_compute. reflexivity. Qed.

(** The answers of that run. *)
Example demo_answers :
  match run_pops Datatypes.id demo_pops (demo_epoll_poll, Events_with_capacity 8) with
  | Done (answers, _) => answers =
      [ADone (Ok tt); ADone (Err (io_os EEXIST)); APoll (Ok 1) [Event.new Ready.readable (mkToken 5)]; APoll (Ok 0) []; APoll (Ok 0) [];
       ADone (Ok tt); APoll (Ok 1) [Event.new Ready.readable (mkToken 6)]; ADone (Ok tt); ADone (Err (io_os 2))]
  | _ => False
  end.
Proof. vm_compute. reflexivity. Qed.
