(* ===== verification/UnixSock.v ===== *)
(** * sys/unix: Unix domain sockets, pipes, and how sockets are made

    [sys/unix/uds.rs] and [deprecated/unix.rs], [pipe] of [sys/unix/mod.rs],
    [sys/unix/io.rs], and the constructors of [sys/unix/tcp.rs], [sys/unix/udp.rs],
    [net/tcp.rs] and [net/udp.rs].  A socket is its descriptor; a value that owns a
    descriptor closes it when it is dropped, also on an early return ([or_close]).
    The kernel is an interface ([UnixSys], with [EpollSys] of [Epoll.v]); what it
    is documented to do to the table of descriptors is in [UnixSockThm.v]. *)

From S2P Require Import Prelude Event Convert Iface ReadyQueue Poll Epoll UnixIo.

(** ** libc *)

Definition AF_UNIX : Z := 1.
Definition SOCK_STREAM : Z := 1.
Definition SOCK_NONBLOCK : Z := Z.shiftl 1 11.
Definition SOCK_CLOEXEC : Z := Z.shiftl 1 19.
Definition O_NONBLOCK : Z := Z.shiftl 1 11.
Definition O_CLOEXEC : Z := Z.shiftl 1 19.
Definition EINVAL : Z := 22.
Definition SOL_SOCKET : Z := 1.
Definition SCM_RIGHTS : Z := 1.

Inductive Shutdown : Type := ShutdownRead | ShutdownWrite | ShutdownBoth.
Definition SHUT_RD : Z := 0.
Definition SHUT_WR : Z := 1.
Definition SHUT_RDWR : Z := 2.

(** [struct sockaddr_un]; [c_char] is signed. *)
Record sockaddr : Type := mkSockaddr { sun_family : Z; sun_path : list Z }.

(** [struct Cmsg] of [read_recv_fd] and [write_send_fd]: the header, and the data
    with the bytes the compiler adds to align it, as C integers. *)
Record Cmsg : Type := mkCmsg { cmsg_len : Z; cmsg_level : Z; cmsg_type : Z; cmsg_data : list Z }.

(** The calls of the kernel return their result; [pipe] and [recvmsg] also what
    they wrote.  [k_dup], [k_read] and [k_write]: those of [File].  The calls of [net2] and [std::net]
    start with [n_]. *)
Class UnixSys (K : Type) : Type := {
  k_socket : Z → Z → Z → K → Z * K;
  k_accept : Z → K → Z * K;
  k_ioctl_fionbio : Z → Z → K → Z * K;
  k_fcntl_setfl : Z → Z → K → Z * K;
  k_has_pipe2 : K → bool;
  k_pipe2 : Z → K → (Z * (Z * Z)) * K;
  k_pipe : K → (Z * (Z * Z)) * K;
  k_connect : Z → sockaddr → Z → K → Z * K;
  k_bind : Z → sockaddr → Z → K → Z * K;
  k_listen : Z → Z → K → Z * K;
  k_shutdown : Z → Z → K → Z * K;
  k_recvmsg : Z → Z → Z → K → (Z * list Z * Cmsg) * K;
  k_sendmsg : Z → list Z → Cmsg → K → Z * K;
  k_dup : Z → K → io_result Z * K;
  k_read : Z → Z → K → io_result (list Z) * K;
  k_write : Z → list Z → K → io_result Z * K;
  n_new : SocketAddr → K → io_result Z * K;
  n_to_tcp_stream : Z → K → io_result unit * K;
  n_reuse_address : Z → bool → K → io_result unit * K;
  n_bind : Z → SocketAddr → K → io_result unit * K;
  n_listen : Z → Z → K → io_result unit * K;
  n_connect : Z → SocketAddr → K → io_result unit * K;
  n_accept : Z → K → io_result (Z * SocketAddr) * K;
  n_udp_bind : SocketAddr → K → io_result Z * K;
  n_set_nonblocking : Z → bool → K → io_result unit * K;
  n_send_to : Z → list Z → SocketAddr → K → io_result Z * K;
  n_recv_from : Z → Z → K → io_result (Z * SocketAddr) * K }.

(** The platform: whether it is Linux, the length of [sun_path] and its offset,
    the size of a message header and its alignment. *)
Record Platform : Type := mkPlatform { is_linux : bool; sun_path_len : Z; sun_path_offset : Z; hdr_size : Z; hdr_align : Z }.

Section sock.
Context {K : Type} {sys : EpollSys K} {unix : UnixSys K}.
Context (pf : Platform).

(** Dropping the owner of a descriptor; [File] ignores the result of close. *)
Definition drop_fd (fd : Z) : M K unit := _ ← syscall (k_close fd); mret tt.

(** The owner of [fd] is dropped when [m] returns early with an error. *)
Definition or_close {A} (fd : Z) (m : M K (io_result A)) : M K (io_result A) :=
  r ← m;
  match r with
  | Ok a => mret (Ok a)
  | Err e => _ ← drop_fd fd; mret (Err e)
  end.

(** [cvt(f(...))]. *)
Definition checked (f : K → Z * K) : M K (io_result Z) := r ← syscall f; cvt r.
Definition discard (m : M K (io_result Z)) : M K (io_result unit) := r ← m; mret (result_map (λ _, tt) r).

(** ** sys/unix/io.rs *)

Definition set_nonblock (fd : Z) : M K (io_result unit) := discard (checked (k_ioctl_fionbio fd 1)).

Definition Io_try_clone (fd : Z) : M K (io_result Z) := syscall (k_dup fd).
(** [from_raw_fd], [into_raw_fd] and [as_raw_fd] of all the types. *)
Definition from_raw_fd (fd : Z) : Z := fd.
Definition into_raw_fd (fd : Z) : Z := fd.
Definition as_raw_fd (fd : Z) : Z := fd.

(** [Read] and [Write]. *)
Definition Io_read (fd : Z) (len : Z) : M K (io_result (list Z)) := syscall (k_read fd len).
Definition Io_write (fd : Z) (src : list Z) : M K (io_result Z) := syscall (k_write fd src).
Definition Io_flush (fd : Z) : M K (io_result unit) := mret (Ok tt).

(** ** sys/unix/mod.rs *)

Definition sys_pipe : M K (io_result (Z * Z)) :=
  let flags := Z.lor O_NONBLOCK O_CLOEXEC in
  has ← gets k_has_pipe2;
  if has : bool then
    p ← syscall (k_pipe2 flags);
    try! cvt (fst p);
    mret (Ok (snd p))
  else
    p ← syscall k_pipe;
    try! cvt (fst p);
    _ ← syscall (k_fcntl_setfl (fst (snd p)) flags);
    _ ← syscall (k_fcntl_setfl (snd (snd p)) flags);
    mret (Ok (snd p)).

(** ** sys/unix/uds.rs: addresses *)

(** [x as c_char]. *)
Definition as_c_char (x : Z) : Z := if x <? 128 then x else x - 256.

(** Copying the bytes over the beginning of the zeroed path. *)
Definition copy_path (n : Z) (bytes : list Z) : list Z :=
  (as_c_char <$> take (Z.to_nat n) bytes) ++ replicate (Z.to_nat n - length bytes) 0.

Definition sockaddr_un (bytes : list Z) : io_result (sockaddr * Z) :=
  let n := Z.of_nat (length bytes) in
  if sun_path_len pf <=? n then Err (io_custom InvalidInput "path must be shorter than SUN_LEN")
  else
    let addr := mkSockaddr AF_UNIX (copy_path (sun_path_len pf) bytes) in
    let len := sun_path_offset pf + n in
    let len := match bytes with [] | 0 :: _ => len | _ => len + 1 end in
    Ok (addr, len).

(** ** sys/unix/uds.rs: sockets *)

Definition stream : M K (io_result Z) :=
  early ← (if is_linux pf then
             let flags := Z.lor (Z.lor SOCK_STREAM SOCK_CLOEXEC) SOCK_NONBLOCK in
             r ← checked (k_socket AF_UNIX flags 0);
             mret (match r with
                   | Ok fd => Some (Ok (from_raw_fd fd))
                   | Err e => if decide (e = io_os EINVAL) then None else Some (Err e)
                   end)
           else mret None);
  match early with
  | Some r => mret r
  | None =>
      fd ←? checked (k_socket AF_UNIX SOCK_STREAM 0);
      or_close fd (
        try! set_cloexec (as_raw_fd fd);
        try! set_nonblock (as_raw_fd fd);
        mret (Ok fd))
  end.

(** A call with the address of [path]. *)
Definition with_path (path : list Z) (f : sockaddr → Z → K → Z * K) : M K (io_result unit) :=
  a ←? mret (sockaddr_un path);
  try! checked (f (fst a) (snd a));
  mret (Ok tt).

Definition sys_connect (fd : Z) (path : list Z) : M K (io_result unit) := with_path path (k_connect (as_raw_fd fd)).
Definition sys_bind (fd : Z) (path : list Z) : M K (io_result unit) := with_path path (k_bind (as_raw_fd fd)).

(** [backlog as i32]. *)
Definition as_i32 (x : Z) : Z := let y := x mod 2 ^ 32 in if y <? 2 ^ 31 then y else y - 2 ^ 32.

Definition sys_listen (fd : Z) (backlog : Z) : M K (io_result unit) :=
  try! checked (k_listen (as_raw_fd fd) (as_i32 backlog));
  mret (Ok tt).

Definition sys_accept (fd : Z) : M K (io_result Z) :=
  fd ←? checked (k_accept (as_raw_fd fd));
  or_close fd (
    try! set_cloexec (as_raw_fd fd);
    try! set_nonblock (as_raw_fd fd);
    mret (Ok fd)).

Definition sys_try_clone (fd : Z) : M K (io_result Z) := Io_try_clone fd.

Definition sys_read (fd : Z) (len : Z) : M K (io_result (list Z)) := Io_read fd len.
Definition sys_write (fd : Z) (buf : list Z) : M K (io_result Z) := Io_write fd buf.
Definition sys_flush (fd : Z) : M K (io_result unit) := Io_flush fd.

Definition sys_shutdown (fd : Z) (how : Shutdown) : M K (io_result unit) :=
  let how := match how with ShutdownRead => SHUT_RD | ShutdownWrite => SHUT_WR | ShutdownBoth => SHUT_RDWR end in
  try! checked (k_shutdown (as_raw_fd fd) how);
  mret (Ok tt).

(** ** Passing descriptors *)

(** [mem::size_of::<Cmsg>()]: a header and one integer, aligned; and the integers
    there is room for in the data. *)
Definition cmsg_size : Z := (hdr_size pf + 4 + hdr_align pf - 1) / hdr_align pf * hdr_align pf.
Definition cmsg_ints : Z := (cmsg_size - hdr_size pf) / 4.
Definition cmsg_zeroed : Cmsg := mkCmsg 0 0 0 (replicate (Z.to_nat cmsg_ints) 0).

Definition read_recv_fd (fd : Z) (len : Z) : M K (io_result (Z * option Z) * list Z) :=
  p ← syscall (k_recvmsg (as_raw_fd fd) len cmsg_size);
  let '(rc, data, cmsg) := p in
  r ← cvt rc;
  match r with
  | Err e => mret (Err e, data)
  | Ok bytes =>
      let fd := if (cmsg_level cmsg =? SOL_SOCKET) && (cmsg_type cmsg =? SCM_RIGHTS) then cmsg_data cmsg !! 0%nat else None in
      mret (Ok (bytes, fd), data)
  end.

Definition write_send_fd (sock : Z) (buf : list Z) (fd : Z) : M K (io_result Z) :=
  let cmsg := mkCmsg cmsg_size SOL_SOCKET 1 (<[0%nat := fd]> (cmsg_data cmsg_zeroed)) in
  bytes ←? checked (k_sendmsg (as_raw_fd sock) buf cmsg);
  mret (Ok bytes).

(** ** deprecated/unix.rs *)

Definition UnixSocket_stream : M K (io_result Z) := stream.

(** The socket is consumed. *)
Definition UnixSocket_connect (fd : Z) (path : list Z) : M K (io_result (Z * bool)) :=
  r ← sys_connect fd path;
  match r with
  | Ok _ => mret (Ok (fd, true))
  | Err e => if decide (err_kind e = WouldBlock) then mret (Ok (fd, false)) else _ ← drop_fd fd; mret (Err e)
  end.

Definition UnixSocket_bind (fd : Z) (path : list Z) : M K (io_result unit) := sys_bind fd path.

Definition UnixSocket_listen (fd : Z) (backlog : Z) : M K (io_result Z) :=
  or_close fd (try! sys_listen fd backlog; mret (Ok fd)).

Definition UnixSocket_try_clone (fd : Z) : M K (io_result Z) := sys_try_clone fd.

Definition UnixStream_connect (path : list Z) : M K (io_result Z) :=
  sock ←? UnixSocket_stream;
  r ←? UnixSocket_connect sock path;
  mret (Ok (fst r)).

Definition UnixStream_try_clone (fd : Z) : M K (io_result Z) := sys_try_clone fd.
Definition UnixStream_read (fd : Z) (len : Z) : M K (io_result (list Z)) := sys_read fd len.
Definition UnixStream_write (fd : Z) (buf : list Z) : M K (io_result Z) := sys_write fd buf.
Definition UnixStream_flush (fd : Z) : M K (io_result unit) := sys_flush fd.

Definition UnixStream_shutdown (fd : Z) (how : Shutdown) : M K (io_result Z) :=
  r ← sys_shutdown fd how; mret (result_map (λ _, 0) r).

Definition UnixStream_read_recv_fd (fd : Z) (len : Z) : M K (io_result (Z * option Z) * list Z) := read_recv_fd fd len.
Definition UnixStream_write_send_fd (sock : Z) (buf : list Z) (fd : Z) : M K (io_result Z) := write_send_fd sock buf fd.
Definition try_read_recv_fd (fd : Z) (len : Z) : M K (io_result (option (Z * option Z)) * list Z) :=
  r ← UnixStream_read_recv_fd fd len; mret (map_non_block (fst r), snd r).
Definition try_write_send_fd (sock : Z) (buf : list Z) (fd : Z) : M K (io_result (option Z)) :=
  r ← UnixStream_write_send_fd sock buf fd; mret (map_non_block r).

(** The socket is dropped when binding fails; [listen] consumes it. *)
Definition UnixListener_bind (path : list Z) : M K (io_result Z) :=
  sock ←? UnixSocket_stream;
  try! or_close sock (UnixSocket_bind sock path);
  UnixSocket_listen sock 256.

Definition UnixListener_accept (fd : Z) : M K (io_result Z) := sys_accept fd.
Definition UnixListener_try_clone (fd : Z) : M K (io_result Z) := sys_try_clone fd.
Definition UnixListener_try_accept (fd : Z) : M K (io_result (option Z)) :=
  r ← UnixListener_accept fd; mret (map_non_block r).

Definition pipe : M K (io_result (Z * Z)) := sys_pipe.

(** The common body of [PipeReader::from_stdout] and [from_stderr] and of
    [PipeWriter::from_stdin]: the handle of the child is consumed. *)
Definition from_child (fd : Z) : M K (io_result Z) :=
  or_close fd (try! set_nonblock (as_raw_fd fd); mret (Ok (from_raw_fd (into_raw_fd fd)))).

Definition PipeReader_from_stdout (fd : Z) : M K (io_result Z) := from_child fd.
Definition PipeReader_from_stderr (fd : Z) : M K (io_result Z) := from_child fd.
Definition PipeWriter_from_stdin (fd : Z) : M K (io_result Z) := from_child fd.

Definition PipeReader_read (fd : Z) (len : Z) : M K (io_result (list Z)) := Io_read fd len.
Definition PipeWriter_write (fd : Z) (buf : list Z) : M K (io_result Z) := Io_write fd buf.
Definition PipeWriter_flush (fd : Z) : M K (io_result unit) := Io_flush fd.

(** ** sys/unix/tcp.rs and net/tcp.rs *)

Context (EINPROGRESS : Z).

Definition sys_TcpStream_connect (fd : Z) (addr : SocketAddr) : M K (io_result Z) :=
  or_close fd (
    try! tcp_connect EINPROGRESS (set_nonblock (as_raw_fd fd)) (syscall (n_connect fd addr));
    mret (Ok fd)).

Definition sys_TcpListener_new (fd : Z) : M K (io_result Z) :=
  or_close fd (try! set_nonblock (as_raw_fd fd); mret (Ok fd)).

Definition sys_TcpListener_accept (fd : Z) : M K (io_result (Z * SocketAddr)) :=
  sa ←? syscall (n_accept fd);
  or_close (fst sa) (try! set_nonblock (as_raw_fd (fst sa)); mret (Ok sa)).

(** A socket of [net/tcp.rs]: the descriptor and the [SelectorId]. *)
Definition NetSocket : Type := Z * Z.
Definition with_selector_id (r : io_result Z) : io_result NetSocket := result_map (λ fd, (fd, SelectorId_new)) r.

Definition connect_stream (fd : Z) (addr : SocketAddr) : M K (io_result NetSocket) :=
  r ← sys_TcpStream_connect fd addr; mret (with_selector_id r).

(** On Unix the socket is not bound first. *)
Definition net_TcpStream_connect (addr : SocketAddr) : M K (io_result NetSocket) :=
  sock ←? syscall (n_new addr);
  try! or_close sock (syscall (n_to_tcp_stream sock));
  connect_stream sock addr.

Definition net_TcpStream_from_stream (fd : Z) : M K (io_result NetSocket) :=
  or_close fd (
    try! syscall (n_set_nonblocking fd true);
    mret (Ok (fd, SelectorId_new))).

(** [try_clone] of [TcpStream], [TcpListener] and [UdpSocket]: the clone belongs
    to the same selector. *)
Definition net_try_clone (s : NetSocket) : M K (io_result NetSocket) :=
  r ← syscall (k_dup (fst s)); mret (result_map (λ fd, (fd, snd s)) r).

Definition net_TcpListener_bind (addr : SocketAddr) : M K (io_result NetSocket) :=
  sock ←? syscall (n_new addr);
  try! or_close sock (
    try! syscall (n_reuse_address sock true);
    try! syscall (n_bind sock addr);
    syscall (n_listen sock 1024));
  r ← sys_TcpListener_new sock;
  mret (with_selector_id r).

Definition net_TcpListener_from_listener (fd : Z) : M K (io_result NetSocket) :=
  r ← sys_TcpListener_new fd; mret (with_selector_id r).

Definition net_TcpListener_accept (s : NetSocket) : M K (io_result (NetSocket * SocketAddr)) :=
  r ← sys_TcpListener_accept (fst s);
  mret (result_map (λ sa, ((fst sa, SelectorId_new), snd sa)) r).

(** ** sys/unix/udp.rs and net/udp.rs *)

Definition sys_UdpSocket_new (fd : Z) : M K (io_result Z) :=
  or_close fd (try! syscall (n_set_nonblocking fd true); mret (Ok fd)).

Definition net_UdpSocket_from_socket (fd : Z) : M K (io_result NetSocket) :=
  r ← sys_UdpSocket_new fd; mret (with_selector_id r).

Definition net_UdpSocket_bind (addr : SocketAddr) : M K (io_result NetSocket) :=
  sock ←? syscall (n_udp_bind addr);
  net_UdpSocket_from_socket sock.

Definition sys_UdpSocket_send_to (fd : Z) (buf : list Z) (target : SocketAddr) : M K (io_result (option Z)) :=
  r ← syscall (n_send_to fd buf target); mret (map_non_block r).
Definition sys_UdpSocket_recv_from (fd : Z) (len : Z) : M K (io_result (option (Z * SocketAddr))) :=
  r ← syscall (n_recv_from fd len); mret (map_non_block r).

Definition net_UdpSocket_send_to (s : NetSocket) (buf : list Z) (target : SocketAddr) : M K (io_result (option Z)) :=
  sys_UdpSocket_send_to (fst s) buf target.
Definition net_UdpSocket_recv_from (s : NetSocket) (len : Z) : M K (io_result (option (Z * SocketAddr))) :=
  sys_UdpSocket_recv_from (fst s) len.

(** The calls of the sockets that only forward to [std::net] or [net2]: socket
    options, addresses, multicast groups, shutting down, the error of the socket;
    [call] is the call of the socket inside. *)
Definition sys_TcpStream_forward {A} (call : Z → K → io_result A * K) (fd : Z) : M K (io_result A) := syscall (call fd).
Definition sys_TcpListener_forward {A} (call : Z → K → io_result A * K) (fd : Z) : M K (io_result A) := syscall (call fd).
Definition sys_UdpSocket_forward {A} (call : Z → K → io_result A * K) (fd : Z) : M K (io_result A) := syscall (call fd).
Definition net_TcpStream_forward {A} (call : Z → K → io_result A * K) (s : NetSocket) : M K (io_result A) :=
  sys_TcpStream_forward call (fst s).
Definition net_TcpListener_forward {A} (call : Z → K → io_result A * K) (s : NetSocket) : M K (io_result A) :=
  sys_TcpListener_forward call (fst s).
Definition net_UdpSocket_forward {A} (call : Z → K → io_result A * K) (s : NetSocket) : M K (io_result A) :=
  sys_UdpSocket_forward call (fst s).
End sock.

(** ** The sockets and pipes as event sources *)

Section sources.
Context {A : Type} {awk_ops : AwakenerOps A}.
Context {K : Type} {sys : EpollSys K} {consts : EpollConsts}.

Definition Io_evented (fd : Z) : Evented (A := A) (Sel := Selector * K) := EventedFd fd.
Definition sys_UnixSocket_evented (fd : Z) : Evented (A := A) (Sel := Selector * K) := Io_evented fd.
Definition UnixSocket_evented (fd : Z) : Evented (A := A) (Sel := Selector * K) := sys_UnixSocket_evented fd.
Definition UnixStream_evented (fd : Z) : Evented (A := A) (Sel := Selector * K) := sys_UnixSocket_evented fd.
Definition UnixListener_evented (fd : Z) : Evented (A := A) (Sel := Selector * K) := sys_UnixSocket_evented fd.
Definition PipeReader_evented (fd : Z) : Evented (A := A) (Sel := Selector * K) := Io_evented fd.
Definition PipeWriter_evented (fd : Z) : Evented (A := A) (Sel := Selector * K) := Io_evented fd.
Definition sys_TcpStream_evented (fd : Z) : Evented (A := A) (Sel := Selector * K) := EventedFd (as_raw_fd fd).
Definition sys_TcpListener_evented (fd : Z) : Evented (A := A) (Sel := Selector * K) := EventedFd (as_raw_fd fd).
Definition sys_UdpSocket_evented (fd : Z) : Evented (A := A) (Sel := Selector * K) := EventedFd (as_raw_fd fd).
End sources.
