(* ===== verification/UnixSockThm.v ===== *)
(** * Descriptors, addresses and messages of Unix sockets

    What the kernel is documented to do to the table of descriptors, and that the
    code neither leaks descriptors nor hands out ones that block or survive an
    exec; the round trip of the addresses of Unix sockets; the descriptors a
    message carries. *)

From S2P Require Import Prelude Event Convert Iface Poll Epoll UnixIo UnixSock.

(** ** The table of descriptors *)

(** [fds k]: the open descriptors, each with its open file description and its
    close-on-exec flag; [fd_nonblock k d]: the description [d] does not block. *)
Class FdSpec (K : Type) : Type := {
  fds : K → gmap Z (Z * bool);
  fd_nonblock : K → Z → bool }.

Section spec.
Context {K : Type} {spec : FdSpec K}.

Definition kept (k k' : K) : Prop := fds k' = fds k ∧ ∀ d, fd_nonblock k' d = fd_nonblock k d.

(** [fd] was opened, for a description of its own. *)
Definition opened (k k' : K) (fd : Z) (ce : bool) : Prop :=
  fds k !! fd = None ∧ ∃ d, fds k' = <[fd := (d, ce)]> (fds k) ∧ (∀ fd' c, fds k !! fd' ≠ Some (d, c)) ∧
    ∀ d', d' ≠ d → fd_nonblock k' d' = fd_nonblock k d'.

(** The description of [fd] is set to block or not. *)
Definition nonblock_set (k k' : K) (fd : Z) (nb : bool) : Prop :=
  fds k' = fds k ∧ ∃ d c, fds k !! fd = Some (d, c) ∧ fd_nonblock k' d = nb ∧ ∀ d', d' ≠ d → fd_nonblock k' d' = fd_nonblock k d'.
End spec.

Class FdLaws (K : Type) `{EpollSys K, UnixSys K, FdSpec K} : Prop := {
  fl_socket dom ty p k r k' :
    k_socket dom ty p k = (r, k') →
    (r = -1 ∧ kept k k') ∨
    (r ≠ -1 ∧ opened k k' r (Z.testbit ty 19) ∧ ∀ d c, fds k' !! r = Some (d, c) → fd_nonblock k' d = Z.testbit ty 11);
  fl_accept fd k r k' : k_accept fd k = (r, k') → (r = -1 ∧ kept k k') ∨ (r ≠ -1 ∧ opened k k' r false);
  fl_fionbio fd k r k' :
    k_ioctl_fionbio fd 1 k = (r, k') → (r = -1 ∧ kept k k') ∨ (r ≠ -1 ∧ nonblock_set k k' fd true);
  fl_fioclex fd k r k' :
    k_ioctl_fioclex fd k = (r, k') →
    (r = -1 ∧ kept k k') ∨
    (r ≠ -1 ∧ (∀ d, fd_nonblock k' d = fd_nonblock k d) ∧ ∃ d c, fds k !! fd = Some (d, c) ∧ fds k' = <[fd := (d, true)]> (fds k));
  (** of the flags of the file, F_SETFL sets O_NONBLOCK; close-on-exec is not one of them *)
  fl_setfl fd flags k r k' :
    k_fcntl_setfl fd flags k = (r, k') → (r = -1 ∧ kept k k') ∨ (r ≠ -1 ∧ nonblock_set k k' fd (Z.testbit flags 11));
  fl_pipe2 flags k r a b k' :
    k_pipe2 flags k = ((r, (a, b)), k') →
    (r = -1 ∧ kept k k') ∨
    (r ≠ -1 ∧ ∃ k1, opened k k1 a (Z.testbit flags 19) ∧ opened k1 k' b (Z.testbit flags 19) ∧
      ∀ fd d c, fd = a ∨ fd = b → fds k' !! fd = Some (d, c) → fd_nonblock k' d = Z.testbit flags 11);
  fl_pipe k r a b k' :
    k_pipe k = ((r, (a, b)), k') →
    (r = -1 ∧ kept k k') ∨ (r ≠ -1 ∧ ∃ k1, opened k k1 a false ∧ opened k1 k' b false);
  fl_connect fd a n k : kept k (snd (k_connect fd a n k));
  fl_bind fd a n k : kept k (snd (k_bind fd a n k));
  fl_listen fd n k : kept k (snd (k_listen fd n k));
  fl_dup fd k r k' :
    k_dup fd k = (r, k') →
    match r with
    | Ok fd' => fds k !! fd' = None ∧ (∀ d, fd_nonblock k' d = fd_nonblock k d) ∧
        ∃ d c, fds k !! fd = Some (d, c) ∧ fds k' = <[fd' := (d, true)]> (fds k)
    | Err _ => kept k k'
    end;
  fl_close fd k r k' : k_close fd k = (r, k') → fds k' = delete fd (fds k) ∧ ∀ d, fd_nonblock k' d = fd_nonblock k d;
  (** the descriptors of [std::net] and [net2] do not survive an exec *)
  fl_new a k r k' : n_new a k = (r, k') → match r with Ok fd => opened k k' fd true | Err _ => kept k k' end;
  fl_udp_bind a k r k' : n_udp_bind a k = (r, k') → match r with Ok fd => opened k k' fd true | Err _ => kept k k' end;
  fl_naccept fd k r k' : n_accept fd k = (r, k') → match r with Ok (fd', _) => opened k k' fd' true | Err _ => kept k k' end;
  fl_set_nonblocking fd k r k' :
    n_set_nonblocking fd true k = (r, k') → if is_ok r then nonblock_set k k' fd true else kept k k';
  fl_to_stream fd k : kept k (snd (n_to_tcp_stream fd k));
  fl_reuse fd b k : kept k (snd (n_reuse_address fd b k));
  fl_nbind fd a k : kept k (snd (n_bind fd a k));
  fl_nlisten fd n k : kept k (snd (n_listen fd n k));
  fl_nconnect fd a k : kept k (snd (n_connect fd a k)) }.

Section fds.
Context {K : Type} {sys : EpollSys K} {unix : UnixSys K} {spec : FdSpec K} {laws : FdLaws K}.
Context (pf : Platform) (EINPROGRESS : Z).
Implicit Types k : K.

Lemma kept_trans k k1 k2 : kept k k1 → kept k1 k2 → kept k k2.
Proof. intros [Ht Hk] [Ht' Hk']. split; [congruence|]. intros d. by rewrite Hk', Hk. Qed.

(** What was open is as it was, and blocks or not as it did. *)
Definition old_kept k k' : Prop := ∀ fd d c, fds k !! fd = Some (d, c) → fd_nonblock k' d = fd_nonblock k d.

(** Since [k0], [fd] was opened and nothing else happened; [nb]: it is known not
    to block. *)
Definition owns (k0 : K) (fd : Z) (nb ce : bool) (k : K) : Prop :=
  fds k0 !! fd = None ∧ old_kept k0 k ∧
  ∃ d, fds k = <[fd := (d, ce)]> (fds k0) ∧ (∀ fd' c, fds k0 !! fd' ≠ Some (d, c)) ∧ (nb = true → fd_nonblock k d = true).

Lemma owns_opened k k' fd ce : opened k k' fd ce → owns k fd false ce k'.
Proof.
  intros (Hn & d & Ht & Hf & Hk). split; [done|]. split; [|by exists d].
  intros fd' d' c Hl. apply Hk. intros ->. by apply (Hf fd' c).
Qed.

Lemma owns_kept k0 fd nb ce k k' : kept k k' → owns k0 fd nb ce k → owns k0 fd nb ce k'.
Proof.
  intros [Ht Hk] (Hn & Ho & d & E & Hf & Hb). split; [done|]. split; [|exists d; by rewrite Ht, Hk].
  intros fd' d' c Hl. rewrite Hk. by eapply Ho.
Qed.

Lemma owns_after_kept k0 k1 fd nb ce k : kept k0 k1 → owns k1 fd nb ce k → owns k0 fd nb ce k.
Proof.
  intros [Ht Hk] (Hn & Ho & d & E & Hf & Hb). unfold owns, old_kept in *. rewrite Ht in *. split; [done|]. split; [|by exists d].
  intros fd' d' c Hl. rewrite <- Hk. by eapply Ho.
Qed.

Lemma owns_nonblock k0 fd nb ce k k' : nonblock_set k k' fd true → owns k0 fd nb ce k → owns k0 fd true ce k'.
Proof.
  intros (Ht & d & c & Hl & Hb & Hk) (Hn & Ho & d0 & E & Hf & _). rewrite E, lookup_insert_eq in Hl. injection Hl as -> ->.
  split; [done|]. split; [|exists d; by rewrite Ht].
  intros fd' d' c' Hl. rewrite Hk; [by eapply Ho|]. intros ->. by apply (Hf fd' c').
Qed.

(** ** Rules *)

Lemma wp_syscall {A} (f : K → A * K) (Q : A → K → Prop) k : (∀ a k', f k = (a, k') → Q a k') → wp (syscall f) Q k.
Proof. intros HQ. unfold wp, syscall. destruct (f k) as [a k'] eqn:E. by apply HQ. Qed.

Lemma wp_cvt r (Q : io_result Z → K → Prop) k : (r = -1 → ∀ e, Q (Err e) k) → (r ≠ -1 → Q (Ok r) k) → wp (cvt r) Q k.
Proof. intros He Ho. unfold wp, cvt, is_minus_one. destruct (r =? -1) eqn:E; zbool; auto. Qed.

Lemma wp_checked f (Q : io_result Z → K → Prop) k :
  (∀ k' e, f k = (-1, k') → Q (Err e) k') → (∀ r k', f k = (r, k') → r ≠ -1 → Q (Ok r) k') → wp (checked f) Q k.
Proof.
  intros He Ho. unfold checked. wp_step. apply wp_syscall. intros r k' E. apply wp_cvt; [intros -> e; by apply He|by apply Ho].
Qed.

Lemma wp_set_nonblock_gen fd (Q : io_result unit → K → Prop) k :
  (∀ k' e, kept k k' → Q (Err e) k') → (∀ k', nonblock_set k k' fd true → Q (Ok tt) k') → wp (set_nonblock fd) Q k.
Proof.
  intros He Ho. unfold set_nonblock, discard. wp_step. apply wp_checked.
  - intros k' e E. apply wp_ret, He. by destruct (fl_fionbio _ _ _ _ E) as [[_ Hk]|[[] _]].
  - intros r k' E Hr. apply wp_ret, Ho. by destruct (fl_fionbio _ _ _ _ E) as [[-> _]|[_ Hk]].
Qed.

Lemma wp_set_nonblock k0 fd nb ce (Q : io_result unit → K → Prop) k :
  owns k0 fd nb ce k → (∀ k' e, owns k0 fd nb ce k' → Q (Err e) k') → (∀ k', owns k0 fd true ce k' → Q (Ok tt) k') →
  wp (set_nonblock fd) Q k.
Proof. intros Hown He Ho. apply wp_set_nonblock_gen; eauto using owns_kept, owns_nonblock. Qed.

Lemma wp_set_cloexec k0 fd nb ce (Q : io_result unit → K → Prop) k :
  owns k0 fd nb ce k → (∀ k' e, owns k0 fd nb ce k' → Q (Err e) k') → (∀ k', owns k0 fd nb true k' → Q (Ok tt) k') →
  wp (set_cloexec fd) Q k.
Proof.
  intros Hown He Ho. unfold set_cloexec. wp_step. apply wp_syscall. intros r k' E. wp_step. apply wp_cvt.
  - intros -> e. apply wp_ret, He. destruct (fl_fioclex _ _ _ _ E) as [[_ Hk]|[[] _]]; [|done]. by eapply owns_kept.
  - intros Hr. apply wp_ret, Ho. destruct (fl_fioclex _ _ _ _ E) as [[-> _]|(_ & Hk & d & c & Hl & Ht)]; [done|].
    destruct Hown as (Hn & Hold & d0 & E0 & Hf & Hb). rewrite E0, lookup_insert_eq in Hl. injection Hl as -> ->.
    split; [done|]. split; [intros fd' d' c' Hl'; rewrite Hk; by eapply Hold|]. exists d. rewrite Hk. split; [|done].
    rewrite Ht, E0. by rewrite insert_insert_eq.
Qed.

(** The state after the owner of [fd] was dropped. *)
Definition as_before (k0 k : K) : Prop := fds k = fds k0 ∧ old_kept k0 k.

Lemma wp_drop_fd k0 fd nb ce (Q : unit → K → Prop) k :
  owns k0 fd nb ce k → (∀ k', as_before k0 k' → Q tt k') → wp (drop_fd fd) Q k.
Proof.
  intros (Hn & Ho & d & E & Hf & _) HQ. unfold drop_fd. wp_step. apply wp_syscall. intros r k' Ec. wp_step. apply HQ.
  destruct (fl_close _ _ _ _ Ec) as [Ht Hk]. split; [|intros fd' d' c Hl; rewrite Hk; by eapply Ho].
  rewrite Ht, E. by apply delete_insert_id.
Qed.

Lemma wp_or_close {A} k0 fd (m : M K (io_result A)) (Q : io_result A → K → Prop) k :
  wp m (λ r k', match r with
                | Ok a => Q (Ok a) k'
                | Err e => (∃ nb ce, owns k0 fd nb ce k') ∧ ∀ k'', as_before k0 k'' → Q (Err e) k''
                end) k → wp (or_close fd m) Q k.
Proof.
  intros Hm. unfold or_close. wp_step. eapply wp_mono; [exact Hm|]. intros [a|e] k' H'; [by wp_step|].
  destruct H' as [(nb & ce & Ho) HQ]. wp_step. eapply wp_drop_fd; [done|]. intros k'' Hb. wp_step. by apply HQ.
Qed.

(** ** Making sockets *)

(** A new descriptor, non-blocking and closed on exec, or none; nothing else has
    changed. *)
Definition made (k : K) (r : io_result Z) (k' : K) : Prop :=
  match r with
  | Ok fd => fds k !! fd = None ∧ old_kept k k' ∧ ∃ d, fds k' = <[fd := (d, true)]> (fds k) ∧ fd_nonblock k' d = true
  | Err _ => as_before k k'
  end.

Lemma made_owns k fd k' : owns k fd true true k' → made k (Ok fd) k'.
Proof. intros (Hn & Ho & d & E & _ & Hb). split; [done|]. split; [done|]. exists d. auto. Qed.

Lemma as_before_kept k k' : kept k k' → as_before k k'.
Proof. intros [Ht Hk]. split; [done|]. intros fd d c _. apply Hk. Qed.

(** The end of [stream] and [accept]. *)
Lemma wp_finish k0 fd nb ce k (Q : io_result Z → K → Prop) :
  owns k0 fd nb ce k → (∀ r k', made k0 r k' → Q r k') →
  wp (or_close fd (try! set_cloexec fd; try! set_nonblock fd; mret (Ok fd))) Q k.
Proof.
  intros Hown HQ. eapply (wp_or_close k0). wp_step. eapply wp_set_cloexec; [done|..].
  - intros k1 e H1. apply wp_ret. split; [eauto|]. intros k' Hb. by apply HQ.
  - intros k1 H1. wp_step. eapply wp_set_nonblock; [done|..].
    + intros k2 e H2. apply wp_ret. split; [eauto|]. intros k' Hb. by apply HQ.
    + intros k2 H2. apply wp_ret. apply HQ. by apply made_owns.
Qed.

Lemma wp_stream k (Q : io_result Z → K → Prop) : (∀ r k', made k r k' → Q r k') → wp (stream pf) Q k.
Proof.
  intros HQ. unfold stream. wp_step.
  apply (wp_mono _ (λ early k1, match early with Some r => made k r k1 | None => kept k k1 end)).
  - destruct (is_linux pf); [|by apply wp_ret]. wp_step. apply wp_checked.
    + intros k1 e E. apply wp_ret. destruct (fl_socket _ _ _ _ _ _ E) as [[_ Hk]|[[] _]]; [|done].
      destruct (decide (e = io_os EINVAL)); [done|]. by apply as_before_kept.
    + intros r k1 E Hr. apply wp_ret. destruct (fl_socket _ _ _ _ _ _ E) as [[-> _]|(_ & Ho & Hb)]; [done|].
      apply made_owns. apply owns_opened in Ho as (Hn & Hold & d & E' & Hf & _). split; [done|]. split; [done|]. exists d.
      split; [exact E'|]. split; [done|]. intros _. change true with (Z.testbit (Z.lor (Z.lor SOCK_STREAM SOCK_CLOEXEC) SOCK_NONBLOCK) 11).
      eapply Hb. by rewrite E', lookup_insert_eq.
  - intros [r|] k1 H1; [by apply wp_ret, HQ|]. wp_step. apply wp_checked.
    + intros k2 e E. apply wp_ret, HQ. destruct (fl_socket _ _ _ _ _ _ E) as [[_ Hk]|[[] _]]; [|done].
      apply as_before_kept. by eapply kept_trans.
    + intros r k2 E Hr. destruct (fl_socket _ _ _ _ _ _ E) as [[-> _]|(_ & Ho & _)]; [done|].
      eapply (wp_finish k); [by eapply owns_after_kept, owns_opened|done].
Qed.

Lemma wp_accept fd k (Q : io_result Z → K → Prop) : (∀ r k', made k r k' → Q r k') → wp (sys_accept fd) Q k.
Proof.
  intros HQ. unfold sys_accept. wp_step. apply wp_checked.
  - intros k1 e E. apply wp_ret, HQ. destruct (fl_accept _ _ _ _ E) as [[_ Hk]|[[] _]]; [|done]. by apply as_before_kept.
  - intros r k1 E Hr. destruct (fl_accept _ _ _ _ E) as [[-> _]|[_ Ho]]; [done|]. eapply wp_finish; [exact (owns_opened _ _ _ _ Ho)|done].
Qed.

(** A call that keeps the table of descriptors. *)
Definition keeping {A} (f : K → A * K) : Prop := ∀ k, kept k (snd (f k)).

Lemma wp_keeping {A} k0 fd nb ce (f : K → A * K) (Q : A → K → Prop) k :
  keeping f → owns k0 fd nb ce k → (∀ a k', owns k0 fd nb ce k' → Q a k') → wp (syscall f) Q k.
Proof.
  intros Hf Ho HQ. apply wp_syscall. intros a k' E. apply HQ. eapply owns_kept; [|done]. specialize (Hf k). by rewrite E in Hf.
Qed.

Lemma wp_with_path k0 fd nb ce path f (Q : io_result unit → K → Prop) k :
  (∀ a n, keeping (f a n)) → owns k0 fd nb ce k → (∀ r k', owns k0 fd nb ce k' → Q r k') → wp (with_path pf path f) Q k.
Proof.
  intros Hf Ho HQ. unfold with_path. wp_step. wp_step. destruct (sockaddr_un pf path) as [a|e]; [|apply wp_ret; by apply HQ].
  unfold checked. wp_step. wp_step. eapply wp_keeping; [apply Hf|done|]. intros r k1 H1. apply wp_cvt; intros; apply wp_ret; by apply HQ.
Qed.

Lemma wp_sys_listen k0 fd nb ce n (Q : io_result unit → K → Prop) k :
  owns k0 fd nb ce k → (∀ r k', owns k0 fd nb ce k' → Q r k') → wp (sys_listen fd n) Q k.
Proof.
  intros Ho HQ. unfold sys_listen, checked. wp_step. wp_step. eapply wp_keeping; [intros k'; apply fl_listen|done|].
  intros r k1 H1. apply wp_cvt; intros; apply wp_ret; by apply HQ.
Qed.

(** The calls that return a new socket; the descriptor of the result. *)
Inductive Ctor : Type :=
  | MkStream
  | MkAccept (listener : Z)
  | MkStreamConnect (path : list Z)
  | MkListenerBind (path : list Z)
  | MkTcpConnect (addr : SocketAddr)
  | MkTcpBind (addr : SocketAddr)
  | MkTcpAccept (listener : NetSocket)
  | MkUdpBind (addr : SocketAddr).

Definition the_fd (m : M K (io_result NetSocket)) : M K (io_result Z) := r ← m; mret (result_map fst r).

Definition run_ctor (c : Ctor) : M K (io_result Z) :=
  match c with
  | MkStream => UnixSocket_stream pf
  | MkAccept l => UnixListener_accept l
  | MkStreamConnect path => UnixStream_connect pf path
  | MkListenerBind path => UnixListener_bind pf path
  | MkTcpConnect addr => the_fd (net_TcpStream_connect EINPROGRESS addr)
  | MkTcpBind addr => the_fd (net_TcpListener_bind addr)
  | MkTcpAccept l => r ← net_TcpListener_accept l; mret (result_map (λ sa, fst (fst sa)) r)
  | MkUdpBind addr => the_fd (net_UdpSocket_bind addr)
  end.

(** A socket that was made stays so while it is only used. *)
Lemma made_kept k fd k1 k2 : made k (Ok fd) k1 → kept k1 k2 → made k (Ok fd) k2.
Proof.
  intros (Hn & Ho & d & E & Hb) [Ht Hk]. split; [done|]. split; [|exists d; by rewrite Ht, Hk].
  intros fd' d' c Hl. rewrite Hk. by eapply Ho.
Qed.

Lemma wp_made_drop k fd k1 (Q : unit → K → Prop) : made k (Ok fd) k1 → (∀ k', as_before k k' → Q tt k') → wp (drop_fd fd) Q k1.
Proof.
  intros (Hn & Ho & d & E & _) HQ. unfold drop_fd. wp_step. apply wp_syscall. intros r k' Ec. wp_step. apply HQ.
  destruct (fl_close _ _ _ _ Ec) as [Ht Hk]. split; [|intros fd' d' c Hl; rewrite Hk; by eapply Ho].
  rewrite Ht, E. by apply delete_insert_id.
Qed.

(** A call with a path on a socket that was made. *)
Lemma wp_path_made k fd path f (Q : io_result unit → K → Prop) k1 :
  (∀ a n, keeping (f a n)) → made k (Ok fd) k1 → (∀ r k', made k (Ok fd) k' → Q r k') → wp (with_path pf path f) Q k1.
Proof.
  intros Hf Hm HQ. unfold with_path. wp_step. wp_step. destruct (sockaddr_un pf path) as [a|e]; [|apply wp_ret; by apply HQ].
  unfold checked. wp_step. wp_step. apply wp_syscall. intros r k2 E. pose proof (Hf (fst a) (snd a) k1) as Hk. rewrite E in Hk. cbn in Hk.
  apply wp_cvt; intros; apply wp_ret; apply HQ; by eapply made_kept.
Qed.

Lemma wp_UnixStream_connect path k (Q : io_result Z → K → Prop) :
  (∀ r k', made k r k' → Q r k') → wp (UnixStream_connect pf path) Q k.
Proof.
  intros HQ. unfold UnixStream_connect, UnixSocket_stream, UnixSocket_connect, sys_connect. wp_step. apply wp_stream. intros r k1 H1.
  destruct r as [fd|e]; [|apply wp_ret; by apply HQ]. wp_step. wp_step. eapply (wp_path_made k fd); [intros a n k'; apply fl_connect|done|].
  intros r k2 H2. destruct r as [[]|e]; [by apply wp_ret, wp_ret, HQ|]. case_decide; [by apply wp_ret, wp_ret, HQ|].
  wp_step. eapply wp_made_drop; [done|]. intros k3 H3. by apply wp_ret, wp_ret, HQ.
Qed.

Lemma wp_made_or_close {A} k fd (m : M K (io_result A)) (Q : io_result A → K → Prop) k1 :
  wp m (λ r k', match r with
                | Ok a => Q (Ok a) k'
                | Err e => made k (Ok fd) k' ∧ ∀ k'', as_before k k'' → Q (Err e) k''
                end) k1 → wp (or_close fd m) Q k1.
Proof.
  intros Hm. unfold or_close. wp_step. eapply wp_mono; [exact Hm|]. intros [a|e] k' H'; [by wp_step|].
  destruct H' as [Hfd HQ]. wp_step. eapply wp_made_drop; [done|]. intros k'' Hb. wp_step. by apply HQ.
Qed.

Lemma wp_UnixListener_bind path k (Q : io_result Z → K → Prop) :
  (∀ r k', made k r k' → Q r k') → wp (UnixListener_bind pf path) Q k.
Proof.
  intros HQ. unfold UnixListener_bind, UnixSocket_stream, UnixSocket_bind, UnixSocket_listen, sys_bind, sys_listen. wp_step.
  apply wp_stream. intros r k1 H1. destruct r as [fd|e]; [|apply wp_ret; by apply HQ]. wp_step. eapply (wp_made_or_close k).
  eapply (wp_path_made k fd); [intros a n k'; apply fl_bind|done|]. intros r k2 H2.
  destruct r as [[]|e]; [|split; [done|]; intros; by apply wp_ret, HQ].
  eapply (wp_made_or_close k). wp_step. wp_step. unfold checked. wp_step. apply wp_syscall. intros r k3 E.
  pose proof (fl_listen (as_raw_fd fd) (as_i32 256) k2) as Hk. rewrite E in Hk. cbn in Hk. pose proof (made_kept _ _ _ _ H2 Hk) as H3.
  apply wp_cvt; intros; do 2 wp_step; [|by apply HQ]. split; [done|]. intros. by apply HQ.
Qed.

(** Sockets of [std::net] are closed on exec from the start. *)
Lemma wp_listener_new k fd nb k1 (Q : io_result Z → K → Prop) :
  owns k fd nb true k1 → (∀ r k', made k r k' → Q r k') → wp (sys_TcpListener_new fd) Q k1.
Proof.
  intros Ho HQ. unfold sys_TcpListener_new. eapply (wp_or_close k). wp_step. eapply wp_set_nonblock; [done|..].
  - intros k2 e H2. apply wp_ret. split; [eauto|]. intros. by apply HQ.
  - intros k2 H2. apply wp_ret, HQ. by apply made_owns.
Qed.

(** A step of a constructor failed: the socket it owns is dropped. *)
Ltac net_err := apply wp_ret; split; [by eauto|]; intros ? ?; by do 2 apply wp_ret.

Lemma wp_net_connect addr k : wp (the_fd (net_TcpStream_connect EINPROGRESS addr)) (made k) k.
Proof.
  unfold the_fd, net_TcpStream_connect, connect_stream, sys_TcpStream_connect, tcp_connect. wp_step. wp_step. apply wp_syscall. intros r k1 E1.
  pose proof (fl_new _ _ _ _ E1) as H1. destruct r as [fd|e]; [|apply wp_ret, wp_ret; by apply as_before_kept].
  wp_step. eapply (wp_or_close k). eapply wp_keeping; [intros k'; apply fl_to_stream|by apply owns_opened|]. intros r k1' H1'.
  destruct r as [[]|e]; [|net_err].
  wp_step. eapply (wp_or_close k). wp_step. wp_step. eapply wp_set_nonblock; [done|..].
  - intros k2 e H2. do 2 apply wp_ret. split; [eauto|]. intros k' Hb. by do 2 apply wp_ret.
  - intros k2 H2. wp_step. eapply wp_keeping; [intros k'; apply fl_nconnect|done|]. intros r k3 H3. wp_step.
    destruct r as [[]|e]; [|case_decide].
    1,2: apply wp_ret, wp_ret, wp_ret; by apply made_owns.
    apply wp_ret. split; [eauto|]. intros k' Hb. by apply wp_ret, wp_ret.
Qed.

Lemma wp_net_bind addr k : wp (the_fd (net_TcpListener_bind addr)) (made k) k.
Proof.
  unfold the_fd, net_TcpListener_bind. wp_step. wp_step. apply wp_syscall. intros r k1 E1.
  pose proof (fl_new _ _ _ _ E1) as H1. destruct r as [fd|e]; [|apply wp_ret, wp_ret; by apply as_before_kept].
  wp_step. eapply (wp_or_close k). wp_step. eapply wp_keeping; [intros k'; apply fl_reuse|by apply owns_opened|]. intros r k2 H2.
  destruct r as [[]|e]; [|net_err]. wp_step. eapply wp_keeping; [intros k'; apply fl_nbind|done|]. intros r k3 H3.
  destruct r as [[]|e]; [|net_err]. eapply wp_keeping; [intros k'; apply fl_nlisten|done|]. intros r k4 H4.
  destruct r as [[]|e]; [|net_err]. wp_step. eapply wp_listener_new; [done|]. intros r k5 H5. apply wp_ret, wp_ret. by destruct r.
Qed.

Lemma wp_net_accept l k :
  wp (r ← net_TcpListener_accept l; mret (result_map (λ sa : NetSocket * SocketAddr, fst (fst sa)) r)) (made k) k.
Proof.
  unfold net_TcpListener_accept, sys_TcpListener_accept. do 3 wp_step. apply wp_syscall. intros r k1 E1.
  pose proof (fl_naccept _ _ _ _ E1) as H1. destruct r as [[fd a]|e]; [|do 3 apply wp_ret; by apply as_before_kept].
  eapply (wp_or_close k). wp_step. eapply wp_set_nonblock; [by apply owns_opened|..].
  - intros k2 e H2. apply wp_ret. split; [eauto|]. intros k' Hb. by do 2 apply wp_ret.
  - intros k2 H2. do 3 apply wp_ret. by apply made_owns.
Qed.

Lemma wp_net_udp addr k : wp (the_fd (net_UdpSocket_bind addr)) (made k) k.
Proof.
  unfold the_fd, net_UdpSocket_bind, net_UdpSocket_from_socket, sys_UdpSocket_new. do 2 wp_step. apply wp_syscall. intros r k1 E1.
  pose proof (fl_udp_bind _ _ _ _ E1) as H1. destruct r as [fd|e]; [|do 2 apply wp_ret; by apply as_before_kept]. wp_step.
  eapply (wp_or_close k). wp_step. apply wp_syscall. intros r k2 E2. pose proof (fl_set_nonblocking _ _ _ _ E2) as H2.
  apply owns_opened in H1. destruct r as [[]|e]; cbn [is_ok] in H2.
  - do 3 apply wp_ret. apply made_owns. by eapply owns_nonblock.
  - apply wp_ret. split; [eauto using owns_kept|]. intros k' Hb. by do 2 apply wp_ret.
Qed.

(** C33: every call of mio on Unix that makes a socket returns, and either it hands
    out one new descriptor, which does not block and is closed on exec, or it
    fails and the table of descriptors is as it was: no descriptor leaks on any
    path, and those that were open keep their flags. *)
Theorem sockets_made (c : Ctor) (k : K) : ∃ r k', run_ctor c k = Done (r, k') ∧ made k r k'.
Proof.
  apply (wp_done _ (made k)). destruct c as [|l|path|path|addr|addr|l|addr]; cbn [run_ctor].
  - by apply wp_stream.
  - by apply wp_accept.
  - by apply wp_UnixStream_connect.
  - by apply wp_UnixListener_bind.
  - apply wp_net_connect.
  - apply wp_net_bind.
  - apply wp_net_accept.
  - apply wp_net_udp.
Qed.

(** ** Sockets and pipes that exist already *)

(** The calls that take over a descriptor. *)
Inductive Adopt : Type := AChild | AStream | AListener | AUdp.

Definition run_adopt (a : Adopt) (fd : Z) : M K (io_result Z) :=
  match a with
  | AChild => from_child fd
  | AStream => the_fd (net_TcpStream_from_stream fd)
  | AListener => the_fd (net_TcpListener_from_listener fd)
  | AUdp => the_fd (net_UdpSocket_from_socket fd)
  end.

(** It does not block any more, or it is closed. *)
Definition adopted (fd : Z) (k : K) (r : io_result Z) (k' : K) : Prop :=
  match r with
  | Ok fd' => fd' = fd ∧ nonblock_set k k' fd true
  | Err _ => fds k' = delete fd (fds k) ∧ ∀ d, fd_nonblock k' d = fd_nonblock k d
  end.

Lemma wp_adopt {A} fd (m : M K (io_result unit)) (a : A) (Q : io_result A → K → Prop) k :
  wp m (λ r k', if is_ok r then nonblock_set k k' fd true else kept k k') k →
  (∀ k', adopted fd k (Ok fd) k' → Q (Ok a) k') → (∀ e k', adopted fd k (Err e) k' → Q (Err e) k') →
  wp (or_close fd (try! m; mret (Ok a))) Q k.
Proof.
  intros Hm Ho He. unfold or_close. do 2 wp_step. eapply wp_mono; [exact Hm|].
  intros [[]|e] k1 H1; cbn [is_ok] in H1; apply wp_ret; [by apply wp_ret, Ho|].
  unfold drop_fd. do 2 wp_step. apply wp_syscall. intros r k2 E2. destruct (fl_close _ _ _ _ E2) as [Ht Hk], H1 as [Ht1 Hk1].
  do 2 apply wp_ret. apply He. split; [by rewrite Ht, Ht1|]. intros d. by rewrite Hk, Hk1.
Qed.

Lemma wp_adopt_nonblock fd k : wp (set_nonblock fd) (λ r k', if is_ok r then nonblock_set k k' fd true else kept k k') k.
Proof. by apply wp_set_nonblock_gen. Qed.

Lemma wp_adopt_nonblocking fd k :
  wp (syscall (n_set_nonblocking fd true)) (λ r k', if is_ok r then nonblock_set k k' fd true else kept k k') k.
Proof. apply wp_syscall. intros r k' E. by apply (fl_set_nonblocking _ _ _ _ E). Qed.

(** a descriptor that mio takes over (a pipe of a child process, a socket of
    [std::net]) is the one of the result and does not block any more; when that
    cannot be done it is closed, and nothing else changes. *)
Theorem sockets_adopted (a : Adopt) (fd : Z) (k : K) : ∃ r k', run_adopt a fd k = Done (r, k') ∧ adopted fd k r k'.
Proof.
  apply (wp_done _ (adopted fd k)). destruct a; cbn [run_adopt].
  - by apply wp_adopt; [apply wp_adopt_nonblock|..].
  - unfold the_fd, net_TcpStream_from_stream. wp_step. apply wp_adopt; [apply wp_adopt_nonblocking|..]; intros; by apply wp_ret.
  - unfold the_fd, net_TcpListener_from_listener, sys_TcpListener_new. do 2 wp_step.
    apply wp_adopt; [apply wp_adopt_nonblock|..]; intros; by do 2 apply wp_ret.
  - unfold the_fd, net_UdpSocket_from_socket, sys_UdpSocket_new. do 2 wp_step.
    apply wp_adopt; [apply wp_adopt_nonblocking|..]; intros; by do 2 apply wp_ret.
Qed.

(** Two descriptors were opened, one after the other. *)
Lemma opened_two k k1 k' a b ce :
  opened k k1 a ce → opened k1 k' b ce →
  a ≠ b ∧ fds k !! a = None ∧ fds k !! b = None ∧ old_kept k k' ∧
  ∃ d1 d2, d1 ≠ d2 ∧ fds k' = <[b := (d2, ce)]> (<[a := (d1, ce)]> (fds k)) ∧
    (∀ fd c, fds k !! fd ≠ Some (d1, c)) ∧ (∀ fd c, fds k !! fd ≠ Some (d2, c)).
Proof.
  intros (Ha & d1 & E1 & Hf1 & Hk1) (Hb & d2 & E2 & Hf2 & Hk2). rewrite E1 in Hb, Hf2.
  assert (a ≠ b) as Hab by (intros ->; by rewrite lookup_insert_eq in Hb). rewrite lookup_insert_ne in Hb by done.
  assert (d1 ≠ d2) as Hd by (intros ->; apply (Hf2 a ce); by rewrite lookup_insert_eq).
  assert (∀ fd c, fds k !! fd ≠ Some (d2, c)) as Hf2'.
  { intros fd c Hl. apply (Hf2 fd c). rewrite lookup_insert_ne; [done|]. intros ->. congruence. }
  split; [done|]. split; [done|]. split; [done|]. split; [|exists d1, d2; by rewrite E2, E1].
  intros fd d c Hl. rewrite Hk2, Hk1; [done|..]; intros ->; [by apply (Hf1 fd c)|by apply (Hf2' fd c)].
Qed.

(** [pipe] hands out two new descriptors that do not block, or fails and
    leaves the table of descriptors as it was.  They are closed on exec exactly
    when the system has [pipe2].  That the flags of an open descriptor can be set
    is assumed, since the code does not look at the result. *)
Theorem pipe_made (k : K) :
  (∀ fd flags k1, is_Some (fds k1 !! fd) → fst (k_fcntl_setfl fd flags k1) ≠ -1) →
  ∃ r k', pipe k = Done (r, k') ∧
    match r with
    | Ok (a, b) =>
        a ≠ b ∧ fds k !! a = None ∧ fds k !! b = None ∧ old_kept k k' ∧
        ∃ d1 d2, fds k' = <[b := (d2, k_has_pipe2 k)]> (<[a := (d1, k_has_pipe2 k)]> (fds k)) ∧
          fd_nonblock k' d1 = true ∧ fd_nonblock k' d2 = true
    | Err _ => as_before k k'
    end.
Proof.
  intros Hsetfl. apply (wp_done _ (λ r k', match r with Ok (a, b) => _ | Err _ => _ end)). unfold pipe, sys_pipe. wp_steps.
  destruct (k_has_pipe2 k) eqn:Ehas; wp_steps; apply wp_syscall; intros [r [a b]] k1 E; wp_steps; cbn [fst snd].
  - destruct (fl_pipe2 _ _ _ _ _ _ E) as [[-> Hk]|(Hr & k2 & H1 & H2 & Hnb)]; apply wp_cvt; intros; try done; apply wp_ret; [by apply as_before_kept|].
    destruct (opened_two _ _ _ _ _ _ H1 H2) as (Hab & Ha & Hb & Hold & d1 & d2 & Hd & E' & _). split_and!; try done. exists d1, d2. split; [done|]. split.
    + apply (Hnb a d1 true); [by left|]. by rewrite E', lookup_insert_ne, lookup_insert_eq.
    + apply (Hnb b d2 true); [by right|]. by rewrite E', lookup_insert_eq.
  - destruct (fl_pipe _ _ _ _ _ E) as [[-> Hk]|(Hr & k2 & H1 & H2)]; apply wp_cvt; intros; try done; [apply wp_ret; by apply as_before_kept|].
    destruct (opened_two _ _ _ _ _ _ H1 H2) as (Hab & Ha & Hb & Hold & d1 & d2 & Hd & E' & Hf1 & Hf2). wp_step. apply wp_syscall. intros r3 k3 E3.
    wp_step. apply wp_syscall. intros r4 k4 E4. wp_step.
    pose proof (Hsetfl a (Z.lor O_NONBLOCK O_CLOEXEC) k1) as Hr3. rewrite E3, E', lookup_insert_ne, lookup_insert_eq in Hr3 by done.
    destruct (fl_setfl _ _ _ _ _ E3) as [[-> _]|(_ & Ht3 & da & ca & Hla & Hba & Hka)]; [by destruct Hr3|].
    pose proof (Hsetfl b (Z.lor O_NONBLOCK O_CLOEXEC) k3) as Hr4. rewrite E4, Ht3, E', lookup_insert_eq in Hr4.
    destruct (fl_setfl _ _ _ _ _ E4) as [[-> _]|(_ & Ht4 & db & cb & Hlb & Hbb & Hkb)]; [by destruct Hr4|].
    rewrite Ht3, E', lookup_insert_eq in Hlb. injection Hlb as <- <-.
    rewrite E', lookup_insert_ne, lookup_insert_eq in Hla by done. injection Hla as <- <-.
    split_and!; try done.
    + intros fd d c Hl. rewrite Hkb, Hka; [by eapply Hold|..]; intros ->; [by apply (Hf1 fd c)|by apply (Hf2 fd c)].
    + exists d1, d2. rewrite Ht4, Ht3, E'. split; [done|]. split; [|done]. by rewrite Hkb.
Qed.

(** ** Addresses *)

(** What an address of a Unix socket says. *)
Inductive UnixName : Type := Unnamed | Pathname (bytes : list Z) | Abstract (bytes : list Z).

Definition as_u8 (c : Z) : Z := if c <? 0 then c + 256 else c.

(** How an address is read: its length tells how much of the path counts; a path
    that starts with a null byte is an abstract name, any other ends with one. *)
Definition read_name (addr : sockaddr) (len : Z) : UnixName :=
  let n := Z.to_nat (len - sun_path_offset pf) in
  match take n (as_u8 <$> sun_path addr) with
  | [] => Unnamed
  | 0 :: name => Abstract name
  | path => Pathname (take (n - 1) path)
  end.

Definition name_of (path : list Z) : UnixName :=
  match path with [] => Unnamed | 0 :: name => Abstract name | path => Pathname path end.

Definition is_byte (x : Z) : Prop := 0 <= x < 256.

Lemma c_char_u8 x : is_byte x → as_u8 (as_c_char x) = x.
Proof. unfold is_byte, as_u8, as_c_char. intros Hx. destruct (x <? 128) eqn:E; zbool; case_match; zbool; lia. Qed.

Lemma copy_path_read n path : Z.of_nat (length path) < n → Forall is_byte path →
  as_u8 <$> copy_path n path = path ++ replicate (Z.to_nat n - length path) 0 ∧ length (copy_path n path) = Z.to_nat n.
Proof.
  intros Hn Hb. unfold copy_path. rewrite take_ge by lia. rewrite fmap_app, fmap_replicate, length_app, length_fmap, length_replicate.
  split; [|lia]. f_equal. rewrite <- list_fmap_compose. rewrite <- (list_fmap_id path) at 2.
  apply list_fmap_ext. intros i x Hx. apply c_char_u8. by eapply Forall_lookup_1.
Qed.

(** C34: the address made for a path stands for exactly that path: a pathname, an
    abstract name, or no name.  Its length stays within the structure.  A path
    that does not fit, with its null byte, is refused. *)
Theorem sockaddr_un_roundtrip (path : list Z) :
  Forall is_byte path →
  match sockaddr_un pf path with
  | Ok (addr, len) =>
      read_name addr len = name_of path ∧ Z.of_nat (length (sun_path addr)) = sun_path_len pf ∧
      sun_path_offset pf <= len <= sun_path_offset pf + sun_path_len pf
  | Err e => sun_path_len pf <= Z.of_nat (length path) ∧ err_kind e = InvalidInput
  end.
Proof.
  intros Hb. unfold sockaddr_un. destruct (sun_path_len pf <=? _) eqn:E; zbool; [done|].
  destruct (copy_path_read (sun_path_len pf) path) as [Hr Hl]; [lia|done|]. unfold read_name. cbn [sun_path]. rewrite Hr, Hl.
  set (rest := replicate _ 0). assert (is_Some (head rest)) as Hrest.
  { unfold rest. destruct (Z.to_nat (sun_path_len pf) - length path)%nat eqn:E0; [lia|]. by eexists. }
  assert (∀ n, n = Z.of_nat (length path) → Z.to_nat (sun_path_offset pf + n - sun_path_offset pf) = length path) as H0 by lia.
  destruct path as [|x path]; [cbn; rewrite Z.add_0_r, Z.sub_diag; split; [done|lia]|].
  destruct (decide (x = 0)) as [->|Hx].
  - rewrite H0, take_app_length by done. split; [done|]. cbn [length] in *. lia.
  - assert (match x with 0 => sun_path_offset pf + Z.of_nat (length (x :: path)) | _ => sun_path_offset pf + Z.of_nat (length (x :: path)) + 1 end
      = sun_path_offset pf + Z.of_nat (length (x :: path)) + 1) as -> by (by destruct x).
    assert (Z.to_nat (sun_path_offset pf + Z.of_nat (length (x :: path)) + 1 - sun_path_offset pf) = S (length (x :: path))) as -> by lia.
    destruct rest as [|y rest]; [by destruct Hrest|]. split; [|cbn [length] in *; lia].
    change ((x :: path) ++ y :: rest) with ((x :: path) ++ [y] ++ rest). rewrite (app_assoc (x :: path) [y] rest).
    assert (take (S (length (x :: path))) (((x :: path) ++ [y]) ++ rest) = (x :: path) ++ [y]) as ->.
    { apply take_app_length'. rewrite length_app. cbn. lia. }
    cbn [app name_of]. replace (S (length (x :: path)) - 1)%nat with (length (x :: path)) by lia.
    destruct x; [done| |]; f_equal; apply (take_app_length (_ :: path) [y]).
Qed.

(** ** Passing descriptors *)

(** The descriptors a message passes: as many as its length says. *)
Definition rights (c : Cmsg) : list Z :=
  if (cmsg_level c =? SOL_SOCKET) && (cmsg_type c =? SCM_RIGHTS)
  then take (Z.to_nat ((cmsg_len c - hdr_size pf) / 4)) (cmsg_data c) else [].

(** the message [write_send_fd] sends passes the descriptor it was given and,
    where the compiler aligns [Cmsg] to more than its contents, further
    descriptors, all of number 0. *)
Theorem write_send_fd_rights (sock : Z) (buf : list Z) (fd : Z) :
  0 < hdr_align pf → ∃ c, rights c = fd :: replicate (Z.to_nat (cmsg_ints pf) - 1) 0 ∧
    ∀ k, write_send_fd pf sock buf fd k =
      (let (r, k') := k_sendmsg sock buf c k in Done (if r =? -1 then Err (io_os (k_errno k')) else Ok r, k')).
Proof.
  intros Ha. exists (mkCmsg (cmsg_size pf) SOL_SOCKET 1 (<[0%nat := fd]> (cmsg_data (cmsg_zeroed pf)))). split.
  2:{ intros k. unfold write_send_fd, checked, syscall, cvt, is_minus_one, mbind, M_bind. cbn. unfold as_raw_fd.
      destruct (k_sendmsg sock buf _ k) as [r k']. by destruct (r =? -1). }
  unfold rights. cbn [cmsg_level cmsg_type cmsg_len cmsg_data]. cbn [Z.eqb andb SOL_SOCKET SCM_RIGHTS].
  fold (cmsg_ints pf). unfold cmsg_zeroed. cbn [cmsg_data].
  assert (1 <= cmsg_ints pf) as H1.
  { unfold cmsg_ints, cmsg_size. apply Z.div_le_lower_bound; [lia|]. pose proof (Z.mod_pos_bound (hdr_size pf + 4 + hdr_align pf - 1) _ Ha).
    pose proof (Z.div_mod (hdr_size pf + 4 + hdr_align pf - 1) (hdr_align pf)). lia. }
  destruct (Z.to_nat (cmsg_ints pf)) as [|n] eqn:En; [lia|]. cbn. rewrite Nat.sub_0_r. f_equal. apply take_ge. by rewrite length_replicate.
Qed.
End fds.

(** On a system with 64 bits the header has 16 bytes, aligned to 8: descriptor 0
    is passed along.  With 32 bits (12 bytes, aligned to 4) it is not. *)
Definition linux64 : Platform := mkPlatform true 108 2 16 8.
Definition linux32 : Platform := mkPlatform true 108 2 12 4.
Example send_fd_passes_stdin_too : (cmsg_ints linux64, cmsg_ints linux32) = (2, 1).
Proof. reflexivity. Qed.
