(* ===== verification/UnixSockEx.v ===== *)
(** * A kernel for the sockets of Unix

    A kernel with a table of descriptors and nothing behind them, which shows that
    what [FdLaws] asks of a kernel can be had; and the theorems of [UnixSockThm.v]
    that have hypotheses, at concrete inputs. *)

From S2P Require Import Prelude Event Convert Iface Poll Epoll UnixIo UnixSock UnixSockThm.

(** [has_pipe2]: whether the system has [pipe2]; [refuses]: no more descriptors. *)
Record Table : Type := mkTable { t_fds : gmap Z (Z * bool); t_nonblock : gset Z; t_pipe2 : bool; t_refuses : bool }.

Definition above (l : list Z) : Z := 1 + foldr Z.max 2 l.
Definition next_fd (t : Table) : Z := above ((map_to_list (t_fds t)).*1).
Definition next_desc (t : Table) : Z := above ((map_to_list (t_fds t)).*2.*1).

Definition set_nb (d : Z) (nb : bool) (s : gset Z) : gset Z := if nb then {[d]} ∪ s else s ∖ {[d]}.

Definition t_open (nb ce : bool) (t : Table) : Z * Table :=
  (next_fd t, mkTable (<[next_fd t := (next_desc t, ce)]> (t_fds t)) (set_nb (next_desc t) nb (t_nonblock t)) (t_pipe2 t) (t_refuses t)).

Definition t_socket (nb ce : bool) (t : Table) : Z * Table := if t_refuses t then (-1, t) else t_open nb ce t.
Definition t_std (t : Table) : io_result Z * Table :=
  if t_refuses t then (Err (io_os 24), t) else let (fd, t') := t_open false true t in (Ok fd, t').
Definition t_pair (nb ce : bool) (t : Table) : (Z * (Z * Z)) * Table :=
  if t_refuses t then ((-1, (0, 0)), t) else let (a, t1) := t_open nb ce t in let (b, t2) := t_open nb ce t1 in ((0, (a, b)), t2).

Definition t_set (fd : Z) (nb : bool) (t : Table) : option Table :=
  match t_fds t !! fd with
  | Some (d, _) => Some (mkTable (t_fds t) (set_nb d nb (t_nonblock t)) (t_pipe2 t) (t_refuses t))
  | None => None
  end.
Definition as_ret (t : Table) (r : option Table) : Z * Table := match r with Some t' => (0, t') | None => (-1, t) end.
Definition as_io (t : Table) (r : option Table) : io_result unit * Table := match r with Some t' => (Ok tt, t') | None => (Err (io_os 9), t) end.

Definition t_with (t : Table) (f : gmap Z (Z * bool)) : Table := mkTable f (t_nonblock t) (t_pipe2 t) (t_refuses t).
Definition t_cloexec (fd : Z) (t : Table) : option Table :=
  match t_fds t !! fd with Some (d, _) => Some (t_with t (<[fd := (d, true)]> (t_fds t))) | None => None end.
Definition t_dup (fd : Z) (t : Table) : io_result Z * Table :=
  match t_fds t !! fd with
  | Some (d, _) => (Ok (next_fd t), t_with t (<[next_fd t := (d, true)]> (t_fds t)))
  | None => (Err (io_os 9), t)
  end.

Definition loopback : SocketAddr := V4 (127, 0, 0, 1) 80.

#[export] Instance table_epoll : EpollSys Table := {
  k_errno _ := 24;
  k_has_epoll_create1 _ := false;
  k_epoll_create1 := t_socket false true;
  k_epoll_create _ := t_socket false false;
  k_ioctl_fioclex fd t := as_ret t (t_cloexec fd t);
  k_epoll_ctl _ _ fd _ t := (match t_fds t !! fd with Some _ => 0 | None => -1 end, t);
  k_epoll_wait _ _ _ t := ((0, []), t);
  k_close fd t := (0, t_with t (delete fd (t_fds t))) }.

#[export] Instance table_unix : UnixSys Table := {
  k_socket _ ty _ := t_socket (Z.testbit ty 11) (Z.testbit ty 19);
  k_accept _ := t_socket false false;
  k_ioctl_fionbio fd on t := as_ret t (t_set fd (negb (on =? 0)) t);
  k_fcntl_setfl fd flags t := as_ret t (t_set fd (Z.testbit flags 11) t);
  k_has_pipe2 := t_pipe2;
  k_pipe2 flags := t_pair (Z.testbit flags 11) (Z.testbit flags 19);
  k_pipe := t_pair false false;
  k_connect _ _ _ t := (0, t);
  k_bind _ _ _ t := (0, t);
  k_listen _ _ t := (0, t);
  k_shutdown _ _ t := (0, t);
  k_recvmsg _ _ _ t := ((0, [], mkCmsg 0 0 0 []), t);
  k_sendmsg _ buf _ t := (Z.of_nat (length buf), t);
  k_dup := t_dup;
  k_read _ _ t := (Ok [], t);
  k_write _ buf t := (Ok (Z.of_nat (length buf)), t);
  n_new _ := t_std;
  n_to_tcp_stream _ t := (Ok tt, t);
  n_reuse_address _ _ t := (Ok tt, t);
  n_bind _ _ t := (Ok tt, t);
  n_listen _ _ t := (Ok tt, t);
  n_connect _ _ t := (Ok tt, t);
  n_accept _ t := let (r, t') := t_std t in (result_map (λ fd, (fd, loopback)) r, t');
  n_udp_bind _ := t_std;
  n_set_nonblocking fd nb t := as_io t (t_set fd nb t);
  n_send_to _ buf _ t := (Ok (Z.of_nat (length buf)), t);
  n_recv_from _ _ t := (Ok (0, loopback), t) }.

#[export] Instance table_spec : FdSpec Table := {
  fds := t_fds;
  fd_nonblock t d := bool_decide (d ∈ t_nonblock t) }.

Lemma above_gt l x : x ∈ l → x < above l.
Proof. unfold above. induction 1 as [l|y l ? _ IH]; cbn; lia. Qed.

Lemma above_not_error l : above l ≠ -1.
Proof. unfold above. enough (2 <= foldr Z.max 2 l) by lia. induction l; cbn; lia. Qed.

Lemma next_fd_free t : t_fds t !! next_fd t = None.
Proof.
  apply eq_None_not_Some. intros [v Hv]. apply elem_of_map_to_list in Hv. apply (list_elem_of_fmap_2 fst) in Hv.
  apply above_gt in Hv. cbn in Hv. unfold next_fd in Hv. lia.
Qed.

Lemma next_desc_free t fd c : t_fds t !! fd ≠ Some (next_desc t, c).
Proof.
  intros Hv. apply elem_of_map_to_list in Hv. apply (list_elem_of_fmap_2 snd), (list_elem_of_fmap_2 fst) in Hv.
  apply above_gt in Hv. cbn in Hv. unfold next_desc in Hv. lia.
Qed.

Lemma set_nb_at d nb s : bool_decide (d ∈ set_nb d nb s) = nb.
Proof. destruct nb; cbn; [apply bool_decide_eq_true|apply bool_decide_eq_false]; set_solver. Qed.
Lemma set_nb_other d d' nb s : d' ≠ d → bool_decide (d' ∈ set_nb d nb s) = bool_decide (d' ∈ s).
Proof. intros Hd. apply bool_decide_ext. destruct nb; cbn; set_solver. Qed.

Lemma t_open_opened nb ce t fd t' : t_open nb ce t = (fd, t') →
  fd ≠ -1 ∧ opened t t' fd ce ∧ ∀ d c, t_fds t' !! fd = Some (d, c) → bool_decide (d ∈ t_nonblock t') = nb.
Proof.
  intros [= <- <-]. split; [apply above_not_error|]. split.
  - split; [apply next_fd_free|]. exists (next_desc t). split; [done|]. split; [apply next_desc_free|]. intros d' Hd. by apply set_nb_other.
  - cbn. intros d c Hl. rewrite lookup_insert_eq in Hl. injection Hl as <- <-. apply set_nb_at.
Qed.

Lemma t_set_spec fd nb t t' : t_set fd nb t = Some t' → nonblock_set t t' fd nb.
Proof.
  unfold t_set. destruct (t_fds t !! fd) as [[d c]|] eqn:E; intros [= <-]. split; [done|]. exists d, c. split; [done|].
  split; [apply set_nb_at|]. intros d' Hd. by apply set_nb_other.
Qed.

Lemma t_socket_spec nb ce t r t' : t_socket nb ce t = (r, t') →
  (r = -1 ∧ kept t t') ∨ (r ≠ -1 ∧ opened t t' r ce ∧ ∀ d c, t_fds t' !! r = Some (d, c) → bool_decide (d ∈ t_nonblock t') = nb).
Proof. unfold t_socket. destruct (t_refuses t); intros E; [left; by injection E as <- <-|right; by apply t_open_opened]. Qed.

Lemma t_std_spec t r t' : t_std t = (r, t') → match r with Ok fd => opened t t' fd true | Err _ => kept t t' end.
Proof.
  unfold t_std. destruct (t_refuses t); [by intros [= <- <-]|]. destruct (t_open false true t) as [fd t1] eqn:E.
  intros [= <- <-]. by apply t_open_opened in E as (_ & ? & _).
Qed.

Lemma t_pair_spec nb ce t r a b t' : t_pair nb ce t = ((r, (a, b)), t') →
  (r = -1 ∧ kept t t') ∨
  (r ≠ -1 ∧ ∃ t1, opened t t1 a ce ∧ opened t1 t' b ce ∧ ∀ fd d c, fd = a ∨ fd = b → t_fds t' !! fd = Some (d, c) → bool_decide (d ∈ t_nonblock t') = nb).
Proof.
  unfold t_pair. destruct (t_refuses t); [intros [= <- <- <- <-]; by left|].
  destruct (t_open nb ce t) as [a' t1] eqn:E1, (t_open nb ce t1) as [b' t2] eqn:E2. intros [= <- <- <- <-]. right. split; [done|].
  apply t_open_opened in E1 as (_ & Ho1 & Hn1), E2 as (_ & Ho2 & Hn2). exists t1. split; [done|]. split; [done|].
  intros fd d c [->| ->] Hl; [|by apply Hn2 in Hl]. pose proof (opened_two _ _ _ _ _ _ Ho1 Ho2) as [Hab _].
  destruct Ho2 as (Hb & d2 & E & Hd2 & Hk). cbn in *. rewrite E in Hl. rewrite lookup_insert_ne in Hl by done.
  rewrite Hk; [by apply Hn1 in Hl|]. intros ->. by apply (Hd2 a' c).
Qed.

#[export] Instance table_laws : FdLaws Table.
Proof.
  split; try done.
  - intros dom ty p. apply t_socket_spec.
  - intros fd t r t' E. apply t_socket_spec in E as [?|(? & ? & _)]; [by left|by right].
  - cbn. intros fd t r t'. destruct (t_set fd true t) eqn:E; intros [= <- <-]; [right; split; [done|by apply t_set_spec]|by left].
  - cbn. unfold t_cloexec. intros fd t r t'. destruct (t_fds t !! fd) as [[d c]|] eqn:E; intros [= <- <-]; [right|by left].
    split; [done|]. split; [done|]. by exists d, c.
  - cbn. intros fd fl t r t'. destruct (t_set fd _ t) eqn:E; intros [= <- <-]; [right; split; [done|by apply t_set_spec]|by left].
  - intros fl t r a b t'. apply t_pair_spec.
  - intros t r a b t' E. apply t_pair_spec in E as [?|(? & t1 & ? & ? & _)]; [by left|right; eauto].
  - cbn. unfold t_dup. intros fd t r t'. destruct (t_fds t !! fd) as [[d c]|] eqn:E; intros [= <- <-]; [|done].
    split; [apply next_fd_free|]. split; [done|]. by exists d, c.
  - by intros fd t r t' [= <- <-].
  - intros a. apply t_std_spec.
  - intros a. apply t_std_spec.
  - cbn. intros fd t r t'. destruct (t_std t) as [r1 t1] eqn:E. apply t_std_spec in E. intros [= <- <-]. by destruct r1.
  - cbn. intros fd t r t'. destruct (t_set fd true t) eqn:E; intros [= <- <-]; [by apply t_set_spec|done].
Qed.

(** ** The theorems at concrete inputs *)

Definition table1 (has_pipe2 : bool) : Table := mkTable {[0 := (0, false)]} ∅ has_pipe2 false.

(** An accepted connection, on a system that is not Linux. *)
Lemma sockets_made_witness :
  ∃ r k', run_ctor (K:=Table) (mkPlatform false 104 2 12 4) 36 (MkAccept 0) (table1 false) = Done (r, k') ∧ made (table1 false) r k'.
Proof. apply (sockets_made (K:=Table) (mkPlatform false 104 2 12 4) 36 (MkAccept 0) (table1 false)). Defined.

Example accepted_descriptor :
  match run_ctor (K:=Table) (mkPlatform false 104 2 12 4) 36 (MkAccept 0) (table1 false) with
  | Done (r, k') => r = Ok 3 ∧ t_fds k' = {[0 := (0, false); 3 := (3, true)]} ∧ t_nonblock k' = {[3]}
  | _ => False
  end.
Proof. vm_compute. auto. Qed.

Lemma sockets_adopted_witness :
  ∃ r k', run_adopt (K:=Table) AListener 0 (table1 false) = Done (r, k') ∧ adopted 0 (table1 false) r k'.
Proof. apply (sockets_adopted (K:=Table) AListener 0 (table1 false)). Defined.

(** A system without [pipe2]: the pipe survives an exec. *)
Lemma pipe_made_witness :
  ∃ r k', pipe (table1 false) = Done (r, k') ∧
    match r with
    | Ok (a, b) =>
        a ≠ b ∧ fds (table1 false) !! a = None ∧ fds (table1 false) !! b = None ∧ old_kept (table1 false) k' ∧
        ∃ d1 d2, fds k' = <[b := (d2, k_has_pipe2 (table1 false))]> (<[a := (d1, k_has_pipe2 (table1 false))]> (fds (table1 false))) ∧
          fd_nonblock k' d1 = true ∧ fd_nonblock k' d2 = true
    | Err _ => as_before (table1 false) k'
    end.
Proof.
  apply (pipe_made (K:=Table) (table1 false)). intros fd flags t [[d c] Hl]. cbn in *. unfold t_set. by rewrite Hl.
Defined.

Lemma sockaddr_un_roundtrip_witness :
  match sockaddr_un linux64 [47; 200] with
  | Ok (addr, len) => read_name linux64 addr len = Pathname [47; 200] ∧ Z.of_nat (length (sun_path addr)) = 108 ∧ 2 <= len <= 2 + 108
  | Err e => 108 <= Z.of_nat (length [47; 200]) ∧ err_kind e = InvalidInput
  end.
Proof. apply (sockaddr_un_roundtrip linux64 [47; 200]). repeat constructor; lia. Defined.

Lemma write_send_fd_rights_witness :
  ∃ c, rights linux64 c = [7; 0] ∧
    ∀ t : Table, write_send_fd linux64 3 [1; 2] 7 t =
      (let (r, t') := k_sendmsg 3 [1; 2] c t in Done (if r =? -1 then Err (io_os (k_errno t')) else Ok r, t')).
Proof. apply (write_send_fd_rights (K:=Table) linux64 3 [1; 2] 7). reflexivity. Defined.
