(* ===== verification/NetApi.v ===== *)
(** * The socket types of the public interface on Unix

    The parts of [net/tcp.rs], [net/udp.rs], [sys/unix/tcp.rs], [udp.rs],
    [uds.rs] and [deprecated/unix.rs] around the calls of [UnixSock.v]: reading and
    writing, the implementations of [Evented], and the conversions from and to raw
    descriptors.  A socket of [sys] is its descriptor, one of [net] a descriptor
    with its [SelectorId].  The theorem is about the guard against registering a
    socket with two instances of [Poll] on Linux, for programs that register,
    reregister, deregister and clone sockets, with the interest lists the kernel
    then has. *)

From S2P Require Import Prelude Event Iface ReadyQueue Poll Epoll EpollThm UnixIo UnixThm EpollReg UnixSock UnixSockThm UnixSockEx.

(** ** Reading and writing *)

Section io.
Context {K : Type} {sys : EpollSys K} {usys : UnixSys K}.
(** [read], [write] and [flush] of [std::net::TcpStream]. *)
Context (n_read : Z → Z → K → io_result (list Z) * K) (n_write : Z → list Z → K → io_result Z * K).
Context (n_flush : Z → K → io_result unit * K).

Definition sys_TcpStream_read (fd : Z) (len : Z) : M K (io_result (list Z)) := syscall (n_read fd len).
Definition sys_TcpStream_write (fd : Z) (buf : list Z) : M K (io_result Z) := syscall (n_write fd buf).
Definition sys_TcpStream_flush (fd : Z) : M K (io_result unit) := syscall (n_flush fd).
Definition net_TcpStream_read (s : NetSocket) (len : Z) : M K (io_result (list Z)) := sys_TcpStream_read (fst s) len.
Definition net_TcpStream_write (s : NetSocket) (buf : list Z) : M K (io_result Z) := sys_TcpStream_write (fst s) buf.
Definition net_TcpStream_flush (s : NetSocket) : M K (io_result unit) := sys_TcpStream_flush (fst s).

(** [from_stream] and [try_clone] of the sockets of [sys]. *)
Definition sys_TcpStream_from_stream (fd : Z) : Z := fd.
Definition sys_TcpStream_try_clone (fd : Z) : M K (io_result Z) := syscall (k_dup fd).
Definition sys_TcpListener_try_clone (fd : Z) : M K (io_result Z) := syscall (k_dup fd).
Definition sys_UdpSocket_try_clone (fd : Z) : M K (io_result Z) := syscall (k_dup fd).

(** [SelectorId::clone] copies the id the socket has now. *)
Definition SelectorId_clone (id : Z) : Z := id.
Definition net_TcpListener_try_clone (s : NetSocket) : M K (io_result NetSocket) :=
  r ← sys_TcpListener_try_clone (fst s); mret (result_map (λ fd, (fd, SelectorId_clone (snd s))) r).
Definition net_UdpSocket_try_clone (s : NetSocket) : M K (io_result NetSocket) :=
  r ← sys_UdpSocket_try_clone (fst s); mret (result_map (λ fd, (fd, SelectorId_clone (snd s))) r).
End io.

(** ** Raw descriptors *)

Definition sys_TcpStream_from_raw_fd (fd : Z) : Z := fd.
Definition sys_TcpStream_into_raw_fd (s : Z) : Z := s.
Definition sys_TcpStream_as_raw_fd (s : Z) : Z := s.
Definition sys_TcpListener_from_raw_fd (fd : Z) : Z := fd.
Definition sys_TcpListener_into_raw_fd (s : Z) : Z := s.
Definition sys_TcpListener_as_raw_fd (s : Z) : Z := s.
Definition sys_UdpSocket_from_raw_fd (fd : Z) : Z := fd.
Definition sys_UdpSocket_into_raw_fd (s : Z) : Z := s.
Definition sys_UdpSocket_as_raw_fd (s : Z) : Z := s.

(** What is made from a raw descriptor belongs to no selector. *)
Definition net_TcpStream_from_raw_fd (fd : Z) : NetSocket := (sys_TcpStream_from_raw_fd fd, SelectorId_new).
Definition net_TcpStream_into_raw_fd (s : NetSocket) : Z := sys_TcpStream_into_raw_fd (fst s).
Definition net_TcpStream_as_raw_fd (s : NetSocket) : Z := sys_TcpStream_as_raw_fd (fst s).
Definition net_TcpListener_from_raw_fd (fd : Z) : NetSocket := (sys_TcpListener_from_raw_fd fd, SelectorId_new).
Definition net_TcpListener_into_raw_fd (s : NetSocket) : Z := sys_TcpListener_into_raw_fd (fst s).
Definition net_TcpListener_as_raw_fd (s : NetSocket) : Z := sys_TcpListener_as_raw_fd (fst s).
Definition net_UdpSocket_from_raw_fd (fd : Z) : NetSocket := (sys_UdpSocket_from_raw_fd fd, SelectorId_new).
Definition net_UdpSocket_into_raw_fd (s : NetSocket) : Z := sys_UdpSocket_into_raw_fd (fst s).
Definition net_UdpSocket_as_raw_fd (s : NetSocket) : Z := sys_UdpSocket_as_raw_fd (fst s).

(** [sys::UnixSocket] wraps an [Io], the types of [deprecated/unix.rs] wrap either. *)
Definition sys_UnixSocket_from (io : Z) : Z := io.
Definition sys_UnixSocket_from_raw_fd (fd : Z) : Z := from_raw_fd fd.
Definition sys_UnixSocket_into_raw_fd (s : Z) : Z := into_raw_fd s.
Definition sys_UnixSocket_as_raw_fd (s : Z) : Z := as_raw_fd s.
Definition UnixSocket_from (sys : Z) : Z := sys.
Definition UnixStream_from (sys : Z) : Z := sys.
Definition UnixListener_from (sys : Z) : Z := sys.
Definition PipeReader_from (io : Z) : Z := io.
Definition PipeWriter_from (io : Z) : Z := io.
Definition UnixSocket_into_raw_fd (s : Z) : Z := sys_UnixSocket_into_raw_fd s.
Definition UnixSocket_as_raw_fd (s : Z) : Z := sys_UnixSocket_as_raw_fd s.
Definition UnixSocket_from_raw_fd (fd : Z) : Z := sys_UnixSocket_from_raw_fd fd.
Definition UnixStream_into_raw_fd (s : Z) : Z := sys_UnixSocket_into_raw_fd s.
Definition UnixStream_as_raw_fd (s : Z) : Z := sys_UnixSocket_as_raw_fd s.
Definition UnixStream_from_raw_fd (fd : Z) : Z := sys_UnixSocket_from_raw_fd fd.
Definition UnixListener_into_raw_fd (s : Z) : Z := sys_UnixSocket_into_raw_fd s.
Definition UnixListener_as_raw_fd (s : Z) : Z := sys_UnixSocket_as_raw_fd s.
Definition UnixListener_from_raw_fd (fd : Z) : Z := sys_UnixSocket_from_raw_fd fd.
Definition PipeReader_into_raw_fd (s : Z) : Z := into_raw_fd s.
Definition PipeReader_as_raw_fd (s : Z) : Z := as_raw_fd s.
Definition PipeReader_from_raw_fd (fd : Z) : Z := from_raw_fd fd.
Definition PipeWriter_into_raw_fd (s : Z) : Z := into_raw_fd s.
Definition PipeWriter_as_raw_fd (s : Z) : Z := as_raw_fd s.
Definition PipeWriter_from_raw_fd (fd : Z) : Z := from_raw_fd fd.

(** ** Evented *)

Section evented.
Context {A : Type} {awk_ops : AwakenerOps A}.
Context {K : Type} {sys : EpollSys K} {consts : EpollConsts}.
Abbreviation EPoll := (Poll A (Selector * K)).

Definition TcpListener_register (fd : Z) (token : Token) (interest : Ready.t) (opts : PollOpt.t) : M (Z * EPoll) (io_result unit) :=
  try! associate_selector;
  on_poll (e_register (sys_TcpListener_evented fd) token interest opts).
Definition TcpListener_reregister (fd : Z) (token : Token) (interest : Ready.t) (opts : PollOpt.t) : M (Z * EPoll) (io_result unit) :=
  on_poll (e_reregister (sys_TcpListener_evented fd) token interest opts).
Definition TcpListener_deregister (fd : Z) : M (Z * EPoll) (io_result unit) :=
  on_poll (e_deregister (sys_TcpListener_evented fd)).

Definition UdpSocket_register (fd : Z) (token : Token) (interest : Ready.t) (opts : PollOpt.t) : M (Z * EPoll) (io_result unit) :=
  try! associate_selector;
  on_poll (e_register (sys_UdpSocket_evented fd) token interest opts).
Definition UdpSocket_reregister (fd : Z) (token : Token) (interest : Ready.t) (opts : PollOpt.t) : M (Z * EPoll) (io_result unit) :=
  on_poll (e_reregister (sys_UdpSocket_evented fd) token interest opts).
Definition UdpSocket_deregister (fd : Z) : M (Z * EPoll) (io_result unit) :=
  on_poll (e_deregister (sys_UdpSocket_evented fd)).
End evented.

(** ** Programs over sockets and polls *)

Inductive SockKind : Type := Stream | Listener | Udp.

Inductive NetOp : Type :=
  | NRegister (i p : nat) (token : Token) (interest : Ready.t) (opts : PollOpt.t)
  | NReregister (i p : nat) (token : Token) (interest : Ready.t) (opts : PollOpt.t)
  | NDeregister (i p : nat)
  | NClone (i : nat)
  | NConvert (i : nat).

(** What the kernel does besides [EpollLaws]: a call of epoll_ctl changes one interest
    list only and no descriptor; a duplicate gets a new descriptor, which is in no
    interest list. *)
Class NetLaws (K : Type) `{EpollSys K, UnixSys K, EpollSpec K, FdSpec K} : Prop := {
  nl_ctl epfd op fd ev k r k' : k_epoll_ctl epfd op fd ev k = (r, k') →
    fds k' = fds k ∧ ∀ epfd', epfd' ≠ epfd → k_interest k' epfd' = k_interest k epfd';
  nl_dup fd k r k' : k_dup fd k = (r, k') →
    (∀ epfd, k_interest k' epfd = k_interest k epfd) ∧
    match r with Ok fd' => fds k !! fd' = None ∧ ∃ v, fds k' = <[fd' := v]> (fds k) | Err _ => fds k' = fds k end }.

Section programs.
Context {A : Type} {awk_ops : AwakenerOps A}.
Context {K : Type} {sys : EpollSys K} {usys : UnixSys K} {consts : EpollConsts}.
Context {spec : EpollSpec K} {laws : EpollLaws K} {fspec : FdSpec K} {nlaws : NetLaws K}.
Abbreviation EPoll := (Poll A (Selector * K)).

(** Some polls and sockets ([None]: the socket was consumed) and the kernel;
    [n_from]: which socket is a clone of which that already had a selector. *)
Record Net : Type := mkNet {
  n_polls : list (Selector * Queue A);
  n_kernel : K;
  n_socks : list (option (SockKind * NetSocket));
  n_from : list (nat * nat) }.

Definition register_of (kind : SockKind) : Z → Token → Ready.t → PollOpt.t → M (Z * EPoll) (io_result unit) :=
  match kind with Stream => Socket_register | Listener => TcpListener_register | Udp => UdpSocket_register end.
Definition reregister_of (kind : SockKind) : Z → Token → Ready.t → PollOpt.t → M (Z * EPoll) (io_result unit) :=
  match kind with Stream => Socket_reregister | Listener => TcpListener_reregister | Udp => UdpSocket_reregister end.
Definition deregister_of (kind : SockKind) : Z → M (Z * EPoll) (io_result unit) :=
  match kind with Stream => Socket_deregister | Listener => TcpListener_deregister | Udp => UdpSocket_deregister end.
Definition clone_of (kind : SockKind) : NetSocket → M K (io_result NetSocket) :=
  match kind with Stream => net_try_clone | Listener => net_TcpListener_try_clone | Udp => net_UdpSocket_try_clone end.
(** [FromRawFd::from_raw_fd(s.into_raw_fd())] *)
Definition convert (kind : SockKind) (s : NetSocket) : NetSocket :=
  match kind with
  | Stream => net_TcpStream_from_raw_fd (net_TcpStream_into_raw_fd s)
  | Listener => net_TcpListener_from_raw_fd (net_TcpListener_into_raw_fd s)
  | Udp => net_UdpSocket_from_raw_fd (net_UdpSocket_into_raw_fd s)
  end.

(** Socket [i] and poll [p] do something. *)
Definition with_poll (i p : nat) (f : SockKind → Z → M (Z * EPoll) (io_result unit)) (net : Net) : outcome Net :=
  match n_socks net !! i, n_polls net !! p with
  | Some (Some (kind, (fd, sid))), Some (sel, q) =>
      '(r, (sid, ep)) ← f kind fd (sid, mkPoll (sel, n_kernel net) q);
      Done (mkNet (<[p := (fst (selector ep), readiness_queue ep)]> (n_polls net)) (snd (selector ep))
        (<[i := Some (kind, (fd, sid))]> (n_socks net)) (n_from net))
  | _, _ => Done net
  end.

Definition run_net_op (op : NetOp) (net : Net) : outcome Net :=
  match op with
  | NRegister i p token interest opts => with_poll i p (λ kind fd, register_of kind fd token interest opts) net
  | NReregister i p token interest opts => with_poll i p (λ kind fd, reregister_of kind fd token interest opts) net
  | NDeregister i p => with_poll i p (λ kind fd, deregister_of kind fd) net
  | NClone i =>
      match n_socks net !! i with
      | Some (Some (kind, s)) =>
          '(r, k) ← clone_of kind s (n_kernel net);
          Done (match r with
                | Ok s' => mkNet (n_polls net) k (n_socks net ++ [Some (kind, s')])
                             (if snd s =? 0 then n_from net else (length (n_socks net), i) :: n_from net)
                | Err _ => mkNet (n_polls net) k (n_socks net) (n_from net)
                end)
      | _ => Done net
      end
  | NConvert i =>
      match n_socks net !! i with
      | Some (Some (kind, s)) =>
          Done (mkNet (n_polls net) (n_kernel net) (<[i := None]> (n_socks net) ++ [Some (kind, convert kind s)]) (n_from net))
      | _ => Done net
      end
  end.
Definition no_convert (op : NetOp) : Prop := match op with NConvert _ => False | _ => True end.

Fixpoint run_net (ops : list NetOp) (net : Net) : outcome Net :=
  match ops with
  | [] => Done net
  | op :: ops => net ← run_net_op op net; run_net ops net
  end.

(** Descriptor [fd] is in the interest list of a selector. *)
Definition in_list (k : K) (sel : Selector) (fd : Z) : Prop := is_Some (k_interest k (epfd sel) !! fd).
(** Socket [i] is in the interest list of poll [p]. *)
Definition registered (net : Net) (i p : nat) : Prop :=
  ∃ kind fd sid sel q, n_socks net !! i = Some (Some (kind, (fd, sid))) ∧ n_polls net !! p = Some (sel, q) ∧ in_list (n_kernel net) sel fd.

(** Polls of their own: each with an id and an epoll instance. *)
Definition sels_ok (sels : list Selector) : Prop :=
  Forall (λ s, Epoll.id s ≠ 0) sels ∧ NoDup (Epoll.id <$> sels) ∧ NoDup (epfd <$> sels).

Record net_inv (net : Net) : Prop := {
  ni_sels : sels_ok (n_polls net).*1;
  ni_open sel fd : sel ∈ (n_polls net).*1 → in_list (n_kernel net) sel fd → is_Some (fds (n_kernel net) !! fd);
  ni_sock i kind fd sid : n_socks net !! i = Some (Some (kind, (fd, sid))) → is_Some (fds (n_kernel net) !! fd);
  ni_tied i kind fd sid sel : n_socks net !! i = Some (Some (kind, (fd, sid))) → sel ∈ (n_polls net).*1 →
    in_list (n_kernel net) sel fd → sid = Epoll.id sel;
  ni_inj i j kind kind' fd sid sid' : n_socks net !! i = Some (Some (kind, (fd, sid))) → n_socks net !! j = Some (Some (kind', (fd, sid'))) → i = j;
  ni_from j i : (j, i) ∈ n_from net → ∃ kind kind' fd fd' sid, sid ≠ 0 ∧
    n_socks net !! i = Some (Some (kind, (fd, sid))) ∧ n_socks net !! j = Some (Some (kind', (fd', sid))) }.

(** What a call of epoll_ctl leaves of the interest lists. *)
Lemma ctl_lists op (sel : Selector) fd ev k : ∃ r k', ctl op sel fd ev k = Done (r, k') ∧ fds k' = fds k ∧
  (∀ epfd', epfd' ≠ epfd sel → k_interest k' epfd' = k_interest k epfd') ∧
  (∀ fd', fd' ≠ fd → in_list k' sel fd' → in_list k sel fd') ∧ (op ≠ EPOLL_CTL_ADD → in_list k' sel fd → in_list k sel fd).
Proof.
  unfold ctl, syscall, cvt, mbind, M_bind, is_minus_one. destruct (k_epoll_ctl (epfd sel) op fd ev k) as [c k'] eqn:E. cbn.
  assert (∃ r, (if c =? -1 then Err (io_os (k_errno k')) else Ok c) = r) as [r Hr] by eauto. rewrite Hr.
  destruct (nl_ctl _ _ _ _ _ _ _ E) as [Hf Ho]. exists (match r with Ok _ => Ok tt | Err e => Err e end), k'. split; [by destruct r|].
  do 2 (split; [done|]). unfold in_list. destruct (el_ctl _ _ _ _ _ _ _ E) as [(_ & [-> _] & _)|(_ & Hpre & -> & _)]; [done|]. split.
  - intros fd' Hne. destruct op; cbn; by rewrite ?lookup_insert_ne, ?lookup_delete_ne.
  - intros Hop. by destruct op.
Qed.

(** The three operations of a socket, for all of which there is a [ctl]. *)
Definition sock_step (sel : Selector) (k : K) (fd sid : Z) (sid' : Z) (k' : K) : Prop :=
  fds k' = fds k ∧
  (∀ epfd', epfd' ≠ epfd sel → k_interest k' epfd' = k_interest k epfd') ∧
  (∀ fd', fd' ≠ fd → in_list k' sel fd' → in_list k sel fd') ∧
  (in_list k' sel fd → in_list k sel fd ∨ sid' = Epoll.id sel) ∧
  (sid' = sid ∨ (sid = 0 ∧ sid' = Epoll.id sel)).

(** All kinds of sockets have the same guard. *)
Lemma register_of_eq kind : register_of kind = Socket_register.
Proof. by destruct kind. Qed.
Lemma reregister_of_eq kind : reregister_of kind = Socket_reregister.
Proof. by destruct kind. Qed.
Lemma deregister_of_eq kind : deregister_of kind = Socket_deregister.
Proof. by destruct kind. Qed.
Lemma clone_of_eq kind s : clone_of kind s = net_try_clone s.
Proof. by destruct kind. Qed.

Lemma register_step kind fd token interest opts sid sel k q :
  ∃ r sid' k', register_of kind fd token interest opts (sid, mkPoll (sel, k) q) = Done (r, (sid', mkPoll (sel, k') q)) ∧ sock_step sel k fd sid sid' k'.
Proof.
  rewrite register_of_eq. unfold Socket_register, mbind, M_bind. rewrite associate_ok. change (poll_id (mkPoll (sel, k) q)) with (Epoll.id sel).
  case_bool_decide as Hc; [|by eexists _, sid, k; split; [reflexivity|]; repeat split; auto].
  unfold on_poll, EventedFd, on_selector, Selector_register. cbn [e_register selector].
  match goal with |- context [ctl ?op ?s ?fd ?ev ?k] => destruct (ctl_lists op s fd ev k) as (r & k' & -> & Hf & Ho & Hl & _) end.
  eexists r, (Epoll.id sel), k'. split; [reflexivity|]. unfold sock_step. split_and!; auto. naive_solver.
Qed.
Lemma reregister_step kind fd token interest opts sid sel k q :
  ∃ r sid' k', reregister_of kind fd token interest opts (sid, mkPoll (sel, k) q) = Done (r, (sid', mkPoll (sel, k') q)) ∧ sock_step sel k fd sid sid' k'.
Proof.
  rewrite reregister_of_eq. unfold Socket_reregister, on_poll, EventedFd, on_selector, Selector_reregister. cbn [e_reregister selector].
  match goal with |- context [ctl ?op ?s ?fd ?ev ?k] => destruct (ctl_lists op s fd ev k) as (r & k' & -> & Hf & Ho & Hl & Hk) end.
  eexists r, sid, k'. split; [reflexivity|]. unfold sock_step. by split_and!; auto.
Qed.
Lemma deregister_step kind fd sid sel k q :
  ∃ r sid' k', deregister_of kind fd (sid, mkPoll (sel, k) q) = Done (r, (sid', mkPoll (sel, k') q)) ∧ sock_step sel k fd sid sid' k'.
Proof.
  rewrite deregister_of_eq. unfold Socket_deregister, on_poll, EventedFd, on_selector, Selector_deregister. cbn [e_deregister selector].
  match goal with |- context [ctl ?op ?s ?fd ?ev ?k] => destruct (ctl_lists op s fd ev k) as (r & k' & -> & Hf & Ho & Hl & Hk) end.
  eexists r, sid, k'. split; [reflexivity|]. unfold sock_step. by split_and!; auto.
Qed.

Lemma same_selector sels (s s' : Selector) : sels_ok sels → s ∈ sels → s' ∈ sels → Epoll.id s = Epoll.id s' ∨ epfd s = epfd s' → s = s'.
Proof.
  intros (_ & Hi & He) [i Hl]%list_elem_of_lookup_1 [j Hl']%list_elem_of_lookup_1 Heq.
  enough (i = j) as -> by congruence. destruct Heq as [Heq|Heq].
  - apply (NoDup_lookup _ _ _ (Epoll.id s) Hi); rewrite list_lookup_fmap, ?Hl, ?Hl'; cbn; congruence.
  - apply (NoDup_lookup _ _ _ (epfd s) He); rewrite list_lookup_fmap, ?Hl, ?Hl'; cbn; congruence.
Qed.

(** The interest lists of all selectors after such an operation. *)
Lemma sock_step_lists sels sel sel' k fd sid sid' k' fd' : sels_ok sels → sel ∈ sels → sel' ∈ sels → sock_step sel k fd sid sid' k' →
  in_list k' sel' fd' → in_list k sel' fd' ∨ (sel' = sel ∧ fd' = fd ∧ sid' = Epoll.id sel).
Proof.
  intros Hs Hin Hin' (_ & Ho & Hl & Hfd & _) H. destruct (decide (epfd sel' = epfd sel)) as [He|He].
  - assert (sel' = sel) as -> by (eapply same_selector; eauto). destruct (decide (fd' = fd)) as [->|Hne]; [|left; by apply Hl]. destruct (Hfd H); auto.
  - left. unfold in_list in *. by rewrite <- Ho.
Qed.

Lemma net_inv_used net i p kind fd sid sid' sel q k' :
  net_inv net → n_socks net !! i = Some (Some (kind, (fd, sid))) → n_polls net !! p = Some (sel, q) →
  sock_step sel (n_kernel net) fd sid sid' k' →
  net_inv (mkNet (<[p := (sel, q)]> (n_polls net)) k' (<[i := Some (kind, (fd, sid'))]> (n_socks net)) (n_from net)).
Proof.
  intros [Hs Ho Hk Ht Hj Hf] Hi Hp Hst. rewrite (list_insert_id _ _ _ Hp). pose proof (lookup_lt_Some _ _ _ Hi) as Hlt.
  assert (sel ∈ (n_polls net).*1) as Hsel by (apply list_elem_of_fmap; exists (sel, q); split; [done|by eapply list_elem_of_lookup_2]).
  pose proof (proj2 (proj2 (proj2 (proj2 Hst)))) as Hsid. assert (fds k' = fds (n_kernel net)) as Hfds by apply Hst.
  assert (∀ s, s ∈ (n_polls net).*1 → Epoll.id s ≠ 0) as H0 by (apply Forall_forall, Hs).
  assert (∀ j kind' fd' sid'', <[i := Some (kind, (fd, sid'))]> (n_socks net) !! j = Some (Some (kind', (fd', sid''))) →
    (j = i ∧ kind' = kind ∧ fd' = fd ∧ sid'' = sid') ∨ (j ≠ i ∧ n_socks net !! j = Some (Some (kind', (fd', sid''))))) as Hlk.
  { intros j kind' fd' sid''. destruct (decide (j = i)) as [->|]; [rewrite list_lookup_insert_eq by done|rewrite list_lookup_insert_ne by done]; naive_solver. }
  split; cbn [n_polls n_kernel n_socks n_from]; [done| | | | |].
  - intros s fd' Hin Hl. rewrite Hfds. destruct (sock_step_lists _ _ _ _ _ _ _ _ _ Hs Hsel Hin Hst Hl) as [?|(-> & -> & _)]; [by eapply Ho|by eapply Hk].
  - intros j kind' fd' sid'' [(-> & -> & -> & ->)|[_ Hl]]%Hlk; rewrite Hfds; by eapply Hk.
  - intros j kind' fd' sid'' s Hl Hin Hin'. destruct (sock_step_lists _ _ _ _ _ _ _ _ _ Hs Hsel Hin Hst Hin') as [Hold|(-> & -> & ->)].
    + apply Hlk in Hl as [(-> & -> & -> & ->)|[_ Hl]]; [|by eapply Ht]. pose proof (Ht _ _ _ _ _ Hi Hin Hold) as ->.
      destruct Hsid as [->|[E _]]; [done|]. by destruct (H0 s Hin).
    + apply Hlk in Hl as [(-> & -> & _ & ->)|[Hne Hl]]; [done|]. by destruct Hne; eapply Hj.
  - intros j j' k1 k2 fd' s1 s2 [(-> & -> & -> & ->)|[Hn1 H1]]%Hlk [(-> & -> & E & ->)|[Hn2 H2]]%Hlk; subst; eauto.
  - intros j j' (k1 & k2 & f1 & f2 & s & Hne & H1 & H2)%Hf.
    assert (∀ x kx fx, n_socks net !! x = Some (Some (kx, (fx, s))) → <[i := Some (kind, (fd, sid'))]> (n_socks net) !! x = Some (Some (kx, (fx, s)))) as Hkeep.
    { intros x kx fx Hx. destruct (decide (x = i)) as [->|]; [|by rewrite list_lookup_insert_ne]. rewrite list_lookup_insert_eq by done.
      rewrite Hi in Hx. simplify_eq. destruct Hsid as [->|[? _]]; [done|lia]. }
    exists k1, k2, f1, f2, s. auto.
Qed.

Lemma with_poll_ok i p f net :
  net_inv net →
  (∀ kind fd sid sel k q, ∃ r sid' k', f kind fd (sid, mkPoll (sel, k) q) = Done (r, (sid', mkPoll (sel, k') q)) ∧ sock_step sel k fd sid sid' k') →
  ∃ net', with_poll i p f net = Done net' ∧ net_inv net'.
Proof.
  intros Hi Hf. unfold with_poll. destruct (n_socks net !! i) as [[[kind [fd sid]]|]|] eqn:Es; [|by eauto..].
  destruct (n_polls net !! p) as [[sel q]|] eqn:Ep; [|by eauto].
  destruct (Hf kind fd sid sel (n_kernel net) q) as (r & sid' & k' & -> & Hst). cbn [mbind outcome_bind].
  eexists. split; [reflexivity|]. by eapply net_inv_used.
Qed.

Lemma net_clone_ok i net : net_inv net → ∃ net', run_net_op (NClone i) net = Done net' ∧ net_inv net'.
Proof.
  intros Hinv. cbn [run_net_op]. destruct (n_socks net !! i) as [[[kind [fd sid]]|]|] eqn:Es; [|by eauto..]. rewrite clone_of_eq.
  unfold net_try_clone, mbind, M_bind, syscall. cbn [fst snd]. destruct (k_dup fd (n_kernel net)) as [r k] eqn:E. cbn. eexists. split; [reflexivity|].
  destruct (nl_dup _ _ _ _ E) as [Hl Hr]. destruct Hinv as [Hs Ho Hk Ht Hj Hf].
  assert (∀ s fd', in_list k s fd' → in_list (n_kernel net) s fd') as Hin by (intros s fd'; unfold in_list; by rewrite Hl).
  destruct r as [fd'|e]; cbn; [|split; cbn; rewrite ?Hr; eauto]. destruct Hr as [Hnew [v Hfds]].
  assert (∀ x, is_Some (fds (n_kernel net) !! x) → x ≠ fd' ∧ is_Some (fds k !! x)) as Hopen.
  { intros x Hx. assert (x ≠ fd') by (intros ->; rewrite Hnew in Hx; by destruct Hx). split; [done|]. by rewrite Hfds, lookup_insert_ne. }
  assert (∀ j kind' f s, (n_socks net ++ [Some (kind, (fd', sid))]) !! j = Some (Some (kind', (f, s))) →
    n_socks net !! j = Some (Some (kind', (f, s))) ∨ (j = length (n_socks net) ∧ kind' = kind ∧ f = fd' ∧ s = sid)) as Hlk.
  { intros j kind' f s [H|[Hle H]]%lookup_app_Some; [by left|right]. apply list_lookup_singleton_Some in H as [H [= <- <- <-]]. split; [unfold NetSocket in *; lia|done]. }
  split; cbn [n_polls n_kernel n_socks n_from]; [done| | | | |].
  - intros s f Hs' Hf'. eapply Hopen, Ho; eauto.
  - intros j kind' f s [H|(_ & _ & -> & _)]%Hlk; [by eapply Hopen, Hk|]. rewrite Hfds, lookup_insert_eq. eauto.
  - intros j kind' f s sel [H|(_ & _ & -> & _)]%Hlk Hsel Hf'; [eauto|]. exfalso. apply Hin, (Ho _ _ Hsel), Hopen in Hf' as [? _]. done.
  - intros j j' k1 k2 f s1 s2 [H1|(-> & -> & -> & ->)]%Hlk [H2|(-> & -> & E2 & ->)]%Hlk; [by eapply Hj| | |done]; exfalso.
    + subst. by apply Hk, Hopen in H1 as [? _].
    + by apply Hk, Hopen in H2 as [? _].
  - assert (∀ x y, n_socks net !! x = Some y → (n_socks net ++ [Some (kind, (fd', sid))]) !! x = Some y) as Hkeep by (intros; by apply lookup_app_l_Some).
    assert (∀ j j', (j, j') ∈ n_from net → ∃ kind0 kind' f f' s, s ≠ 0 ∧ (n_socks net ++ [Some (kind, (fd', sid))]) !! j' = Some (Some (kind0, (f, s))) ∧
      (n_socks net ++ [Some (kind, (fd', sid))]) !! j = Some (Some (kind', (f', s)))) as Hold.
    { intros j j' (k1 & k2 & f1 & f2 & s & ? & ? & ?)%Hf. exists k1, k2, f1, f2, s. auto. }
    intros j j'. destruct (sid =? 0) eqn:E0; [apply Hold|]. zbool. intros [[= -> ->]|?]%elem_of_cons; [|by apply Hold].
    exists kind, kind, fd, fd', sid. split; [done|]. split; [by apply Hkeep|]. by rewrite lookup_app_r, Nat.sub_diag.
Qed.

Lemma run_net_ok ops : ∀ net, net_inv net → Forall no_convert ops → ∃ net', run_net ops net = Done net' ∧ net_inv net'.
Proof.
  induction ops as [|op ops IH]; intros net Hi Hops; cbn; [by eauto|]. apply Forall_cons in Hops as [Hop Hops].
  assert (∃ net', run_net_op op net = Done net' ∧ net_inv net') as (net1 & -> & H1).
  { destruct op as [i p token interest opts|i p token interest opts|i p|i|i]; [apply with_poll_ok; [done|]; intros..|by apply net_clone_ok|done];
      [apply register_step|apply reregister_step|apply deregister_step]. }
  cbn. by apply IH.
Qed.

(** Where a program starts: polls of their own, and sockets with descriptors of their
    own, which are open, as all registered ones are, and not registered yet. *)
Record net_start (polls : list (Selector * Queue A)) (k : K) (socks : list (SockKind * Z)) : Prop := {
  ns_sels : sels_ok polls.*1;
  ns_lists sel fd : sel ∈ polls.*1 → in_list k sel fd → is_Some (fds k !! fd) ∧ fd ∉ socks.*2;
  ns_fds : NoDup socks.*2;
  ns_open fd : fd ∈ socks.*2 → is_Some (fds k !! fd) }.

Lemma net_start_inv polls k socks : net_start polls k socks →
  net_inv (mkNet polls k ((λ s, Some (fst s, (snd s, SelectorId_new))) <$> socks) []).
Proof.
  intros [Hs Hl Hn Ho].
  assert (∀ i kind fd sid, ((λ s : SockKind * Z, Some (fst s, (snd s, SelectorId_new))) <$> socks) !! i = Some (Some (kind, (fd, sid))) → socks.*2 !! i = Some fd) as Hlk.
  { intros i kind fd sid. rewrite !list_lookup_fmap. intros ([] & -> & [= -> -> ->])%fmap_Some. done. }
  split; cbn; [done| | | | |by intros ? ? ?%not_elem_of_nil].
  - intros sel fd H1 H2. by eapply Hl.
  - intros i kind fd sid H%Hlk. apply Ho. by eapply list_elem_of_lookup_2.
  - intros i kind fd sid sel H%Hlk Hsel Hin. exfalso. destruct (Hl _ _ Hsel Hin) as [_ Hx]. apply Hx. by eapply list_elem_of_lookup_2.
  - intros i j k1 k2 fd s1 s2 H1%Hlk H2%Hlk. by eapply NoDup_lookup.
Qed.

End programs.

(** ** A kernel with descriptors and interest lists *)

Record NetKernel : Type := mkNetKernel { nk_table : Table; nk_lists : gmap Z (gmap Z epoll_event); nk_errno : Z }.
Definition nk_list (k : NetKernel) (epfd : Z) : gmap Z epoll_event := default ∅ (nk_lists k !! epfd).
Definition on_table {X} (f : Table → X * Table) (k : NetKernel) : X * NetKernel :=
  let '(x, t) := f (nk_table k) in (x, mkNetKernel t (nk_lists k) (nk_errno k)).
Definition nk_ctl (epfd : Z) (op : CtlOp) (fd : Z) (ev : epoll_event) (k : NetKernel) : Z * NetKernel :=
  let fail code := (-1, mkNetKernel (nk_table k) (nk_lists k) code) in
  match op, nk_list k epfd !! fd with
  | EPOLL_CTL_ADD, Some _ => fail EEXIST
  | EPOLL_CTL_MOD, None | EPOLL_CTL_DEL, None => fail 2
  | _, _ => (0, mkNetKernel (nk_table k) (<[epfd := ctl_effect op fd ev (nk_list k epfd)]> (nk_lists k)) (nk_errno k))
  end.
#[export] Instance nk_epoll : EpollSys NetKernel := {
  k_errno := nk_errno;
  k_has_epoll_create1 k := k_has_epoll_create1 (nk_table k);
  k_epoll_create1 := on_table k_epoll_create1;
  k_epoll_create n := on_table (k_epoll_create n);
  k_ioctl_fioclex fd := on_table (k_ioctl_fioclex fd);
  k_epoll_ctl := nk_ctl;
  k_epoll_wait epfd cap ms k := ((0, []), k);
  k_close fd := on_table (k_close fd) }.
#[export] Instance nk_unix : UnixSys NetKernel := {
  k_socket a b c := on_table (k_socket a b c);
  k_accept a := on_table (k_accept a);
  k_ioctl_fionbio a b := on_table (k_ioctl_fionbio a b);
  k_fcntl_setfl a b := on_table (k_fcntl_setfl a b);
  k_has_pipe2 k := k_has_pipe2 (nk_table k);
  k_pipe2 a := on_table (k_pipe2 a);
  k_pipe := on_table k_pipe;
  k_connect a b c := on_table (k_connect a b c);
  k_bind a b c := on_table (k_bind a b c);
  k_listen a b := on_table (k_listen a b);
  k_shutdown a b := on_table (k_shutdown a b);
  k_recvmsg a b c := on_table (k_recvmsg a b c);
  k_sendmsg a b c := on_table (k_sendmsg a b c);
  k_dup a := on_table (k_dup a);
  k_read a b := on_table (k_read a b);
  k_write a b := on_table (k_write a b);
  n_new a := on_table (n_new a);
  n_to_tcp_stream a := on_table (n_to_tcp_stream a);
  n_reuse_address a b := on_table (n_reuse_address a b);
  n_bind a b := on_table (n_bind a b);
  n_listen a b := on_table (n_listen a b);
  n_connect a b := on_table (n_connect a b);
  n_accept a := on_table (n_accept a);
  n_udp_bind a := on_table (n_udp_bind a);
  n_set_nonblocking a b := on_table (n_set_nonblocking a b);
  n_send_to a b c := on_table (n_send_to a b c);
  n_recv_from a b := on_table (n_recv_from a b) }.
#[export] Instance nk_fds : FdSpec NetKernel := { fds k := t_fds (nk_table k); fd_nonblock k := fd_nonblock (nk_table k) }.
#[export] Instance nk_epoll_spec : EpollSpec NetKernel := { k_interest := nk_list; k_disarmed _ _ := ∅; k_reported _ _ := [] }.
#[export] Instance nk_epoll_laws : EpollLaws NetKernel.
Proof.
  split.
  - intros epfd op fd ev k r k'. cbn. unfold nk_ctl, epoll_same. cbn.
    assert (∀ m l c, nk_list (mkNetKernel (nk_table k) (<[epfd := m]> l) c) epfd = m) as Hn by (intros; unfold nk_list; cbn; by rewrite lookup_insert_eq).
    destruct op, (nk_list k epfd !! fd) as [o|] eqn:E; intros [= <- <-]; rewrite ?Hn; first [left; naive_solver|right; split_and!; [done|cbn; eauto|done|set_solver]].
  - intros epfd cap ms k cnt evs k' [= <- <- <-]. right. split_and!; [done|constructor|constructor|done|set_solver].
Qed.
#[export] Instance nk_net_laws : NetLaws NetKernel.
Proof.
  split.
  - intros epfd op fd ev k r k'. cbn. unfold nk_ctl. destruct op, (nk_list k epfd !! fd); intros [= <- <-]; (split; [done|]); intros epfd' Hne;
      unfold nk_list; cbn; by rewrite ?lookup_insert_ne.
  - intros fd k r k'. cbn. unfold on_table. destruct (t_dup fd (nk_table k)) as [r' t] eqn:E. intros [= <- <-]. split; [done|]. cbn.
    pose proof (fl_dup (K:=Table) _ _ _ _ E) as H. destruct r' as [fd'|e]; [|by destruct H]. destruct H as (Hn & _ & d & c & _ & Hf). split; [done|]. by exists (d, true).
Qed.

(** Two polls and two sockets; the second is registered with the second poll, cloned,
    and both are tried with the first. *)
Definition two_polls : list (Selector * Queue unit) :=
  (λ i, (mkSelector i (i + 10), mkQueue i tt None None 1%positive ∅)) <$> [1; 2].
Definition two_sockets : NetKernel := mkNetKernel (mkTable {[0 := (0, false); 8 := (8, true); 9 := (9, true)]} ∅ true false) ∅ 0.
Abbreviation reg i p := (NRegister i p (mkToken 5) Ready.readable PollOpt.edge).
Abbreviation rereg i p := (NReregister i p (mkToken 5) Ready.readable PollOpt.edge).
Definition demo_net_ops : list NetOp := [reg 0 0; reg 1 1; NClone 1; reg 2 0; rereg 1 0; reg 2 1; reg 0 1].
(** The descriptors in the lists of the two polls. *)
Definition lists_of {A} (net : Net (A:=A) (K:=NetKernel)) : list Z * list Z := ((map_to_list (nk_list (n_kernel net) 11)).*1, (map_to_list (nk_list (n_kernel net) 12)).*1).

Lemma two_start : net_start two_polls two_sockets [(Stream, 8); (Udp, 9)].
Proof.
  split.
  - split_and!; [repeat constructor; vm_compute; discriminate|apply (bool_decide_unpack _); by vm_compute..].
  - intros sel fd _ [x Hx]. cbn in Hx. unfold nk_list in Hx. cbn in Hx. by rewrite !lookup_empty in Hx.
  - apply (bool_decide_unpack _). by vm_compute.
  - intros fd [->|[->|[]%not_elem_of_nil]%elem_of_cons]%elem_of_cons; vm_compute; eauto.
Qed.


(** The guard ends where a socket is taken apart: made again from its descriptor it
    can be registered with a second poll. *)
Example converted_socket_has_no_selector :
  match run_net [reg 0 0; NConvert 0; reg 2 1] (mkNet two_polls two_sockets [Some (Stream, (8, 0)); Some (Udp, (9, 0))] []) with
  | Done net => Some (n_socks net, lists_of net)
  | _ => None
  end = Some ([None; Some (Udp, (9, 0)); Some (Stream, (8, 2))], ([8], [8])).
Proof. vm_compute. reflexivity. Qed.
