(* ===== verification/SysUtil.v ===== *)
(** * iovec.rs, sys/unix/iovec.rs, sys/windows/iovec.rs and sys/unix/dlsym.rs

    [IoVec]: a reference to it is the two words of the system's own buffer
    descriptor.  [DlSym]: a function of libc looked up once and kept; several
    threads may do so at the same time, one atomic operation after another. *)

From S2P Require Import Prelude Event Convert Iface Poll UnixIo.

(** ** iovec.rs *)

(** [&[u8]]. *)
Record Slice : Type := mkSlice { s_ptr : Z; s_len : Z }.
Definition is_slice (s : Slice) : Prop := 0 < s_ptr s <= USIZE_MAX ∧ 0 <= s_len s <= ISIZE_MAX.

(** A reference to an [IoVec]: the words [mem::transmute] keeps. *)
Record IoVecRef : Type := mkIoVecRef { w0 : Z; w1 : Z }.

Module unix.
(** [libc::iovec]: the address, then the length. *)
Record iovec : Type := mkIovec { iov_base : Z; iov_len : Z }.

Definition from (bytes : Slice) : IoVecRef := mkIoVecRef (s_ptr bytes) (s_len bytes).
Definition iovec_of (v : IoVecRef) : iovec := mkIovec (w0 v) (w1 v).
Definition as_bytes (v : IoVecRef) : Slice := let vec := iovec_of v in mkSlice (iov_base vec) (iov_len vec).
Definition as_iovec_slice (iov : list IoVecRef) : list iovec := iovec_of <$> iov.
(** A mutable slice has the same words. *)
Definition from_mut (bytes : Slice) : IoVecRef := mkIoVecRef (s_ptr bytes) (s_len bytes).
Definition as_mut_bytes (v : IoVecRef) : Slice := let vec := iovec_of v in mkSlice (iov_base vec) (iov_len vec).
Definition as_iovec_slice_mut (iov : list IoVecRef) : list iovec := iovec_of <$> iov.
End unix.

Module windows.
(** [WSABUF]: the length, a [DWORD], then the address.  The four bytes between
    them are not initialised. *)
Record WSABUF : Type := mkWSABUF { len : Z; buf : Z }.

Definition from (padding : Z) (bytes : Slice) : IoVecRef :=
  let len := Z.min U32_MAX (s_len bytes) in
  mkIoVecRef (Z.lor (Z.shiftl padding 32) len) (s_ptr bytes).
Definition wsabuf (v : IoVecRef) : WSABUF := mkWSABUF (Z.land (w0 v) U32_MAX) (w1 v).
Definition as_bytes (v : IoVecRef) : Slice := let vec := wsabuf v in mkSlice (buf vec) (len vec).
Definition from_mut (padding : Z) (bytes : Slice) : IoVecRef :=
  let len := Z.min U32_MAX (s_len bytes) in
  mkIoVecRef (Z.lor (Z.shiftl padding 32) len) (s_ptr bytes).
Definition as_mut_bytes (v : IoVecRef) : Slice := let vec := wsabuf v in mkSlice (buf vec) (len vec).
End windows.

(** [sys::IoVec] of the platform, and the public [IoVec] around it: [transmute]
    keeps the words. *)
Class SysIoVec : Type := {
  sys_from : Slice → IoVecRef;
  sys_from_mut : Slice → IoVecRef;
  sys_as_bytes : IoVecRef → Slice;
  sys_as_mut_bytes : IoVecRef → Slice }.
Definition unix_iovec : SysIoVec :=
  {| sys_from := unix.from; sys_from_mut := unix.from_mut; sys_as_bytes := unix.as_bytes; sys_as_mut_bytes := unix.as_mut_bytes |}.
Definition windows_iovec (padding : Z) : SysIoVec :=
  {| sys_from := windows.from padding; sys_from_mut := windows.from_mut padding; sys_as_bytes := windows.as_bytes;
     sys_as_mut_bytes := windows.as_mut_bytes |}.

Section api.
Context {sys : SysIoVec}.
Definition IoVec_from (bytes : Slice) : IoVecRef := sys_from bytes.
Definition IoVec_from_mut (bytes : Slice) : IoVecRef := sys_from_mut bytes.
Definition IoVec_as_bytes (v : IoVecRef) : Slice := sys_as_bytes v.
Definition IoVec_as_mut_bytes (v : IoVecRef) : Slice := sys_as_mut_bytes v.
End api.

(** an [IoVec] made of a slice of bytes stands for these bytes; on Windows
    for the first 2^32 - 1 of them, whatever the bytes of the descriptor that are
    not initialised hold. *)
Theorem iovec_roundtrip (s : Slice) (padding : Z) :
  0 <= s_len s →
  unix.as_bytes (unix.from s) = s ∧
  windows.as_bytes (windows.from padding s) = mkSlice (s_ptr s) (Z.min U32_MAX (s_len s)).
Proof.
  intros Hl. split; [by destruct s|]. unfold windows.as_bytes, windows.from. cbn. f_equal.
  change U32_MAX with (Z.ones 32). rewrite Z.land_lor_distr_l, !Z.land_ones by done.
  rewrite Z.shiftl_mul_pow2, Z.mod_mul, Z.lor_0_l by done. apply Z.mod_small.
  change (Z.ones 32) with 4294967295. change (2 ^ 32) with 4294967296. lia.
Qed.

Lemma iovec_roundtrip_witness :
  unix.as_bytes (unix.from (mkSlice 4096 (2 ^ 33))) = mkSlice 4096 (2 ^ 33) ∧
  windows.as_bytes (windows.from 3735928559 (mkSlice 4096 (2 ^ 33))) = mkSlice 4096 (2 ^ 32 - 1).
Proof. apply (iovec_roundtrip (mkSlice 4096 (2 ^ 33)) 3735928559). cbn. lia. Defined.

(** So on both platforms the bytes read back through the public type are a prefix of
    those it was made of, and the mutable ones are the same. *)
Theorem IoVec_roundtrip (sys : SysIoVec) (s : Slice) :
  0 <= s_len s → sys = unix_iovec ∨ (∃ padding, sys = windows_iovec padding) →
  let v := IoVec_as_bytes (IoVec_from s) in
  s_ptr v = s_ptr s ∧ 0 <= s_len v <= s_len s ∧ IoVec_as_mut_bytes (IoVec_from_mut s) = v.
Proof.
  intros Hl Hs v. destruct (iovec_roundtrip s 0 Hl) as [Hu _]. destruct Hs as [->|[padding ->]].
  - subst v. unfold IoVec_as_bytes, IoVec_from. cbn [sys_as_bytes sys_from unix_iovec]. rewrite Hu. split; [done|]. split; [lia|]. by destruct s.
  - destruct (iovec_roundtrip s padding Hl) as [_ Hw]. subst v. unfold IoVec_as_bytes, IoVec_from. cbn [sys_as_bytes sys_from windows_iovec].
    rewrite Hw. cbn [s_ptr s_len]. split; [done|]. split; [unfold U32_MAX; lia|]. exact Hw.
Qed.

(** On Windows the reference to an empty [IoVec] has a null address when the
    padding happens to be zero. *)
Example empty_iovec_is_null : w0 (windows.from 0 (mkSlice 4096 0)) = 0.
Proof. reflexivity. Qed.

(** ** sys/unix/tcp.rs: [readv] and [writev] *)

(** [libc::readv] and [libc::writev] are given the address of the slice, and how
    many of its entries to use. *)
Definition on_iovecs {S} (call : list unix.iovec → S → Z * S) (errno : S → Z) (bufs : list IoVecRef) : M S (io_result Z) :=
  let slice := unix.as_iovec_slice bufs in
  vectored (λ n, call (take (Z.to_nat n) slice)) errno (Z.of_nat (length slice)).

Lemma on_iovecs_slices {S} (call : list unix.iovec → S → Z * S) errno (bufs : list Slice) s :
  on_iovecs call errno (unix.from <$> bufs) s =
    (let (rc, s') := call ((λ b, unix.mkIovec (s_ptr b) (s_len b)) <$> take (Z.to_nat I32_MAX) bufs) s in
     Done (if rc <? 0 then Err (io_os (errno s')) else Ok rc, s')).
Proof.
  unfold on_iovecs, vectored, unix.as_iovec_slice. rewrite !length_fmap.
  assert (take (Z.to_nat (I32_MAX `min` Z.of_nat (length bufs))) (unix.iovec_of <$> (unix.from <$> bufs))
    = (λ b, unix.mkIovec (s_ptr b) (s_len b)) <$> take (Z.to_nat I32_MAX) bufs) as ->; [|done].
  rewrite <- list_fmap_compose, <- fmap_take. unfold compose. cbn.
  by rewrite Z2Nat.inj_min, Nat2Z.id, <- take_take, (take_ge bufs) by done.
Qed.

(** ** sys/unix/dlsym.rs *)

Section dlsym.
(** [dlsym(RTLD_DEFAULT, name)]: the address of the function, 0 when there is none. *)
Context (dlsym : list Z → Z).

Definition fetch (name : list Z) : outcome Z :=
  match last name with
  | Some 0 => Done (match dlsym name with 0 => 1 | n => n end)
  | _ => Panic
  end.

(** [size_F]: the size of a pointer to a function.  The state is [addr]; the
    reference of the result is read as the address it refers to. *)
Definition DlSym_get (size_F : Z) (name : list Z) : M Z (option Z) :=
  if size_F =? 8 then
    addr ← gets id;
    _ ← (if addr =? 0 then λ _, n ← fetch name; Done (tt, n) else mret tt);
    addr ← gets id;
    mret (if addr =? 1 then None else Some addr)
  else λ _, Panic.

(** [dlsym!] of a name. *)
Definition dlsym_name (name : list Z) : list Z := name ++ [0].

(** Several threads in [get]: what each of them does next. *)
Inductive DlPc : Type := PLoad | PFetch | PStore (n : Z) | PCheck | PReturn (r : option Z).
Record DlState : Type := mkDlState { dl_addr : Z; dl_threads : list DlPc }.

Definition dl_thread (name : list Z) (addr : Z) (pc : DlPc) : option (Z * DlPc) :=
  match pc with
  | PLoad => Some (addr, if addr =? 0 then PFetch else PCheck)
  | PFetch => match fetch name with Done n => Some (addr, PStore n) | _ => None end
  | PStore n => Some (n, PCheck)
  | PCheck => Some (addr, PReturn (if addr =? 1 then None else Some addr))
  | PReturn _ => None
  end.

Inductive dl_step (name : list Z) (s : DlState) : DlState → Prop :=
  | DlStep i pc addr pc' :
      dl_threads s !! i = Some pc → dl_thread name (dl_addr s) pc = Some (addr, pc') →
      dl_step name s (mkDlState addr (<[i := pc']> (dl_threads s))).

(** What a look-up finds. *)
Definition resolve (name : list Z) : option Z := if dlsym name =? 0 then None else Some (dlsym name).

Section correct.
Context (name : list Z) (Haddr : dlsym (dlsym_name name) ≠ 1).

Definition found : Z := if dlsym (dlsym_name name) =? 0 then 1 else dlsym (dlsym_name name).

Lemma fetch_found : fetch (dlsym_name name) = Done found.
Proof. unfold fetch, found, dlsym_name. rewrite last_snoc. by destruct (dlsym _). Qed.

Lemma found_nonzero : found ≠ 0.
Proof. unfold found. case_match; zbool; lia. Qed.

Lemma found_resolves : (if found =? 1 then None else Some found) = resolve (dlsym_name name).
Proof. unfold found, resolve. destruct (dlsym _ =? 0) eqn:E; [done|]. by rewrite (proj2 (Z.eqb_neq _ _) Haddr). Qed.

Definition pc_ok (addr : Z) (pc : DlPc) : Prop :=
  match pc with
  | PLoad | PFetch => True
  | PStore n => n = found
  | PCheck => addr = found
  | PReturn r => addr = found ∧ r = resolve (dlsym_name name)
  end.

Definition dl_ok (s : DlState) : Prop :=
  (dl_addr s = 0 ∨ dl_addr s = found) ∧ Forall (pc_ok (dl_addr s)) (dl_threads s).

Lemma pc_ok_found addr pc : addr = 0 ∨ addr = found → pc_ok addr pc → pc_ok found pc.
Proof. pose proof found_nonzero. intros [-> | ->]; destruct pc; cbn; intuition congruence. Qed.

Lemma dl_thread_ok addr pc addr' pc' :
  addr = 0 ∨ addr = found → pc_ok addr pc → dl_thread (dlsym_name name) addr pc = Some (addr', pc') →
  pc_ok addr' pc' ∧ (addr' = addr ∨ addr' = found).
Proof.
  intros Ha Hp. destruct pc as [| |n| |r]; cbn in *; rewrite ?fetch_found; intros [= <- <-]; cbn; auto.
  - split; [|by left]. destruct (addr =? 0) eqn:E; zbool; cbn; [done|]. by destruct Ha.
  - subst addr. rewrite found_resolves. auto.
Qed.

Lemma dl_step_ok s s' : dl_ok s → dl_step (dlsym_name name) s s' → dl_ok s'.
Proof.
  intros [Ha Hts] [i pc addr pc' Hi Hs]. pose proof (Forall_lookup_1 _ _ _ _ Hts Hi) as Hpc.
  destruct (dl_thread_ok _ _ _ _ Ha Hpc Hs) as [Hpc' Ha']. split; cbn; [destruct Ha' as [-> | ->]; auto|].
  apply Forall_insert; [|done]. destruct Ha' as [-> | ->]; [done|]. eapply Forall_impl; [exact Hts|]. intros. by eapply pc_ok_found.
Qed.
End correct.

(** however many threads look the function up at once, each that returns has
    the answer of [dlsym], and the word that is kept refers to it from then on. *)
Theorem dlsym_get_correct (name : list Z) (n : nat) (s : DlState) :
  dlsym (dlsym_name name) ≠ 1 →
  rtc (dl_step (dlsym_name name)) (mkDlState 0 (replicate n PLoad)) s →
  (∀ i r, dl_threads s !! i = Some (PReturn r) → r = resolve (dlsym_name name)) ∧
  (∀ size_F, size_F = 8 → ∃ addr, DlSym_get size_F (dlsym_name name) (dl_addr s) = Done (resolve (dlsym_name name), addr)).
Proof.
  intros Haddr Hs. assert (dl_ok name s) as [Ha Hts].
  { eapply (rtc_ind_r (dl_ok name)); [|intros; by eapply dl_step_ok|exact Hs].
    split; [by left|]. by apply Forall_replicate. }
  split; [intros i r Hi; by destruct (Forall_lookup_1 _ _ _ _ Hts Hi)|].
  intros _ ->. exists (found name). rewrite <- found_resolves by done. unfold DlSym_get, gets, mbind, M_bind, mret, M_ret, id. cbn.
  destruct Ha as [-> | ->]; cbn; [by rewrite fetch_found|by rewrite (proj2 (Z.eqb_neq _ _) (found_nonzero name Haddr))].
Qed.
End dlsym.

(** Two threads: the second stores after the first has returned. *)
Definition dl_example (name : list Z) : Z := if decide (name = [112; 0]) then 4096 else 0.
Lemma dlsym_get_correct_witness :
  (∀ i r, [PReturn (Some 4096); PStore 4096] !! i = Some (PReturn r) → r = Some 4096) ∧
  (∀ size_F, size_F = 8 → ∃ addr, DlSym_get dl_example size_F [112; 0] 4096 = Done (Some 4096, addr)).
Proof.
  apply (dlsym_get_correct dl_example [112] 2 (mkDlState 4096 [PReturn (Some 4096); PStore 4096])); [by vm_compute|].
  eapply rtc_l; [by apply (DlStep _ _ _ 0%nat PLoad 0 PFetch)|].
  eapply rtc_l; [by apply (DlStep _ _ _ 1%nat PLoad 0 PFetch)|].
  eapply rtc_l; [by apply (DlStep _ _ _ 1%nat PFetch 0 (PStore 4096))|].
  eapply rtc_l; [by apply (DlStep _ _ _ 0%nat PFetch 0 (PStore 4096))|].
  eapply rtc_l; [by apply (DlStep _ _ _ 0%nat (PStore 4096) 4096 PCheck)|].
  eapply rtc_l; [by apply (DlStep _ _ _ 0%nat PCheck 4096 (PReturn (Some 4096)))|]. apply rtc_refl.
Defined.
