(* ===== verification/EventLoop.v ===== *)
(** * deprecated/event_loop.rs, handler.rs, notify.rs: the event loop

    [EventLoop] composes the parts modelled in the other files: a [Poll], a
    [Timer] registered with it, and a bounded channel for notifications.  The
    timer and the channel are registered with the [Poll]'s readiness queue, which
    they share: the queue is kept in the [Poll] and lent to their operations.
    The handler is arbitrary code that may call the event loop.  The clock is
    read once per poll of the timer; other threads act while the loop is in the
    selector. *)

From S2P Require Import Prelude Event Convert Iface Timer ReadyQueue Poll Channel UnixIo.

(** ** notify.rs *)

Inductive NotifyError (T : Type) : Type :=
  | NE_Io (e : io_error)
  | NE_Full (t : T)
  | NE_Closed (t : option T).
Arguments NE_Io {T} _.
Arguments NE_Full {T} _.
Arguments NE_Closed {T} _.

Definition NotifyError_from {T} (src : TrySendError T) : NotifyError T :=
  match src with
  | TSE_Io e => NE_Io e
  | TSE_Full v => NE_Full v
  | TSE_Disconnected v => NE_Closed (Some v)
  end.

(** [Debug], [Display], [description] and [cause]; the arguments are those of
    [io::Error]. *)
Definition NotifyError_debug {T} (io_debug : io_error → string) (e : NotifyError T) : string :=
  match e with
  | NE_Io e => "NotifyError::Io(" +:+ io_debug e +:+ ")"
  | NE_Full _ => "NotifyError::Full(..)"
  | NE_Closed _ => "NotifyError::Closed(..)"
  end%string.
Definition NotifyError_display {T} (io_display : io_error → string) (e : NotifyError T) : string :=
  match e with
  | NE_Io e => "IO error: " +:+ io_display e
  | NE_Full _ => "Full"
  | NE_Closed _ => "Closed"
  end%string.
Definition NotifyError_description {T} (io_description : io_error → string) (e : NotifyError T) : string :=
  match e with
  | NE_Io err => io_description err
  | NE_Closed _ => "The receiving end has hung up"
  | NE_Full _ => "Queue is full"
  end%string.
Definition NotifyError_cause {T} (e : NotifyError T) : option io_error :=
  match e with NE_Io err => Some err | _ => None end.

(** ** Configuration *)

Record Config : Type := mkConfig {
  c_notify_capacity : Z;
  c_messages_per_tick : Z;
  c_timer_tick : Duration;
  c_timer_wheel_size : Z;
  c_timer_capacity : Z }.

Definition Config_default : Config := mkConfig 4096 256 (from_millis 100) 1024 65536.

Record EventLoopBuilder : Type := mkELBuilder { elb_config : Config }.
Definition EventLoopBuilder_new : EventLoopBuilder := mkELBuilder Config_default.
Definition notify_capacity (capacity : Z) (b : EventLoopBuilder) : EventLoopBuilder :=
  let c := elb_config b in
  mkELBuilder (mkConfig capacity (c_messages_per_tick c) (c_timer_tick c) (c_timer_wheel_size c) (c_timer_capacity c)).
Definition messages_per_tick (messages : Z) (b : EventLoopBuilder) : EventLoopBuilder :=
  let c := elb_config b in
  mkELBuilder (mkConfig (c_notify_capacity c) messages (c_timer_tick c) (c_timer_wheel_size c) (c_timer_capacity c)).
Definition timer_tick (val : Duration) (b : EventLoopBuilder) : EventLoopBuilder :=
  let c := elb_config b in
  mkELBuilder (mkConfig (c_notify_capacity c) (c_messages_per_tick c) val (c_timer_wheel_size c) (c_timer_capacity c)).
Definition timer_wheel_size (size : Z) (b : EventLoopBuilder) : EventLoopBuilder :=
  let c := elb_config b in
  mkELBuilder (mkConfig (c_notify_capacity c) (c_messages_per_tick c) (c_timer_tick c) size (c_timer_capacity c)).
Definition timer_capacity (cap : Z) (b : EventLoopBuilder) : EventLoopBuilder :=
  let c := elb_config b in
  mkELBuilder (mkConfig (c_notify_capacity c) (c_messages_per_tick c) (c_timer_tick c) (c_timer_wheel_size c) cap).

Definition NOTIFY : Token := mkToken (USIZE_MAX - 1).
Definition TIMER : Token := mkToken (USIZE_MAX - 2).

Section event_loop.
Context {S : Type → Type} {slab_ops : SlabOps S} {C : Type → Type} {cell_ops : LazyCellOps C}.
Context {A : Type} {awk_ops : AwakenerOps A} {V : Type} {ev_ops : SysEventsOps V}.
Context {Sel : Type} {sel_ops : SelectorOps Sel V}.
(** [H::Timeout] and [H::Message]. *)
Context {TO MSG : Type}.
Abbreviation RI := RegistrationInner.
Abbreviation LTimer := (Timer S C TO RI RI).

(** [notify_tx] and [notify_rx] are the two ends of one channel; the channel's
    readiness queue is the [Poll]'s, so its own world is empty.  [el_shared] is
    what the timer shares with its wakeup thread, [el_clock] counts the readings
    of the clock. *)
Record EventLoop : Type := mkEventLoop {
  el_run : bool;
  el_poll : Poll A Sel;
  el_events : Events V;
  el_timer : LTimer;
  el_shared : Shared;
  el_notify : Chan C MSG RI RI unit;
  el_config : Config;
  el_clock : nat }.

Definition set_run (b : bool) (el : EventLoop) : EventLoop :=
  mkEventLoop b (el_poll el) (el_events el) (el_timer el) (el_shared el) (el_notify el) (el_config el) (el_clock el).
Definition set_poll (p : Poll A Sel) (evs : Events V) (el : EventLoop) : EventLoop :=
  mkEventLoop (el_run el) p evs (el_timer el) (el_shared el) (el_notify el) (el_config el) (el_clock el).
Definition el_queue (el : EventLoop) : Queue A := readiness_queue (el_poll el).
Definition set_queue (q : Queue A) (el : EventLoop) : EventLoop :=
  set_poll (mkPoll (selector (el_poll el)) q) (el_events el) el.

(** The channel with the queue of the [Poll], and back. *)
Definition attach (q : Queue A) (c : Chan C MSG RI RI unit) : Chan C MSG RI RI (Queue A) :=
  mkChan (mpsc c) (pending c) (senders c) (set_readiness c) (registration c) q.
Definition detach (c : Chan C MSG RI RI (Queue A)) : Chan C MSG RI RI unit :=
  mkChan (mpsc c) (pending c) (senders c) (set_readiness c) (registration c) tt.

Definition on_channel {X} (m : M (Chan C MSG RI RI (Queue A)) X) : M EventLoop X := λ el,
  '(x, c) ← m (attach (el_queue el) (el_notify el));
  Done (x, mkEventLoop (el_run el) (mkPoll (selector (el_poll el)) (c_world c)) (el_events el) (el_timer el) (el_shared el)
             (detach c) (el_config el) (el_clock el)).

Definition on_timer {X} (m : M (Sys S C TO RI RI (Queue A)) X) : M EventLoop X := λ el,
  '(x, s) ← m (mkSys (el_timer el) (el_shared el) (el_queue el));
  Done (x, mkEventLoop (el_run el) (mkPoll (selector (el_poll el)) (world s)) (el_events el) (timer s) (shared s)
             (el_notify el) (el_config el) (el_clock el)).

(** [Instant::now()]. *)
Context (clock : nat → Instant).
Definition now : M EventLoop Instant := λ el,
  Done (clock (el_clock el), mkEventLoop (el_run el) (el_poll el) (el_events el) (el_timer el) (el_shared el)
          (el_notify el) (el_config el) (Datatypes.S (el_clock el))).

(** The id by which a registration recognises its [Poll]. *)
Definition poll_ref (el : EventLoop) : Z := q_id (el_queue el).

(** ** The event loop's interface *)

(** [EventLoop::configured]: [poll] is what [Poll::new] returned, [built] when. *)
Definition configured (config : Config) (poll : io_result (Poll A Sel)) (built : Instant) : outcome (io_result EventLoop) :=
  match poll with
  | Err e => Done (Err e)
  | Ok p =>
      timer ← build (Timer.capacity (c_timer_capacity config)
                (num_slots (c_timer_wheel_size config) (tick_duration (c_timer_tick config) Builder_default))) built;
      let chan := sync_channel (Z.to_nat (c_notify_capacity config)) tt in
      let el := mkEventLoop true p (Events_with_capacity 1024) timer (mkShared USIZE_MAX false) chan config 0 in
      '(r, el) ← (try! mret (validate_args NOTIFY Ready.readable);
                  on_channel (Channel.register (q_id (readiness_queue p)) NOTIFY Ready.readable (PollOpt.edge |ₒ PollOpt.oneshot))) el;
      match r with
      | Err e => Done (Err e)
      | Ok _ =>
          '(r, el) ← (try! mret (validate_args TIMER Ready.readable);
                      on_timer (Timer.register (q_id (readiness_queue p)) TIMER Ready.readable PollOpt.edge)) el;
          match r with Err e => Done (Err e) | Ok _ => Done (Ok el) end
      end
  end.

Definition EventLoop_new (poll : io_result (Poll A Sel)) (built : Instant) : outcome (io_result EventLoop) :=
  configured Config_default poll built.
Definition EventLoopBuilder_build (b : EventLoopBuilder) (poll : io_result (Poll A Sel)) (built : Instant)
    : outcome (io_result EventLoop) := configured (elb_config b) poll built.

(** A [Sender] of the loop is a sender of its channel; [EventLoop::channel] makes
    one from a clone of [notify_tx]. *)
Definition LoopSender_new : M EventLoop unit := mret tt.
Definition LoopSender_clone : M EventLoop unit := on_channel SyncSender_clone.
Definition EventLoop_channel : M EventLoop unit :=
  _ ← on_channel SyncSender_clone;
  LoopSender_new.

Definition EventLoop_timeout (token : TO) (delay : Duration) : M EventLoop (result TimerError Timeout) :=
  t ← now;
  on_timer (set_timeout t delay token).

Definition clear_timeout (timeout : Timeout) : M EventLoop bool :=
  o ← on_timer (λ s, '(o, t) ← cancel_timeout timeout (timer s); Done (o, with_timer s t));
  mret (bool_decide (is_Some o)).

Definition shutdown : M EventLoop unit := modify (set_run false).
Definition is_running (el : EventLoop) : bool := el_run el.

Definition on_loop_poll {X} (m : M (Poll A Sel) X) : M EventLoop X := λ el,
  '(x, p) ← m (el_poll el); Done (x, set_poll p (el_events el) el).

Definition EventLoop_register (io : Evented (A := A) (Sel := Sel)) (token : Token) (interest : Ready.t) (opt : PollOpt.t)
    : M EventLoop (io_result unit) := on_loop_poll (Poll_register io token interest opt).
Definition EventLoop_reregister (io : Evented (A := A) (Sel := Sel)) (token : Token) (interest : Ready.t) (opt : PollOpt.t)
    : M EventLoop (io_result unit) := on_loop_poll (Poll_reregister io token interest opt).
Definition EventLoop_deregister (io : Evented (A := A) (Sel := Sel)) : M EventLoop (io_result unit) :=
  on_loop_poll (Poll_deregister io).

(** [Sender::send], from any thread. *)
Definition Sender_send_msg (msg : MSG) : M EventLoop (result (NotifyError MSG) unit) :=
  r ← on_channel (SyncSender_try_send msg);
  mret (match r with Ok _ => Ok tt | Err e => Err (NotifyError_from e) end).

(** ** The handler and the loop *)

(** [HS]: the handler's own state. *)
Context {HS : Type}.
Abbreviation LM := (M (HS * EventLoop)).

Record Handler : Type := mkHandler {
  h_ready : Token → Ready.t → LM unit;
  h_notify : MSG → LM unit;
  h_timeout : TO → LM unit;
  h_interrupted : LM unit;
  h_tick : LM unit }.

(** The provided methods of the trait do nothing. *)
Definition default_handler : Handler := mkHandler (λ _ _, mret tt) (λ _, mret tt) (λ _, mret tt) (mret tt) (mret tt).

Definition on_loop {X} (m : M EventLoop X) : LM X := λ '(hs, el), '(x, el) ← m el; Done (x, (hs, el)).

(** What other threads do while the loop is in the selector: to the readiness
    queue, to the channel (its senders) and to the timer's shared word (its
    wakeup thread).  The three are handed over together, as a sender changes the
    channel and the queue. *)
Definition Shares : Type := Queue A * Chan C MSG RI RI unit * Shared.
Definition Others : Type := Shares → Shares.

(** The queue as [Poll::poll] leaves it when it calls the selector. *)
Definition entered (timeout : option Duration) (q : Queue A) : Queue A :=
  match poll_timeout timeout q with Done (_, q) => q | _ => q end.

Definition io_poll (o : Others) (timeout : option Duration) : M EventLoop (io_result Z) := λ el,
  let '(q, c, sh) := o (entered timeout (el_queue el), el_notify el, el_shared el) in
  '((r, evs), p) ← Poll_poll (λ _, q) (el_events el) timeout (el_poll el);
  Done (r, mkEventLoop (el_run el) p evs (el_timer el) sh c (el_config el) (el_clock el)).

Context (handler : Handler).

Definition io_event (evt : Event.t) : LM unit := h_ready handler (Event.token evt) (Event.kind evt).

(** The loop of [notify]: at most [n] messages. *)
Fixpoint notify_loop (n : nat) : LM unit :=
  match n with
  | O => mret tt
  | Datatypes.S n =>
      r ← on_loop (on_channel Receiver_try_recv);
      match r with
      | Ok msg => _ ← h_notify handler msg; notify_loop n
      | Err _ => mret tt
      end
  end.

(** [poll.reregister(&self.notify_rx, ..)]. *)
Definition reregister_notify : M EventLoop (io_result unit) :=
  try! mret (validate_args NOTIFY Ready.readable);
  i ← gets poll_ref;
  on_channel (Channel.reregister i NOTIFY Ready.readable (PollOpt.edge |ₒ PollOpt.oneshot)).

Definition notify : LM unit :=
  n ← gets (λ st, c_messages_per_tick (el_config (snd st)));
  _ ← notify_loop (Z.to_nat n);
  _ ← on_loop reregister_notify;
  mret tt.

(** [timer_process]: the handler may set new timeouts, so the number of rounds is
    a parameter. *)
Fixpoint timer_process (fuel : nat) : LM unit :=
  match fuel with
  | O => out_of_fuel
  | Datatypes.S fuel =>
      o ← on_loop (t ← now; on_timer (Timer.poll t));
      match o with
      | Some t => _ ← h_timeout handler t; timer_process fuel
      | None => mret tt
      end
  end.

Definition dispatch (fuel : nat) (evt : Event.t) : LM unit :=
  if decide (Event.token evt = NOTIFY) then notify
  else if decide (Event.token evt = TIMER) then timer_process fuel
  else io_event evt.

(** [io_process]: [n] events are left, the next is at [i]. *)
Fixpoint process_from (fuel n : nat) (i : Z) : LM unit :=
  match n with
  | O => mret tt
  | Datatypes.S n =>
      evt ← (λ st, lift (unwrap (Events_get (el_events (snd st)) i)) st);
      _ ← dispatch fuel evt;
      process_from fuel n (i + 1)
  end.
Definition io_process (fuel : nat) (cnt : Z) : LM unit := process_from fuel (Z.to_nat cnt) 0.

(** [run_once], for a way to poll; [kind] is [io::Error::kind] of the platform. *)
Definition run_once_with (kind : io_error → ErrorKind) (poll : M EventLoop (io_result Z)) (fuel : nat) : LM (io_result unit) :=
  r ← on_loop poll;
  events ←? (match r with
             | Ok e => mret (Ok e)
             | Err err =>
                 if decide (kind err = Interrupted) then _ ← h_interrupted handler; mret (Ok 0)
                 else mret (Err err)
             end);
  _ ← io_process fuel events;
  _ ← h_tick handler;
  mret (Ok tt).
Definition run_once (fuel : nat) (o : Others) (timeout : option Duration) : LM (io_result unit) :=
  run_once_with err_kind (io_poll o timeout) fuel.

(** [run]: [rounds] bounds the iterations, [others i] acts in the [i]th. *)
Fixpoint run_loop (fuel rounds i : nat) (others : nat → Others) : LM (io_result unit) :=
  match rounds with
  | O => out_of_fuel
  | Datatypes.S rounds =>
      running ← gets (λ st, el_run (snd st));
      if running : bool
      then try! run_once fuel (others i) None; run_loop fuel rounds (Datatypes.S i) others
      else mret (Ok tt)
  end.
Definition run (fuel rounds : nat) (others : nat → Others) : LM (io_result unit) :=
  _ ← modify (λ '(hs, el), (hs, set_run true el));
  run_loop fuel rounds 0 others.
End event_loop.
Arguments EventLoop S C A V Sel TO MSG : clear implicits.
