(* ===== verification/EventLoopThm.v ===== *)
(** * Theorems about the event loop

    Which handler methods are called, for what and in which order; that the
    loops end; what the outcome of [run] means. *)

From S2P Require Import Prelude Event Convert Iface Timer TimerInv TimerSpec TimerThm ReadyQueue QueueInv Poll PollThm.
From S2P Require Import Channel ChannelThm UnixIo EventLoop.

Section event_loop.
Context {S : Type → Type} {slab_ops : SlabOps S} {C : Type → Type} {cell_ops : LazyCellOps C}.
Context {A : Type} {awk_ops : AwakenerOps A} {V : Type} {ev_ops : SysEventsOps V}.
Context {Sel : Type} {sel_ops : SelectorOps Sel V}.
Context {TO MSG HS : Type} (clock : nat → Instant).
Abbreviation EL := (EventLoop S C A V Sel TO MSG).
Abbreviation LM := (M (HS * EL)).
Context (handler : Handler (S:=S) (C:=C) (A:=A) (V:=V) (Sel:=Sel) (TO:=TO) (MSG:=MSG) (HS:=HS)).

(** ** Dispatching events *)

(** Code that leaves the buffer of events alone. *)
Definition keeps {X} (m : LM X) : Prop := ∀ st x st', m st = Done (x, st') → el_events (snd st') = el_events (snd st).

Record handler_keeps : Prop := {
  hk_ready t r : keeps (h_ready handler t r);
  hk_notify msg : keeps (h_notify handler msg);
  hk_timeout t : keeps (h_timeout handler t) }.

Lemma keeps_bind {X Y} (m : LM X) (f : X → LM Y) : keeps m → (∀ x, keeps (f x)) → keeps (m ≫= f).
Proof.
  intros Hm Hf st y st' E. unfold mbind, M_bind in E. destruct (m st) as [[x st1]| |] eqn:E1; try done.
  rewrite (Hf _ _ _ _ E). by apply (Hm _ _ _ E1).
Qed.

Lemma keeps_ret {X} (x : X) : keeps (mret x).
Proof. by intros st y st' [= <- <-]. Qed.

Lemma keeps_on_loop {X} (m : M EL X) :
  (∀ el x el', m el = Done (x, el') → el_events el' = el_events el) → keeps (on_loop m).
Proof.
  intros Hm [hs el] x [hs' el'] E. unfold on_loop in E. destruct (m el) as [[y el1]| |] eqn:E1; try done.
  cbn in E. injection E as -> -> ->. cbn. by eapply Hm.
Qed.

Lemma on_channel_events {X} (m : M (Chan C MSG RegistrationInner RegistrationInner (Queue A)) X) (el : EL) x el' :
  on_channel m el = Done (x, el') → el_events el' = el_events el.
Proof. unfold on_channel. destruct (m _) as [[y c]| |]; [|done..]. by intros [= <- <-]. Qed.

Lemma keeps_channel {X} (m : M (Chan C MSG RegistrationInner RegistrationInner (Queue A)) X) : keeps (on_loop (on_channel m)).
Proof. apply keeps_on_loop, on_channel_events. Qed.

Lemma keeps_notify : handler_keeps → keeps (notify handler).
Proof.
  intros Hk. unfold notify. apply keeps_bind; [by intros st x st' [= <- <-]|]. intros n. apply keeps_bind; [|intros _; apply keeps_bind; [|intros; apply keeps_ret]].
  - induction (Z.to_nat n) as [|k IH]; cbn [notify_loop]; [apply keeps_ret|]. apply keeps_bind; [apply keeps_channel|].
    intros [msg|e]; [|apply keeps_ret]. apply keeps_bind; [apply Hk|done].
  - apply keeps_on_loop. intros el x el' E. unfold reregister_notify, mbind, M_bind, gets in E.
    change (validate_args NOTIFY Ready.readable) with (Ok (E:=io_error) tt) in E. exact (on_channel_events _ _ _ _ E).
Qed.

Lemma keeps_timer fuel : handler_keeps → keeps (timer_process clock handler fuel).
Proof.
  intros Hk. induction fuel as [|fuel IH]; cbn [timer_process]; [done|]. apply keeps_bind.
  - apply keeps_on_loop. intros el x el' E. unfold now, on_timer, mbind, M_bind in E. cbn in E.
    destruct (Timer.poll _ _) as [[y s]| |]; try done. by injection E as <- <-.
  - intros [t|]; [|apply keeps_ret]. apply keeps_bind; [apply Hk|done].
Qed.

Lemma keeps_dispatch fuel evt : handler_keeps → keeps (dispatch clock handler fuel evt).
Proof.
  intros Hk. unfold dispatch. destruct (decide _); [by apply keeps_notify|]. destruct (decide _); [by apply keeps_timer|apply Hk].
Qed.

(** The handler calls for a list of events, one after the other. *)
Fixpoint dispatch_list (fuel : nat) (evs : list Event.t) : LM unit :=
  match evs with [] => mret tt | e :: evs => _ ← dispatch clock handler fuel e; dispatch_list fuel evs end.

Lemma process_from_list fuel evs : handler_keeps → ∀ i st,
  (∀ j e, evs !! j = Some e → Events_get (el_events (snd st)) (i + Z.of_nat j) = Some e) →
  process_from clock handler fuel (length evs) i st = dispatch_list fuel evs st.
Proof.
  intros Hk. induction evs as [|e evs IH]; intros i st Hget; cbn [length process_from dispatch_list]; [done|].
  unfold mbind at 1, M_bind at 1. pose proof (Hget 0%nat e eq_refl) as H0. rewrite Z.add_0_r in H0. rewrite H0. cbn [unwrap lift].
  unfold mbind, M_bind. destruct (dispatch clock handler fuel e st) as [[u st1]| |] eqn:E; try done.
  apply IH. intros j e' Hj. rewrite (keeps_dispatch fuel e Hk _ _ _ E).
  replace (i + 1 + Z.of_nat j) with (i + Z.of_nat (Datatypes.S j)) by lia. by apply Hget.
Qed.

(** processing the events of a poll calls, for each event of the buffer in
    order and exactly once, [notify] for the notification token, [timer_process]
    for the timer token and the handler's [ready] for any other; the lookups
    never fail, provided the handler leaves the buffer alone (it can only change
    it by running the loop from within itself). *)
Theorem io_process_dispatches (fuel : nat) (hs : HS) (el : EL) (evs : list Event.t) :
  handler_keeps →
  (∀ i, 0 <= i → Events_get (el_events el) i = evs !! Z.to_nat i) →
  io_process clock handler fuel (Z.of_nat (length evs)) (hs, el) = dispatch_list fuel evs (hs, el).
Proof.
  intros Hk Hget. unfold io_process. rewrite Nat2Z.id. apply process_from_list; [done|].
  intros j e Hj. cbn. rewrite Hget by lia. by replace (Z.to_nat _) with j by lia.
Qed.

(** ** One iteration *)

Lemma run_once_with_spec kind poll (fuel : nat) (hs : HS) (el el1 : EL) (r : io_result Z) :
  poll el = Done (r, el1) →
  run_once_with clock handler kind poll fuel (hs, el) =
    match r with
    | Ok n => (_ ← io_process clock handler fuel n; _ ← h_tick handler; mret (Ok tt)) (hs, el1)
    | Err e =>
        if decide (kind e = Interrupted)
        then (_ ← h_interrupted handler; _ ← h_tick handler; mret (Ok tt)) (hs, el1)
        else Done (Err e, (hs, el1))
    end.
Proof.
  intros E. unfold run_once_with, mbind, M_bind, on_loop. cbn. rewrite E. cbn. destruct r as [n|e]; [done|].
  destruct (decide _); [|done]. by destruct (h_interrupted handler (hs, el1)) as [[[] st]| |].
Qed.

(** an iteration handles the events of the poll and ends with [tick]; an
    interrupted poll calls [interrupted], handles no event and ends with [tick];
    any other error is returned at once without a call of the handler. *)
Theorem run_once_spec (fuel : nat) (o : Others) (timeout : option Duration) (hs : HS) (el el1 : EL) (r : io_result Z) :
  io_poll o timeout el = Done (r, el1) →
  run_once clock handler fuel o timeout (hs, el) =
    match r with
    | Ok n => (_ ← io_process clock handler fuel n; _ ← h_tick handler; mret (Ok tt)) (hs, el1)
    | Err e =>
        if decide (err_kind e = Interrupted)
        then (_ ← h_interrupted handler; _ ← h_tick handler; mret (Ok tt)) (hs, el1)
        else Done (Err e, (hs, el1))
    end.
Proof. apply run_once_with_spec. Qed.

(** ** The loop *)

(** [k] iterations, from the [i]th on, all of them started while running. *)
Inductive iterates (fuel : nat) (others : nat → Others) : nat → nat → HS * EL → HS * EL → Prop :=
  | it_done i st : iterates fuel others i 0 st st
  | it_step i k st st1 st' :
      el_run (snd st) = true → run_once clock handler fuel (others i) None st = Done (Ok tt, st1) →
      iterates fuel others (Datatypes.S i) k st1 st' → iterates fuel others i (Datatypes.S k) st st'.

Lemma run_loop_iff fuel others rounds : ∀ i st r st',
  run_loop clock handler fuel rounds i others st = Done (r, st') ↔
  ∃ k st1, (k < rounds)%nat ∧ iterates fuel others i k st st1 ∧
    ((el_run (snd st1) = false ∧ r = Ok tt ∧ st' = st1) ∨
     (el_run (snd st1) = true ∧ ∃ e, run_once clock handler fuel (others (i + k)%nat) None st1 = Done (Err e, st') ∧ r = Err e)).
Proof.
  induction rounds as [|rounds IH]; intros i st r st'; cbn [run_loop].
  { split; [done|]. by intros (k & st1 & Hk & _); lia. }
  unfold mbind at 1, M_bind at 1, gets. destruct (el_run (snd st)) eqn:Er.
  - unfold mbind, M_bind. destruct (run_once clock handler fuel (others i) None st) as [[[[]|e] st1]| |] eqn:E1.
    + rewrite IH. split.
      * intros (k & st2 & Hk & Hit & Hc). exists (Datatypes.S k), st2. split; [lia|]. split; [by econstructor|].
        by rewrite Nat.add_succ_r.
      * intros (k & st2 & Hk & Hit & Hc). inversion Hit as [|? k' ? st1' ? _ E1' Hit']; subst.
        { destruct Hc as [[Hc _]|(_ & e & Hc & _)]; [congruence|]. rewrite Nat.add_0_r in Hc. congruence. }
        same_done. exists k', st2. split; [lia|]. split; [done|]. by rewrite Nat.add_succ_r in Hc.
    + split.
      * intros [= <- <-]. exists 0%nat, st. split; [lia|]. split; [constructor|]. right. rewrite Nat.add_0_r. eauto.
      * intros (k & st2 & Hk & Hit & Hc). inversion Hit as [|? k' ? st1' ? _ E1' Hit']; subst; [|congruence].
        destruct Hc as [[Hc _]|(_ & e' & Hc & ->)]; [congruence|]. rewrite Nat.add_0_r in Hc. by same_done.
    + split; [done|]. intros (k & st2 & Hk & Hit & Hc). inversion Hit; subst; [|congruence].
      rewrite Nat.add_0_r in Hc. destruct Hc as [[Hc _]|(_ & e' & Hc & _)]; congruence.
    + split; [done|]. intros (k & st2 & Hk & Hit & Hc). inversion Hit; subst; [|congruence].
      rewrite Nat.add_0_r in Hc. destruct Hc as [[Hc _]|(_ & e' & Hc & _)]; congruence.
  - split.
    + intros [= <- <-]. exists 0%nat, st. split; [lia|]. split; [constructor|]. by left.
    + intros (k & st2 & Hk & Hit & Hc). inversion Hit; subst; [|congruence].
      destruct Hc as [(_ & -> & ->)|[Hc _]]; [done|congruence].
Qed.

(** [run] returns exactly in two ways: successfully, after the first
    iteration that ends with the loop shut down (and not before), or with the
    error of the first iteration that fails. *)
Theorem run_returns (fuel rounds : nat) (others : nat → Others) (hs : HS) (el : EL) (r : io_result unit) (st' : HS * EL) :
  run clock handler fuel rounds others (hs, el) = Done (r, st') ↔
  ∃ k st1, (k < rounds)%nat ∧ iterates fuel others 0 k (hs, set_run true el) st1 ∧
    ((el_run (snd st1) = false ∧ r = Ok tt ∧ st' = st1) ∨
     (el_run (snd st1) = true ∧ ∃ e, run_once clock handler fuel (others k) None st1 = Done (Err e, st') ∧ r = Err e)).
Proof. unfold run. exact (run_loop_iff fuel others rounds 0 (hs, set_run true el) r st'). Qed.
End event_loop.

(** ** Notifications and timeouts *)

Section deliver.
Context {S : Type → Type} {slab_ops : SlabOps S} {slab_spec : SlabSpec S} {slab_laws : SlabLaws S}.
Context {C : Type → Type} {cell_ops : LazyCellOps C} {cell_laws : LazyCellLaws C}.
Context {A : Type} {awk_ops : AwakenerOps A} {V : Type} {Sel : Type}.
Context {TO MSG HS : Type} (clock : nat → Instant).
Abbreviation EL := (EventLoop S C A V Sel TO MSG).
Context (handler : Handler (S:=S) (C:=C) (A:=A) (V:=V) (Sel:=Sel) (TO:=TO) (MSG:=MSG) (HS:=HS)).

Definition loop_chan (el : EL) : Chan C MSG RegistrationInner RegistrationInner (Queue A) := attach (el_queue el) (el_notify el).
Definition loop_sys (el : EL) : Sys S C TO RegistrationInner RegistrationInner (Queue A) :=
  mkSys (el_timer el) (el_shared el) (el_queue el).

Lemma on_channel_chan {X} (m : M (Chan C MSG RegistrationInner RegistrationInner (Queue A)) X) (el : EL) x c :
  m (loop_chan el) = Done (x, c) → ∃ el', on_channel m el = Done (x, el') ∧ loop_chan el' = c ∧
    el_timer el' = el_timer el ∧ el_events el' = el_events el ∧ el_run el' = el_run el.
Proof. intros E. unfold on_channel, loop_chan in *. rewrite E. eexists. split; [done|]. by destruct c. Qed.

Section notify.
(** A handler that only keeps the messages. *)
Context (note : MSG → HS → HS) (Hnote : ∀ msg hs el, h_notify handler msg (hs, el) = Done (tt, (note msg hs, el))).

(** handling a notification event delivers the queued messages in the order
    they were sent, each once, and no more than the configured number; the others
    stay queued, and the receiver is readable exactly if there are any (or the
    senders are gone). *)
Theorem notify_delivers (n : nat) (hs : HS) (el : EL) :
  chan_inv (loop_chan el) → waiting (loop_chan el) <= U64_MAX →
  let q := m_queue (mpsc (loop_chan el)) in
  ∃ el', notify_loop handler n (hs, el) = Done (tt, (foldl (λ h msg, note msg h) hs (take n q), el')) ∧
    m_queue (mpsc (loop_chan el')) = drop n q ∧ chan_inv (loop_chan el') ∧ el_timer el' = el_timer el ∧ el_run el' = el_run el.
Proof.
  revert hs el. induction n as [|n IH]; intros hs el Hi Hw; cbn zeta.
  { exists el. by rewrite drop_0. }
  cbn [notify_loop]. unfold mbind at 1, M_bind at 1. unfold on_loop. pose proof (try_recv_ok _ Hi Hw) as Hr.
  destruct (m_queue (mpsc (loop_chan el))) as [|msg q] eqn:Eq.
  - destruct Hr as (e & Hr). apply (on_channel_chan _ el) in Hr as (el' & -> & Hc & Ht & _ & Hrun). cbn [mbind outcome_bind].
    exists el'. rewrite Hc, Eq. done.
  - destruct Hr as (c' & Hr & Hi' & Hq & Hs & _). apply (on_channel_chan _ el) in Hr as (el1 & -> & Hc & Ht & _ & Hrun).
    cbn [mbind outcome_bind]. unfold mbind, M_bind. rewrite Hnote. subst c'.
    destruct (IH (note msg hs) el1 Hi') as (el' & E & Hq' & Hi2 & Ht' & Hr').
    { unfold waiting in *. rewrite Hq, Hs. rewrite Eq in Hw. cbn [length] in Hw. lia. }
    rewrite Hq in E, Hq'. exists el'. split; [exact E|]. split; [done|]. split; [done|]. split; congruence.
Qed.
End notify.

Section timer.
(** A handler that only keeps the timeouts, and a clock that does not run over. *)
Context (note : TO → HS → HS) (Hnote : ∀ t hs el, h_timeout handler t (hs, el) = Done (tt, (note t hs, el))).

Definition reading (el : EL) (n : nat) : Z := tick_of (tick_ms (el_timer el)) (elapsed (start (el_timer el)) (clock n)).
Definition clock_ok (el : EL) : Prop :=
  tick (el_timer el) < U64_MAX ∧
  ∀ n, Duration_wf (elapsed (start (el_timer el)) (clock n)) ∧ reading el n < U64_MAX.

(** One round: a clock reading and a poll of the timer. *)
Lemma timer_round (el : EL) : sys_inv (loop_sys el) → clock_ok el →
  ∃ o el', (t ← now clock; on_timer (Timer.poll t)) el = Done (o, el') ∧ sys_inv (loop_sys el') ∧
    el_clock el' = Datatypes.S (el_clock el) ∧ el_run el' = el_run el ∧
    tick_ms (el_timer el') = tick_ms (el_timer el) ∧ start (el_timer el') = start (el_timer el) ∧
    match o with
    | None => abs (el_timer el') = abs (el_timer el) ∧
        ∀ x k st, abs (el_timer el) !! x = Some (k, st) → reading el (el_clock el) < k
    | Some st => tick (el_timer el') < U64_MAX ∧
        ∃ x k, abs (el_timer el) !! x = Some (k, st) ∧ abs (el_timer el') = delete x (abs (el_timer el))
    end.
Proof.
  intros Hs [Htk Hck]. destruct (Hck (el_clock el)) as [Hwf Hlt].
  assert (horizon (reading el (el_clock el)) (tick (timer (loop_sys el))) < U64_MAX) as HM by (unfold horizon; cbn; lia).
  destruct (poll_to_ok (reading el (el_clock el)) (loop_sys el) Hs HM) as (o & s' & E & Hs' & (Hms & Hst & _) & Hcase).
  unfold now, on_timer, mbind, M_bind. cbn. unfold Timer.poll, current_tick. cbn [timer tick_ms start].
  rewrite duration_to_tick_ok by (done || apply Hs). fold (reading el (el_clock el)). cbn [mbind outcome_bind].
  change (mkSys _ _ _) with (loop_sys el). rewrite E. cbn. eexists o, _. split; [reflexivity|].
  split; [by destruct s'|]. cbn. split; [done|]. split; [done|]. split; [done|]. split; [done|].
  destruct Hcase as [(-> & (Ht & _ & Ha & Hinv & _) & _)|[(x & k & st & Hx & -> & Hk & Ht & Hmin & Ha & _) _]].
  - split; [done|]. intros x k st Hx. destruct (pending_u64 (timer s') x k st Hinv) as [Hk _]; [by rewrite Ha|].
    unfold horizon in Ht. cbn in Ht. lia.
  - split; [rewrite Ht; cbn in *; lia|]. eauto.
Qed.

(** C37: with a handler whose [timeout] only records its argument and leaves the loop
    untouched, handling the timer's event ends: after at most one round per pending
    timeout and one more.  The handler is given pending timeouts, each once, and
    what is left is due later than the last reading of the clock. *)
Theorem timer_process_drains (fuel : nat) (hs : HS) (el : EL) :
  sys_inv (loop_sys el) → clock_ok el → (size (abs (el_timer el)) < fuel)%nat →
  ∃ fired el', timer_process clock handler fuel (hs, el) = Done (tt, (foldl (λ h t, note t h) hs fired, el')) ∧
    sys_inv (loop_sys el') ∧ abs (el_timer el') ⊆ abs (el_timer el) ∧
    fired ++ (snd ∘ snd <$> map_to_list (abs (el_timer el'))) ≡ₚ snd ∘ snd <$> map_to_list (abs (el_timer el)) ∧
    ∃ last, (el_clock el <= last)%nat ∧ el_clock el' = Datatypes.S last ∧
      ∀ x k st, abs (el_timer el') !! x = Some (k, st) → reading el last < k.
Proof.
  revert hs el. induction fuel as [|fuel IH]; intros hs el Hs Hck Hf; [lia|]. cbn [timer_process].
  unfold mbind at 1, M_bind at 1. unfold on_loop.
  destruct (timer_round el Hs Hck) as (o & el1 & E & Hs1 & Hc1 & Hr1 & Hms1 & Hst1 & Ho). rewrite E. cbn [mbind outcome_bind].
  destruct o as [st|].
  - destruct Ho as (Htk1 & x & k & Hx & Ha). unfold mbind, M_bind. rewrite Hnote.
    assert (∀ n, reading el1 n = reading el n) as Hrd by (intros; unfold reading; by rewrite Hms1, Hst1).
    destruct (IH (note st hs) el1 Hs1) as (fired & el' & E' & Hs' & Hsub & Hperm & last & Hl & Hc & Hlate).
    { split; [done|]. intros n. rewrite Hrd, Hst1. apply Hck. }
    { rewrite Ha, map_size_delete_Some by eauto. assert (size (abs (el_timer el)) ≠ 0)%nat; [|lia].
      intros H0%map_size_empty_inv. rewrite H0 in Hx. by rewrite lookup_empty in Hx. }
    exists (st :: fired), el'. split; [exact E'|]. split; [done|].
    split; [etrans; [exact Hsub|rewrite Ha; apply delete_subseteq]|]. split.
    { cbn [app]. rewrite Hperm, Ha. rewrite <- (map_to_list_delete (abs (el_timer el)) x (k, st) Hx). done. }
    exists last. split; [lia|]. split; [done|]. intros y k' st' Hy. rewrite <- Hrd. by eapply Hlate.
  - destruct Ho as [Ha Hlate]. exists [], el1. split; [done|]. split; [done|]. rewrite Ha. split; [done|]. split; [done|].
    exists (el_clock el). split; [lia|]. split; [done|]. done.
Qed.
End timer.
End deliver.

(** ** A concrete event loop

    Nothing is registered; three messages are queued and two timeouts pending. *)

Abbreviation DemoLoop := (EventLoop map_slab option counter (list Event.t) script string Z).
Abbreviation DemoTimer := (Timer map_slab option string RegistrationInner RegistrationInner).

Definition timer0 : DemoTimer :=
  mkTimer 100 (slab_with_capacity 16) (replicate 16 (mkWheelEntry TICK_MAX EMPTY)) 0 0 EMPTY 15 None.
Definition sys0 : Sys map_slab option string RegistrationInner RegistrationInner (Queue counter) :=
  mkSys timer0 (mkShared USIZE_MAX false) q0.

Lemma sys0_inv : sys_inv sys0.
Proof.
  destruct (Timer_new_ok (S := map_slab) (C := option) (T := string) (R := RegistrationInner) (H := RegistrationInner)
    (W := Queue counter) 100 16 16 0 (mkShared USIZE_MAX false) q0) as (t & E & Hi & _); [done..|].
  vm_compute in E. injection E as <-. exact Hi.
Qed.

Definition sys2 := match run_ops [at_ms 300 "a"; at_ms 100 "b"] sys0 with Done (_, s) => s | _ => sys0 end.
Lemma sys2_inv : sys_inv sys2.
Proof.
  destruct (run_ops_ok [at_ms 300 "a"; at_ms 100 "b"] sys0 10) as (rs & s' & E & Hs & _);
    [exact sys0_inv| |vm_compute; done|vm_compute; done|].
  - repeat (apply Forall_cons; split); try apply Forall_nil; (apply (bool_decide_unpack _); vm_compute; exact I).
  - unfold sys2. rewrite E. exact Hs.
Qed.

Definition demo_events : list Event.t :=
  [Event.new Ready.readable TIMER; Event.new Ready.writable (mkToken 3); Event.new Ready.readable NOTIFY].

Definition demo_loop (rs : list (io_result bool)) : DemoLoop :=
  mkEventLoop true (demo_poll rs q0) (mkEvents demo_events) (timer sys2) (shared sys2)
    (mkChan (mkMpsc [1; 2; 3] (Some 16%nat) 1 true) 3 1 None None tt) (mkConfig 16 2 (from_millis 100) 16 16) 0.

(** Every reading of the clock shows 200 ms. *)
Definition demo_clock (n : nat) : Instant := 200000000.

Definition log_handler : Handler (S:=map_slab) (C:=option) (A:=counter) (V:=list Event.t) (Sel:=script)
    (TO:=string) (MSG:=Z) (HS:=list string) :=
  mkHandler (λ t r '(hs, el), Done (tt, (hs ++ ["ready"%string], el))) (λ m '(hs, el), Done (tt, (hs ++ ["message"%string], el)))
    (λ t '(hs, el), Done (tt, (hs ++ [t], el))) (λ '(hs, el), Done (tt, (hs ++ ["interrupted"%string], el)))
    (λ '(hs, el), Done (tt, (hs ++ ["tick"%string], el))).

Lemma log_handler_keeps : handler_keeps log_handler.
Proof. split; intros; intros [hs el] x [hs' el'] [= <- <- <-]; done. Qed.

Lemma io_process_dispatches_witness :
  io_process demo_clock log_handler 5 (Z.of_nat (length demo_events)) ([], demo_loop [])
  = dispatch_list demo_clock log_handler 5 demo_events ([], demo_loop []).
Proof.
  apply (io_process_dispatches demo_clock log_handler 5 [] (demo_loop []) demo_events); [exact log_handler_keeps|].
  intros i Hi. reflexivity.
Defined.

(** One timeout is due; the other source is ready; two messages are allowed per
    tick. *)
Example demo_dispatched :
  match io_process demo_clock log_handler 5 3 ([], demo_loop []) with
  | Done (_, (hs, el)) => hs = ["b"; "ready"; "message"; "message"]%string ∧ m_queue (mpsc (el_notify el)) = [3]
  | _ => False
  end.
Proof. vm_compute. auto. Qed.

Definition no_others : Others (C:=option) (A:=counter) (MSG:=Z) := Datatypes.id.

Lemma run_once_spec_witness :
  ∃ el', run_once demo_clock log_handler 5 no_others None ([], demo_loop [Err (io_custom Interrupted "")])
    = Done (Ok tt, (["interrupted"; "tick"]%string, el')).
Proof.
  eexists. rewrite (run_once_spec demo_clock log_handler 5 no_others None [] (demo_loop [Err (io_custom Interrupted "")])
    _ (Err (io_custom Interrupted ""))) by (vm_compute; reflexivity).
  reflexivity.
Defined.

Lemma demo_chan_inv rs : chan_inv (loop_chan (demo_loop rs)).
Proof. split; cbn; [done|lia|done|intros _; exact q0_wf|done]. Qed.

Lemma notify_delivers_witness :
  ∃ el', notify_loop log_handler 2 ([], demo_loop []) = Done (tt, (["message"; "message"]%string, el')) ∧
    m_queue (mpsc (loop_chan el')) = [3].
Proof.
  destruct (notify_delivers log_handler (λ _ hs, hs ++ ["message"%string]) (λ _ _ _, eq_refl) 2 [] (demo_loop []) (demo_chan_inv []))
    as (el' & H1 & H2 & _); [vm_compute; discriminate|].
  exists el'. exact (conj H1 H2).
Defined.

Lemma demo_clock_ok rs : clock_ok demo_clock (demo_loop rs).
Proof.
  split; [vm_compute; reflexivity|]. intros n. split; [|vm_compute; reflexivity].
  apply (bool_decide_unpack _). vm_compute. exact I.
Qed.

Lemma timer_process_drains_witness :
  ∃ fired el', timer_process demo_clock log_handler 3 ([], demo_loop []) = Done (tt, (foldl (λ h t, h ++ [t]) [] fired, el')) ∧
    sys_inv (loop_sys el').
Proof.
  destruct (timer_process_drains demo_clock log_handler (λ t hs, hs ++ [t]) (λ _ _ _, eq_refl) 3 [] (demo_loop []))
    as (fired & el' & H1 & H2 & _); [exact sys2_inv|exact (demo_clock_ok [])|vm_compute; lia|].
  exists fired, el'. exact (conj H1 H2).
Defined.
