(* ===== verification/LoopInv.v ===== *)
(** * The invariant of the event loop on its readiness queue

    The event loop owns five handles on the readiness queue of its [Poll]: the
    registration and the readiness of its notification channel, those of its
    timer, and the clone that lives in the timer's wakeup thread.  [qok] says what
    the queue looks like with them, and what each operation on a handle does to
    it; [LoopOk] is the invariant of the whole loop.  Its heart is that nothing is
    forgotten: as long as a message waits, the channel's node is queued, or its
    one-shot event is among the events still to be handled, after which the
    registration is renewed. *)

From S2P Require Import Prelude Event Convert DList Iface Timer TimerInv TimerOps TimerPoll TimerSpec.
From S2P Require Import ReadyQueue QueueInv QueueOps QueuePoll Poll PollThm Handles Channel ChannelThm UnixIo EventLoop EventLoopThm.

(** ** Programs that may run out of fuel *)

(** Like [wp], but lack of fuel is acceptable if [may]. *)
Definition gwp (may : Prop) {S X} (m : M S X) (Q : X → S → Prop) (s : S) : Prop :=
  match m s with Done (x, s') => Q x s' | Panic => False | OutOfFuel => may end.

Section gwp.
Context {S : Type} (may : Prop).

Lemma gwp_wp {X} (m : M S X) (Q : X → S → Prop) s : wp m Q s → gwp may m Q s.
Proof. unfold wp, gwp. destruct (m s) as [[x s']| |]; done. Qed.

Lemma gwp_total {X} (m : M S X) (Q : X → S → Prop) s : gwp False m Q s ↔ wp m Q s.
Proof. done. Qed.

Lemma gwp_bind {X Y} (m : M S X) (f : X → M S Y) (Q : Y → S → Prop) s :
  gwp may m (λ x s', gwp may (f x) Q s') s → gwp may (m ≫= f) Q s.
Proof. unfold gwp, mbind, M_bind. by destruct (m s) as [[x s']| |]. Qed.

Lemma gwp_mono {X} (m : M S X) (Q R : X → S → Prop) s :
  gwp may m Q s → (∀ x s', Q x s' → R x s') → gwp may m R s.
Proof. unfold gwp. destruct (m s) as [[x s']| |]; naive_solver. Qed.

Lemma gwp_ret {X} (x : X) (Q : X → S → Prop) s : Q x s → gwp may (mret x) Q s.
Proof. done. Qed.
End gwp.

(** ** The queue with the handles of the loop *)

Section queue.
Context {A : Type} {awk_ops : AwakenerOps A}.
Implicit Types q : Queue A.
Abbreviation RI := RegistrationInner.

(** The handles of the channel ([hn]), the timer and its thread ([ht]), and of
    everybody else ([u]). *)
Definition loop_handles (hn ht : RI) (u : list RI) : list RI := hn :: hn :: ht :: ht :: ht :: u.

(** [ni], [ti]: the nodes of channel and timer; [rl]: the ready list. *)
Record qok q (u : list RI) (hn ht : RI) (ni ti : Info) (rl : list loc) : Prop := {
  qk_good : ∃ al, queue_good q al rl (cnt_of (loop_handles hn ht u));
  qk_live h : h ∈ u → is_Some (heap q !! h_node h);
  qk_n : nodes q !! h_node hn = Some ni;
  qk_t : nodes q !! h_node ht = Some ti;
  qk_ids : h_queue hn = q_id q ∧ h_queue ht = q_id q;
  qk_apart : h_node hn ≠ h_node ht ∧ ∀ h, h ∈ u → h_node h ≠ h_node hn ∧ h_node h ≠ h_node ht }.

Lemma nodes_inv q l i : nodes q !! l = Some i → ∃ n, heap q !! l = Some n ∧ info n = i.
Proof. unfold nodes. rewrite lookup_fmap. intros (n & Hn & ->)%fmap_Some. eauto. Qed.

Lemma qok_ne q u hn ht ni ti rl : qok q u hn ht ni ti rl → h_node hn ≠ h_node ht.
Proof. intros Hq. exact (proj1 (qk_apart _ _ _ _ _ _ _ Hq)). Qed.

Lemma qok_handle q u hn ht ni ti rl h :
  qok q u hn ht ni ti rl → h ∈ loop_handles hn ht u →
  ∃ n, heap q !! h_node h = Some n ∧ 0 < cnt_of (loop_handles hn ht u) (h_node h).
Proof.
  intros [_ Hl Hn Ht _ _] Hh. pose proof (cnt_of_in _ _ Hh) as Hc.
  assert (h = hn ∨ h = ht ∨ h ∈ u) as [->|[->|Hu]] by (unfold loop_handles in Hh; set_solver).
  - destruct (nodes_inv _ _ _ Hn) as (n & Hn' & _). eauto.
  - destruct (nodes_inv _ _ _ Ht) as (n & Hn' & _). eauto.
  - destruct (Hl _ Hu) as [n Hn']. eauto.
Qed.

(** One node was changed, by code that keeps the queue good. *)
Lemma qok_step q q' u hn ht ni ti rl al' rl' l i :
  qok q u hn ht ni ti rl → queue_good q' al' rl' (cnt_of (loop_handles hn ht u)) →
  nodes q' = <[l := i]> (nodes q) → same_env q q' →
  qok q' u hn ht (if decide (l = h_node hn) then i else ni) (if decide (l = h_node ht) then i else ti) rl'.
Proof.
  intros [_ Hl Hn Ht [Hi1 Hi2] Ha] Hg Hnq [He _]. split.
  - eauto.
  - intros h Hh. eapply heap_of_insert; [exact Hnq|]. by apply Hl.
  - rewrite Hnq, lookup_insert. by case_decide.
  - rewrite Hnq, lookup_insert. by case_decide.
  - rewrite He. done.
  - done.
Qed.

(** Storing a readiness through one of the handles. *)
Lemma wp_set_handle h r q u hn ht ni ti rl (Q : io_result unit → Queue A → Prop) :
  qok q u hn ht ni ti rl → h ∈ loop_handles hn ht u → is_drop r = false →
  (∀ res q' i, i_events i = as_usize r →
    (∀ j, nodes q !! h_node h = Some j → i = set_events r j) →
    qok q' u hn ht (if decide (h_node h = h_node hn) then i else ni) (if decide (h_node h = h_node ht) then i else ti)
      (if is_empty r then rl else enqueue (h_node h) rl) →
    (sleeping q = false → sleeping q' = false) → Q res q') →
  wp (inner_set_readiness h r) Q q.
Proof.
  intros Hq Hh Hr HQ. destruct (qok_handle _ _ _ _ _ _ _ _ Hq Hh) as (n & Hn & Hc).
  pose proof Hq as [(al & Hg) _ _ _ _ _]. eapply wp_set_live; [exact Hg|exact Hn|done|done|].
  intros res q' Hg' [Hnq He _ Hs]. eapply (HQ res q' (set_events r (info n))); [done| | |done].
  - intros j Hj. rewrite (nodes_lookup _ _ _ Hn) in Hj. by injection Hj as <-.
  - by eapply qok_step.
Qed.

Lemma wp_set_n r q u hn ht ni ti rl (Q : io_result unit → Queue A → Prop) :
  qok q u hn ht ni ti rl → is_drop r = false →
  (∀ res q', qok q' u hn ht (set_events r ni) ti (if is_empty r then rl else enqueue (h_node hn) rl) →
    (sleeping q = false → sleeping q' = false) → Q res q') →
  wp (inner_set_readiness hn r) Q q.
Proof.
  intros Hq Hr HQ. eapply wp_set_handle; [exact Hq|unfold loop_handles; set_solver|done|].
  intros res q' i _ Hi Hq' Hs. rewrite (Hi _ (qk_n _ _ _ _ _ _ _ Hq)) in Hq'.
  rewrite decide_True, decide_False in Hq' by (done || exact (qok_ne _ _ _ _ _ _ _ Hq)). eauto.
Qed.

Lemma wp_set_t r q u hn ht ni ti rl (Q : io_result unit → Queue A → Prop) :
  qok q u hn ht ni ti rl → is_drop r = false →
  (∀ res q', qok q' u hn ht ni (set_events r ti) (if is_empty r then rl else enqueue (h_node ht) rl) →
    (sleeping q = false → sleeping q' = false) → Q res q') →
  wp (inner_set_readiness ht r) Q q.
Proof.
  intros Hq Hr HQ. eapply wp_set_handle; [exact Hq|unfold loop_handles; set_solver|done|].
  intros res q' i _ Hi Hq' Hs. rewrite (Hi _ (qk_t _ _ _ _ _ _ _ Hq)) in Hq'.
  rewrite decide_False, decide_True in Hq' by (done || exact (not_eq_sym (qok_ne _ _ _ _ _ _ _ Hq))). eauto.
Qed.

(** Clearing the channel's readiness never wakes anybody, so it does not fail. *)
Lemma wp_set_live_none q u hn ht ni ti rl (Q : io_result unit → Queue A → Prop) :
  qok q u hn ht ni ti rl →
  (∀ q', qok q' u hn ht (set_events Ready.none ni) ti rl → (sleeping q = false → sleeping q' = false) → Q (Ok tt) q') →
  wp (inner_set_readiness hn Ready.none) Q q.
Proof.
  intros Hq HQ. destruct (qok_handle _ _ _ _ _ _ _ hn Hq) as (n & Hn & Hc); [unfold loop_handles; set_solver|].
  pose proof Hq as [(al & Hg) _ _ _ _ _]. eapply wp_set_live; [exact Hg|exact Hn|done|done|].
  intros res q' Hg' [Hnq He [_ Hr] Hs]. cbn in Hr. subst res. apply HQ; [|done].
  pose proof (qok_step _ _ _ _ _ _ _ _ _ _ _ _ Hq Hg' Hnq He) as Hq'.
  rewrite decide_True, decide_False in Hq' by (done || exact (qok_ne _ _ _ _ _ _ _ Hq)).
  pose proof (qk_n _ _ _ _ _ _ _ Hq) as Hni. rewrite (nodes_lookup _ _ _ Hn) in Hni. by injection Hni as <-.
Qed.

Lemma wp_set_u h r q u hn ht ni ti rl (Q : io_result unit → Queue A → Prop) :
  qok q u hn ht ni ti rl → h ∈ u → is_drop r = false →
  (∀ res q', qok q' u hn ht ni ti (if is_empty r then rl else enqueue (h_node h) rl) →
    (sleeping q = false → sleeping q' = false) → Q res q') →
  wp (inner_set_readiness h r) Q q.
Proof.
  intros Hq Hh Hr HQ. eapply wp_set_handle; [exact Hq|unfold loop_handles; set_solver|done|].
  intros res q' i _ _ Hq' Hs. destruct (proj2 (qk_apart _ _ _ _ _ _ _ Hq) h Hh). rewrite !decide_False in Hq' by done. eauto.
Qed.

(** Changing a registration while no poll sleeps. *)
Lemma wp_update_handle h token interest opts q u hn ht ni ti rl (Q : io_result unit → Queue A → Prop) :
  qok q u hn ht ni ti rl → h ∈ loop_handles hn ht u → sleeping q = false →
  (∀ q' j, nodes q !! h_node h = Some j →
    let i := mkInfo (mkData token interest opts) (i_events j) in
    qok q' u hn ht (if decide (h_node h = h_node hn) then i else ni) (if decide (h_node h = h_node ht) then i else ti)
      (if i_events j =? 0 then rl else enqueue (h_node h) rl) → sleeping q' = false → Q (Ok tt) q') →
  wp (inner_update h (h_queue h) token interest opts) Q q.
Proof.
  intros Hq Hh Hs HQ. destruct (qok_handle _ _ _ _ _ _ _ _ Hq Hh) as (n & Hn & Hc).
  pose proof Hq as [(al & Hg) _ _ _ _ _]. eapply wp_update; [exact Hg|exact Hn|by right; right|].
  intros q' Hg' Hnq He _ Hs'. eapply (HQ q' (info n)); [by apply nodes_lookup| |by apply Hs'].
  by eapply qok_step.
Qed.
(** ** The handles of others *)

Lemma qok_perm q u u' hn ht ni ti rl : u ≡ₚ u' → qok q u hn ht ni ti rl → qok q u' hn ht ni ti rl.
Proof.
  intros Hp [(al & Hg) Hl Hn Ht Hi [Ha1 Ha2]]. split; [|by setoid_rewrite <- Hp|done..|by setoid_rewrite <- Hp].
  exists al. eapply queue_good_cnt; [exact Hg|]. intros l _. apply cnt_of_perm. unfold loop_handles. by rewrite Hp.
Qed.

Lemma cnt_loop_handles hn ht u l : cnt_of (loop_handles hn ht u) l =
  cnt_of u l + (if decide (h_node ht = l) then 3 else 0) + (if decide (h_node hn = l) then 2 else 0).
Proof. unfold loop_handles. rewrite !cnt_of_cons. repeat case_decide; lia. Qed.

Lemma wp_new_u p token interest opts q u hn ht ni ti rl (Q : RI * RI → Queue A → Prop) :
  qok q u hn ht ni ti rl →
  (∀ l q', qok q' (mkHandle p l :: mkHandle p l :: u) hn ht ni ti rl → (sleeping q = false → sleeping q' = false) →
    Q (mkHandle p l, mkHandle p l) q') →
  wp (Registration_new p token interest opts) Q q.
Proof.
  intros Hq HQ. pose proof Hq as [(al & Hg) Hl Hn Ht [Hi1 Hi2] [Ha1 Ha2]]. eapply wp_registration_new; [exact Hg|].
  intros l q' Hx Hg' Hnq [He _] Hs. apply HQ; [|done].
  assert (∀ y i, nodes q !! y = Some i → l ≠ y) as Hfr.
  { intros y i Hy ->. destruct (nodes_inv _ _ _ Hy) as (n & Hn' & _). congruence. }
  assert (l ≠ h_node hn ∧ l ≠ h_node ht) as [Hl1 Hl2] by (split; by eapply Hfr).
  split.
  - exists (l :: al). eapply queue_good_cnt; [exact Hg'|]. intros y _. unfold upd. rewrite !cnt_loop_handles, !cnt_of_cons.
    cbn [h_node]. destruct (decide (l = y)) as [<-|]; [|repeat case_decide; lia].
    rewrite cnt_of_unused by (intros h Hh <-; destruct (Hl h Hh); congruence). rewrite !decide_False by done. lia.
  - intros h [->|[->|Hh]%elem_of_cons]%elem_of_cons; [apply nodes_dom; rewrite Hnq, lookup_insert_eq; eauto..|].
    eapply heap_of_insert; [exact Hnq|auto].
  - by rewrite Hnq, lookup_insert_ne.
  - by rewrite Hnq, lookup_insert_ne.
  - by rewrite He.
  - split; [done|]. intros h [->|[->|Hh]%elem_of_cons]%elem_of_cons; auto.
Qed.

(** Dropping a handle, by code that may also change the data of its node. *)
Lemma qok_dropped h n q q1 q' u hn ht ni ti rl al :
  qok q (h :: u) hn ht ni ti rl → nodes q1 = nodes q ∨ (∃ i, nodes q1 = <[h_node h := i]> (nodes q)) → same_env q q' →
  let cnt := cnt_of (loop_handles hn ht (h :: u)) in let c := cnt (h_node h) - 1 in
  queue_good q' al (if decide (c = 0) then enqueue (h_node h) rl else rl) (upd cnt (h_node h) c) →
  nodes q' = (if decide (c = 0) then <[h_node h := set_events event_drop (info n)]> (nodes q1) else nodes q1) →
  ∃ rl', qok q' u hn ht ni ti rl' ∧ ∀ l, l ∈ rl → l ∈ rl'.
Proof.
  intros [_ Hl Hn Ht [Hi1 Hi2] [Ha1 Ha2]] Hq1 [He _] cnt c Hg Hnq.
  destruct (Ha2 h ltac:(set_solver)) as [Hh1 Hh2].
  assert (∀ y, y ≠ h_node h → nodes q' !! y = nodes q !! y) as Hoth.
  { intros y Hy. rewrite Hnq. destruct Hq1 as [->|[i ->]]; case_decide; by rewrite ?lookup_insert_ne. }
  assert (∀ y, is_Some (nodes q !! y) → is_Some (nodes q' !! y)) as Hdom.
  { intros y Hy. rewrite Hnq. destruct Hq1 as [->|[i ->]]; case_decide; rewrite ?lookup_insert_is_Some'; auto. }
  eexists. split; [split|].
  - exists al. eapply queue_good_cnt; [exact Hg|]. intros y _. unfold upd, c, cnt. rewrite !cnt_loop_handles, !cnt_of_cons.
    destruct (decide (h_node h = y)) as [<-|]; repeat case_decide; congruence || lia.
  - intros g Hgu. apply nodes_dom, Hdom, nodes_dom, Hl. set_solver.
  - by rewrite Hoth.
  - by rewrite Hoth.
  - by rewrite He.
  - split; [done|]. intros g Hgu. apply Ha2. set_solver.
  - intros l Hlr. case_decide; [|done]. apply enqueue_in. by right.
Qed.

Lemma wp_drop_u h q u hn ht ni ti rl (Q : unit → Queue A → Prop) :
  qok q (h :: u) hn ht ni ti rl →
  (∀ q' rl', qok q' u hn ht ni ti rl' → (∀ l, l ∈ rl → l ∈ rl') → (sleeping q = false → sleeping q' = false) → Q tt q') →
  wp (SetReadiness_drop h) Q q.
Proof.
  intros Hq HQ. destruct (qok_handle _ _ _ _ _ _ _ h Hq) as (n & Hn & Hc); [unfold loop_handles; set_solver|].
  pose proof Hq as [(al & Hg) _ _ _ _ _]. eapply wp_drop; [exact Hg|exact Hn|done|]. intros q' Hg' Hnq He Hs.
  destruct (qok_dropped h n q q q' u hn ht ni ti rl al) as (rl' & Hq' & Hsub); eauto.
Qed.

Lemma wp_drop_registration_u h q u hn ht ni ti rl (Q : unit → Queue A → Prop) :
  qok q (h :: u) hn ht ni ti rl →
  (∀ q' rl', qok q' u hn ht ni ti rl' → (∀ l, l ∈ rl → l ∈ rl') → (sleeping q = false → sleeping q' = false) → Q tt q') →
  wp (Registration_drop h) Q q.
Proof.
  intros Hq HQ. destruct (qok_handle _ _ _ _ _ _ _ h Hq) as (n & Hn & Hc); [unfold loop_handles; set_solver|].
  pose proof Hq as [(al & Hg) _ _ _ _ _]. unfold Registration_drop. wp_step.
  eapply wp_data_mut; [exact Hg|exact Hn|]. intros q1 Hg1 Hn1 Hnq1 [He1 He1'] _ Hh1. cbn beta iota.
  eapply wp_drop; [exact Hg1|exact Hn1|done|]. intros q' Hg' Hnq [He He'] Hs.
  destruct (qok_dropped h (n_set_data RegistrationData_disable n) q q1 q' u hn ht ni ti rl al) as (rl' & Hq' & Hsub);
    [done|right; eauto|split; congruence|done|done|].
  apply (HQ q' rl' Hq' Hsub). intros Hs0. apply Hs. by rewrite (sleeping_same q q1).
Qed.

(** ** Polling *)

(** What a poll makes of a node: it may be visited, and is not freed. *)
Definition visit (l : loc) (rl : list loc) (i : Info) : Info :=
  if decide (l ∈ rl) then default i (after_visit i) else i.

Lemma wp_poll_q {E} (push : Event.t → E → E) dst q u hn ht ni ti rl (Q : E → Queue A → Prop) :
  qok q u hn ht ni ti rl →
  (∀ q', qok q' u hn ht (visit (h_node hn) rl ni) (visit (h_node ht) rl ti) (visited_ready (nodes q) rl) →
    sleeping q' = false → Q (foldl (λ d e, push e d) dst (visited_events (nodes q) rl)) q') →
  wp (queue_poll push dst) Q q.
Proof.
  intros Hq HQ. pose proof Hq as [(al & Hg) Hl Hn Ht [Hi1 Hi2] Ha].
  eapply wp_queue_poll; [exact Hg|]. intros q' al' Hg' Hv [_ [He _]] Hs _.
  assert (∀ h i, h ∈ loop_handles hn ht u → nodes q !! h_node h = Some i → nodes q' !! h_node h = Some (visit (h_node h) rl i)) as Hkeep.
  { intros h i Hh Hi. rewrite Hv, Hi. unfold visit. case_decide; [|done]. cbn.
    destruct (nodes_inv _ _ _ Hi) as (n & Hn' & <-). pose proof (cnt_of_in _ _ Hh) as Hc. destruct Hg as [Hgi _].
    unfold after_visit. rewrite (info_dead_node _ _ _ _ (qi_node _ _ _ Hgi _ _ Hn')), bool_decide_eq_false_2 by lia. by case_match. }
  apply HQ; [|done]. split; [eauto| | | |by rewrite He|done].
  - intros h Hh. destruct (Hl h Hh) as [n Hnh]. apply nodes_dom. eexists. eapply Hkeep; [unfold loop_handles; set_solver|by apply nodes_lookup].
  - apply Hkeep; [unfold loop_handles; set_solver|done].
  - apply Hkeep; [unfold loop_handles; set_solver|done].
Qed.
End queue.

(** ** The channel on the queue *)

Section channel.
Context {C : Type → Type} {cell_ops : LazyCellOps C} {A : Type} {awk_ops : AwakenerOps A} {MSG : Type}.
Abbreviation QChan := (Chan C MSG RegistrationInner RegistrationInner (Queue A)).

(** The queue has grown: no node has left the ready list, no poll fell asleep. *)
Definition grown (q : Queue A) (rl : list loc) (q' : Queue A) (rl' : list loc) : Prop :=
  (∀ l, l ∈ rl → l ∈ rl') ∧ (sleeping q = false → sleeping q' = false).

Lemma grown_refl q rl : grown q rl q rl.
Proof. by split. Qed.

Lemma grown_enqueue q rl q' (b : bool) l :
  (sleeping q = false → sleeping q' = false) → grown q rl q' (if b then rl else enqueue l rl).
Proof. intros Hs. split; [|done]. intros x Hx. destruct b; [done|]. apply enqueue_in. by right. Qed.

Lemma wp_set_ready_q r hn (c : QChan) (Q : io_result unit → QChan → Prop) :
  lazy_borrow (set_readiness c) = Some hn →
  wp (inner_set_readiness hn r) (λ res q, Q res (set_c_world q c)) (c_world c) → wp (set_ready r) Q c.
Proof.
  intros Hc Hw. apply wp_done in Hw as (res & q & E & HQ). unfold wp, set_ready. rewrite Hc.
  cbn [rd_set_readiness queue_readiness_ops]. rewrite E. done.
Qed.

Lemma wp_inc_q hn ht u ni ti rl (c : QChan) (Q : io_result unit → QChan → Prop) :
  lazy_borrow (set_readiness c) = Some hn → qok (c_world c) u hn ht ni ti rl →
  i_events ni = as_usize (ready_of (pending c)) → 0 <= pending c < U64_MAX →
  (∀ res q' ni' rl', qok q' u hn ht ni' ti rl' → i_data ni' = i_data ni →
    i_events ni' = as_usize (ready_of (pending c + 1)) → grown (c_world c) rl q' rl' →
    (pending c = 0 → h_node hn ∈ rl') → Q res (set_c_world q' (set_pending (pending c + 1) c))) →
  wp inc Q c.
Proof.
  intros Hb Hq Hev Hp HQ. unfold inc. wp_steps. rewrite wrap64_id by (unfold is_u64; lia).
  set (c1 := set_pending _ c). destruct (0 =? pending c) eqn:E; zbool.
  - wp_step. eapply wp_set_ready_q; [exact Hb|]. eapply wp_set_n; [exact Hq|done|]. intros res q' Hq' Hs.
    assert (Q res (set_c_world q' c1)) as HQ'.
    { eapply HQ; [exact Hq'|done| |by apply (grown_enqueue _ _ _ false)|intros _; apply enqueue_in; by left].
      unfold ready_of. by replace (0 <? pending c + 1) with true by lia. }
    destruct res as [[]|e]; by wp_step.
  - wp_step. assert (c1 = set_c_world (c_world c) c1) as -> by done.
    eapply HQ; [exact Hq|done| |apply grown_refl|lia].
    rewrite Hev. unfold ready_of. by replace (0 <? pending c) with true by lia; replace (0 <? pending c + 1) with true by lia.
Qed.

Lemma wp_dec_q hn ht u ni ti rl (c : QChan) (Q : io_result unit → QChan → Prop) :
  lazy_borrow (set_readiness c) = Some hn → qok (c_world c) u hn ht ni ti rl →
  i_events ni = as_usize (ready_of (pending c)) → 0 < pending c <= U64_MAX →
  (∀ res q' ni' rl', qok q' u hn ht ni' ti rl' → i_data ni' = i_data ni →
    i_events ni' = as_usize (ready_of (pending c - 1)) → grown (c_world c) rl q' rl' →
    Q res (set_c_world q' (set_pending (pending c - 1) c))) →
  wp dec Q c.
Proof.
  intros Hb Hq Hev Hp HQ. unfold dec. wp_steps. destruct (pending c =? 1) eqn:E; zbool.
  - eapply wp_set_ready_q; [exact Hb|]. eapply wp_set_live_none; [exact Hq|]. intros q' Hq' Hs.
    cbn beta iota. wp_steps. rewrite wrap64_id by (unfold is_u64; cbn; lia). cbn [pending set_c_world].
    replace (1 <? pending c) with false by lia. cbn [andb]. wp_steps.
    eapply (HQ (Ok tt) q'); [exact Hq'|done| |by split].
    unfold ready_of. by replace (0 <? pending c - 1) with false by lia.
  - wp_steps. rewrite wrap64_id by (unfold is_u64; lia).
    assert (set_pending (pending c - 1) c = set_c_world (c_world c) (set_pending (pending c - 1) c)) as -> by done.
    eapply HQ; [exact Hq|done| |apply grown_refl].
    rewrite Hev. unfold ready_of. by replace (0 <? pending c) with true by lia; replace (0 <? pending c - 1) with true by lia.
Qed.
End channel.
