(* ===== verification/LoopOps.v ===== *)
(** * The invariant of the event loop, and its operations

    [LoopOk N u todo el]: the loop [el] is well formed while the events [todo] of
    the last poll are still to be handled; others own the handles [u]; no tick
    the timer has seen exceeds [N].  Every call of the loop's interface, and what
    other threads do, keeps it. *)

From S2P Require Import Prelude Event Convert DList Iface Timer TimerInv TimerOps TimerPoll TimerSpec.
From S2P Require Import ReadyQueue QueueInv QueueOps QueuePoll Poll PollThm Handles Channel ChannelThm UnixIo EventLoop EventLoopThm LoopInv.

Definition notify_data : RegistrationData := mkData NOTIFY Ready.readable (PollOpt.edge |ₒ PollOpt.oneshot).
Definition timer_data : RegistrationData := mkData TIMER Ready.readable PollOpt.edge.
Abbreviation tokens l := (Event.token <$> l).

Section loop.
Context {S : Type → Type} {slab_ops : SlabOps S} {slab_spec : SlabSpec S} {slab_laws : SlabLaws S}.
Context {C : Type → Type} {cell_ops : LazyCellOps C} {cell_laws : LazyCellLaws C}.
Context {A : Type} {awk_ops : AwakenerOps A} {V : Type} {Sel : Type} {TO MSG : Type} (clock : nat → Instant).
Abbreviation RI := RegistrationInner.
Abbreviation EL := (EventLoop S C A V Sel TO MSG).
Abbreviation LTimer := (Timer S C TO RI RI).
Abbreviation LChan := (Chan C MSG RI RI unit).
Implicit Types el : EL.

(** ** The invariant *)

(** The channel: the loop keeps one sender and the receiver. *)
Record chan_ok (c : LChan) (hn : RI) : Prop := {
  co_reg : lazy_borrow (registration c) = Some hn;
  co_set : lazy_borrow (set_readiness c) = Some hn;
  co_pending : pending c = Z.of_nat (length (m_queue (mpsc c)));
  co_senders : m_senders (mpsc c) = senders c ∧ 1 <= senders c <= U64_MAX;
  co_recv : m_receiver (mpsc c) = true;
  co_bound : ∃ b, m_bound (mpsc c) = Some b ∧ (length (m_queue (mpsc c)) ≤ b)%nat ∧ Z.of_nat b <= U64_MAX }.

Record timer_ok (N : Z) (t : LTimer) (ht : RI) : Prop := {
  tm_inner : lazy_borrow (inner t) = Some (mkInner ht ht);
  tm_good : timer_good t;
  tm_tick : tick t <= N;
  tm_size : Z.of_nat (size (abs t)) <= slab_capacity (entries t);
  tm_clock n : Duration_wf (elapsed (start t) (clock n)) ∧ tick_of (tick_ms t) (elapsed (start t) (clock n)) <= N }.

(** The channel is armed, and queued if a message waits, or its event is still to
    be handled, which will arm it again; the timer is queued if it is ready, or its
    event is still to be handled. *)
Record loop_at (N : Z) (q : Queue A) (c : LChan) (t : LTimer) (u : list RI) (todo : list Event.t)
    (hn ht : RI) (ni ti : Info) (rl : list loc) : Prop := {
  la_q : qok q u hn ht ni ti rl;
  la_c : chan_ok c hn;
  la_t : timer_ok N t ht;
  la_nev : i_events ni = as_usize (ready_of (pending c));
  la_armed : (i_data ni = notify_data ∧ (0 < pending c → h_node hn ∈ rl)) ∨
    (i_data ni = RegistrationData_disable notify_data ∧ NOTIFY ∈ tokens todo);
  la_tdata : i_data ti = timer_data;
  la_tev : i_events ti = 0 ∨ (i_events ti = as_usize Ready.readable ∧ (h_node ht ∈ rl ∨ TIMER ∈ tokens todo));
  la_room : N + Z.of_nat (length todo) < U64_MAX }.

Definition LoopOk (N : Z) (u : list RI) (todo : list Event.t) el : Prop :=
  ∃ hn ht ni ti rl, loop_at N (el_queue el) (el_notify el) (el_timer el) u todo hn ht ni ti rl.

(** What no call from a handler changes; messages are only added. *)
Record loop_frame el el' : Prop := {
  lf_events : el_events el' = el_events el;
  lf_config : el_config el' = el_config el;
  lf_capacity : slab_capacity (entries (el_timer el')) = slab_capacity (entries (el_timer el));
  lf_queue : m_queue (mpsc (el_notify el)) `prefix_of` m_queue (mpsc (el_notify el'));
  lf_awake : sleeping (el_queue el) = false → sleeping (el_queue el') = false }.

#[global] Instance loop_frame_preorder : PreOrder loop_frame.
Proof.
  split; [by split|]. intros el1 el2 el3 [Ha1 Hb1 Hc1 Hd1 He1] [Ha2 Hb2 Hc2 Hd2 He2]. split; try congruence; [by etrans|auto].
Qed.

(** A changed queue with the same or more queued nodes. *)
Lemma loop_at_queue N q q' c t u u' todo hn ht ni ti rl rl' :
  loop_at N q c t u todo hn ht ni ti rl → qok q' u' hn ht ni ti rl' → (∀ l, l ∈ rl → l ∈ rl') →
  loop_at N q' c t u' todo hn ht ni ti rl'.
Proof. intros [? ? ? ? ? ? ? ?] Hq Hsub. split; try done; naive_solver. Qed.

(** ** Code on the parts of the loop *)

Lemma wp_on_channel {X} (m : M (Chan C MSG RI RI (Queue A)) X) (Q : X → EL → Prop) el :
  wp m (λ x c, Q x (mkEventLoop (el_run el) (mkPoll (selector (el_poll el)) (c_world c)) (el_events el) (el_timer el)
    (el_shared el) (detach c) (el_config el) (el_clock el))) (attach (el_queue el) (el_notify el)) →
  wp (on_channel m) Q el.
Proof. intros (x & c & E & HQ)%wp_done. unfold wp, on_channel. by rewrite E. Qed.

Lemma wp_on_timer {X} (m : M (Sys S C TO RI RI (Queue A)) X) (Q : X → EL → Prop) el :
  wp m (λ x s, Q x (mkEventLoop (el_run el) (mkPoll (selector (el_poll el)) (world s)) (el_events el) (timer s)
    (shared s) (el_notify el) (el_config el) (el_clock el))) (loop_sys el) →
  wp (on_timer m) Q el.
Proof. intros (x & s & E & HQ)%wp_done. unfold wp, on_timer. fold (loop_sys el). by rewrite E. Qed.

(** ** Sending *)

(** Putting a message into a channel that has room. *)
Lemma wp_push msg N q c t u todo hn ht ni ti rl (Q : io_result unit → Chan C MSG RI RI (Queue A) → Prop) :
  loop_at N q c t u todo hn ht ni ti rl → m_full (mpsc c) = false →
  (∀ res c' ni' rl', loop_at N (c_world c') (detach c') t u todo hn ht ni' ti rl' →
    m_queue (mpsc c') = m_queue (mpsc c) ++ [msg] → grown q rl (c_world c') rl' → Q res c') →
  wp inc Q (set_mpsc (m_push msg (mpsc c)) (attach q c)).
Proof.
  intros Hl Hf HQ. pose proof Hl as [Hq Hc Ht Hnev Har Htd Htev Hroom].
  pose proof (co_pending _ _ Hc) as Hp. destruct (co_bound _ _ Hc) as (b & Hb & Hlen & Hmax).
  unfold m_full in Hf. rewrite Hb in Hf. apply Nat.leb_gt in Hf.
  eapply wp_inc_q; [exact (co_set _ _ Hc)|exact Hq|exact Hnev|cbn; lia|].
  intros res q' ni' rl' Hq' Hd' Hev' Hgr Hin. apply (HQ _ _ ni' rl'); [|done|done]. cbn in *.
  split; try done.
  - destruct Hc. split; cbn; try done.
    + rewrite length_app. cbn. lia.
    + exists b. rewrite length_app. cbn. split; [done|]. lia.
  - rewrite Hd'. destruct Har as [[Hd Hr]|Hr]; [left|by right]. split; [done|]. intros _.
    destruct (decide (pending c = 0)); [by apply Hin|]. apply Hgr, Hr. lia.
  - destruct Htev as [?|(? & [?|?])]; [by left|right; split; [done|left; by apply Hgr]|by right; eauto].
Qed.

Lemma wp_try_send msg N q c t u todo hn ht ni ti rl (Q : result (TrySendError MSG) unit → Chan C MSG RI RI (Queue A) → Prop) :
  loop_at N q c t u todo hn ht ni ti rl →
  (∀ r c' ni' rl', loop_at N (c_world c') (detach c') t u todo hn ht ni' ti rl' →
    m_queue (mpsc c') = m_queue (mpsc c) ++ (if m_full (mpsc c) then [] else [msg]) → grown q rl (c_world c') rl' → Q r c') →
  wp (SyncSender_try_send msg) Q (attach q c).
Proof.
  intros Hl HQ. pose proof Hl as [_ Hc _ _ _ _ _ _]. unfold wp, SyncSender_try_send, mpsc_try_send. cbn [mpsc attach].
  rewrite (co_recv _ _ Hc). destruct (m_full (mpsc c)) eqn:Ef.
  - eapply (HQ _ _ ni rl); cbn; [by destruct c as [? ? ? ? ? []]|by rewrite app_nil_r|apply grown_refl].
  - assert (wp inc (λ res c', ∀ r, Q r c') (set_mpsc (m_push msg (mpsc c)) (attach q c))) as (res & c' & E & HQ')%wp_done.
    { eapply wp_push; [exact Hl|done|]. intros res c' ni' rl' Hl' Hm Hg r. by eapply HQ. }
    rewrite E. cbn. destruct res; apply HQ'.
Qed.

Lemma send_ok msg N u todo el :
  LoopOk N u todo el →
  wp (Sender_send_msg msg) (λ r el', LoopOk N u todo el' ∧ loop_frame el el' ∧
    m_queue (mpsc (el_notify el')) =
      m_queue (mpsc (el_notify el)) ++ (if m_full (mpsc (el_notify el)) then [] else [msg])) el.
Proof.
  intros (hn & ht & ni & ti & rl & Hl). unfold Sender_send_msg. wp_step. apply wp_on_channel.
  eapply wp_try_send; [exact Hl|]. intros r c' ni' rl' Hl' Hm [Hg1 Hg2]. wp_step. split; [|split; [split|]]; cbn; try done.
  - by exists hn, ht, ni', ti, rl'.
  - rewrite Hm. by eexists.
Qed.
(** ** Timeouts *)

Lemma qok_live (q : Queue A) u hn ht ni ti rl h :
  qok q u hn ht ni ti rl → h ∈ loop_handles hn ht u → rd_live q h.
Proof.
  intros Hq Hh. destruct (qok_handle _ _ _ _ _ _ _ h Hq Hh) as (n & Hn & Hc).
  pose proof Hq as [(al & Hg) _ _ _ _ _]. split; [by exists al, rl, (cnt_of (loop_handles hn ht u))|].
  exists n. split; [done|]. by rewrite <- (live_count _ _ _ _ _ _ Hg Hn).
Qed.

Lemma loop_sys_inv N u todo hn ht ni ti rl el :
  loop_at N (el_queue el) (el_notify el) (el_timer el) u todo hn ht ni ti rl → sys_inv (loop_sys el).
Proof.
  intros Hl. pose proof Hl as [Hq _ Ht _ _ _ _ _]. split; [apply Ht|]. intros i. cbn. rewrite (tm_inner _ _ _ Ht).
  intros [= <-]. eapply (qok_live _ _ _ _ _ _ _ ht Hq). unfold loop_handles. set_solver.
Qed.

(** A timer with the same configuration, no later than [N]. *)
Lemma timer_ok_conf N N' t t' ht :
  timer_ok N t ht → same_conf t t' → timer_good t' → N <= N' → tick t' <= N' →
  Z.of_nat (size (abs t')) <= slab_capacity (entries t) → timer_ok N' t' ht.
Proof.
  intros [Hin Hg Htk Hsz Hck] (Hms & Hst & _ & Hin' & Hcap & _) Hg' HN Htk' Hsz'. split; [congruence|done|done|by rewrite Hcap|].
  intros n. rewrite Hms, Hst. destruct (Hck n). split; [done|lia].
Qed.

Lemma loop_at_timer N q c t t' u todo hn ht ni ti rl :
  loop_at N q c t u todo hn ht ni ti rl → timer_ok N t' ht → loop_at N q c t' u todo hn ht ni ti rl.
Proof. intros [] Ht. by split. Qed.

(** A delay that can be added to the time the loop has been running. *)
Definition delay_ok (delay : Duration) el : Prop :=
  ∀ n, ∃ d, duration_add (elapsed (start (el_timer el)) (clock n)) delay = Done d ∧ Duration_wf d.

Lemma timeout_ok token delay N u todo el :
  LoopOk N u todo el → delay_ok delay el →
  wp (EventLoop_timeout clock token delay) (λ r el', LoopOk N u todo el' ∧ loop_frame el el' ∧
    (is_ok r = true ↔ Z.of_nat (size (abs (el_timer el))) < slab_capacity (entries (el_timer el)))) el.
Proof.
  intros (hn & ht & ni & ti & rl & Hl) Hd. pose proof (loop_sys_inv _ _ _ _ _ _ _ _ _ Hl) as Hs.
  pose proof Hl as [_ _ Ht _ _ _ _ Hroom]. pose proof Ht as [Hin Hg Htk Hsz Hck].
  unfold EventLoop_timeout, now. wp_step. unfold wp at 1. apply wp_on_timer.
  match goal with |- wp _ _ ?s => change s with (loop_sys el) end.
  destruct (Hd (el_clock el)) as (d & Ed & Hwf). unfold wp at 1, set_timeout.
  change (timer (loop_sys el)) with (el_timer el). rewrite Ed. cbn [mbind outcome_bind].
  destruct (set_timeout_at_insert d token (loop_sys el) Hs ltac:(cbn; lia) Hwf) as [-> Hk].
  destruct (insert_step _ token (loop_sys el) Hs Hk) as (r & s' & -> & Hw & Hs' & Hcf & Htk' & Hcase). cbn in Hw, Htk', Hcase.
  split; [|split; [split|]]; cbn; try done.
  - exists hn, ht, ni, ti, rl. rewrite Hw. eapply loop_at_timer; [exact Hl|].
    eapply timer_ok_conf; [exact Ht|exact Hcf|apply Hs'|done|cbn in *; lia|].
    cbn [el_timer]. case_decide; [|by destruct Hcase as [_ ->]]. destruct Hcase as (tok & _ & Hfr & ->). rewrite map_size_insert_None by done. lia.
  - apply Hcf.
  - by rewrite Hw.
  - case_decide; [destruct Hcase as (tok & -> & _)|destruct Hcase as [-> _]]; done.
Qed.

Lemma clear_timeout_ok timeout N u todo el :
  LoopOk N u todo el →
  wp (clear_timeout timeout) (λ _ el', LoopOk N u todo el' ∧ loop_frame el el' ∧ abs (el_timer el') ⊆ abs (el_timer el)) el.
Proof.
  intros (hn & ht & ni & ti & rl & Hl). pose proof (loop_sys_inv _ _ _ _ _ _ _ _ _ Hl) as Hs.
  pose proof Hl as [_ _ Ht _ _ _ _ _]. unfold clear_timeout. wp_step. apply wp_on_timer.
  destruct (cancel_frame timeout (loop_sys el) Hs) as (o & t' & E & Hs' & Hcf & Htk & Hsub). cbn in Hcf, Htk, Hsub.
  unfold wp at 1. rewrite E. cbn [mbind outcome_bind]. wp_step. split; [|split; [split|]]; cbn; try done; [|apply Hcf].
  exists hn, ht, ni, ti, rl. eapply loop_at_timer; [exact Hl|].
  eapply timer_ok_conf; [exact Ht|exact Hcf|apply Hs'|done|cbn; rewrite Htk; apply Ht|].
  etrans; [|apply Ht]. apply inj_le, map_subseteq_size. done.
Qed.
(** ** Other calls of a handler *)

Lemma shutdown_ok N u todo el : LoopOk N u todo el → wp shutdown (λ _ el', LoopOk N u todo el' ∧ loop_frame el el') el.
Proof. intros Hl. split; [exact Hl|by split]. Qed.

(** An operation of the channel that leaves messages, counter and queue alone. *)
Lemma chan_senders_ok N q c t u todo hn ht ni ti rl d :
  loop_at N q c t u todo hn ht ni ti rl → 1 <= senders c + d <= U64_MAX →
  loop_at N q (mkChan (mkMpsc (m_queue (mpsc c)) (m_bound (mpsc c)) (m_senders (mpsc c) + d) (m_receiver (mpsc c)))
    (pending c) (senders c + d) (set_readiness c) (registration c) tt) t u todo hn ht ni ti rl.
Proof. intros [Hq [] Ht Hnev Har Htd Htev Hroom] Hd. split; try done. split; cbn; try done. lia. Qed.

(** Cloning a sender, as long as they can be counted. *)
Lemma loop_channel_ok N u todo el :
  LoopOk N u todo el → senders (el_notify el) < U64_MAX →
  wp EventLoop_channel (λ _ el', LoopOk N u todo el' ∧ loop_frame el el' ∧ senders (el_notify el') = senders (el_notify el) + 1 ∧
    el_timer el' = el_timer el) el.
Proof.
  intros (hn & ht & ni & ti & rl & Hl) Hs. pose proof (co_senders _ _ (la_c _ _ _ _ _ _ _ _ _ _ _ Hl)) as [Hms Hsn].
  unfold EventLoop_channel, LoopSender_new. wp_step. apply wp_on_channel. unfold SyncSender_clone, SenderCtl_clone. wp_steps. cbn.
  rewrite wrap64_id by (unfold is_u64; lia). split; [|by split; [split|]].
  exists hn, ht, ni, ti, rl. apply (chan_senders_ok _ _ _ _ _ _ _ _ _ _ _ 1 Hl). lia.
Qed.

(** Dropping a sender that is not the loop's own. *)
Lemma wp_drop_sender N q c t u todo hn ht ni ti rl (Q : unit → Chan C MSG RI RI (Queue A) → Prop) :
  loop_at N q c t u todo hn ht ni ti rl → 1 < senders c →
  (∀ c', loop_at N (c_world c') (detach c') t u todo hn ht ni ti rl → c_world c' = q →
    m_queue (mpsc c') = m_queue (mpsc c) → Q tt c') →
  wp Sender_drop Q (attach q c).
Proof.
  intros Hl Hs HQ. pose proof (co_senders _ _ (la_c _ _ _ _ _ _ _ _ _ _ _ Hl)) as [Hms Hsn].
  unfold Sender_drop, SenderCtl_drop. wp_steps. cbn [senders set_mpsc attach]. rewrite wrap64_id by (unfold is_u64; lia).
  replace (senders c =? 1) with false by lia. wp_step. apply HQ; [|done|done].
  apply (chan_senders_ok _ _ _ _ _ _ _ _ _ _ _ (-1) Hl). lia.
Qed.

(** Sources of events that only use the selector. *)
Definition selector_only {X} (m : M (Poll A Sel) X) : Prop :=
  ∀ p, ∃ x sel, m p = Done (x, mkPoll sel (readiness_queue p)).

Record fd_source (io : Evented (A := A) (Sel := Sel)) : Prop := {
  fs_register t i o : selector_only (e_register io t i o);
  fs_reregister t i o : selector_only (e_reregister io t i o);
  fs_deregister : selector_only (e_deregister io) }.

Lemma try_selector_only (m : M (Poll A Sel) (io_result unit)) : selector_only m → selector_only (try! m; mret (Ok tt)).
Proof. intros Hm p. rewrite try_unit. apply Hm. Qed.

Lemma guarded_selector_only (r : io_result unit) (m : M (Poll A Sel) (io_result unit)) : selector_only m → selector_only (try! mret r; try! m; mret (Ok tt)).
Proof. intros Hm p. destruct r as [[]|e]; [by apply try_selector_only|]. exists (Err e), (selector p). by destruct p. Qed.

Lemma loop_poll_ok {X} (m : M (Poll A Sel) X) N u todo el :
  LoopOk N u todo el → selector_only m → wp (on_loop_poll m) (λ _ el', LoopOk N u todo el' ∧ loop_frame el el') el.
Proof.
  intros Hl Hm. destruct (Hm (el_poll el)) as (x & sel & E). unfold wp, on_loop_poll. rewrite E. cbn. split; [exact Hl|by split].
Qed.

Lemma register_ok io token interest opts N u todo el : LoopOk N u todo el → fd_source io →
  wp (EventLoop_register io token interest opts) (λ _ el', LoopOk N u todo el' ∧ loop_frame el el') el.
Proof. intros Hl [Hr _ _]. apply loop_poll_ok; [done|]. apply guarded_selector_only, Hr. Qed.

Lemma reregister_ok io token interest opts N u todo el : LoopOk N u todo el → fd_source io →
  wp (EventLoop_reregister io token interest opts) (λ _ el', LoopOk N u todo el' ∧ loop_frame el el') el.
Proof. intros Hl [_ Hr _]. apply loop_poll_ok; [done|]. apply guarded_selector_only, Hr. Qed.

Lemma deregister_ok io N u todo el : LoopOk N u todo el → fd_source io →
  wp (EventLoop_deregister io) (λ _ el', LoopOk N u todo el' ∧ loop_frame el el') el.
Proof. intros Hl [_ _ Hr]. apply loop_poll_ok; [done|]. apply try_selector_only, Hr. Qed.

(** ** Handles of a handler's own *)

Definition on_loop_queue {X} (m : M (Queue A) X) : M EL X := on_loop_poll (on_queue m).

Lemma wp_on_loop_queue {X} (m : M (Queue A) X) (Q : X → EL → Prop) el :
  wp m (λ x q, Q x (set_queue q el)) (el_queue el) → wp (on_loop_queue m) Q el.
Proof. intros (x & q & E & HQ)%wp_done. unfold wp, on_loop_queue, on_loop_poll, on_queue. fold (el_queue el). by rewrite E. Qed.

(** The loop around a queue changed for others. *)
Lemma loop_requeue N u u' todo hn ht ni ti rl rl' q' el :
  loop_at N (el_queue el) (el_notify el) (el_timer el) u todo hn ht ni ti rl → qok q' u' hn ht ni ti rl' →
  grown (el_queue el) rl q' rl' → LoopOk N u' todo (set_queue q' el) ∧ loop_frame el (set_queue q' el).
Proof.
  intros Hl Hq [Hg1 Hg2]. split; [|by split]. exists hn, ht, ni, ti, rl'. by eapply loop_at_queue.
Qed.

Lemma user_set_ok h r N u todo el :
  LoopOk N u todo el → h ∈ u → is_drop r = false →
  wp (on_loop_queue (inner_set_readiness h r)) (λ _ el', LoopOk N u todo el' ∧ loop_frame el el') el.
Proof.
  intros (hn & ht & ni & ti & rl & Hl) Hh Hr. apply wp_on_loop_queue. eapply wp_set_u; [apply Hl|done|done|].
  intros res q' Hq' Hs. eapply loop_requeue; [exact Hl|exact Hq'|by apply grown_enqueue].
Qed.

Lemma user_new_ok p token interest opts N u todo el :
  LoopOk N u todo el →
  wp (on_loop_queue (Registration_new p token interest opts))
    (λ x el', LoopOk N (x.1 :: x.2 :: u) todo el' ∧ loop_frame el el') el.
Proof.
  intros (hn & ht & ni & ti & rl & Hl). apply wp_on_loop_queue. eapply wp_new_u; [apply Hl|].
  intros l q' Hq' Hs. cbn. eapply loop_requeue; [exact Hl|exact Hq'|by split].
Qed.

Lemma user_update_ok h p token interest opts N u todo el :
  LoopOk N u todo el → h ∈ u → sleeping (el_queue el) = false →
  wp (on_loop_queue (Registration_update h p token interest opts)) (λ _ el', LoopOk N u todo el' ∧ loop_frame el el') el.
Proof.
  intros Hlo Hh Hs. pose proof Hlo as (hn & ht & ni & ti & rl & Hl). apply wp_on_loop_queue.
  destruct (decide (p = h_queue h)) as [->|Hne].
  - eapply wp_update_handle; [apply Hl|unfold loop_handles; set_solver|done|]. intros q' j _ i Hq' Hs'.
    destruct (proj2 (qk_apart _ _ _ _ _ _ _ (la_q _ _ _ _ _ _ _ _ _ _ _ Hl)) h Hh). rewrite !decide_False in Hq' by done.
    eapply loop_requeue; [exact Hl|exact Hq'|by apply grown_enqueue].
  - unfold Registration_update, inner_update, registration_data_mut. replace (h_queue h =? p) with false by lia. cbn [negb].
    do 2 wp_step. eapply loop_requeue; [exact Hl|apply Hl|apply grown_refl].
Qed.

Lemma user_drop_ok (drop : RI → M (Queue A) unit) h N u todo el :
  drop = SetReadiness_drop ∨ drop = Registration_drop → LoopOk N (h :: u) todo el →
  wp (on_loop_queue (drop h)) (λ _ el', LoopOk N u todo el' ∧ loop_frame el el') el.
Proof.
  intros Hd (hn & ht & ni & ti & rl & Hl). apply wp_on_loop_queue.
  assert (∀ q' rl', qok q' u hn ht ni ti rl' → (∀ l, l ∈ rl → l ∈ rl') → (sleeping (el_queue el) = false → sleeping q' = false) →
    LoopOk N u todo (set_queue q' el) ∧ loop_frame el (set_queue q' el)) as Hfin.
  { intros q' rl' Hq' H1 H2. eapply loop_requeue; [exact Hl|exact Hq'|by split]. }
  destruct Hd as [-> | ->]; [eapply wp_drop_u|eapply wp_drop_registration_u]; try exact Hfin; apply Hl.
Qed.
(** ** What the loop itself does *)

(** An event is done with. *)
Lemma loop_at_done N N' q c t t' u evt todo hn ht ni ti rl :
  loop_at N q c t u (evt :: todo) hn ht ni ti rl →
  (Event.token evt = NOTIFY → i_data ni = notify_data ∧ (0 < pending c → h_node hn ∈ rl)) →
  (Event.token evt = TIMER → i_events ti = 0) → timer_ok N' t' ht → N' <= N + 1 →
  loop_at N' q c t' u todo hn ht ni ti rl.
Proof.
  intros [Hq Hc Ht Hnev Har Htd Htev Hroom] Hn Htm Ht' HN. cbn in Hroom. split; try done.
  - destruct Har as [?|[Hd Hin]]; [by left|]. rewrite fmap_cons, elem_of_cons in Hin. destruct Hin as [Hin|?]; [left; auto|by right].
  - destruct Htev as [?|[He [?|Hin]]]; [by left|by right; eauto|]. rewrite fmap_cons, elem_of_cons in Hin.
    destruct Hin as [Hin|?]; [left; auto|by right; eauto].
  - lia.
Qed.

Lemma timer_ok_mono N N' (t : LTimer) ht : timer_ok N t ht → N <= N' → timer_ok N' t ht.
Proof. intros [] HN. split; try done; [lia|]. intros n. destruct (tm_clock0 n). split; [done|lia]. Qed.

Lemma wp_try_recv (c : Chan C MSG RI RI (Queue A)) (Q : result TryRecvError MSG → Chan C MSG RI RI (Queue A) → Prop) :
  match mpsc_try_recv (mpsc c) with
  | (Ok msg, m) => wp dec (λ _, Q (Ok msg)) (set_mpsc m c)
  | (Err e, m) => Q (Err e) (set_mpsc m c)
  end → wp Receiver_try_recv Q c.
Proof.
  unfold wp at 2, Receiver_try_recv. destruct (mpsc_try_recv (mpsc c)) as [[msg|e] m]; [|done].
  intros (res & c' & -> & HQ)%wp_done. exact HQ.
Qed.

Lemma try_recv_loop N u todo el :
  LoopOk N u todo el →
  wp (on_channel Receiver_try_recv) (λ r el', LoopOk N u todo el' ∧
    el_events el' = el_events el ∧ el_config el' = el_config el ∧ (el_timer el' = el_timer el ∧ el_clock el' = el_clock el) ∧
    (sleeping (el_queue el) = false → sleeping (el_queue el') = false) ∧
    match r with
    | Ok msg => m_queue (mpsc (el_notify el)) = msg :: m_queue (mpsc (el_notify el'))
    | Err _ => m_queue (mpsc (el_notify el)) = [] ∧ m_queue (mpsc (el_notify el')) = []
    end) el.
Proof.
  intros (hn & ht & ni & ti & rl & Hl). pose proof Hl as [Hq Hc Ht Hnev Har Htd Htev Hroom]. apply wp_on_channel.
  pose proof (co_pending _ _ Hc) as Hp. destruct (co_bound _ _ Hc) as (b & Hb & Hlen & Hmax).
  apply wp_try_recv. unfold mpsc_try_recv. cbn [mpsc attach].
  destruct (m_queue (mpsc (el_notify el))) as [|msg rest] eqn:Em.
  - cbn. split_and!; try done. exists hn, ht, ni, ti, rl. by destruct (el_notify el) as [? ? ? ? ? []].
  - cbn [length] in Hp, Hlen.
    eapply wp_dec_q; [exact (co_set _ _ Hc)|exact Hq|exact Hnev|cbn; lia|]. intros res q' ni' rl' Hq' Hd' Hev' [Hg1 Hg2].
    cbn. split_and!; try done. exists hn, ht, ni', ti, rl'. split; try done.
    + destruct Hc. split; cbn; try done; [lia|]. exists b. split; [done|]. lia.
    + rewrite Hd'. destruct Har as [[Hd Hr]|?]; [left|by right]. split; [done|]. cbn. intros Hpos. apply Hg1, Hr. lia.
    + destruct Htev as [?|(? & [?|?])]; [by left|right; split; [done|left; by apply Hg1]|by right; eauto].
Qed.

(** Renewing the registration of the channel, after its event. *)
Lemma rearm_ok N u evt todo el :
  LoopOk N u (evt :: todo) el → Event.token evt = NOTIFY → sleeping (el_queue el) = false →
  wp reregister_notify (λ r el', r = Ok tt ∧ LoopOk (N + 1) u todo el' ∧ loop_frame el el' ∧
    (el_timer el' = el_timer el ∧ el_clock el' = el_clock el)) el.
Proof.
  intros (hn & ht & ni & ti & rl & Hl) Htok Hs. pose proof Hl as [Hq Hc Ht Hnev Har Htd Htev Hroom].
  unfold reregister_notify. change (validate_args NOTIFY Ready.readable) with (Ok (E:=io_error) tt). wp_steps. apply wp_on_channel.
  unfold Channel.reregister. unfold wp at 1. cbn [registration attach]. rewrite (co_reg _ _ Hc).
  cbn [reg_update queue_registration_ops c_world]. unfold poll_ref. rewrite <- (proj1 (qk_ids _ _ _ _ _ _ _ Hq)).
  assert (wp (Registration_update hn (h_queue hn) NOTIFY Ready.readable (PollOpt.edge |ₒ PollOpt.oneshot))
    (λ r q', r = Ok tt ∧ sleeping q' = false ∧ ∃ ni' rl', qok q' u hn ht ni' ti rl' ∧ i_data ni' = notify_data ∧
      i_events ni' = i_events ni ∧ (0 < pending (el_notify el) → h_node hn ∈ rl') ∧ ∀ l, l ∈ rl → l ∈ rl') (el_queue el))
    as (r & q' & E & -> & Hs' & ni' & rl' & Hq' & Hd' & Hev' & Hin & Hsub)%wp_done.
  { eapply wp_update_handle; [exact Hq|unfold loop_handles; set_solver|done|]. intros q' j Hj i Hq' Hs'.
    rewrite (qk_n _ _ _ _ _ _ _ Hq) in Hj. injection Hj as <-.
    rewrite decide_True, decide_False in Hq' by (done || exact (qok_ne _ _ _ _ _ _ _ Hq)).
    split; [done|]. split; [done|]. eexists _, _. split; [exact Hq'|]. do 2 (split; [done|]). split.
    - intros Hpos. rewrite Hnev. unfold ready_of. replace (0 <? _) with true by lia. apply enqueue_in. by left.
    - intros l Hlr. case_match; [done|]. apply enqueue_in. by right. }
  change (c_world (attach (el_queue el) (el_notify el))) with (el_queue el). rewrite E. cbn. split; [done|]. split; [|by split; [split|]]. exists hn, ht, ni', ti, rl'. cbn.
  assert (loop_at N q' (el_notify el) (el_timer el) u (evt :: todo) hn ht ni' ti rl') as Hl'.
  { split; try done; [congruence|by left|]. destruct Htev as [?|(? & [?|?])]; [by left|right; split; [done|left; by apply Hsub]|by right; eauto]. }
  assert (detach (set_c_world q' (attach (el_queue el) (el_notify el))) = el_notify el) as -> by (by destruct (el_notify el) as [? ? ? ? ? []]).
  eapply loop_at_done; [exact Hl'|done| |eapply timer_ok_mono; [exact Ht|lia]|lia]. by rewrite Htok.
Qed.

(** One round of [timer_process]. *)
Lemma timer_round_ok N u evt todo el :
  LoopOk N u (evt :: todo) el → Event.token evt = TIMER →
  wp (t ← now clock; on_timer (Timer.poll t)) (λ o el', loop_frame el el' ∧
    m_queue (mpsc (el_notify el')) = m_queue (mpsc (el_notify el)) ∧
    match o with
    | Some st => LoopOk N u (evt :: todo) el' ∧ (size (abs (el_timer el')) < size (abs (el_timer el)))%nat
    | None => LoopOk (N + 1) u todo el'
    end) el.
Proof.
  intros (hn & ht & ni & ti & rl & Hl) Htok. pose proof (loop_sys_inv _ _ _ _ _ _ _ _ _ Hl) as Hs.
  pose proof Hl as [Hq Hc Ht Hnev Har Htd Htev Hroom]. pose proof Ht as [Hin Hg Htk Hsz Hck]. cbn in Hroom.
  destruct (Hck (el_clock el)) as [Hwf Hlt]. unfold now. wp_step. unfold wp at 1. apply wp_on_timer.
  match goal with |- wp _ _ ?s => change s with (loop_sys el) end.
  set (target := tick_of (tick_ms (el_timer el)) (elapsed (start (el_timer el)) (clock (el_clock el)))) in *.
  assert (horizon target (tick (timer (loop_sys el))) <= N) as HM by (unfold horizon; cbn; lia).
  destruct (poll_to_ok target (loop_sys el) Hs ltac:(lia)) as (o & s' & E & Hs' & Hcf & Hcase).
  unfold wp at 1, Timer.poll, current_tick. change (timer (loop_sys el)) with (el_timer el).
  rewrite duration_to_tick_ok by (done || apply Hg). fold target. cbn [mbind outcome_bind]. rewrite E.
  destruct Hcase as [(-> & (Htk' & _ & Ha & _) & Hid)|[(x & k & st & Hx & -> & Hk & Htk' & _ & Ha & _) [_ Hw]]].
  - unfold idle_effect in Hid. change (timer (loop_sys el)) with (el_timer el) in Hid. rewrite Hin in Hid.
    destruct Hid as (res & n & Ew & _). cbn [i_set_readiness rd_set_readiness queue_readiness_ops world loop_sys] in Ew.
    assert (wp (inner_set_readiness ht Ready.none) (λ _ q', qok q' u hn ht ni (set_events Ready.none ti) rl ∧
      (sleeping (el_queue el) = false → sleeping q' = false)) (el_queue el)) as (res' & q' & Ew' & Hq' & Hsl)%wp_done.
    { eapply wp_set_t; [exact Hq|done|]. auto. }
    rewrite Ew in Ew'. injection Ew' as -> ->. cbn. split; [split; cbn; try done; apply Hcf|]. split; [done|].
    exists hn, ht, ni, (set_events Ready.none ti), rl. cbn.
    assert (timer_ok (N + 1) (timer s') ht) as Ht'.
    { eapply timer_ok_conf; [exact Ht|exact Hcf|apply Hs'|lia| |]; [rewrite Htk'; lia|]. rewrite Ha. done. }
    eapply (loop_at_done N _ _ _ (el_timer el)); [|rewrite Htok; done|done|exact Ht'|lia]. split; try done. by left.
  - cbn in Hw. cbn. rewrite Hw. split; [split; cbn; try done; apply Hcf|]. split; [done|]. split.
    + exists hn, ht, ni, ti, rl. cbn. eapply loop_at_timer; [exact Hl|].
      eapply timer_ok_conf; [exact Ht|exact Hcf|apply Hs'|done| |]; [rewrite Htk'; lia|].
      rewrite Ha. rewrite map_size_delete_Some by eauto. change (timer (loop_sys el)) with (el_timer el). cbn in Hsz |- *. lia.
    + rewrite Ha. change (timer (loop_sys el)) with (el_timer el) in *. rewrite map_size_delete_Some by eauto.
      assert (size (abs (el_timer el)) ≠ 0)%nat; [|lia]. intros H0%map_size_empty_inv. rewrite H0 in Hx. done.
Qed.
End loop.
