(* ===== verification/LoopPoll.v ===== *)
(** * Polling from the event loop

    What the loop needs from the platform; what other threads do while the loop is
    in the selector, as sequences of operations on the parts they share with it;
    and the loop's call of [Poll::poll], which turns queued nodes into events. *)

From S2P Require Import Prelude Event Convert DList Iface Timer TimerInv TimerOps TimerPoll TimerSpec TimerThm.
From S2P Require Import ReadyQueue QueueInv QueueOps QueuePoll Poll PollThm Handles Channel ChannelThm UnixIo EventLoop EventLoopThm LoopInv LoopOps.

(** ** What the loop needs from the platform *)

(** The buffer of events is a list; an event put into it keeps its token. *)
Class SysEventsSpec (V : Type) : Type := { ev_list : V → list Event.t }.
Class SysEventsLaws (V : Type) `{SysEventsOps V, SysEventsSpec V} : Prop := {
  ev_len_list v : ev_len v = Z.of_nat (length (ev_list v));
  ev_get_list v i : 0 <= i → ev_get v i = ev_list v !! Z.to_nat i;
  ev_push_list e v : ∃ k, ev_list (ev_push e v) = ev_list v ++ [Event.new k (Event.token e)] }.

(** The selector returns, with a result or an error. *)
Definition timeout_wf (timeout : option Duration) : Prop := from_option Duration_wf True timeout.
Class SelectorTotal (Sel V : Type) `{SelectorOps Sel V} : Prop := {
  sel_total evs awakener timeout s : timeout_wf timeout →
    ∃ r evs' s', sel_select evs awakener timeout s = Done ((r, evs'), s') }.

Section events.
Context {V : Type} {ev_ops : SysEventsOps V} {ev_spec : SysEventsSpec V} {ev_laws : SysEventsLaws V}.

Lemma ev_push_tokens evs l :
  tokens (ev_list (foldl (λ d e, ev_push e d) evs l)) = tokens (ev_list evs) ++ tokens l.
Proof.
  revert evs. induction l as [|e l IH]; intros evs; cbn [foldl]; [by rewrite app_nil_r|].
  rewrite IH. destruct (ev_push_list e evs) as [k ->]. by rewrite fmap_app, <- app_assoc.
Qed.
End events.

Lemma visited_event m rl l i e : l ∈ rl → m !! l = Some i → node_event i = Some e → e ∈ visited_events m rl.
Proof. intros Hl Hi He. unfold visited_events. apply list_elem_of_omap. exists l. by rewrite Hi. Qed.

(** ** Other threads *)

(** What other threads do while the loop is in the selector: those with a sender
    use it (there is one besides the loop's own if there are two), the timer's
    thread announces a timeout or changes the word it shares, and readiness is set
    through handles [u]. *)
Inductive Act (MSG : Type) : Type :=
  | ASend (msg : MSG)
  | AClone
  | ADrop
  | AWake
  | AShared (sh : Shared)
  | ASet (h : RegistrationInner) (r : Ready.t).
Arguments ASend {MSG} _.
Arguments AClone {MSG}.
Arguments ADrop {MSG}.
Arguments AWake {MSG}.
Arguments AShared {MSG} _.
Arguments ASet {MSG} _ _.

Definition act_ok {MSG} (u : list RegistrationInner) (a : Act MSG) : Prop :=
  match a with ASet h r => h ∈ u ∧ is_drop r = false | _ => True end.

Definition is_wake {MSG} (a : Act MSG) : bool := match a with AWake => true | _ => false end.

Section loop.
Context {S : Type → Type} {slab_ops : SlabOps S} {slab_spec : SlabSpec S} {slab_laws : SlabLaws S}.
Context {C : Type → Type} {cell_ops : LazyCellOps C} {cell_laws : LazyCellLaws C}.
Context {A : Type} {awk_ops : AwakenerOps A}.
Context {V : Type} {ev_ops : SysEventsOps V} {ev_spec : SysEventsSpec V} {ev_laws : SysEventsLaws V}.
Context {Sel : Type} {sel_ops : SelectorOps Sel V} {sel_tot : SelectorTotal Sel V}.
Context {TO MSG : Type} (clock : nat → Instant).
Abbreviation RI := RegistrationInner.
Abbreviation EL := (EventLoop S C A V Sel TO MSG).
Abbreviation LTimer := (Timer S C TO RI RI).
Abbreviation LChan := (Chan C MSG RI RI unit).
Implicit Types el : EL.

(** Code of the channel, on the parts threads share. *)
Definition share_channel {X} (m : M (Chan C MSG RI RI (Queue A)) X) : Others (C:=C) (A:=A) (MSG:=MSG) := λ '(q, c, sh),
  match m (attach q c) with Done (_, c) => (c_world c, detach c, sh) | _ => (q, c, sh) end.
Definition share_queue {X} (m : M (Queue A) X) : Others (C:=C) (A:=A) (MSG:=MSG) := λ '(q, c, sh),
  match m q with Done (_, q) => (q, c, sh) | _ => (q, c, sh) end.

(** [th]: the handle of the timer's thread. *)
Definition run_act (th : option RI) (a : Act MSG) : Others (C:=C) (A:=A) (MSG:=MSG) := λ '(q, c, sh),
  match a with
  | ASend msg => if 1 <? senders c then share_channel (SyncSender_try_send msg) (q, c, sh) else (q, c, sh)
  | AClone => if (1 <? senders c) && (senders c <? U64_MAX) then share_channel Sender_clone (q, c, sh) else (q, c, sh)
  | ADrop => if 1 <? senders c then share_channel Sender_drop (q, c, sh) else (q, c, sh)
  | AWake => match th with Some h => share_queue (inner_set_readiness h Ready.readable) (q, c, sh) | None => (q, c, sh) end
  | AShared sh' => (q, c, sh')
  | ASet h r => share_queue (inner_set_readiness h r) (q, c, sh)
  end.
Definition others_of (th : option RI) (acts : list (Act MSG)) : Others (C:=C) (A:=A) (MSG:=MSG) := λ s,
  foldl (λ s a, run_act th a s) s acts.

Definition timer_handle el : option RI := i_set_readiness <$> lazy_borrow (inner (el_timer el)).

(** If [due], the timer has been announced as ready. *)
Definition shares_ok (due : bool) (N : Z) (u : list RI) (t : LTimer) (s : Shares (C:=C) (A:=A) (MSG:=MSG)) : Prop :=
  ∃ hn ht ni ti rl, loop_at clock N s.1.1 s.1.2 t u [] hn ht ni ti rl ∧ (due = true → i_events ti ≠ 0).

(** The messages of [c] are the first of those of [c']. *)
Definition more_messages (c c' : LChan) : Prop := m_queue (mpsc c) `prefix_of` m_queue (mpsc c').

Lemma share_channel_ok {X} (m : M (Chan C MSG RI RI (Queue A)) X) due N u (t : LTimer) q (c : LChan) sh :
  wp m (λ _ c', shares_ok due N u t (c_world c', detach c', sh) ∧ more_messages c (detach c')) (attach q c) →
  shares_ok due N u t (share_channel m (q, c, sh)) ∧ more_messages c (share_channel m (q, c, sh)).1.2.
Proof. intros (x & c' & E & H)%wp_done. unfold share_channel. by rewrite E. Qed.

Lemma share_queue_ok {X} (m : M (Queue A) X) due N u (t : LTimer) q (c : LChan) sh :
  wp m (λ _ q', shares_ok due N u t (q', c, sh)) q →
  shares_ok due N u t (share_queue m (q, c, sh)) ∧ more_messages c (share_queue m (q, c, sh)).1.2.
Proof. intros (x & q' & E & H)%wp_done. unfold share_queue. rewrite E. split; [done|]. by unfold more_messages. Qed.

Lemma run_act_ok a due N u (t : LTimer) s :
  shares_ok due N u t s → act_ok u a →
  let s' := run_act (i_set_readiness <$> lazy_borrow (inner t)) a s in
  shares_ok (due || is_wake a) N u t s' ∧ more_messages s.1.2 s'.1.2.
Proof.
  intros Hs Ha s'. destruct s as [[q c] sh]. subst s'. pose proof Hs as (hn & ht & ni & ti & rl & Hl & Hdue). cbn in Hl.
  assert (shares_ok (due || false) N u t (q, c, sh) ∧ more_messages c c) as Hsame by (rewrite orb_false_r; split; [done|by unfold more_messages]).
  pose proof (co_senders _ _ (la_c _ _ _ _ _ _ _ _ _ _ _ _ Hl)) as [Hms Hsn].
  rewrite <- (orb_false_r due) in Hdue. destruct a as [msg| | | |sh'|h r]; cbn [run_act fst snd is_wake].
  - destruct (1 <? senders c); [|done]. apply share_channel_ok. eapply wp_try_send; [exact Hl|].
    intros r c' ni' rl' Hl' Hm _. split; [by exists hn, ht, ni', ti, rl'|]. unfold more_messages. cbn. rewrite Hm. by eexists.
  - destruct ((1 <? senders c) && (senders c <? U64_MAX)) eqn:E; [|done]. zbool. apply share_channel_ok.
    unfold Sender_clone, SenderCtl_clone. wp_steps. cbn. rewrite wrap64_id by (unfold is_u64; lia).
    split; [|by unfold more_messages]. exists hn, ht, ni, ti, rl. split; [|done]. apply (chan_senders_ok _ _ _ _ _ _ _ _ _ _ _ _ 1 Hl). lia.
  - destruct (1 <? senders c) eqn:E; [|done]. zbool. apply share_channel_ok. eapply wp_drop_sender; [exact Hl|done|].
    intros c' Hl' _ Hm. split; [by exists hn, ht, ni, ti, rl|]. unfold more_messages. cbn. by rewrite Hm.
  - rewrite (tm_inner _ _ _ _ (la_t _ _ _ _ _ _ _ _ _ _ _ _ Hl)). cbn [fmap option_fmap option_map i_set_readiness].
    apply share_queue_ok. pose proof Hl as [Hq Hc Ht Hnev Har Htd Htev Hroom].
    eapply wp_set_t; [exact Hq|done|]. intros res q' Hq' Hsl. exists hn, ht, ni, (set_events Ready.readable ti), (enqueue (h_node ht) rl).
    split; [|done]. split; try done; cbn.
    + destruct Har as [[Hd Hr]|[_ Hin]]; [|by apply elem_of_nil in Hin]. left. split; [done|].
      intros Hp. apply enqueue_in. right. auto.
    + right. split; [done|]. left. apply enqueue_in. by left.
  - split; [by exists hn, ht, ni, ti, rl|by unfold more_messages].
  - destruct Ha as [Hh Hr]. apply share_queue_ok. eapply wp_set_u; [apply Hl|done|done|]. intros res q' Hq' Hsl.
    exists hn, ht, ni, ti, (if is_empty r then rl else enqueue (h_node h) rl). split; [|done]. eapply loop_at_queue; [exact Hl|exact Hq'|].
    by apply (proj1 (grown_enqueue q rl q' _ _ Hsl)).
Qed.

Lemma others_ok acts N u (t : LTimer) : ∀ due s,
  shares_ok due N u t s → Forall (act_ok u) acts →
  let s' := others_of (i_set_readiness <$> lazy_borrow (inner t)) acts s in
  shares_ok (due || existsb is_wake acts) N u t s' ∧ more_messages s.1.2 s'.1.2.
Proof.
  induction acts as [|a acts IH]; intros due s Hs Ha; cbn; [rewrite orb_false_r; split; [done|by unfold more_messages]|].
  apply Forall_cons in Ha as [Ha Has]. destruct (run_act_ok a due N u t s Hs Ha) as [Hs1 Hm1].
  destruct (IH _ _ Hs1 Has) as [Hs2 Hm2]. split; [by rewrite orb_assoc|]. unfold more_messages in *. by etrans.
Qed.
(** ** Polling *)

Lemma entered_qok timeout (q : Queue A) u hn ht ni ti rl :
  qok q u hn ht ni ti rl → qok (entered timeout q) u hn ht ni ti rl.
Proof.
  intros [(al & Hg) Hl Hn Ht Hi Ha]. unfold entered. rewrite poll_timeout_eq. case_decide as Hh; [|by split; eauto].
  split; try done. exists al. rewrite (empty_ready _ _ _ _ Hg Hh). by eapply sleep_good.
Qed.

(** What a poll makes of the channel's node, and of the timer's. *)
Lemma visit_notify l rl n : 
  visit l rl (mkInfo notify_data (as_usize (ready_of n))) =
    mkInfo (if decide (l ∈ rl) then if 0 <? n then RegistrationData_disable notify_data else notify_data else notify_data)
      (as_usize (ready_of n)).
Proof. unfold visit, ready_of. case_decide; [|done]. by destruct (0 <? n). Qed.

Lemma visit_timer l rl z : z = 0 ∨ z = as_usize Ready.readable → visit l rl (mkInfo timer_data z) = mkInfo timer_data z.
Proof. intros [-> | ->]; unfold visit; by case_decide. Qed.

(** The loop after the readiness queue has been polled into a buffer. *)
Lemma polled_ok N (q : Queue A) (c : LChan) (t : LTimer) u hn ht ni ti rl evs :
  loop_at clock N q c t u [] hn ht ni ti rl →
  wp (queue_poll ev_push evs) (λ evs' q', sleeping q' = false ∧ let l := ev_list evs' in
    (N + Z.of_nat (length l) < U64_MAX → ∃ hn ht ni ti rl, loop_at clock N q' c t u l hn ht ni ti rl) ∧
    (0 < pending c → NOTIFY ∈ tokens l) ∧ (i_events ti ≠ 0 → TIMER ∈ tokens l)) q.
Proof.
  intros [Hq Hc Ht Hnev Har Htd Htev Hroom]. eapply wp_poll_q; [exact Hq|]. intros q' Hq' Hs. split; [done|].
  destruct Har as [[Hd Hr]|[_ Hin]]; [|by apply elem_of_nil in Hin].
  assert (ni = mkInfo notify_data (as_usize (ready_of (pending c)))) as Hni by (destruct ni; cbn in *; by subst).
  assert (0 < pending c → NOTIFY ∈ tokens (ev_list (foldl (λ d e, ev_push e d) evs (visited_events (nodes q) rl)))) as HN.
  { intros Hp. rewrite ev_push_tokens. apply elem_of_app. right. apply list_elem_of_fmap. exists (Event.new Ready.readable NOTIFY).
    split; [done|]. eapply visited_event; [by apply Hr|by apply Hq|]. rewrite Hni. unfold ready_of.
    replace (0 <? pending c) with true by lia. done. }
  assert (i_events ti ≠ 0 → TIMER ∈ tokens (ev_list (foldl (λ d e, ev_push e d) evs (visited_events (nodes q) rl)))) as HT.
  { intros He. destruct Htev as [?|(Hev & [Hin|Hin])]; [done| |by apply elem_of_nil in Hin].
    rewrite ev_push_tokens. apply elem_of_app. right. apply list_elem_of_fmap. exists (Event.new Ready.readable TIMER).
    split; [done|]. eapply visited_event; [exact Hin|by apply Hq|]. destruct ti as [dt et]. cbn in *. by subst. }
  split; [|done]. intros Hroom'. exists hn, ht, (visit (h_node hn) rl ni), (visit (h_node ht) rl ti), (visited_ready (nodes q) rl).
  assert (visit (h_node ht) rl ti = ti) as Hti.
  { destruct ti as [dt et]. cbn in *. subst dt. apply visit_timer. destruct Htev as [?|[? _]]; auto. }
  rewrite Hni, visit_notify in *. rewrite Hti in *. split; try done.
  - cbn. destruct (decide (0 < pending c)) as [Hp|Hp].
    + right. rewrite decide_True by auto. replace (0 <? pending c) with true by lia. auto.
    + left. replace (0 <? pending c) with false by lia. by case_decide.
  - destruct (decide (i_events ti = 0)); [by left|]. right. split; [by destruct Htev as [?|[? _]]|auto].
Qed.

(** The parts of the loop that a poll leaves alone. *)
Record poll_frame el el' : Prop := {
  pf_config : el_config el' = el_config el;
  pf_timer : el_timer el' = el_timer el;
  pf_run : el_run el' = el_run el;
  pf_clock : el_clock el' = el_clock el;
  pf_messages : more_messages (el_notify el) (el_notify el') }.

Definition buffer el : list Event.t := ev_list (ev_inner (el_events el)).

(** What a poll of the loop returned and did; [wake]: a timeout was announced. *)
Definition polled_loop (wake : bool) (N : Z) (u : list RI) el (r : io_result Z) el' : Prop :=
  poll_frame el el' ∧
  match r with
  | Ok n => n = Z.of_nat (length (buffer el')) ∧ sleeping (el_queue el') = false ∧
      (N + n < U64_MAX → LoopOk clock N u (buffer el') el') ∧
      (m_queue (mpsc (el_notify el')) ≠ [] → NOTIFY ∈ tokens (buffer el')) ∧
      (wake = true → TIMER ∈ tokens (buffer el'))
  | Err _ => LoopOk clock N u [] el'
  end.

Lemma io_poll_ok acts timeout N u el :
  LoopOk clock N u [] el → Forall (act_ok u) acts → timeout_wf timeout →
  wp (io_poll (others_of (timer_handle el) acts) timeout) (polled_loop (existsb is_wake acts) N u el) el.
Proof.
  intros (hn & ht & ni & ti & rl & Hl) Ha Hto. unfold wp, io_poll, polled_loop.
  assert (shares_ok false N u (el_timer el) (entered timeout (el_queue el), el_notify el, el_shared el)) as Hs0.
  { exists hn, ht, ni, ti, rl. cbn. split; [|done]. destruct Hl. split; try done. by apply entered_qok. }
  destruct (others_ok acts N u (el_timer el) false _ Hs0 Ha) as [Hs1 Hm]. fold (timer_handle el) in Hs1, Hm.
  destruct (others_of (timer_handle el) acts _) as [[q c] sh]. cbn in Hm.
  destruct Hs1 as (hn1 & ht1 & ni1 & ti1 & rl1 & Hl1 & Hdue). cbn in Hl1, Hdue.
  unfold Poll_poll. rewrite poll_timeout_on. cbn [mbind outcome_bind selector readiness_queue].
  match goal with |- context [sel_select ?v ?t ?d ?s] => destruct (sel_total v t d s) as (r & evs & sel & Esel) end.
  { case_match; [done|]. cbn. apply (bool_decide_unpack _). by vm_compute. }
  rewrite Esel. cbn [mbind outcome_bind]. destruct r as [awoken|e].
  2:{ cbn. split; [by split|]. by exists hn1, ht1, ni1, ti1, rl1. }
  set (q1 := if awoken then set_awakener (awk_cleanup (awakener q)) q else q).
  assert (loop_at clock N q1 c (el_timer el) u [] hn1 ht1 ni1 ti1 rl1) as Hl2.
  { subst q1. destruct awoken; [|done]. destruct Hl1 as [Hq ? ? ? ? ? ? ?]. split; try done.
    destruct Hq as [(al & [[] Hz]) ? ? ? ? ?]. split; try done. exists al. by split. }
  destruct (proj1 (wp_done _ _ _) (polled_ok _ _ _ _ _ _ _ _ _ _ evs Hl2)) as (evs' & q2 & E & Hsl & Hok & Hnt & Htt).
  replace (if awoken then _ else _) with (mkPoll sel q1) by (subst q1; by destruct awoken).
  unfold on_queue. cbn [readiness_queue]. rewrite E. cbn. unfold buffer. cbn. unfold Events_len. cbn. rewrite ev_len_list.
  split; [by split|]. split; [done|]. split; [done|]. split; [done|]. split; [|auto]. intros Hne. apply Hnt.
  rewrite (co_pending _ _ (la_c _ _ _ _ _ _ _ _ _ _ _ _ Hl2)). destruct (m_queue (mpsc c)); [done|]. cbn. lia.
Qed.
End loop.
