(* ===== verification/LoopNew.v ===== *)
(** * Making an event loop

    [EventLoop::configured] registers the notification channel and the timer with
    the readiness queue of the [Poll] it is given; the result is well formed. *)

From S2P Require Import Prelude Event Convert DList Iface Timer TimerInv TimerOps TimerPoll TimerSpec TimerThm.
From S2P Require Import ReadyQueue QueueInv QueueOps QueuePoll Poll PollThm Handles Channel ChannelThm UnixIo EventLoop EventLoopThm LoopInv LoopOps LoopPoll.

Section loop.
Context {S : Type → Type} {slab_ops : SlabOps S} {slab_spec : SlabSpec S} {slab_laws : SlabLaws S}.
Context {C : Type → Type} {cell_ops : LazyCellOps C} {cell_laws : LazyCellLaws C}.
Context {A : Type} {awk_ops : AwakenerOps A}.
Context {V : Type} {ev_ops : SysEventsOps V} {ev_spec : SysEventsSpec V} {ev_laws : SysEventsLaws V}.
Context {Sel : Type} {sel_ops : SelectorOps Sel V} {sel_tot : SelectorTotal Sel V}.
Context {TO MSG : Type} (clock : nat → Instant).
Abbreviation RI := RegistrationInner.
Abbreviation EL := (EventLoop S C A V Sel TO MSG).
Abbreviation LTimer := (Timer S C TO RI RI).
Abbreviation LChan := (Chan C MSG RI RI unit).
Implicit Types el : EL.

(** A queue whose handles are [u]. *)
Definition qown (q : Queue A) (u : list RI) (rl : list loc) : Prop :=
  (∃ al, queue_good q al rl (cnt_of u)) ∧ ∀ h, h ∈ u → is_Some (heap q !! h_node h).

Lemma qown_perm q u u' rl : u ≡ₚ u' → qown q u rl → qown q u' rl.
Proof.
  intros Hp [(al & Hg) Hl]. split; [|by setoid_rewrite <- Hp]. exists al. eapply queue_good_cnt; [exact Hg|].
  intros l _. by apply cnt_of_perm.
Qed.

Lemma qown_new token interest opts q u rl (Q : RI * RI → Queue A → Prop) :
  qown q u rl →
  (∀ l q', let h := mkHandle (q_id q) l in heap q !! l = None → qown q' (h :: h :: u) rl →
    nodes q' = <[l := mkInfo (mkData token interest opts) 0]> (nodes q) → q_id q' = q_id q → Q (h, h) q') →
  wp (Registration_new (q_id q) token interest opts) Q q.
Proof.
  intros [(al & Hg) Hl] HQ. eapply wp_registration_new; [exact Hg|]. intros l q' Hx Hg' Hnq [He _] _.
  apply HQ; [done| |done|done]. split.
  - exists (l :: al). eapply queue_good_cnt; [exact Hg'|]. intros y _. rewrite !cnt_of_cons. cbn [h_node]. unfold upd.
    destruct (decide (l = y)) as [<-|]; [|lia]. rewrite cnt_of_unused; [lia|]. intros h Hh <-. destruct (Hl h Hh). congruence.
  - intros h [->|[->|Hh]%elem_of_cons]%elem_of_cons; [apply nodes_dom; rewrite Hnq, lookup_insert_eq; eauto..|].
    eapply heap_of_insert; [exact Hnq|auto].
Qed.

Lemma qown_clone h q u rl (Q : RI → Queue A → Prop) :
  qown q u rl → h ∈ u → cnt_of u (h_node h) < MAX_REFCOUNT →
  (∀ q', qown q' (h :: u) rl → nodes q' = nodes q → q_id q' = q_id q → Q h q') →
  wp (inner_clone h) Q q.
Proof.
  intros [(al & Hg) Hl] Hh Hc HQ. destruct (Hl h Hh) as [n Hn]. pose proof (cnt_of_in _ _ Hh).
  eapply wp_clone; [exact Hg|exact Hn|done|]. intros q' Hg' Hnq [He _] _ _. apply HQ; [|done|done]. split.
  - exists al. eapply queue_good_cnt; [exact Hg'|]. intros y _. rewrite cnt_of_cons. unfold upd. destruct (decide (h_node h = y)) as [<-|]; lia.
  - intros g [->|Hgu]%elem_of_cons; eapply heap_of_nodes; eauto.
Qed.

(** The channel is registered before any message is sent. *)
Lemma notify_registered q u rl (b : nat) :
  qown q u rl →
  wp (Channel.register (q_id q) NOTIFY Ready.readable (PollOpt.edge |ₒ PollOpt.oneshot)) (λ r c', r = Ok tt ∧
    ∃ hn ch cr q', c' = mkChan (mkMpsc [] (Some b) 1 true) 0 1 ch cr q' ∧ lazy_borrow ch = Some hn ∧ lazy_borrow cr = Some hn ∧
      qown q' (hn :: hn :: u) rl ∧ nodes q' !! h_node hn = Some (mkInfo notify_data 0) ∧ h_queue hn = q_id q ∧ q_id q' = q_id q ∧
      (∀ h, h ∈ u → h_node h ≠ h_node hn))
    (attach q (sync_channel b tt : LChan)).
Proof.
  intros Hq. pose proof Hq as [_ Hlive].
  assert (wp (Registration_new (q_id q) NOTIFY Ready.readable (PollOpt.edge |ₒ PollOpt.oneshot)) (λ x q', ∃ hn, x = (hn, hn) ∧
    qown q' (hn :: hn :: u) rl ∧ nodes q' !! h_node hn = Some (mkInfo notify_data 0) ∧ h_queue hn = q_id q ∧ q_id q' = q_id q ∧
    ∀ h, h ∈ u → h_node h ≠ h_node hn) q) as (x & q' & E & hn & -> & Hown & Hnode & Hid & Hq' & Hfr)%wp_done.
  { eapply qown_new; [exact Hq|]. intros l q' h Hx Hown Hnq He. exists h. split; [done|]. split; [done|].
    split; [by rewrite Hnq, lookup_insert_eq|]. split; [done|]. split; [done|].
    intros g Hg Heq. destruct (Hlive g Hg). cbn in Heq. congruence. }
  unfold wp, Channel.register, attach, sync_channel, ctl_pair. cbn [mpsc pending senders set_readiness registration c_world].
  rewrite lazy_borrow_new. cbn [reg_new queue_registration_ops]. rewrite E. cbn [mbind outcome_bind].
  change (0 <? 0) with false. cbn [mbind outcome_bind].
  destruct (lazy_fill_empty lazy_new hn lazy_borrow_new) as (cr & -> & Hcr).
  split; [done|]. exists hn, cr, cr, q'. done.
Qed.

Lemma timer_good_inner (t : LTimer) ch : timer_good t → timer_good (set_inner t ch).
Proof.
  intros [(ls & pre & suf & Hwi & Hcur & Hbo) Hms Hw He]. split; [|done|done|done].
  exists ls, pre, suf. split; [|done]. destruct Hwi. by split.
Qed.

(** So is the timer, before any timeout is set. *)
Lemma timer_registered q u rl (t : LTimer) sh :
  qown q u rl → timer_good t → bounds_full t → lazy_borrow (inner t) = None →
  wp (Timer.register (q_id q) TIMER Ready.readable PollOpt.edge) (λ r s', r = Ok tt ∧
    ∃ ht ch, timer s' = set_inner t ch ∧ lazy_borrow ch = Some (mkInner ht ht) ∧
      qown (world s') (ht :: ht :: ht :: u) rl ∧ nodes (world s') !! h_node ht = Some (mkInfo timer_data 0) ∧ h_queue ht = q_id q ∧
      q_id (world s') = q_id q ∧ (∀ h, h ∈ u → h_node h ≠ h_node ht) ∧
      ∀ l, l ≠ h_node ht → nodes (world s') !! l = nodes q !! l) (mkSys t sh q).
Proof.
  intros Hq Hg Hb Hin. pose proof Hq as [_ Hlive].
  assert (wp (x ← Registration_new (q_id q) TIMER Ready.readable PollOpt.edge; _ ← inner_clone x.2; mret x) (λ x q', ∃ ht, x = (ht, ht) ∧
    qown q' (ht :: ht :: ht :: u) rl ∧ nodes q' !! h_node ht = Some (mkInfo timer_data 0) ∧ h_queue ht = q_id q ∧ q_id q' = q_id q ∧
    (∀ h, h ∈ u → h_node h ≠ h_node ht) ∧ ∀ l, l ≠ h_node ht → nodes q' !! l = nodes q !! l) q)
    as (x & q' & E & ht & -> & Hown & Hnode & Hid & Hq' & Hfr & Hoth)%wp_done.
  { wp_step. eapply qown_new; [exact Hq|]. intros l q1 h Hx Hown Hnq He. wp_step. cbn [snd].
    assert (∀ g, g ∈ u → h_node g ≠ l) as Hne by (intros g Hgu Heq; destruct (Hlive g Hgu); congruence).
    eapply qown_clone; [exact Hown|set_solver| |].
    - rewrite !cnt_of_cons, !decide_True by done. cbn [h_node]. rewrite cnt_of_unused by done. unfold MAX_REFCOUNT, ISIZE_MAX. lia.
    - intros q2 Hown2 Hnq2 He2. wp_step. exists h. split; [done|]. split; [done|]. rewrite Hnq2, Hnq. cbn [h_node].
      split; [by rewrite lookup_insert_eq|]. split; [done|]. split; [congruence|]. split; [done|].
      intros y Hy. by rewrite lookup_insert_ne. }
  unfold wp, Timer.register. cbn [timer world]. rewrite Hin. cbn [reg_new queue_registration_ops rd_clone queue_readiness_ops].
  unfold mbind at 1, M_bind in E. destruct (Registration_new _ _ _ _ q) as [[x1 q1]| |] eqn:E1; try done.
  unfold mbind, M_bind in E. destruct (inner_clone x1.2 q1) as [[x2 q2]| |] eqn:E2; try done. injection E as -> ->.
  cbn [mbind outcome_bind]. cbn [snd] in E2. rewrite E2. cbn [mbind outcome_bind].
  destruct (lazy_fill_empty _ (mkInner ht ht) Hin) as (ch & -> & Hch).
  pose proof (timer_good_inner t ch Hg) as Hg'.
  destruct (next_tick_good (set_inner t ch) Hg' Hb) as (n & En & Hn & _). cbn [timer]. rewrite En. cbn [mbind outcome_bind].
  rewrite schedule_readiness_ok by (by apply is_tick_u64). cbn. split; [done|]. exists ht, ch. done.
Qed.

Lemma ok_then {St X} (m : M St (io_result X)) s : (try! mret (Ok (E:=io_error) tt); m) s = m s.
Proof. done. Qed.

Lemma Timer_new_start ms slots cap built (t : LTimer) : Timer_new ms slots cap built = Done t → start t = built.
Proof. unfold Timer_new. intros E. by inv_done. Qed.

Lemma configured_loop (config : Config) (p : Poll A Sel) (built : Instant) (ms N : Z) (u : list RI) (rl : list loc) :
  qown (readiness_queue p) u rl → millis (c_timer_tick config) = Done ms → 0 < ms →
  0 <= c_timer_wheel_size config <= 2 ^ 63 → 0 <= c_timer_capacity config <= 2 ^ 63 →
  0 <= c_notify_capacity config <= U64_MAX →
  (∀ n, Duration_wf (elapsed built (clock n)) ∧ tick_of ms (elapsed built (clock n)) <= N) → 0 <= N < U64_MAX →
  ∃ el : EL, configured config (Ok p) built = Done (Ok el) ∧ LoopOk clock N u [] el ∧
    el_run el = true ∧ el_config el = config ∧ m_queue (mpsc (el_notify el)) = [] ∧ senders (el_notify el) = 1 ∧ abs (el_timer el) = ∅ ∧
    start (el_timer el) = built.
Proof.
  intros Hq Hms Hpos Hw Hc Hn Hck HN. unfold configured, build. cbn [b_tick b_num_slots b_capacity Timer.capacity num_slots tick_duration Builder_default].
  rewrite Hms. cbn [mbind outcome_bind].
  destruct (Timer_new_ok (S:=S) (C:=C) (T:=TO) (R:=RI) (H:=RI) ms (c_timer_wheel_size config) (c_timer_capacity config) built (mkShared USIZE_MAX false)
    (readiness_queue p) Hpos Hw Hc) as (t & Et & [Hg _] & Hb & Hin & Ha & Htk & Htms & Hcap & _). cbn in Hg.
  pose proof (Timer_new_start _ _ _ _ _ Et) as Hst. rewrite Et. cbn [mbind outcome_bind].
  set (el0 := mkEventLoop _ _ _ _ _ _ _ _). change (validate_args NOTIFY Ready.readable) with (Ok (E:=io_error) tt).
  change (validate_args TIMER Ready.readable) with (Ok (E:=io_error) tt). rewrite ok_then.
  pose proof (notify_registered (readiness_queue p) u rl (Z.to_nat (c_notify_capacity config)) Hq) as
    (r & c1 & E1 & -> & hn & ch & cr & q1 & -> & Hch & Hcr & Hq1 & Hn1 & Hid1 & Hqid1 & Hfr1)%wp_done.
  unfold on_channel, el_queue. cbn [el_poll el_notify el0]. rewrite E1. cbn [mbind outcome_bind]. rewrite ok_then.
  unfold on_timer, el_queue. cbn [el_timer el_shared el_poll readiness_queue c_world el0].
  pose proof (timer_registered q1 (hn :: hn :: u) rl t (mkShared USIZE_MAX false) Hq1 Hg Hb Hin) as
    (r & s2 & E2 & -> & ht & ci & Ht2 & Hci & Hq2 & Hn2 & Hid2 & Hqid2 & Hfr2 & Hoth)%wp_done.
  rewrite <- Hqid1, E2. eexists. split; [reflexivity|]. split; [|cbn; rewrite Ht2; done].
  exists hn, ht, (mkInfo notify_data 0), (mkInfo timer_data 0), rl. unfold el_queue. cbn. rewrite Ht2.
  pose proof (Hfr2 hn ltac:(set_solver)) as Hne.
  split; try done.
  - split; [| | | | |].
    + apply (qown_perm _ _ (loop_handles hn ht u)) in Hq2; [apply Hq2|]. unfold loop_handles. solve_Permutation.
    + intros h Hh. apply Hq2. set_solver.
    + by rewrite Hoth.
    + done.
    + split; congruence.
    + split; [done|]. intros h Hh. split; [auto|]. apply Hfr2. set_solver.
  - split; cbn; try done. exists (Z.to_nat (c_notify_capacity config)). split; [done|]. lia.
  - split; cbn; try done.
    + by apply timer_good_inner.
    + lia.
    + change (abs (set_inner t ci)) with (abs t). rewrite Ha, map_size_empty.
      destruct (next_power_of_two_ok _ Hc) as (j & _ & Ej & _). rewrite Ej in Hcap. injection Hcap as <-. apply Z.pow_nonneg. lia.
    + intros n. rewrite Hst, Htms. apply Hck.
  - left. split; [done|]. cbn. lia.
  - by left.
  - cbn. lia.
Qed.

End loop.
