(* ===== verification/LoopThm.v ===== *)
(** * The event loop as a whole

    An event loop with its notification channel and its timer on the readiness
    queue of its own [Poll]: whatever the handler does with the loop's interface,
    whatever other threads do while the loop is in the selector, and whatever the
    selector reports, an iteration does not panic, keeps the invariant, and hands
    over messages in order; messages that wait are handed over within a bounded
    number of iterations. *)

From S2P Require Import Prelude Event Convert DList Iface Timer TimerInv TimerOps TimerPoll TimerSpec TimerThm.
From S2P Require Import ReadyQueue QueueInv QueueOps QueuePoll Poll PollThm Handles Channel ChannelThm UnixIo EventLoop EventLoopThm LoopInv LoopOps LoopPoll.

Section loop.
Context {S : Type → Type} {slab_ops : SlabOps S} {slab_spec : SlabSpec S} {slab_laws : SlabLaws S}.
Context {C : Type → Type} {cell_ops : LazyCellOps C} {cell_laws : LazyCellLaws C}.
Context {A : Type} {awk_ops : AwakenerOps A}.
Context {V : Type} {ev_ops : SysEventsOps V} {ev_spec : SysEventsSpec V} {ev_laws : SysEventsLaws V}.
Context {Sel : Type} {sel_ops : SelectorOps Sel V} {sel_tot : SelectorTotal Sel V}.
Context {TO MSG : Type} (clock : nat → Instant).
Abbreviation RI := RegistrationInner.
Abbreviation EL := (EventLoop S C A V Sel TO MSG).
Abbreviation LTimer := (Timer S C TO RI RI).
Abbreviation LChan := (Chan C MSG RI RI unit).
Implicit Types el : EL.

(** ** Handlers *)

Section handler.
(** [own]: the handles a handler's state owns; [log]: the messages it was given. *)
Context {HS : Type} (own : HS → list RI) (log : HS → list MSG).
Abbreviation LM := (M (HS * EL)).
Context (handler : Handler (S:=S) (C:=C) (A:=A) (V:=V) (Sel:=Sel) (TO:=TO) (MSG:=MSG) (HS:=HS)).
Implicit Types st : HS * EL.

Definition loop_ok (N : Z) (todo : list Event.t) st : Prop := LoopOk clock N (own st.1) todo st.2.
Definition messages st : list MSG := m_queue (mpsc (el_notify st.2)).
Definition awake st : Prop := sleeping (el_queue st.2) = false.

(** Code of a handler: on a well-formed loop, whatever events are still to be
    handled, it returns, keeps the loop well formed, and logs [note]. *)
Definition behaves {X} (needs_awake : bool) (m : LM X) (note : list MSG) : Prop :=
  ∀ N todo st, loop_ok N todo st → (needs_awake = true → awake st) →
    wp m (λ _ st', loop_ok N todo st' ∧ loop_frame st.2 st'.2 ∧ log st'.1 = log st.1 ++ note) st.

(** Rules for the code of handlers: sequences of calls of the loop's interface. *)
Lemma wp_on_loop {X} (m : M EL X) (Q : X → HS * EL → Prop) st :
  wp m (λ x el', Q x (st.1, el')) st.2 → wp (on_loop m) Q st.
Proof. intros (x & el' & E & HQ)%wp_done. destruct st as [hs el]. cbn in *. unfold wp, on_loop. by rewrite E. Qed.

Lemma behaves_ret {X} b (x : X) : behaves b (mret x) [].
Proof. intros N todo st Hl _. wp_step. split; [done|]. split; [done|]. by rewrite app_nil_r. Qed.

Lemma behaves_bind {X Y} b (m : LM X) (f : X → LM Y) note note' :
  behaves b m note → (∀ x, behaves b (f x) note') → behaves b (m ≫= f) (note ++ note').
Proof.
  intros Hm Hf N todo st Hl Ha. wp_step. eapply wp_mono; [by apply Hm|]. intros x st1 (Hl1 & Hf1 & Hlog1).
  eapply wp_mono; [apply (Hf x N todo st1 Hl1); intros Hb; by apply Hf1, Ha|]. intros y st2 (Hl2 & Hf2 & Hlog2).
  split; [done|]. split; [by etrans|]. by rewrite Hlog2, Hlog1, app_assoc.
Qed.

Lemma behaves_loop {X} b (m : M EL X) :
  (∀ N u todo el, LoopOk clock N u todo el → (b = true → sleeping (el_queue el) = false) →
    wp m (λ _ el', LoopOk clock N u todo el' ∧ loop_frame el el') el) → behaves b (on_loop m) [].
Proof.
  intros Hm N todo st Hl Ha. apply wp_on_loop. eapply wp_mono; [by apply Hm|]. intros x el' [Hl' Hf]. by rewrite app_nil_r.
Qed.

Lemma behaves_send b msg : behaves b (on_loop (Sender_send_msg msg)) [].
Proof. apply behaves_loop. intros N u todo el Hl _. eapply wp_mono; [by eapply send_ok|]. naive_solver. Qed.

Lemma behaves_shutdown b : behaves b (on_loop shutdown) [].
Proof. apply behaves_loop. intros N u todo el Hl _. by apply shutdown_ok. Qed.

Lemma behaves_clear_timeout b timeout : behaves b (on_loop (clear_timeout timeout)) [].
Proof. apply behaves_loop. intros N u todo el Hl _. eapply wp_mono; [by eapply clear_timeout_ok|]. naive_solver. Qed.

Lemma behaves_register b io token interest opts : fd_source io → behaves b (on_loop (EventLoop_register io token interest opts)) [].
Proof. intros Hio. apply behaves_loop. intros N u todo el Hl _. by apply register_ok. Qed.

Lemma behaves_reregister b io token interest opts : fd_source io → behaves b (on_loop (EventLoop_reregister io token interest opts)) [].
Proof. intros Hio. apply behaves_loop. intros N u todo el Hl _. by apply reregister_ok. Qed.

Lemma behaves_deregister b io : fd_source io → behaves b (on_loop (EventLoop_deregister io)) [].
Proof. intros Hio. apply behaves_loop. intros N u todo el Hl _. by apply deregister_ok. Qed.

Lemma behaves_timeout b token delay :
  (∀ N todo st, loop_ok N todo st → delay_ok clock delay st.2) → behaves b (on_loop (EventLoop_timeout clock token delay)) [].
Proof.
  intros Hd N todo st Hl Ha. apply wp_on_loop. eapply wp_mono; [eapply timeout_ok; [exact Hl|by eapply Hd]|].
  intros r el' (Hl' & Hf & _). by rewrite app_nil_r.
Qed.

(** A handler's own state, with the same handles. *)
Lemma behaves_state b (f : HS → HS) note :
  (∀ hs, own (f hs) = own hs) → (∀ hs, log (f hs) = log hs ++ note) → behaves b (λ st, Done (tt, (f st.1, st.2))) note.
Proof. intros Ho Hlog N todo st Hl _. unfold wp. cbn. unfold loop_ok in *. cbn. by rewrite Ho, Hlog. Qed.

(** The methods that handle events run after a poll and find the queue awake;
    [interrupted] and [tick] may run after a failed one. *)
Record handler_ok : Prop := {
  ho_ready t r : behaves true (h_ready handler t r) [];
  ho_notify msg : behaves true (h_notify handler msg) [msg];
  ho_timeout t : behaves true (h_timeout handler t) [];
  ho_interrupted : behaves false (h_interrupted handler) [];
  ho_tick : behaves false (h_tick handler) [] }.

(** Timeouts do not set new timeouts. *)
Definition calm : Prop := ∀ t N todo st, loop_ok N todo st → awake st →
  wp (h_timeout handler t) (λ _ st', (size (abs (el_timer st'.2)) ≤ size (abs (el_timer st.2)))%nat) st.

Context (Hh : handler_ok).

(** What handling events leaves alone, and the messages handed over: [d] were
    logged, the rest and what was sent meanwhile is still queued. *)
Record progress st (d : list MSG) st' : Prop := {
  pg_events : el_events st'.2 = el_events st.2;
  pg_config : el_config st'.2 = el_config st.2;
  pg_capacity : slab_capacity (entries (el_timer st'.2)) = slab_capacity (entries (el_timer st.2));
  pg_awake : awake st → awake st';
  pg_log : log st'.1 = log st.1 ++ d;
  pg_queue : ∃ later, messages st ++ later = d ++ messages st' }.

Lemma progress_trans st1 d1 st2 d2 st3 : progress st1 d1 st2 → progress st2 d2 st3 → progress st1 (d1 ++ d2) st3.
Proof.
  intros [? ? ? ? Hl1 [l1 Hq1]] [? ? ? ? Hl2 [l2 Hq2]]. split; try congruence; [auto|by rewrite Hl2, Hl1, app_assoc|].
  exists (l1 ++ l2). by rewrite app_assoc, Hq1, <- !app_assoc, Hq2.
Qed.

Lemma progress_frame st st' : loop_frame st.2 st'.2 → log st'.1 = log st.1 → progress st [] st'.
Proof. intros [? ? ? [l Hq] ?] Hl. split; try done; [by rewrite app_nil_r|]. exists l. done. Qed.

(** Handing over at least [k] of the messages that waited. *)
Definition delivers (k : nat) st (d : list MSG) : Prop := (k `min` length (messages st) ≤ length d)%nat.

(** If messages were handed over before, those that waited first come first. *)
Lemma delivers_later k st1 d1 st2 d2 : progress st1 d1 st2 → delivers k st2 d2 → delivers k st1 (d1 ++ d2).
Proof.
  intros Hp Hd. destruct (pg_queue _ _ _ Hp) as [l Hq]. apply (f_equal length) in Hq. rewrite !length_app in Hq.
  unfold delivers in *. rewrite length_app. lia.
Qed.

Lemma delivers_more k st d d' : delivers k st d → delivers k st (d ++ d').
Proof. unfold delivers. rewrite length_app. lia. Qed.

(** ** Notifications *)

Lemma notify_loop_ok n N todo : ∀ st, loop_ok N todo st → awake st →
  wp (notify_loop handler n) (λ _ st', loop_ok N todo st' ∧ ∃ d, progress st d st' ∧ delivers n st d) st.
Proof.
  induction n as [|n IH]; intros st Hl Ha; cbn [notify_loop].
  { wp_step. split; [done|]. exists []. split; [apply progress_frame; done|]. by unfold delivers. }
  wp_step. apply wp_on_loop. eapply wp_mono; [eapply try_recv_loop, Hl|]. intros r el1 (Hl1 & He1 & Hc1 & [Ht1 _] & Ha1 & Hr).
  cbn beta. destruct r as [msg|e].
  - wp_step. eapply wp_mono; [apply (ho_notify Hh msg N todo (st.1, el1)); [exact Hl1|intros _; by apply Ha1]|].
    intros [] st2 (Hl2 & Hf2 & Hlog). cbn in Hf2, Hlog.
    assert (progress st [msg] st2) as Hp.
    { destruct Hf2 as [? ? ? [l Hq] Haw]. split; [congruence|congruence|congruence|intros Hst; apply Haw, Ha1, Hst|done|].
      exists l. unfold messages in *. by rewrite Hr, Hq. }
    eapply wp_mono; [apply IH; [done|by apply Hp]|]. intros [] st3 (Hl3 & d & Hp3 & Hd). split; [done|].
    exists (msg :: d). split; [by eapply (progress_trans st [msg])|]. unfold delivers in *. unfold messages at 1. rewrite Hr. cbn [length].
    destruct Hf2 as [_ _ _ [l Hq] _]. unfold messages in Hd. rewrite Hq, length_app in Hd. lia.
  - destruct Hr as [Hm1 Hm2]. wp_step. split; [exact Hl1|]. exists [].
    assert (messages st = []) as Hm by exact Hm1. split; [|unfold delivers; rewrite Hm; cbn; lia].
    split; [done|done|cbn; by rewrite Ht1|done|by rewrite app_nil_r|]. exists []. unfold messages. cbn. by rewrite Hm1, Hm2.
Qed.

Definition per_tick st : nat := Z.to_nat (c_messages_per_tick (el_config st.2)).

Lemma notify_ok N evt todo st : loop_ok N (evt :: todo) st → Event.token evt = NOTIFY → awake st →
  wp (notify handler) (λ _ st', loop_ok (N + 1) todo st' ∧ ∃ d, progress st d st' ∧ delivers (per_tick st) st d) st.
Proof.
  intros Hl Ht Ha. unfold notify. wp_steps. eapply wp_mono; [by apply notify_loop_ok|]. intros [] st1 (Hl1 & d & Hp & Hd).
  wp_step. apply wp_on_loop. eapply wp_mono; [eapply rearm_ok; [exact Hl1|done|by apply Hp]|].
  intros r el2 (_ & Hl2 & Hf2 & _). wp_step. split; [exact Hl2|]. exists (d ++ []).
  split; [eapply progress_trans; [exact Hp|by apply progress_frame]|]. rewrite app_nil_r. exact Hd.
Qed.
(** ** Timeouts *)

(** Lack of fuel is acceptable if [may]; otherwise timeouts set no timeouts, and
    the fuel exceeds what the timer can hold. *)
Definition fuel_ok (may : Prop) (fuel : nat) st : Prop :=
  may ∨ (calm ∧ slab_capacity (entries (el_timer st.2)) < Z.of_nat fuel).

Lemma timer_process_gwp may fuel N evt todo : Event.token evt = TIMER → ∀ st,
  loop_ok N (evt :: todo) st → awake st → may ∨ (calm ∧ (size (abs (el_timer st.2)) < fuel)%nat) →
  gwp may (timer_process clock handler fuel) (λ _ st', loop_ok (N + 1) todo st' ∧ progress st [] st') st.
Proof.
  intros Ht. induction fuel as [|fuel IH]; intros st Hl Ha Hf; cbn [timer_process].
  { destruct Hf as [Hf|[_ Hf]]; [exact Hf|lia]. }
  apply gwp_bind, gwp_wp, wp_on_loop. eapply wp_mono; [eapply timer_round_ok; [exact Hl|done]|].
  intros o el1 (Hf1 & Hm1 & Ho). cbn beta. destruct o as [t|].
  - destruct Ho as [Hl1 Hsz]. apply gwp_bind, gwp_wp.
    pose proof (ho_timeout Hh t N (evt :: todo) (st.1, el1) Hl1 (λ _, lf_awake _ _ Hf1 Ha)) as Hw.
    assert (may ∨ (calm ∧ wp (h_timeout handler t) (λ _ st', (size (abs (el_timer st'.2)) < fuel)%nat) (st.1, el1))) as Hf2.
    { destruct Hf as [?|[Hc Hf]]; [by left|right]. split; [done|].
      eapply wp_mono; [apply (Hc t N (evt :: todo) (st.1, el1) Hl1), Hf1, Ha|]. cbn. intros _ st'. lia. }
    apply wp_done in Hw as ([] & st2 & E & Hl2 & Hfr2 & Hlog2). eapply wp_of_eq; [exact E|].
    assert (progress st [] st2) as Hp.
    { apply progress_frame; [by etrans|]. by rewrite Hlog2, app_nil_r. }
    eapply gwp_mono; [apply IH; [exact Hl2|by apply Hp|]|].
    + destruct Hf2 as [?|[Hc Hw]]; [by left|right]. split; [done|]. unfold wp in Hw. by rewrite E in Hw.
    + intros [] st3 [Hl3 Hp3]. split; [done|]. exact (progress_trans _ _ _ _ _ Hp Hp3).
  - apply gwp_ret. split; [exact Ho|]. by apply progress_frame.
Qed.

(** ** Events *)

Lemma dispatch_gwp may fuel N evt todo st :
  loop_ok N (evt :: todo) st → awake st → fuel_ok may fuel st →
  gwp may (dispatch clock handler fuel evt) (λ _ st', loop_ok (N + 1) todo st' ∧ ∃ d, progress st d st' ∧
    (Event.token evt = NOTIFY → delivers (per_tick st) st d)) st.
Proof.
  intros Hl Ha Hf. unfold dispatch. case_decide as Hn; [|case_decide as Ht].
  - apply gwp_wp. eapply wp_mono; [by eapply notify_ok|]. intros [] st' (Hl' & d & Hp & Hd). split; [done|]. eauto.
  - eapply gwp_mono; [eapply timer_process_gwp; [done|exact Hl|done|]|].
    + destruct Hf as [?|[Hc Hf]]; [by left|right]. split; [done|]. destruct Hl as (hn & ht & ni & ti & rl & Hl).
      pose proof (tm_size _ _ _ _ (la_t _ _ _ _ _ _ _ _ _ _ _ _ Hl)). lia.
    + intros [] st' [Hl' Hp]. split; [done|]. exists []. split; [done|]. congruence.
  - apply gwp_wp. unfold io_event. eapply wp_mono; [apply (ho_ready Hh _ _ N (evt :: todo) st Hl); auto|].
    intros [] st' (Hl' & Hfr & Hlog). rewrite app_nil_r in Hlog. split; [|exists []; split; [by apply progress_frame|congruence]].
    destruct Hl' as (hn & ht & ni & ti & rl & Hl'). exists hn, ht, ni, ti, rl.
    eapply loop_at_done; [exact Hl'|by intros ?|by intros ?|eapply timer_ok_mono; [apply Hl'|lia]|lia].
Qed.

Lemma process_gwp may fuel : ∀ todo N i st,
  loop_ok N todo st → awake st → fuel_ok may fuel st →
  (∀ j e, todo !! j = Some e → Events_get (el_events st.2) (i + Z.of_nat j) = Some e) →
  gwp may (process_from clock handler fuel (length todo) i) (λ _ st', loop_ok (N + Z.of_nat (length todo)) [] st' ∧
    ∃ d, progress st d st' ∧ (NOTIFY ∈ tokens todo → delivers (per_tick st) st d)) st.
Proof.
  induction todo as [|evt todo IH]; intros N i st Hl Ha Hf Hget; cbn [length process_from].
  { apply gwp_ret. rewrite Z.add_0_r. split; [done|]. exists []. split; [by apply progress_frame|]. by intros ?%elem_of_nil. }
  apply gwp_bind. pose proof (Hget 0%nat evt eq_refl) as H0. rewrite Z.add_0_r in H0.
  unfold gwp at 1. rewrite H0. cbn [unwrap lift]. apply gwp_bind.
  eapply gwp_mono; [by eapply dispatch_gwp|]. intros [] st1 (Hl1 & d & Hp & Hd).
  eapply gwp_mono; [apply (IH (N + 1) (i + 1) st1 Hl1)|].
  - by apply Hp.
  - destruct Hf as [?|[? Hf]]; [by left|right]. split; [done|]. by rewrite (pg_capacity _ _ _ Hp).
  - intros j e Hj. rewrite (pg_events _ _ _ Hp). replace (i + 1 + Z.of_nat j) with (i + Z.of_nat (Datatypes.S j)) by lia. by apply Hget.
  - intros [] st2 (Hl2 & d2 & Hp2 & Hd2). split; [by replace (N + _) with (N + 1 + Z.of_nat (length todo)) by lia|].
    exists (d ++ d2). split; [by eapply progress_trans|]. rewrite fmap_cons, elem_of_cons. intros [Hn|Hn].
    + by apply delivers_more, Hd.
    + eapply delivers_later; [exact Hp|]. unfold per_tick in *. rewrite <- (pg_config _ _ _ Hp). by apply Hd2.
Qed.

Lemma io_process_gwp may fuel N st :
  loop_ok N (buffer st.2) st → awake st → fuel_ok may fuel st →
  gwp may (io_process clock handler fuel (Z.of_nat (length (buffer st.2))))
    (λ _ st', loop_ok (N + Z.of_nat (length (buffer st.2))) [] st' ∧
      ∃ d, progress st d st' ∧ (NOTIFY ∈ tokens (buffer st.2) → delivers (per_tick st) st d)) st.
Proof.
  intros Hl Ha Hf. unfold io_process. rewrite Nat2Z.id. apply process_gwp; [done..|].
  intros j e Hj. unfold Events_get. rewrite ev_get_list by lia. by replace (Z.to_nat _) with j by lia.
Qed.
(** ** One iteration *)

(** How many events an iteration handles. *)
Definition handled (r : io_result Z) : Z := match r with Ok n => n | Err _ => 0 end.

(** What an iteration did, whose poll returned [r] and left the loop [el1]. *)
Record iterated (kind : io_error → ErrorKind) (N : Z) st (r : io_result Z) el1 (res : io_result unit) st' : Prop := {
  it_ok : loop_ok (N + handled r) [] st';
  it_config : el_config st'.2 = el_config st.2;
  it_capacity : slab_capacity (entries (el_timer st'.2)) = slab_capacity (entries (el_timer st.2));
  it_messages : ∃ d later, log st'.1 = log st.1 ++ d ∧ messages (st.1, el1) ++ later = d ++ messages st' ∧
    match r with
    | Ok _ => res = Ok tt ∧ delivers (per_tick st) (st.1, el1) d
    | Err e => d = [] ∧ res = (if decide (kind e = Interrupted) then Ok tt else Err e)
    end }.

Lemma iterated_intro kind N st r el1 res st' d :
  poll_frame st.2 el1 → loop_ok (N + handled r) [] st' → progress (st.1, el1) d st' →
  match r with
  | Ok _ => res = Ok tt ∧ delivers (per_tick st) (st.1, el1) d
  | Err e => d = [] ∧ res = (if decide (kind e = Interrupted) then Ok tt else Err e)
  end → iterated kind N st r el1 res st'.
Proof.
  intros [Hcfg Htm _ _ _] Hl Hp Hr. destruct (pg_queue _ _ _ Hp) as [later Hq]. split; [done| | |].
  - by rewrite (pg_config _ _ _ Hp).
  - rewrite (pg_capacity _ _ _ Hp). cbn. by rewrite Htm.
  - exists d, later. split; [apply Hp|done].
Qed.

(** Every way through an iteration ends with [tick]. *)
Lemma tick_after may (m : LM unit) N (Q : list MSG → Prop) st0 st :
  gwp may m (λ _ st', loop_ok N [] st' ∧ ∃ d, progress st0 d st' ∧ Q d) st →
  gwp may (_ ← m; _ ← h_tick handler; mret (Ok (E:=io_error) tt))
    (λ res st', res = Ok tt ∧ loop_ok N [] st' ∧ ∃ d, progress st0 d st' ∧ Q d) st.
Proof.
  intros Hm. apply gwp_bind. eapply gwp_mono; [exact Hm|]. intros [] st1 (Hl1 & d & Hp1 & HQ). apply gwp_bind, gwp_wp.
  eapply wp_mono; [apply (ho_tick Hh N [] st1 Hl1); done|]. intros [] st2 (Hl2 & Hf2 & Hlog). rewrite app_nil_r in Hlog.
  apply gwp_ret. split; [done|]. split; [done|]. exists (d ++ []). split; [|by rewrite app_nil_r].
  eapply progress_trans; [exact Hp1|by apply progress_frame].
Qed.

Lemma run_once_with_gwp kind (poll : M EL (io_result Z)) (may : Prop) (fuel : nat) (wake : bool) (N : Z) st :
  wp poll (polled_loop clock wake N (own st.1) st.2) st.2 → fuel_ok may fuel st →
  ∃ r el1, poll st.2 = Done (r, el1) ∧ more_messages (el_notify st.2) (el_notify el1) ∧
    (N + handled r < U64_MAX → gwp may (run_once_with clock handler kind poll fuel) (iterated kind N st r el1) st).
Proof.
  intros Hw Hf. apply wp_done in Hw as (r & el1 & E & Hpf & Hr). exists r, el1. split; [done|]. split; [apply Hpf|]. intros Hroom.
  destruct st as [hs el]. cbn [fst snd] in *. unfold gwp. rewrite (run_once_with_spec clock handler kind poll fuel hs el el1 r E).
  destruct r as [n|e]; cbn [handled] in Hroom.
  - destruct Hr as (-> & Hsl & Hok & Hnt & _). specialize (Hok Hroom).
    assert (fuel_ok may fuel (hs, el1)) as Hf1 by (unfold fuel_ok in *; cbn in *; by rewrite (pf_timer _ _ Hpf)).
    eapply (gwp_mono may); [eapply tick_after, (io_process_gwp may fuel N (hs, el1) Hok Hsl Hf1)|].
    intros res st' (-> & Hl' & d & Hp & Hd). eapply iterated_intro; [exact Hpf|done|exact Hp|]. split; [done|]. cbn in Hd.
    unfold delivers in *. destruct (decide (m_queue (mpsc (el_notify el1)) = [])) as [He|He].
    + unfold messages. cbn. rewrite He. cbn. lia.
    + specialize (Hd (Hnt He)). unfold per_tick in *. cbn in *. by rewrite <- (pf_config _ _ Hpf).
  - assert (loop_ok (N + 0) [] (hs, el1)) as Hl1 by (by rewrite Z.add_0_r). case_decide as Hint.
    + eapply (gwp_mono may); [eapply (tick_after may _ (N + 0) (λ d, d = []) (hs, el1)), gwp_wp, wp_mono; [apply (ho_interrupted Hh _ [] _ Hl1); done|]|].
      * intros [] st3 (Hl3 & Hf3 & Hlog3). rewrite app_nil_r in Hlog3. split; [done|]. exists []. split; [by apply progress_frame|done].
      * intros res st' (-> & Hl' & d & Hp & ->). eapply iterated_intro; [exact Hpf|done|exact Hp|]. by rewrite decide_True.
    + eapply iterated_intro; [exact Hpf|done|by apply progress_frame|]. by rewrite decide_False.
Qed.

Lemma run_once_gwp (may : Prop) (fuel : nat) (acts : list (Act MSG)) (timeout : option Duration) (N : Z) st :
  loop_ok N [] st → Forall (act_ok (own st.1)) acts → timeout_wf timeout → fuel_ok may fuel st →
  let others := others_of (timer_handle st.2) acts in
  ∃ r el1, io_poll others timeout st.2 = Done (r, el1) ∧ more_messages (el_notify st.2) (el_notify el1) ∧
    (N + handled r < U64_MAX → gwp may (run_once clock handler fuel others timeout) (iterated err_kind N st r el1) st).
Proof. intros Hl Ha Hto Hf. by eapply (run_once_with_gwp err_kind), Hf; apply io_poll_ok. Qed.

(** What an iteration with a given way to poll does. *)
Definition iteration (kind : io_error → ErrorKind) (poll : M EL (io_result Z)) (fuel : nat) (N : Z) st : Prop :=
  let run := run_once_with clock handler kind poll fuel st in
  ∃ r el1, poll st.2 = Done (r, el1) ∧ more_messages (el_notify st.2) (el_notify el1) ∧
    (N + handled r < U64_MAX →
      run ≠ Panic ∧
      (calm → slab_capacity (entries (el_timer st.2)) < Z.of_nat fuel → ∃ res st', run = Done (res, st')) ∧
      ∀ res st', run = Done (res, st') →
        loop_ok (N + handled r) [] st' ∧
        ∃ d later, log st'.1 = log st.1 ++ d ∧ messages (st.1, el1) ++ later = d ++ messages st' ∧
          match r with
          | Ok _ => res = Ok tt ∧ (per_tick st `min` length (messages (st.1, el1)) ≤ length d)%nat
          | Err e => d = [] ∧ res = (if decide (kind e = Interrupted) then Ok tt else Err e)
          end).

Lemma run_once_with_delivers kind (poll : M EL (io_result Z)) (fuel : nat) (wake : bool) (N : Z) st :
  wp poll (polled_loop clock wake N (own st.1) st.2) st.2 → iteration kind poll fuel N st.
Proof.
  intros Hw. unfold iteration. set (run := run_once_with clock handler kind poll fuel st). destruct (run_once_with_gwp kind poll True fuel wake N st Hw ltac:(by left)) as (r & el1 & Ep & Hm & Hg).
  exists r, el1. split; [done|]. split; [done|]. intros HN. specialize (Hg HN). unfold gwp in Hg. fold run in Hg.
  split; [by intros Hp; rewrite Hp in Hg|]. split.
  - intros Hc Hf. destruct (run_once_with_gwp kind poll False fuel wake N st Hw ltac:(by right)) as (r' & el1' & Ep' & _ & Hg').
    rewrite Ep in Ep'. injection Ep' as <- <-. specialize (Hg' HN). unfold gwp in Hg'. fold run in Hg'.
    destruct run as [[res st']| |]; [eauto|done..].
  - intros res st' E. rewrite E in Hg. destruct Hg as [Hok _ _ Hmsg]. done.
Qed.

(** C2: an iteration of the loop with well-behaved handlers never panics, whatever
    other threads do during the selector call and whatever the selector reports; it
    returns, unless the handlers of timeouts keep setting timeouts.  It keeps the
    invariant.  If the poll fails nothing is handed over, and unless it was
    interrupted its error is returned.  Otherwise the handler is given, in the order
    they were sent, messages [d], no fewer than are allowed per iteration as long as
    enough wait when the poll returns; the others, and those sent while the events
    were handled, wait for the next iteration. *)
Theorem run_once_delivers (fuel : nat) (acts : list (Act MSG)) (timeout : option Duration) (N : Z) (st : HS * EL) :
  loop_ok N [] st → Forall (act_ok (own st.1)) acts → timeout_wf timeout →
  let others := others_of (timer_handle st.2) acts in
  let run := run_once clock handler fuel others timeout st in
  ∃ r el1, io_poll others timeout st.2 = Done (r, el1) ∧ more_messages (el_notify st.2) (el_notify el1) ∧
    (N + handled r < U64_MAX →
      run ≠ Panic ∧
      (calm → slab_capacity (entries (el_timer st.2)) < Z.of_nat fuel → ∃ res st', run = Done (res, st')) ∧
      ∀ res st', run = Done (res, st') →
        loop_ok (N + handled r) [] st' ∧
        ∃ d later, log st'.1 = log st.1 ++ d ∧ messages (st.1, el1) ++ later = d ++ messages st' ∧
          match r with
          | Ok _ => res = Ok tt ∧ (per_tick st `min` length (messages (st.1, el1)) ≤ length d)%nat
          | Err e => d = [] ∧ res = (if decide (err_kind e = Interrupted) then Ok tt else Err e)
          end).
Proof. intros Hl Ha Hto. by eapply (run_once_with_delivers err_kind), io_poll_ok. Qed.

(** ** Many iterations *)

(** [k] iterations whose polls succeed and report [m] events in all. *)
Inductive loops (fuel : nat) : nat → nat → HS * EL → HS * EL → Prop :=
  | loops_none st : loops fuel 0 0 st st
  | loops_more acts timeout n k m st el1 st1 st' :
      Forall (act_ok (own st.1)) acts → timeout_wf timeout →
      io_poll (others_of (timer_handle st.2) acts) timeout st.2 = Done (Ok (Z.of_nat n), el1) →
      run_once clock handler fuel (others_of (timer_handle st.2) acts) timeout st = Done (Ok tt, st1) →
      loops fuel k m st1 st' → loops fuel (Datatypes.S k) (n + m) st st'.

Lemma loops_ok fuel k m st st' N : loops fuel k m st st' → loop_ok N [] st → N + Z.of_nat m < U64_MAX →
  loop_ok (N + Z.of_nat m) [] st' ∧ ∃ d later, log st'.1 = log st.1 ++ d ∧ messages st ++ later = d ++ messages st' ∧
    ((k * per_tick st) `min` length (messages st) ≤ length d)%nat.
Proof.
  intros Hlo. revert N. induction Hlo as [st|acts timeout n k m st el1 st1 st' Ha Hto Ep Er Hlo IH]; intros N Hl HN.
  { rewrite Z.add_0_r. split; [done|]. exists [], []. by rewrite !app_nil_r. }
  destruct (run_once_gwp True fuel acts timeout N st Hl Ha Hto ltac:(by left)) as (r & el1' & Ep' & [l0 Hm] & Hit).
  rewrite Ep in Ep'. injection Ep' as <- <-.
  specialize (Hit ltac:(cbn; lia)). unfold gwp in Hit. rewrite Er in Hit. destruct Hit as [Hl1 Hc1 _ (d & later & Hlog & Hq & _ & Hd)].
  destruct (IH (N + Z.of_nat n) Hl1 ltac:(lia)) as (Hl' & d' & later' & Hlog' & Hq' & Hd').
  split; [by rewrite Nat2Z.inj_add, Z.add_assoc|]. exists (d ++ d'), (l0 ++ later ++ later').
  split; [by rewrite Hlog', Hlog, app_assoc|].
  assert (messages (st.1, el1) = messages st ++ l0) as Hm1 by exact Hm. rewrite Hm1 in Hq. split.
  - rewrite !app_assoc, Hq. by rewrite <- !app_assoc, Hq'.
  - unfold delivers in Hd. rewrite Hm1 in Hd. assert (per_tick st1 = per_tick st) as Hpt by (unfold per_tick; by rewrite Hc1).
    rewrite Hpt in Hd'. apply (f_equal length) in Hq. rewrite !length_app in *.
    cbn [Nat.mul]. revert Hd Hd' Hq. generalize (k * per_tick st)%nat (per_tick st). lia.
Qed.

(** The first [n] of a list, if at least so many are handed over. *)
Lemma take_prefix_of {X} (n : nat) (l later d rest : list X) :
  l ++ later = d ++ rest → (n `min` length l ≤ length d)%nat → take n l `prefix_of` d.
Proof.
  intros Heq Hn. assert (take n l = take (n `min` length l) (d ++ rest)) as ->.
  { rewrite <- Heq, take_app_le by lia. destruct (decide (n ≤ length l)%nat); [by rewrite Nat.min_l by lia|].
    rewrite Nat.min_r by lia. by rewrite firstn_all, take_ge by lia. }
  rewrite take_app_le by lia. apply prefix_take.
Qed.

(** C3: the messages that wait get through: after [k] iterations with successful
    polls, the handler has been given, in order, at least the first [k] times the
    number allowed per iteration, and the loop is well formed. *)
Theorem messages_get_through (fuel k m : nat) (st st' : HS * EL) (N : Z) :
  loop_ok N [] st → loops fuel k m st st' → N + Z.of_nat m < U64_MAX →
  loop_ok (N + Z.of_nat m) [] st' ∧
  ∃ d later, log st'.1 = log st.1 ++ d ∧ messages st ++ later = d ++ messages st' ∧
    take (k * per_tick st) (messages st) `prefix_of` d.
Proof.
  intros Hl Hlo HN. destruct (loops_ok fuel k m st st' N Hlo Hl HN) as (Hl' & d & later & Hlog & Hq & Hd).
  split; [done|]. exists d, later. split; [done|]. split; [done|]. by eapply take_prefix_of.
Qed.

(** While messages wait the loop does not block: the selector is asked with a zero
    timeout, and only polled. *)
Theorem waiting_never_blocks (timeout : option Duration) (N : Z) (st : HS * EL) :
  loop_ok N [] st → messages st ≠ [] →
  poll_timeout timeout (el_queue st.2) = Done (Some (from_millis 0), el_queue st.2).
Proof.
  clear Hh handler log. intros (hn & ht & ni & ti & rl & [[(al & Hg) _ _ _ _ _] Hc _ _ Har _ _ _]) Hm.
  assert (0 < pending (el_notify st.2)) as Hp.
  { rewrite (co_pending _ _ Hc). unfold messages in Hm. destruct (m_queue _); [done|]. cbn. lia. }
  destruct Har as [[_ Hr]|[_ Hin]]; [|by apply elem_of_nil in Hin].
  rewrite poll_timeout_eq, decide_False; [done|]. intros He. apply (empty_ready _ _ _ _ Hg) in He. specialize (Hr Hp). set_solver.
Qed.
(** ** Timeouts get through *)

Section timeouts.
(** [tlog]: the timeouts a handler was given.  It leaves timer and clock alone. *)
Context (tlog : HS → list TO).

Record still st (fired : list TO) st' : Prop := {
  st_timer : el_timer st'.2 = el_timer st.2;
  st_clock : el_clock st'.2 = el_clock st.2;
  st_log : tlog st'.1 = tlog st.1 ++ fired }.

Definition quiet (m : LM unit) (fired : list TO) : Prop := ∀ N todo st, loop_ok N todo st → wp m (λ _, still st fired) st.

Record handler_quiet : Prop := {
  hq_ready t r : quiet (h_ready handler t r) [];
  hq_notify msg : quiet (h_notify handler msg) [];
  hq_timeout t : quiet (h_timeout handler t) [t];
  hq_interrupted : quiet (h_interrupted handler) [];
  hq_tick : quiet (h_tick handler) [] }.
Context (Hq : handler_quiet).

Definition pending_of st : gmap Token (Z * TO) := abs (el_timer st.2).
Definition states (m : gmap Token (Z * TO)) : list TO := snd ∘ snd <$> map_to_list m.

(** [fired] were given to the handler, the others are still pending. *)
Record fires st (fired : list TO) st' : Prop := {
  fr_log : tlog st'.1 = tlog st.1 ++ fired;
  fr_pending : pending_of st' ⊆ pending_of st;
  fr_all : fired ++ states (pending_of st') ≡ₚ states (pending_of st);
  fr_conf : tick_ms (el_timer st'.2) = tick_ms (el_timer st.2) ∧ start (el_timer st'.2) = start (el_timer st.2);
  fr_clock : (el_clock st.2 ≤ el_clock st'.2)%nat }.

Lemma fires_trans st1 f1 st2 f2 st3 : fires st1 f1 st2 → fires st2 f2 st3 → fires st1 (f1 ++ f2) st3.
Proof.
  intros [Hl1 Hs1 Ha1 [Hm1 Ht1] Hc1] [Hl2 Hs2 Ha2 [Hm2 Ht2] Hc2]. split; [|by etrans| |split; congruence|lia].
  - by rewrite Hl2, Hl1, app_assoc.
  - by rewrite <- app_assoc, Ha2.
Qed.

Lemma still_fires st st' : still st [] st' → fires st [] st'.
Proof. intros [Ht Hc Hl]. unfold pending_of. split; unfold pending_of; rewrite ?Ht; try done. lia. Qed.

Lemma still_trans st1 f1 st2 f2 st3 : still st1 f1 st2 → still st2 f2 st3 → still st1 (f1 ++ f2) st3.
Proof. intros [? ? Hl1] [? ? Hl2]. split; try congruence. by rewrite Hl2, Hl1, app_assoc. Qed.

(** Some reading of the clock since [st] has passed no pending timeout. *)
Definition drained st st' : Prop := ∃ last, (el_clock st.2 ≤ last < el_clock st'.2)%nat ∧
  ∀ x k v, pending_of st' !! x = Some (k, v) → reading clock st.2 last < k.

Lemma drained_before st1 f st2 st3 : fires st1 f st2 → drained st2 st3 → drained st1 st3.
Proof.
  intros [_ _ _ [Hm Ht] Hc] (last & Hlt & Hd). exists last. split; [lia|]. intros x k v Hx. specialize (Hd x k v Hx).
  unfold reading in *. by rewrite <- Hm, <- Ht.
Qed.

Lemma drained_after st1 st2 f st3 : drained st1 st2 → fires st2 f st3 → drained st1 st3.
Proof.
  intros (last & Hlt & Hd) [_ Hs _ _ Hc]. exists last. split; [lia|]. intros x k v Hx. eapply Hd, lookup_weaken; [exact Hx|done].
Qed.

Lemma wp_conj {X} (m : LM X) (P Q : X → HS * EL → Prop) st : wp m P st → wp m Q st → wp m (λ x st', P x st' ∧ Q x st') st.
Proof. unfold wp. destruct (m st) as [[x st']| |]; done. Qed.

Lemma quiet_calm : calm.
Proof. intros t N todo st Hl _. eapply wp_mono; [by eapply hq_timeout|]. intros [] st' [-> _ _]. done. Qed.

Lemma quiet_behaves b m note fired N todo st : behaves b m note → quiet m fired → loop_ok N todo st → awake st →
  wp m (λ _ st', loop_ok N todo st' ∧ awake st' ∧ still st fired st') st.
Proof.
  intros Hb Hm Hl Ha. eapply wp_mono; [apply wp_conj; [apply (Hb N todo st Hl); auto|by eapply Hm]|].
  intros x st' [(Hl' & Hf & _) Hs]. split; [done|]. split; [by apply Hf|done].
Qed.

Lemma notify_still N evt todo st : loop_ok N (evt :: todo) st → Event.token evt = NOTIFY → awake st →
  wp (notify handler) (λ _ st', still st [] st') st.
Proof.
  intros Hl Ht Ha. unfold notify. wp_steps.
  assert (∀ n st, loop_ok N (evt :: todo) st → awake st →
    wp (notify_loop handler n) (λ _ st', loop_ok N (evt :: todo) st' ∧ awake st' ∧ still st [] st') st) as Hn.
  { clear st Hl Ha. induction n as [|n IH]; intros st Hl Ha; cbn [notify_loop].
    { wp_step. split; [done|]. split; [done|]. by split; rewrite ?app_nil_r. }
    wp_step. apply wp_on_loop. eapply wp_mono; [eapply try_recv_loop, Hl|].
    intros r el1 (Hl1 & He1 & Hc1 & [Ht1 Hck] & Ha1 & Hr). cbn beta.
    assert (still st [] (st.1, el1)) as Hs1 by (split; cbn; rewrite ?app_nil_r; done).
    destruct r as [msg|e]; [|wp_step; split; [exact Hl1|split; [by apply Ha1|done]]]. wp_step.
    eapply wp_mono; [eapply (quiet_behaves true _ [msg]); [apply Hh|apply Hq|exact Hl1|by apply Ha1]|].
    intros [] st2 (Hl2 & Ha2 & Hs2). eapply wp_mono; [by apply IH|]. intros [] st3 (Hl3 & Ha3 & Hs3). split; [done|]. split; [done|].
    exact (still_trans _ _ _ _ _ Hs1 (still_trans _ _ _ _ _ Hs2 Hs3)). }
  eapply wp_mono; [by apply Hn|]. intros [] st1 (Hl1 & Ha1 & Hs1). wp_step. apply wp_on_loop.
  eapply wp_mono; [eapply rearm_ok; [exact Hl1|done|done]|]. intros r el2 (_ & _ & _ & Ht2 & Hc2). wp_step.
  eapply (still_trans _ [] _ []); [exact Hs1|]. split; cbn; rewrite ?app_nil_r; done.
Qed.
Lemma loop_clock_ok N todo st : loop_ok N todo st → sys_inv (loop_sys st.2) ∧ clock_ok clock st.2.
Proof.
  intros (hn & ht & ni & ti & rl & Hl). split; [by eapply loop_sys_inv|]. destruct Hl as [_ _ [_ _ Htk _ Hck] _ _ _ _ Hroom].
  split; [lia|]. intros n. destruct (Hck n). split; [done|]. unfold reading. lia.
Qed.

Lemma timer_process_fires fuel N evt todo : Event.token evt = TIMER → ∀ st,
  loop_ok N (evt :: todo) st → awake st → (size (pending_of st) < fuel)%nat →
  wp (timer_process clock handler fuel) (λ _ st', ∃ fired, fires st fired st' ∧ drained st st') st.
Proof.
  intros Ht. induction fuel as [|fuel IH]; intros st Hl Ha Hf; [lia|]. cbn [timer_process]. wp_step. apply wp_on_loop.
  destruct (loop_clock_ok _ _ _ Hl) as [Hs Hck]. destruct (timer_round clock st.2 Hs Hck) as (o & el1 & E & _ & Hc1 & _ & Hms1 & Hst1 & Ho).
  pose proof (timer_round_ok clock N _ evt todo st.2 Hl Ht) as Hw. unfold wp in Hw. rewrite E in Hw. destruct Hw as (Hf1 & _ & Ho').
  eapply wp_of_eq; [exact E|]. cbn beta. destruct o as [t|].
  - destruct Ho as (_ & x & k & Hx & Hdel), Ho' as [Hl1 Hsz]. wp_step.
    eapply wp_mono; [eapply (quiet_behaves true _ []); [apply (ho_timeout Hh)|apply Hq|exact Hl1|by apply Hf1]|].
    intros [] st2 (Hl2 & Ha2 & [Ht2 Hc2 Hlog2]).
    assert (fires st [t] st2) as Hfr.
    { unfold pending_of. split; unfold pending_of; rewrite ?Ht2, ?Hc2; cbn [snd fst] in *; [done|rewrite Hdel; apply delete_subseteq| |done|lia].
      rewrite Hdel. unfold states. by rewrite <- (map_to_list_delete (abs (el_timer st.2)) x (k, t) Hx). }
    eapply wp_mono; [apply IH; [exact Hl2|done|unfold pending_of in *; rewrite Ht2; cbn; lia]|].
    intros [] st3 (fired & Hf3 & Hd3). exists (t :: fired). split; [exact (fires_trans _ _ _ _ _ Hfr Hf3)|by eapply drained_before].
  - destruct Ho as [Hsame Hlate]. wp_step. exists []. split.
    + split; unfold pending_of; cbn; rewrite ?Hsame, ?app_nil_r; try done. lia.
    + exists (el_clock st.2). cbn. split; [lia|]. intros x k v. unfold pending_of. cbn. rewrite Hsame. apply Hlate.
Qed.

Lemma dispatch_fires fuel N evt todo st :
  loop_ok N (evt :: todo) st → awake st → slab_capacity (entries (el_timer st.2)) < Z.of_nat fuel →
  wp (dispatch clock handler fuel evt) (λ _ st', ∃ fired, fires st fired st' ∧ (Event.token evt = TIMER → drained st st')) st.
Proof.
  intros Hl Ha Hf. unfold dispatch. case_decide as Hn; [|case_decide as Ht].
  - eapply wp_mono; [by eapply notify_still|]. intros [] st' Hs. exists []. split; [by apply still_fires|]. intros Ht. by rewrite Hn in Ht.
  - eapply wp_mono; [eapply timer_process_fires; [done|exact Hl|done|]|].
    + pose proof Hl as (hn & ht & ni & ti & rl & Hl'). pose proof (tm_size _ _ _ _ (la_t _ _ _ _ _ _ _ _ _ _ _ _ Hl')).
      unfold pending_of. lia.
    + intros [] st' (fired & Hfr & Hd). eauto.
  - eapply wp_mono; [eapply (hq_ready Hq), Hl|]. intros [] st' Hs. exists []. split; [by apply still_fires|done].
Qed.

Lemma process_fires fuel : ∀ todo N i st,
  loop_ok N todo st → awake st → slab_capacity (entries (el_timer st.2)) < Z.of_nat fuel →
  (∀ j e, todo !! j = Some e → Events_get (el_events st.2) (i + Z.of_nat j) = Some e) →
  wp (process_from clock handler fuel (length todo) i) (λ _ st', ∃ fired, fires st fired st' ∧ (TIMER ∈ tokens todo → drained st st')) st.
Proof.
  induction todo as [|evt todo IH]; intros N i st Hl Ha Hf Hget; cbn [length process_from].
  { wp_step. exists []. split; [apply still_fires; split; rewrite ?app_nil_r; done|]. by intros ?%elem_of_nil. }
  wp_step. pose proof (Hget 0%nat evt eq_refl) as H0. rewrite Z.add_0_r in H0. unfold wp at 1. rewrite H0. cbn [unwrap lift]. wp_step.
  assert (fuel_ok False fuel st) as Hfu by (right; split; [exact quiet_calm|done]).
  eapply wp_mono; [apply wp_conj; [exact (dispatch_gwp False fuel N evt todo st Hl Ha Hfu)|by eapply dispatch_fires]|].
  intros [] st1 [(Hl1 & d & Hp & _) (f1 & Hf1 & Hd1)].
  eapply wp_mono; [apply (IH (N + 1) (i + 1) st1 Hl1)|].
  - by apply Hp.
  - by rewrite (pg_capacity _ _ _ Hp).
  - intros j e Hj. rewrite (pg_events _ _ _ Hp). replace (i + 1 + Z.of_nat j) with (i + Z.of_nat (Datatypes.S j)) by lia. by apply Hget.
  - intros [] st2 (f2 & Hf2 & Hd2). exists (f1 ++ f2). split; [by eapply fires_trans|].
    rewrite fmap_cons, elem_of_cons. intros [Hn|Hn]; [by eapply drained_after; [apply Hd1|]|by eapply drained_before; [|apply Hd2]].
Qed.
(** C4: with a handler that neither sets nor cancels timeouts and leaves the timer and
    the clock alone ([handler_quiet]): once the timer's thread has announced a
    timeout, the next iteration with a successful poll returns and hands over
    timeouts, each once, until a reading of the clock, taken in this iteration, has
    passed none of those still pending. *)
Theorem timeouts_get_through (fuel : nat) (acts : list (Act MSG)) (timeout : option Duration) (N n : Z) (st : HS * EL) (el1 : EL) :
  loop_ok N [] st → Forall (act_ok (own st.1)) acts → AWake ∈ acts → timeout_wf timeout →
  slab_capacity (entries (el_timer st.2)) < Z.of_nat fuel →
  io_poll (others_of (timer_handle st.2) acts) timeout st.2 = Done (Ok n, el1) → N + n < U64_MAX →
  ∃ st' fired, run_once clock handler fuel (others_of (timer_handle st.2) acts) timeout st = Done (Ok tt, st') ∧
    loop_ok (N + n) [] st' ∧ fires st fired st' ∧ drained st st'.
Proof.
  intros Hl Ha Hwake Hto Hf Ep HN. pose proof (io_poll_ok clock acts timeout N (own st.1) st.2 Hl Ha Hto) as Hw.
  unfold wp in Hw. rewrite Ep in Hw. destruct Hw as (Hpf & -> & Hsl & Hok & _ & Htt). specialize (Hok HN).
  destruct st as [hs el]. cbn [fst snd] in *.
  assert (fires (hs, el) [] (hs, el1)) as Hf0.
  { destruct Hpf as [_ Htm _ Hck _]. apply still_fires. split; cbn; rewrite ?app_nil_r; done. }
  assert (slab_capacity (entries (el_timer el1)) < Z.of_nat fuel) as Hf1 by (by rewrite (pf_timer _ _ Hpf)).
  assert (wp (io_process clock handler fuel (Z.of_nat (length (buffer el1)))) (λ _ st', loop_ok (N + Z.of_nat (length (buffer el1))) [] st' ∧
    ∃ fired, fires (hs, el1) fired st' ∧ drained (hs, el1) st') (hs, el1)) as ([] & st2 & E2 & Hl2 & f2 & Hf2 & Hd2)%wp_done.
  { eapply wp_mono; [apply wp_conj; [apply (io_process_gwp False fuel N (hs, el1) Hok Hsl); right; split; [exact quiet_calm|done]|]|].
    - unfold io_process. rewrite Nat2Z.id. eapply process_fires; [exact Hok|done|done|].
      intros j e Hj. unfold Events_get. rewrite ev_get_list by lia. by replace (Z.to_nat _) with j by lia.
    - intros [] st' [[Hl' _] (f & Hfr & Hd)]. split; [done|]. exists f. split; [done|]. apply Hd, Htt.
      apply existsb_exists. exists AWake. split; [by apply list_elem_of_In|done]. }
  assert (wp (h_tick handler) (λ _ st', loop_ok (N + Z.of_nat (length (buffer el1))) [] st' ∧ still st2 [] st') st2)
    as ([] & st3 & E3 & Hl3 & Hs3)%wp_done.
  { eapply wp_mono; [apply wp_conj; [apply (ho_tick Hh _ [] st2 Hl2); done|eapply (hq_tick Hq), Hl2]|]. by intros [] st' [[? _] ?]. }
  exists st3, ([] ++ f2 ++ []). rewrite (run_once_spec clock handler fuel _ timeout hs el el1 _ Ep). unfold mbind, M_bind. rewrite E2, E3.
  apply still_fires in Hs3. split; [done|]. split; [done|]. split; [eauto using fires_trans|].
  eapply drained_before, drained_after; [exact Hf0|exact Hd2|exact Hs3].
Qed.
End timeouts.
End handler.
End loop.
