(* ===== verification/LoopEx.v ===== *)
(** * Event loops on concrete platforms

    The buffers of the two Unix selectors, and those selectors themselves, are what
    the event loop needs ([SysEventsLaws], [SelectorTotal]); and runs of a loop made
    by [configured], with messages from another thread, a handler that answers
    them, and a timeout. *)

From S2P Require Import Prelude Event Convert DList Iface Timer TimerInv TimerOps TimerPoll TimerSpec TimerThm.
From S2P Require Import ReadyQueue QueueInv QueueOps QueuePoll Poll PollThm Handles Channel ChannelThm UnixIo.
From S2P Require Import Epoll EpollThm Kqueue KqueueThm EventLoop EventLoopThm LoopInv LoopOps LoopPoll LoopNew LoopThm.

(** ** Buffers and selectors *)

#[export] Instance list_events_spec : SysEventsSpec (list Event.t) := { ev_list l := l }.
#[export] Instance list_events_laws : SysEventsLaws (list Event.t).
Proof. split; [done..|]. intros e v. exists (Event.kind e). by destruct e. Qed.

#[export] Instance script_total : SelectorTotal script (list Event.t).
Proof. split. intros evs aw to s _. cbn. destruct (results s); eauto. Qed.

Section epoll.
Context {K : Type} {sys : EpollSys K} {consts : EpollConsts} {growth : VecGrowth}.

#[export] Instance epoll_events_spec : SysEventsSpec EpollEvents := {
  ev_list e := (λ ev, Event.new (epoll_to_ready (ee_events ev)) (mkToken (ee_u64 ev))) <$> Epoll.events e }.
#[export] Instance epoll_events_laws : SysEventsLaws EpollEvents.
Proof.
  split.
  - intros v. cbn. unfold Epoll.len. by rewrite length_fmap.
  - intros v i _. cbn. unfold Epoll.get. by rewrite list_lookup_fmap.
  - intros e v. cbn. rewrite fmap_app. eexists. f_equal. by destruct e as [k []].
Qed.

#[export] Instance epoll_total : SelectorTotal (Epoll.Selector * K) EpollEvents.
Proof.
  split. intros evs aw to [s k] Hto. cbn [sel_select epoll_selector_ops].
  assert (∃ ms, Epoll.timeout_ms to = Done ms) as [ms E].
  { destruct to as [d|]; cbn; [|eauto]. rewrite millis_value by done. cbn. eauto. }
  unfold Epoll.select, mbind, M_bind, lift, Epoll.syscall, Epoll.cvt. rewrite E.
  destruct (k_epoll_wait _ _ _ k) as [[cnt written] k1]. cbn. destruct (Epoll.is_minus_one cnt); cbn; [eauto|].
  destruct (take_awakener _ _). cbn. eauto.
Qed.
End epoll.

Section kqueue.
Context {K : Type} {sys : KqSys K} {consts : KqConsts}.

#[export] Instance kqueue_events_spec : SysEventsSpec KqEvents := { ev_list := Kqueue.events }.
#[export] Instance kqueue_events_laws : SysEventsLaws KqEvents.
Proof. split; [done..|]. intros e v. exists (Event.kind e). by destruct e. Qed.

#[export] Instance kqueue_total : SelectorTotal (KqSelector * K) KqEvents.
Proof.
  split. intros evs aw to [s k] _. cbn [sel_select kqueue_selector_ops].
  unfold Kqueue.select, mbind, M_bind, gets, Kqueue.syscall, Kqueue.cvt, lift. cbn -[coalesce].
  destruct (kq_kevent _ _ _ _ k) as [[cnt written] k1]. cbn -[coalesce]. destruct (Kqueue.is_minus_one cnt); cbn -[coalesce]; [eauto|].
  match goal with |- context [coalesce aw ?e] => destruct (coalesce_total aw e) as (ret & e' & ->) end. cbn. eauto.
Qed.
End kqueue.

(** ** A loop from [configured] *)

Definition small_config : Config := mkConfig 16 2 (from_millis 100) 16 16.
Definition new_loop (rs : list (io_result bool)) : outcome (io_result DemoLoop) := configured small_config (Ok (demo_poll rs q0)) 0.

Lemma q0_own : qown q0 [] [].
Proof.
  split; [|by intros h ?%elem_of_nil]. destruct (po_queue _ (demo_ops_ok [] eq_refl ltac:(cbn; lia))) as (al & rl & Hg).
  exists al. by rewrite <- (empty_ready _ _ _ _ Hg eq_refl).
Qed.

(** The first reading of the clock shows the start, all others 200 ms. *)
Definition late_clock (n : nat) : Instant := match n with O => 0 | _ => 200000000 end.

Lemma late_readings n : Duration_wf (elapsed 0 (late_clock n)) ∧ tick_of 100 (elapsed 0 (late_clock n)) <= 10.
Proof. destruct n; (split; [apply (bool_decide_unpack _); vm_compute; exact I|vm_compute; discriminate]). Qed.


(** The loop has handed out a sender and set a timeout for 100 ms. *)
Definition ready_loop (rs : list (io_result bool)) : outcome DemoLoop :=
  match new_loop rs with
  | Done (Ok el) =>
      '(_, el) ← EventLoop_channel el;
      '(_, el) ← EventLoop_timeout late_clock "tick"%string (from_millis 100) el;
      Done el
  | _ => Panic
  end.
Definition the_loop (rs : list (io_result bool)) : DemoLoop :=
  match ready_loop rs with Done el => el | _ => demo_loop rs end.

Lemma the_loop_ok rs : LoopOk late_clock 10 [] [] (the_loop rs).
Proof.
  destruct (configured_loop (S:=map_slab) (C:=option) (TO:=string) (MSG:=Z) late_clock small_config (demo_poll rs q0) 0 100 10 [] [])
    as (el & E & Hl & _ & _ & _ & Hs & _ & Hst);
    [exact q0_own|done|lia|cbn; lia|cbn; lia|by vm_compute|exact late_readings|unfold U64_MAX; lia|].
  unfold the_loop, ready_loop, new_loop. rewrite E.
  pose proof (loop_channel_ok late_clock 10 [] [] el Hl ltac:(rewrite Hs; done)) as ([] & el1 & E1 & Hl1 & _ & _ & Ht1)%wp_done. rewrite E1. cbn [mbind outcome_bind].
  assert (delay_ok late_clock (from_millis 100) el1) as Hd.
  { intros [|n]; rewrite Ht1, Hst; (eexists; split; [vm_compute; reflexivity|apply (bool_decide_unpack _); by vm_compute]). }
  pose proof (timeout_ok late_clock "tick"%string (from_millis 100) 10 [] [] el1 Hl1 Hd) as (r & el2 & E2 & Hl2 & _)%wp_done.
  rewrite E2. exact Hl2.
Qed.

(** ** Handlers *)

(** The state of a handler: the messages and the timeouts it was given. *)
Abbreviation Notes := (list Z * list string)%type.
Abbreviation DemoHandler := (Handler (S:=map_slab) (C:=option) (A:=counter) (V:=list Event.t) (Sel:=script)
  (TO:=string) (MSG:=Z) (HS:=Notes)).
Definition owns (hs : Notes) : list RegistrationInner := [].
Definition note_message (msg : Z) (hs : Notes) : Notes := (hs.1 ++ [msg], hs.2).
Definition note_timeout (t : string) (hs : Notes) : Notes := (hs.1, hs.2 ++ [t]).
Definition keep_note (f : Notes → Notes) : M (Notes * DemoLoop) unit := λ st, Done (tt, (f st.1, st.2)).

(** Messages below 10 are answered with another message. *)
Definition echo : DemoHandler :=
  mkHandler (λ _ _, mret tt)
    (λ msg, _ ← keep_note (note_message msg); if msg <? 10 then _ ← on_loop (Sender_send_msg (msg + 10)); mret tt else mret tt)
    (λ t, keep_note (note_timeout t)) (mret tt) (mret tt).

Lemma echo_ok : handler_ok late_clock owns fst echo.
Proof.
  split; cbn.
  - intros _ _. apply behaves_ret.
  - intros msg. apply (behaves_bind late_clock owns fst true _ _ [msg] []); [by apply behaves_state|]. intros _. destruct (msg <? 10); [|apply behaves_ret].
    apply (behaves_bind late_clock owns fst true _ _ [] []); [apply behaves_send|intros; apply behaves_ret].
  - intros t. apply behaves_state; [done|]. intros hs. by rewrite app_nil_r.
  - apply behaves_ret.
  - apply behaves_ret.
Qed.

(** Only keeps what it is given. *)
Definition recorder : DemoHandler :=
  mkHandler (λ _ _, mret tt) (λ msg, keep_note (note_message msg)) (λ t, keep_note (note_timeout t)) (mret tt) (mret tt).

Lemma recorder_ok : handler_ok late_clock owns fst recorder.
Proof.
  split; cbn; intros; [apply behaves_ret|by apply behaves_state| |apply behaves_ret|apply behaves_ret].
  apply behaves_state; [done|]. intros hs. by rewrite app_nil_r.
Qed.

Lemma recorder_quiet : handler_quiet late_clock owns recorder snd.
Proof.
  split; cbn; intros; intros N todo st _; unfold wp; cbn; split; cbn; rewrite ?app_nil_r; done.
Qed.

(** ** Runs *)

(** Another thread sends three messages while the loop sleeps; the timer's thread
    announces the timeout. *)
Definition busy : list (Act Z) := [ASend 1; ASend 2; AWake; ASend 3].
Definition first_poll : list (io_result bool) := [Ok true].

Lemma busy_ok (hs : Notes) : Forall (act_ok (owns hs)) busy.
Proof. repeat constructor. Qed.

Definition start_state : Notes * DemoLoop := (([], []), the_loop first_poll).
Definition others_busy := others_of (timer_handle (the_loop first_poll)) busy.

(** One iteration hands over two messages, as configured, and the timeout; the third
    message and the two answers wait. *)
Example echo_once :
  match run_once late_clock echo 20 others_busy None start_state with
  | Done (Ok _, (hs, el)) => hs = ([1; 2], ["tick"%string]) ∧ m_queue (mpsc (el_notify el)) = [3; 11; 12]
  | _ => False
  end.
Proof. vm_compute. auto. Qed.

(** Two more, without anybody sending, hand over the rest, of which one is answered. *)
Definition idle : Others (C:=option) (A:=counter) (MSG:=Z) := Datatypes.id.
Example echo_three_times :
  match (run_once late_clock echo 20 others_busy None ≫= λ _, run_once late_clock echo 20 idle None ≫= λ _,
         run_once late_clock echo 20 idle None) start_state with
  | Done (Ok _, (hs, el)) => hs.1 = [1; 2; 3; 11; 12; 13] ∧ m_queue (mpsc (el_notify el)) = []
  | _ => False
  end.
Proof. vm_compute. auto. Qed.

Definition poll_result : io_result Z := match io_poll others_busy None (the_loop first_poll) with Done (r, _) => r | _ => Ok 0 end.

Lemma run_once_delivers_witness :
  ∃ st' d later, run_once late_clock echo 20 others_busy None start_state = Done (Ok tt, st') ∧
    LoopOk late_clock 12 [] [] st'.2 ∧ st'.1.1 = d ∧ [1; 2; 3] ++ later = d ++ m_queue (mpsc (el_notify st'.2)) ∧ (2 ≤ length d)%nat.
Proof.
  destruct (run_once_delivers late_clock owns fst echo echo_ok 20 busy None 10 start_state (the_loop_ok _) (busy_ok _) I)
    as (r & el1 & Ep & _ & H).
  assert (Ep' := Ep). vm_compute in Ep'. injection Ep' as <- <-.
  destruct H as (_ & _ & H); [vm_compute; reflexivity|].
  destruct (run_once late_clock echo 20 (others_of (timer_handle start_state.2) busy) None start_state) as [[res st']| |] eqn:E;
    [|vm_compute in E; discriminate..].
  destruct (H res st' eq_refl) as (Hl & d & later & Hlog & Hq & -> & Hd).
  exists st', d, later. split; [exact E|]. split; [exact Hl|]. split; [exact Hlog|]. split; [exact Hq|exact Hd].
Defined.

(** The loop itself may send, too. *)
Definition send_all (msgs : list Z) (el : DemoLoop) : DemoLoop :=
  foldl (λ el msg, match Sender_send_msg msg el with Done (_, el) => el | _ => el end) el msgs.

Lemma send_all_ok msgs : ∀ el, LoopOk late_clock 10 [] [] el → LoopOk late_clock 10 [] [] (send_all msgs el).
Proof.
  induction msgs as [|msg msgs IH]; intros el Hl; cbn; [done|]. apply IH.
  pose proof (send_ok late_clock msg 10 [] [] el Hl) as (r & el' & -> & Hl' & _)%wp_done. exact Hl'.
Qed.

Definition full_state : Notes * DemoLoop := (([], []), send_all [1; 2; 3] (the_loop [])).

(** What an iteration that nobody disturbs does with a state: the events of its poll
    with the loop after it, and the state after the iteration. *)
Definition polled (st : Notes * DemoLoop) : nat * DemoLoop :=
  match io_poll (others_of (timer_handle st.2) []) None st.2 with Done (Ok n, el) => (Z.to_nat n, el) | _ => (O, st.2) end.
Definition after (st : Notes * DemoLoop) : Notes * DemoLoop :=
  match run_once late_clock recorder 20 (others_of (timer_handle st.2) []) None st with Done (_, st) => st | _ => st end.
Definition second_state := Eval vm_compute in after full_state.

Lemma messages_get_through_witness :
  let st' := after second_state in
  loop_ok late_clock owns 13 [] st' ∧ ∃ d, st'.1.1 = d ∧ take 4 [1; 2; 3] `prefix_of` d.
Proof.
  destruct (messages_get_through late_clock owns fst recorder recorder_ok 20 2 3 full_state (after second_state) 10)
    as (Hl & d & later & Hlog & _ & Hpre).
  - exact (send_all_ok [1; 2; 3] (the_loop []) (the_loop_ok [])).
  - apply (loops_more late_clock owns recorder 20 [] None 1 1 2 _ (polled full_state).2 second_state);
      [constructor|exact I|vm_compute; reflexivity|vm_compute; reflexivity|].
    apply (loops_more late_clock owns recorder 20 [] None 2 0 0 _ (polled second_state).2 (after second_state));
      [constructor|exact I|vm_compute; reflexivity|vm_compute; reflexivity|apply loops_none].
  - vm_compute. reflexivity.
  - split; [exact Hl|]. exists d. split; [exact Hlog|exact Hpre].
Defined.

Lemma waiting_never_blocks_witness :
  poll_timeout None (el_queue full_state.2) = Done (Some (from_millis 0), el_queue full_state.2).
Proof.
  apply (waiting_never_blocks late_clock owns None 10 full_state).
  - exact (send_all_ok [1; 2; 3] (the_loop []) (the_loop_ok [])).
  - vm_compute. discriminate.
Defined.

Lemma timeouts_get_through_witness :
  ∃ st' fired, run_once late_clock recorder 20 others_busy None start_state = Done (Ok tt, st') ∧ st'.1.2 = fired ∧
    fired ++ states (abs (el_timer st'.2)) ≡ₚ ["tick"%string].
Proof.
  destruct (io_poll others_busy None start_state.2) as [[r el1]| |] eqn:Ep; [|vm_compute in Ep; discriminate..].
  destruct r as [n|e]; [|vm_compute in Ep; discriminate].
  destruct (timeouts_get_through late_clock owns fst recorder recorder_ok snd recorder_quiet 20 busy None 10 n start_state el1)
    as (st' & fired & E & _ & Hf & _).
  - exact (the_loop_ok _).
  - exact (busy_ok _).
  - right. right. left.
  - exact I.
  - vm_compute. reflexivity.
  - exact Ep.
  - vm_compute in Ep. injection Ep as <- _. vm_compute. reflexivity.
  - exists st', fired. split; [exact E|]. split; [exact (fr_log _ _ _ _ Hf)|exact (fr_all _ _ _ _ Hf)].
Defined.
