(* ===== verification/Windows.v ===== *)
(** * sys/windows: the completion-port selector, bindings, buffers, reference counts

    [selector.rs], [buffer_pool.rs] and [from_raw_arc.rs] of [sys/windows].  The
    completion port is an interface ([IocpOps]); readiness is tracked through the
    interface of [poll.rs].  The pool of buffers belongs to
    the selector and is shared by the sockets bound to it. *)

From S2P Require Import Prelude Event Convert Iface.

(** ** buffer_pool.rs *)

(** A [Vec<u8>]: its contents and its capacity. *)
Record Buf : Type := mkBuf { b_bytes : list Z; b_cap : Z }.
Definition Vec_with_capacity (cap : Z) : Buf := mkBuf [] cap.

(** [bp_capacity]: the capacity of the vector of buffers; the last one is on top. *)
Record BufferPool : Type := mkBufferPool { bp_pool : list Buf; bp_capacity : Z }.

Definition BufferPool_new (cap : Z) : BufferPool := mkBufferPool [] cap.

Definition BufferPool_get (default_cap : Z) (p : BufferPool) : Buf * BufferPool :=
  match last (bp_pool p) with
  | Some b => (b, mkBufferPool (take (length (bp_pool p) - 1) (bp_pool p)) (bp_capacity p))
  | None => (Vec_with_capacity default_cap, p)
  end.

Definition BufferPool_put (buf : Buf) (p : BufferPool) : BufferPool :=
  if Z.of_nat (length (bp_pool p)) <? bp_capacity p
  then mkBufferPool (bp_pool p ++ [mkBuf [] (b_cap buf)]) (bp_capacity p)
  else p.

(** ** from_raw_arc.rs *)

Record ArcInner (T : Type) : Type := mkArcInner { ai_data : T; ai_cnt : Z }.
Arguments mkArcInner {T} _ _.
Arguments ai_data {T} _.
Arguments ai_cnt {T} _.

(** The boxes that are allocated; a handle is the address of one. *)
Abbreviation ArcHeap T := (gmap positive (ArcInner T)).

Section arc.
Context {T : Type}.

Definition arc_at (h : positive) : M (ArcHeap T) (ArcInner T) := λ hp, lift (unwrap (hp !! h)) hp.

Definition FromRawArc_new (data : T) : M (ArcHeap T) positive := λ hp,
  let h := fresh (dom hp : gset positive) in Done (h, <[h := mkArcInner data 1]> hp).

(** [from_raw(ptr)]: the pointer becomes a handle, the count is not touched. *)
Definition FromRawArc_from_raw (ptr : positive) : M (ArcHeap T) positive := mret ptr.

Definition FromRawArc_clone (h : positive) : M (ArcHeap T) positive :=
  i ← arc_at h;
  _ ← modify (λ hp, <[h := mkArcInner (ai_data i) (wrap64 (ai_cnt i + 1))]> hp);
  mret h.

Definition FromRawArc_deref (h : positive) : M (ArcHeap T) T := i ← arc_at h; mret (ai_data i).

(** [Some data]: the data was dropped and the box freed. *)
Definition FromRawArc_drop (h : positive) : M (ArcHeap T) (option T) :=
  i ← arc_at h;
  _ ← modify (λ hp, <[h := mkArcInner (ai_data i) (wrap64 (ai_cnt i - 1))]> hp);
  if negb (ai_cnt i =? 1) then mret None
  else _ ← modify (λ hp, delete h hp); mret (Some (ai_data i)).
End arc.

(** ** selector.rs: the selector *)

(** A pointer into an allocated box: which box, and the offset in it. *)
Record Ptr : Type := mkPtr { p_box : positive; p_off : Z }.
#[export] Instance Ptr_eq_dec : EqDecision Ptr.
Proof. solve_decision. Defined.

(** A completion: the address of its [OVERLAPPED] ([None] is null), its token and
    the number of bytes transferred. *)
Record CompletionStatus : Type := mkStatus { cs_overlapped : option Ptr; cs_token : Z; cs_bytes : Z }.

Section select.
(** The state the callbacks work on; [callback o s]: the function stored in the
    [Overlapped] at address [o]. *)
Context {X : Type} (callback : Ptr → CompletionStatus → M X unit).

Record WinEvents : Type := mkWinEvents { we_statuses : Z; we_events : list Event.t }.

Definition WinEvents_with_capacity (cap : Z) : WinEvents := mkWinEvents cap [].
Definition WinEvents_is_empty (e : WinEvents) : bool := match we_events e with [] => true | _ => false end.
Definition WinEvents_len (e : WinEvents) : Z := Z.of_nat (length (we_events e)).
Definition WinEvents_get (e : WinEvents) (idx : Z) : option Event.t := we_events e !! Z.to_nat idx.
Definition WinEvents_push_event (event : Event.t) (e : WinEvents) : WinEvents :=
  mkWinEvents (we_statuses e) (we_events e ++ [event]).

Fixpoint run_statuses (awakener : Token) (ret : bool) (l : list CompletionStatus) : M X bool :=
  match l with
  | [] => mret ret
  | status :: l =>
      match cs_overlapped status with
      | None => (* assert_eq!(status.token(), usize::from(awakener)) *)
          if cs_token status =? usize_from_token awakener then run_statuses awakener true l else panic
      | Some o => _ ← callback o status; run_statuses awakener ret l
      end
  end.

(** [get_many]: what the port answers, at most as many as there are statuses. *)
Definition select (WAIT_TIMEOUT : Z) (get_many : Z → option Duration → M X (io_result (list CompletionStatus)))
    (events : WinEvents) (awakener : Token) (timeout : option Duration) : M X (io_result bool * WinEvents) :=
  let events := mkWinEvents (we_statuses events) [] in
  r ← get_many (we_statuses events) timeout;
  match r with
  | Ok statuses => ret ← run_statuses awakener false statuses; mret (Ok ret, events)
  | Err e =>
      if decide (e = io_os WAIT_TIMEOUT) then mret (Ok false, events) else mret (Err e, events)
  end.
End select.

(** ** selector.rs: bindings *)

(** Adding a socket to a port; selectors are told apart by address. *)
Class IocpOps (K : Type) : Type := {
  iocp_add_socket : Z → Z → Z → K → io_result unit * K }.

Section binding.
Context {C : Type → Type} {cell_ops : LazyCellOps C}.
Context {W R H P : Type} {rd_ops : ReadinessOps W H} {reg_ops : RegistrationOps W R H P} {drop_ops : HandleDropOps W R H}.
Context {K : Type} {iocp_ops : IocpOps K}.

(** [ReadyBinding] with the [Mutex<Option<Registration>>] of its socket, the
    pools of the selectors, the readiness queue and the kernel. *)
Record RB : Type := mkRB {
  rb_selector : C Z;
  rb_readiness : option H;
  rb_registration : option R;
  rb_pools : gmap Z BufferPool;
  rb_world : W;
  rb_kernel : K }.

Definition set_selector c (s : RB) := mkRB c (rb_readiness s) (rb_registration s) (rb_pools s) (rb_world s) (rb_kernel s).
Definition set_pools p (s : RB) := mkRB (rb_selector s) (rb_readiness s) (rb_registration s) p (rb_world s) (rb_kernel s).
Definition set_kernel k (s : RB) := mkRB (rb_selector s) (rb_readiness s) (rb_registration s) (rb_pools s) (rb_world s) k.

Definition on_world {A} (m : M W A) : M RB A := λ s,
  '(a, w) ← m (rb_world s);
  Done (a, mkRB (rb_selector s) (rb_readiness s) (rb_registration s) (rb_pools s) w (rb_kernel s)).

Definition other (msg : string) : io_error := io_custom Other msg.

(** [Binding]; [poll] is the address of the poll's selector. *)
Definition check_same_selector (poll : Z) : M RB (io_result unit) :=
  prev ← gets (lazy_borrow ∘ rb_selector);
  mret (match prev with
        | Some prev => if prev =? poll then Ok tt else Err (other "socket already registered")
        | None => Err (other "socket already registered")
        end).

(** [selector.inner.port.add_socket(..)]. *)
Definition port_add_socket (poll : Z) (token : Token) (socket : Z) : M RB (io_result unit) := λ s,
  let (r, k) := iocp_add_socket poll (usize_from_token token) socket (rb_kernel s) in Done (r, set_kernel k s).

Definition Binding_register_socket (socket : Z) (token : Token) (poll : Z) : M RB (io_result unit) :=
  _ ← modify (λ s, set_selector (snd (lazy_fill poll (rb_selector s))) s);
  try! check_same_selector poll;
  port_add_socket poll token socket.

Definition Binding_reregister_socket (poll : Z) : M RB (io_result unit) := check_same_selector poll.
Definition Binding_deregister_socket (poll : Z) : M RB (io_result unit) := check_same_selector poll.

(** [ReadyBinding]. *)
Definition registered (s : RB) : bool := bool_decide (is_Some (rb_readiness s)).

(** [i.buffers.lock().unwrap()], for an update [f] of the pool. *)
Definition on_pool {A} (i : Z) (f : BufferPool → A * BufferPool) : M RB A := λ s,
  p ← unwrap (rb_pools s !! i);
  let (a, p) := f p in Done (a, set_pools (<[i := p]> (rb_pools s)) s).

Definition get_buffer (size : Z) : M RB Buf :=
  i ← gets (lazy_borrow ∘ rb_selector);
  match i with
  | Some i => on_pool i (BufferPool_get size)
  | None => mret (Vec_with_capacity size)
  end.

Definition put_buffer (buf : Buf) : M RB unit :=
  i ← gets (lazy_borrow ∘ rb_selector);
  match i with
  | Some i => on_pool i (λ p, (tt, BufferPool_put buf p))
  | None => mret tt
  end.

(** A failure to set the readiness panics. *)
Definition set_readiness (set : Ready.t) : M RB unit :=
  i ← gets rb_readiness;
  match i with
  | Some i => r ← on_world (rd_set_readiness i set); match r with Ok _ => mret tt | Err _ => panic end
  | None => mret tt
  end.

Definition readiness : M RB Ready.t :=
  i ← gets rb_readiness;
  match i with Some i => on_world (rd_readiness i) | None => mret Ready.none end.

(** Readable interest includes the hang-up, as with epoll. *)
Definition with_hup (events : Ready.t) : Ready.t :=
  if Ready.is_readable events then events |ᵣ Ready.hup else events.

(** Assigning the handles drops the ones they replace. *)
Definition register_socket (socket : Z) (poll : Z) (p : P) (token : Token) (events : Ready.t) (opts : PollOpt.t)
    : M RB (io_result unit) :=
  try! Binding_register_socket socket token poll;
  rh ← on_world (reg_new p token (with_hup events) opts);
  let '(r, h) := rh in
  old_h ← gets rb_readiness;
  _ ← modify (λ st, mkRB (rb_selector st) (Some h) (rb_registration st) (rb_pools st) (rb_world st) (rb_kernel st));
  _ ← match old_h with Some o => on_world (rd_drop o) | None => mret tt end;
  old_r ← gets rb_registration;
  _ ← modify (λ st, mkRB (rb_selector st) (rb_readiness st) (Some r) (rb_pools st) (rb_world st) (rb_kernel st));
  _ ← match old_r with Some o => on_world (reg_drop o) | None => mret tt end;
  mret (Ok tt).

Definition reregister_socket (poll : Z) (p : P) (token : Token) (events : Ready.t) (opts : PollOpt.t) : M RB (io_result unit) :=
  try! Binding_reregister_socket poll;
  reg ← gets rb_registration;
  r ← lift (unwrap reg);
  on_world (reg_update r p token (with_hup events) opts).

Definition deregister (poll : Z) (p : P) : M RB (io_result unit) :=
  try! Binding_deregister_socket poll;
  reg ← gets rb_registration;
  r ← lift (unwrap reg);
  on_world (reg_deregister r p).
End binding.
Arguments RB C W R H K : clear implicits.
