(* ===== verification/WindowsThm.v ===== *)
(** * Theorems about the Windows parts: reference counts, bindings, buffers *)

From S2P Require Import Prelude Event Convert Iface Windows.

(** ** from_raw_arc.rs *)

Section arc.
Context {T : Type}.

(** Programs over handles, which are named by their position. *)
Inductive AOp : Type := ANew (data : T) | AClone (i : nat) | ADeref (i : nat) | ADrop (i : nat).

Record AState : Type := mkAState { a_heap : ArcHeap T; a_handles : list positive; a_read : list T; a_dropped : list T }.

Definition run_aop (op : AOp) (s : AState) : outcome AState :=
  match op with
  | ANew d => '(h, hp) ← FromRawArc_new d (a_heap s); Done (mkAState hp (h :: a_handles s) (a_read s) (a_dropped s))
  | AClone i =>
      match a_handles s !! i with
      | Some h => '(h, hp) ← FromRawArc_clone h (a_heap s); Done (mkAState hp (h :: a_handles s) (a_read s) (a_dropped s))
      | None => Done s
      end
  | ADeref i =>
      match a_handles s !! i with
      | Some h => '(d, hp) ← FromRawArc_deref h (a_heap s); Done (mkAState hp (a_handles s) (a_read s ++ [d]) (a_dropped s))
      | None => Done s
      end
  | ADrop i =>
      match a_handles s !! i with
      | Some h => '(o, hp) ← FromRawArc_drop h (a_heap s);
          Done (mkAState hp (delete i (a_handles s)) (a_read s) (a_dropped s ++ option_list o))
      | None => Done s
      end
  end.

Fixpoint run_aops (ops : list AOp) (s : AState) : outcome AState :=
  match ops with [] => Done s | op :: ops => s ← run_aop op s; run_aops ops s end.

(** How many handles point to [h]. *)
Definition handles_of (h : positive) (hs : list positive) : Z := Z.of_nat (length (filter (λ x, x = h) hs)).

Definition created (ops : list AOp) : list T := omap (λ op, match op with ANew d => Some d | _ => None end) ops.

Record arc_ok (s : AState) (made : list T) : Prop := {
  ao_count h : handles_of h (a_handles s) = from_option ai_cnt 0 (a_heap s !! h);
  ao_pos h i : a_heap s !! h = Some i → 0 < ai_cnt i;
  ao_data : a_dropped s ++ (ai_data ∘ snd <$> map_to_list (a_heap s)) ≡ₚ made }.

Lemma handles_cons h x hs : handles_of h (x :: hs) = handles_of h hs + (if decide (x = h) then 1 else 0).
Proof. unfold handles_of. rewrite filter_cons. destruct (decide (x = h)); cbn; lia. Qed.

Lemma handles_delete h hs i x : hs !! i = Some x → handles_of h (delete i hs) = handles_of h hs - (if decide (x = h) then 1 else 0).
Proof.
  intros Hi. rewrite <- (take_drop_middle hs i x Hi) at 2. rewrite delete_take_drop. unfold handles_of.
  rewrite !filter_app, filter_cons, !length_app. destruct (decide (x = h)); cbn; rewrite ?length_app; cbn; lia.
Qed.

Lemma handles_le h hs : 0 <= handles_of h hs <= Z.of_nat (length hs).
Proof. unfold handles_of. pose proof (length_filter (λ x, x = h) hs). lia. Qed.

Lemma handle_live s made i h : arc_ok s made → a_handles s !! i = Some h →
  ∃ v, a_heap s !! h = Some v ∧ ai_cnt v = handles_of h (a_handles s) ∧ 0 < ai_cnt v.
Proof.
  intros Hok Hi. pose proof (ao_count _ _ Hok h) as Hc. destruct (a_heap s !! h) as [v|] eqn:Hv; cbn in Hc.
  - exists v. split; [done|]. split; [done|]. by eapply ao_pos.
  - exfalso. pose proof (handles_delete h (a_handles s) i h Hi) as Hd. rewrite decide_True in Hd by done.
    pose proof (handles_le h (delete i (a_handles s))). lia.
Qed.

Definition a_step (op : AOp) (s : AState) (made : list T) : Prop :=
  ∃ s', run_aop op s = Done s' ∧ arc_ok s' (created [op] ++ made) ∧ (length (a_handles s') <= S (length (a_handles s)))%nat.

Lemma a_new d s made : arc_ok s made → a_step (ANew d) s made.
Proof.
  intros [Hc Hp Hd]. unfold a_step. cbn. eexists. split; [reflexivity|].
  assert (a_heap s !! fresh (dom (a_heap s) : gset positive) = None) as Hf by (apply (not_elem_of_dom (D:=gset positive)), is_fresh).
  split; [split; cbn|cbn; lia].
  - intros h. rewrite handles_cons, Hc. destruct (decide (fresh (dom (a_heap s) : gset positive) = h)) as [<-|Hne].
    + rewrite lookup_insert_eq, Hf. done.
    + rewrite lookup_insert_ne by done. lia.
  - intros h i. rewrite lookup_insert_Some. intros [[_ <-]|[_ Hi]]; [done|by eapply Hp].
  - rewrite map_to_list_insert by done. cbn. rewrite <- Permutation_middle. by rewrite Hd.
Qed.

Lemma replace_data (m : ArcHeap T) h (v : ArcInner T) c : m !! h = Some v →
  ai_data ∘ snd <$> map_to_list (<[h := mkArcInner (ai_data v) c]> m) ≡ₚ ai_data ∘ snd <$> map_to_list m.
Proof.
  intros Hv. rewrite <- (insert_delete_id m h v Hv) at 2. rewrite <- (insert_delete_eq m).
  rewrite !map_to_list_insert by apply lookup_delete_eq. done.
Qed.

Lemma a_clone i s made : arc_ok s made → Z.of_nat (length (a_handles s)) < U64_MAX → a_step (AClone i) s made.
Proof.
  intros Hok Hlen. unfold a_step. cbn [run_aop]. destruct (a_handles s !! i) as [h|] eqn:Hi; [|exists s; split; [done|]; split; [done|lia]].
  destruct (handle_live _ _ _ _ Hok Hi) as (v & Hv & Hcv & Hpv). pose proof (handles_le h (a_handles s)).
  unfold FromRawArc_clone, arc_at, modify, mbind, M_bind. rewrite Hv. cbn -[wrap64]. rewrite wrap64_id by (unfold is_u64; lia).
  eexists. split; [reflexivity|]. destruct Hok as [Hc Hp Hd]. split; [split; cbn|cbn; lia].
  - intros h'. rewrite handles_cons, Hc. destruct (decide (h = h')) as [<-|Hne].
    + rewrite lookup_insert_eq, Hv. done.
    + rewrite lookup_insert_ne by done. lia.
  - intros h' v'. rewrite lookup_insert_Some. intros [[_ <-]|[_ Hi']]; [cbn; lia|by eapply Hp].
  - by rewrite replace_data.
Qed.

Lemma a_deref i s made : arc_ok s made → a_step (ADeref i) s made.
Proof.
  intros Hok. unfold a_step. cbn [run_aop]. destruct (a_handles s !! i) as [h|] eqn:Hi; [|exists s; split; [done|]; split; [done|lia]].
  destruct (handle_live _ _ _ _ Hok Hi) as (v & Hv & _). unfold FromRawArc_deref, arc_at, mbind, M_bind. rewrite Hv. cbn.
  eexists. split; [reflexivity|]. split; [by destruct Hok|cbn; lia].
Qed.

Lemma a_drop i s made : arc_ok s made → Z.of_nat (length (a_handles s)) < U64_MAX → a_step (ADrop i) s made.
Proof.
  intros Hok Hlen. unfold a_step. cbn [run_aop]. destruct (a_handles s !! i) as [h|] eqn:Hi; [|exists s; split; [done|]; split; [done|lia]].
  destruct (handle_live _ _ _ _ Hok Hi) as (v & Hv & Hcv & Hpv). pose proof (handles_le h (a_handles s)).
  unfold FromRawArc_drop, arc_at, modify, mbind, M_bind. rewrite Hv. cbn -[wrap64]. rewrite wrap64_id by (unfold is_u64; lia).
  destruct Hok as [Hc Hp Hd]. pose proof (λ h', handles_delete h' _ _ _ Hi) as Hdel.
  assert (length (delete i (a_handles s)) <= Datatypes.S (length (a_handles s)))%nat as Hl by (rewrite length_delete by eauto; lia).
  destruct (ai_cnt v =? 1) eqn:E1; zbool; cbn [negb]; (eexists; split; [reflexivity|]; split; [split; cbn|done]).
  - intros h'. rewrite Hdel, Hc, delete_insert_eq. destruct (decide (h = h')) as [<-|Hne].
    + rewrite lookup_delete_eq, Hv. cbn. lia.
    + rewrite lookup_delete_ne by done. lia.
  - intros h' v'. rewrite delete_insert_eq, lookup_delete_Some. intros [_ Hh]. by eapply Hp.
  - rewrite delete_insert_eq. cbn. rewrite <- app_assoc, <- Hd. cbn. by rewrite <- (map_to_list_delete (a_heap s) h v Hv).
  - intros h'. rewrite Hdel, Hc. destruct (decide (h = h')) as [<-|Hne].
    + rewrite lookup_insert_eq, Hv. done.
    + rewrite lookup_insert_ne by done. lia.
  - intros h' v'. rewrite lookup_insert_Some. intros [[_ <-]|[_ Hi']]; [cbn; lia|by eapply Hp].
  - rewrite app_nil_r. by rewrite replace_data.
Qed.

Lemma run_aops_ok ops : ∀ s made, arc_ok s made → Z.of_nat (length (a_handles s) + length ops) < U64_MAX →
  ∃ s', run_aops ops s = Done s' ∧ arc_ok s' (rev (created ops) ++ made).
Proof.
  induction ops as [|op ops IH]; intros s made Hok Hlen; cbn [run_aops length] in *; [by eauto|].
  assert (a_step op s made) as (s1 & -> & Hok1 & Hl1).
  { destruct op; [by apply a_new|apply a_clone|by apply a_deref|apply a_drop]; auto; lia. }
  cbn. destruct (IH s1 _ Hok1 ltac:(lia)) as (s' & -> & Hok'). exists s'. split; [done|].
  destruct op; cbn in *; by rewrite <- ?app_assoc.
Qed.

(** C39: any program that creates, clones, reads and drops [FromRawArc] handles
    runs without touching a freed box; the boxes left are exactly those with a
    handle, their counts are the numbers of handles, and every datum put in was
    dropped exactly once or is still held. *)
Theorem from_raw_arc_safe (ops : list AOp) :
  Z.of_nat (length ops) < U64_MAX →
  ∃ s', run_aops ops (mkAState ∅ [] [] []) = Done s' ∧
    (∀ h, handles_of h (a_handles s') = from_option ai_cnt 0 (a_heap s' !! h)) ∧
    (∀ h, is_Some (a_heap s' !! h) ↔ h ∈ a_handles s') ∧
    a_dropped s' ++ (ai_data ∘ snd <$> map_to_list (a_heap s')) ≡ₚ created ops.
Proof.
  intros Hlen. destruct (run_aops_ok ops (mkAState ∅ [] [] []) []) as (s' & E & Hok); [|done|].
  { split; cbn; [intros h; by rewrite lookup_empty|intros h i; by rewrite lookup_empty|by rewrite map_to_list_empty]. }
  exists s'. split; [done|]. split; [apply (ao_count _ _ Hok)|]. split.
  - intros h. split.
    + intros [v Hv]. pose proof (ao_count _ _ Hok h) as Hc. rewrite Hv in Hc. cbn in Hc. pose proof (ao_pos _ _ Hok _ _ Hv).
      unfold handles_of in Hc. destruct (filter (λ x, x = h) (a_handles s')) as [|y l] eqn:Ef; [cbn in Hc; lia|].
      assert (y ∈ filter (λ x, x = h) (a_handles s')) as Hy by (rewrite Ef; left). by apply list_elem_of_filter in Hy as [-> ?].
    + intros [i Hi]%list_elem_of_lookup. destruct (handle_live _ _ _ _ Hok Hi) as (v & Hv & _). eauto.
  - rewrite (ao_data _ _ Hok), app_nil_r. by rewrite <- Permutation_rev.
Qed.
End arc.
Arguments AOp T : clear implicits.
Arguments AState T : clear implicits.

Lemma from_raw_arc_safe_witness :
  ∃ s', run_aops [ANew 7; AClone 0; ADrop 1; ADeref 0; ADrop 0] (mkAState ∅ [] [] []) = Done s' ∧
    (∀ h, is_Some (a_heap s' !! h) ↔ h ∈ a_handles s') ∧ a_dropped s' ++ (ai_data ∘ snd <$> map_to_list (a_heap s')) ≡ₚ [7].
Proof.
  destruct (from_raw_arc_safe [ANew 7; AClone 0; ADrop 1; ADeref 0; ADrop 0]) as (s' & H1 & _ & H2 & H3); [vm_compute; reflexivity|].
  exists s'. exact (conj H1 (conj H2 H3)).
Defined.

(** ** Bindings *)

Section binding.
Context {C : Type → Type} {cell_ops : LazyCellOps C} {cell_laws : LazyCellLaws C}.
Context {W R H P : Type} {rd_ops : ReadinessOps W H} {reg_ops : RegistrationOps W R H P} {drop_ops : HandleDropOps W R H}.
Context {K : Type} {iocp_ops : IocpOps K}.
Implicit Types s : RB C W R H K.

Lemma set_selector_id s : set_selector (rb_selector s) s = s.
Proof. by destruct s. Qed.

Lemma bind_fresh socket token a s :
  lazy_borrow (rb_selector s) = None →
  ∃ c, lazy_borrow c = Some a ∧
    let (r, k) := iocp_add_socket a (usize_from_token token) socket (rb_kernel s) in
    Binding_register_socket socket token a s = Done (r, set_kernel k (set_selector c s)).
Proof.
  intros Hn. destruct (lazy_fill_empty (rb_selector s) a Hn) as (c & Ef & Hc). exists c. split; [done|]. unfold usize_from_token.
  destruct (iocp_add_socket a (token_0 token) socket (rb_kernel s)) as [r k] eqn:E.
  unfold Binding_register_socket, check_same_selector, port_add_socket, mbind, M_bind, modify, gets, compose. cbn.
  rewrite Ef. cbn. rewrite Hc, Z.eqb_refl. cbn. unfold usize_from_token. by rewrite E.
Qed.

Lemma bind_other socket token a b s :
  lazy_borrow (rb_selector s) = Some a → b ≠ a →
  Binding_register_socket socket token b s = Done (Err (other "socket already registered"), s).
Proof.
  intros Ha Hne. unfold Binding_register_socket, check_same_selector, mbind, M_bind, modify, gets, compose. cbn.
  rewrite (lazy_fill_full _ b a Ha). cbn. rewrite set_selector_id, Ha. by replace (a =? b) with false by lia.
Qed.

(** on Windows a socket is bound to the first selector it is registered
    with, for good: the completion port then receives it, and registering,
    reregistering or deregistering with another selector fails without touching
    the port, the readiness queue or the handles of the socket. *)
Theorem binding_is_permanent socket token events opts (p : P) (a b : Z) s :
  (lazy_borrow (rb_selector s) = None →
    ∃ c, lazy_borrow c = Some a ∧
      let (r, k) := iocp_add_socket a (usize_from_token token) socket (rb_kernel s) in
      Binding_register_socket socket token a s = Done (r, set_kernel k (set_selector c s))) ∧
  (lazy_borrow (rb_selector s) = Some a → b ≠ a →
    register_socket socket b p token events opts s = Done (Err (other "socket already registered"), s) ∧
    reregister_socket b p token events opts s = Done (Err (other "socket already registered"), s) ∧
    deregister b p s = Done (Err (other "socket already registered"), s)).
Proof.
  split; [apply bind_fresh|]. intros Ha Hne. split; [|split].
  - unfold register_socket, mbind at 1, M_bind at 1. by rewrite (bind_other _ _ a).
  - unfold reregister_socket, Binding_reregister_socket, check_same_selector, mbind, M_bind, gets, compose. rewrite Ha.
    by replace (a =? b) with false by lia.
  - unfold deregister, Binding_deregister_socket, check_same_selector, mbind, M_bind, gets, compose. rewrite Ha.
    by replace (a =? b) with false by lia.
Qed.
End binding.

#[export] Instance list_iocp : IocpOps (list (Z * Z * Z)) := { iocp_add_socket port token sock k := (Ok tt, k ++ [(port, token, sock)]) }.

(** A socket bound to the selector at address 5, and the pool of that selector. *)
Definition bound5 (pool : BufferPool) : RB option Ready.t unit unit (list (Z * Z * Z)) :=
  mkRB (Some 5) (Some tt) (Some tt) {[5 := pool]} Ready.none [(5, 9, 33)].

Lemma binding_is_permanent_witness :
  register_socket 33 6 tt (mkToken 9) Ready.readable PollOpt.edge (bound5 (BufferPool_new 256))
  = Done (Err (other "socket already registered"), bound5 (BufferPool_new 256)).
Proof.
  apply (proj1 (proj2 (binding_is_permanent (cell_ops:=option_lazy_ops) 33 (mkToken 9) Ready.readable PollOpt.edge tt 5 6 (bound5 (BufferPool_new 256)))
    eq_refl ltac:(lia))).
Defined.

(** ** Buffers *)

(** The pool holds empty buffers, never more than it was made for. *)
Definition pool_ok (p : BufferPool) : Prop :=
  Z.of_nat (length (bp_pool p)) <= bp_capacity p ∧ Forall (λ b, b_bytes b = []) (bp_pool p).

Lemma pool_put_ok buf p : pool_ok p → pool_ok (BufferPool_put buf p).
Proof.
  intros [Hl Hf]. unfold BufferPool_put. destruct (_ <? _) eqn:E; [|done]. zbool. split; cbn.
  - rewrite length_app. cbn. lia.
  - apply Forall_app. split; [done|]. by repeat constructor.
Qed.

Lemma pool_get_ok size p b p' : pool_ok p → BufferPool_get size p = (b, p') → pool_ok p' ∧ b_bytes b = [].
Proof.
  intros [Hl Hf]. unfold BufferPool_get. destruct (last (bp_pool p)) as [b0|] eqn:El; intros [= <- <-]; [|done]. split; [split; cbn|].
  - rewrite length_take. lia.
  - by apply Forall_take.
  - apply last_Some_elem_of in El. rewrite Forall_forall in Hf. by apply Hf.
Qed.

(** [get_buffer] is documented to return a buffer with at least the requested
    capacity; a buffer from the pool keeps the capacity it had. *)
Example pooled_buffer_too_small :
  match get_buffer 65536 (bound5 (BufferPool_put (mkBuf [1; 2; 3] 3) (BufferPool_new 256))) with
  | Done (b, _) => b_cap b = 3
  | _ => False
  end.
Proof. vm_compute. reflexivity. Qed.
