(* ===== verification/WinAwake.v ===== *)
(** * sys/windows: the awakener and the selector

    [awakener.rs] posts a completion with a null [OVERLAPPED] to the port of the
    selector it is registered with, which [Selector::select] ([Windows.v]) takes
    for a wakeup.  Also here: how selectors are made and told apart, and the
    registration of handles that are not sockets, from [selector.rs]. *)

From S2P Require Import Prelude Event Convert Iface Windows WindowsThm.

(** ** Completion ports *)

(** [port_new n]: CreateIoCompletionPort; [port_post]: PostQueuedCompletionStatus. *)
Class PortOps (K : Type) : Type := {
  port_new : Z → K → io_result Z * K;
  port_post : Z → CompletionStatus → K → io_result unit * K;
  port_add_handle : Z → Z → Z → K → io_result unit * K }.

(** The completions queued at a port. *)
Class PortSpec (K : Type) : Type := { port_queue : K → Z → list CompletionStatus }.

Class PortLaws (K : Type) `{PortOps K, PortSpec K} : Prop := {
  port_post_queue p st k r k' :
    port_post p st k = (r, k') →
    port_queue k' p = port_queue k p ++ (if is_ok r then [st] else []) ∧ ∀ p', p' ≠ p → port_queue k' p' = port_queue k p' }.

(** ** selector.rs *)

(** [SelectorInner]; [Arc]s to it are addresses. *)
Record SelectorInner : Type := mkSelectorInner { si_id : Z; si_port : Z; si_buffers : BufferPool }.

(** The counter [NEXT_ID], the selectors by address, and the kernel. *)
Record Sels (K : Type) : Type := mkSels { next_id : Z; sels : gmap Z SelectorInner; sel_kernel : K }.
Arguments mkSels {K} _ _ _.
Arguments next_id {K} _.
Arguments sels {K} _.
Arguments sel_kernel {K} _.

Section selector.
Context {K : Type} {ports : PortOps K}.

Definition sel_call {A} (f : K → A * K) : M (Sels K) A := λ s,
  let (a, k) := f (sel_kernel s) in Done (a, mkSels (next_id s) (sels s) k).

Definition Selector_new : M (Sels K) (io_result Z) :=
  n ← gets next_id;
  _ ← modify (λ s, mkSels (wrap64 (n + 1)) (sels s) (sel_kernel s));
  id ← lift (add64 n 1);
  r ← sel_call (port_new 1);
  match r with
  | Ok cp =>
      addr ← gets (λ s, fresh (dom (sels s)));
      _ ← modify (λ s, mkSels (next_id s) (<[addr := mkSelectorInner id cp (BufferPool_new 256)]> (sels s)) (sel_kernel s));
      mret (Ok addr)
  | Err e => mret (Err e)
  end.

(** [self.inner]: the selector behind an address. *)
Definition the_selector (addr : Z) : M (Sels K) SelectorInner :=
  s ← gets sels; lift (unwrap (s !! addr)).
Definition Selector_port (addr : Z) : M (Sels K) Z := s ← the_selector addr; mret (si_port s).
Definition Selector_id (addr : Z) : M (Sels K) Z := s ← the_selector addr; mret (si_id s).
Definition clone_ref (addr : Z) : Z := addr.
Definition identical (a b : Z) : bool := a =? b.

(** [Binding::register_handle]; the state is the cell of the binding with the
    selectors. *)
Context {C : Type → Type} {cell_ops : LazyCellOps C}.

Definition on_sels {A} (m : M (Sels K) A) : M (C Z * Sels K) A := λ '(c, s), '(a, s) ← m s; Done (a, (c, s)).

Definition handle_check (poll : Z) : M (C Z * Sels K) (io_result unit) :=
  sel ← gets (lazy_borrow ∘ fst);
  mret (match sel with
        | Some prev => if identical prev poll then Ok tt else Err (io_custom Other "socket already registered")
        | None => Err (io_custom Other "socket already registered")
        end).

Definition Binding_register_handle (handle : Z) (token : Token) (poll : Z) : M (C Z * Sels K) (io_result unit) :=
  _ ← modify (λ st, (snd (lazy_fill poll (fst st)), snd st));
  try! handle_check poll;
  port ← on_sels (Selector_port poll);
  on_sels (sel_call (port_add_handle port (usize_from_token token) handle)).
Definition Binding_reregister_handle (poll : Z) : M (C Z * Sels K) (io_result unit) := handle_check poll.
Definition Binding_deregister_handle (poll : Z) : M (C Z * Sels K) (io_result unit) := handle_check poll.
End selector.

(** ** awakener.rs *)

Record AwakenerInner : Type := mkAwakenerInner { ai_token : Token; ai_selector : Z }.

Section awakener.
Context {K : Type} {ports : PortOps K}.

(** The contents of the lock is the first component of the state. *)
Abbreviation AM := (M (option AwakenerInner * Sels K)).

Definition on_selectors {A} (m : M (Sels K) A) : AM A := λ '(a, s), '(x, s) ← m s; Done (x, (a, s)).

Definition WinAwakener_new : io_result (option AwakenerInner) := Ok None.

Definition win_wakeup : AM (io_result unit) :=
  inner ← gets fst;
  match inner with
  | Some inner =>
      let status := mkStatus None (usize_from_token (ai_token inner)) 0 in
      port ← on_selectors (Selector_port (ai_selector inner));
      try! on_selectors (sel_call (port_post port status));
      mret (Ok tt)
  | None => mret (Ok tt)
  end.

Definition win_cleanup : AM unit := mret tt.

Definition WinAwakener_register (poll : Z) (token : Token) (events : Ready.t) (opts : PollOpt.t) : AM (io_result unit) :=
  if negb (bool_decide (opts = PollOpt.edge)) then panic
  else if negb (bool_decide (events = Ready.readable)) then panic
  else
    _ ← modify (λ st, (Some (mkAwakenerInner token (clone_ref poll)), snd st));
    mret (Ok tt).

Definition WinAwakener_reregister (poll : Z) (token : Token) (events : Ready.t) (opts : PollOpt.t) : AM (io_result unit) :=
  WinAwakener_register poll token events opts.

Definition WinAwakener_deregister : AM (io_result unit) :=
  _ ← modify (λ st, (None, snd st)); mret (Ok tt).
End awakener.

(** ** Theorems *)

Section thms.
Context {K : Type} {ports : PortOps K} {spec : PortSpec K} {laws : PortLaws K}.
Implicit Types s : Sels K.

(** Every selector has an id of its own, and none has the id 0. *)
Definition ids_ok (s : Sels K) : Prop :=
  (∀ a x, sels s !! a = Some x → 1 <= si_id x <= next_id s) ∧
  (∀ a b x y, sels s !! a = Some x → sels s !! b = Some y → si_id x = si_id y → a = b).

Lemma wp_sel_call {A} (f : K → A * K) s (Q : A → Sels K → Prop) :
  (∀ a k, f (sel_kernel s) = (a, k) → Q a (mkSels (next_id s) (sels s) k)) → wp (sel_call f) Q s.
Proof. intros HQ. unfold wp, sel_call. destruct (f (sel_kernel s)) as [a k] eqn:E. by apply HQ. Qed.

Lemma wp_Selector_new s : 0 <= next_id s < U64_MAX → ids_ok s →
  wp Selector_new (λ r s', ids_ok s' ∧ next_id s' = next_id s + 1 ∧
    match r with
    | Ok a => sels s !! a = None ∧ ∃ x, sels s' = <[a := x]> (sels s) ∧ si_id x = next_id s + 1
    | Err _ => sels s' = sels s
    end) s.
Proof.
  intros Hn [Hr Hu]. unfold Selector_new. wp_steps.
  eapply wp_lift; [unfold add64; by replace (next_id s + 1 <=? U64_MAX) with true by lia|].
  wp_step. apply wp_sel_call. cbn [next_id sels sel_kernel]. rewrite wrap64_id by (unfold is_u64; lia). intros r k _.
  assert (∀ a x, sels s !! a = Some x → 1 <= si_id x <= next_id s + 1) as Hr' by (intros a x Hx; specialize (Hr a x Hx); lia).
  destruct r as [cp|e]; [|apply wp_ret; by split]. wp_step. wp_step. set (a := fresh (dom (sels s))).
  assert (sels s !! a = None) as Ha by (apply not_elem_of_dom, is_fresh). wp_steps. cbn [next_id sels sel_kernel]. fold a. clearbody a.
  split; [|split; [done|split; [done|eauto]]]. split; cbn [next_id sels].
  - intros b x. rewrite lookup_insert. case_decide; [|apply Hr']. intros [= <-]. cbn. lia.
  - intros b c x y. rewrite !lookup_insert. destruct (decide (a = b)) as [<-|], (decide (a = c)) as [<-|]; [done|..|by apply Hu].
    + intros [= <-] Hy Heq. specialize (Hr _ _ Hy). cbn in Heq. lia.
    + intros Hx [= <-] Heq. specialize (Hr _ _ Hx). cbn in Heq. lia.
Qed.

(** A run of [Selector::new]s. *)
Fixpoint new_selectors (n : nat) : M (Sels K) (list (io_result Z)) :=
  match n with
  | O => mret []
  | S n => r ← Selector_new; rs ← new_selectors n; mret (r :: rs)
  end.

Lemma wp_new_selectors n : ∀ s, 0 <= next_id s → next_id s + Z.of_nat n <= U64_MAX → ids_ok s →
  wp (new_selectors n) (λ rs s', ids_ok s' ∧ length rs = n ∧ (∀ a x, sels s !! a = Some x → sels s' !! a = Some x) ∧
    ∀ a, Ok a ∈ rs → sels s !! a = None ∧ is_Some (sels s' !! a)) s.
Proof.
  induction n as [|n IH]; intros s H0 Hn Hok; cbn [new_selectors]; [apply wp_ret; split_and!; try done; set_solver|].
  wp_step. eapply wp_mono; [apply wp_Selector_new; [lia|done]|]. intros r s1 (Hok1 & Hn1 & Hr).
  wp_step. eapply wp_mono; [apply IH; [lia|lia|done]|]. intros rs s2 (Hok2 & Hl & Hk & Hnew). wp_step.
  assert (∀ a x, sels s !! a = Some x → sels s1 !! a = Some x) as Hk1.
  { destruct r as [b|e]; [|by rewrite Hr]. destruct Hr as (Hb & x & -> & _). intros a y Ha. rewrite lookup_insert_ne; [done|]. congruence. }
  split; [done|]. split; [cbn; by rewrite Hl|]. split; [auto|]. intros a [Ha|Ha]%elem_of_cons.
  - subst r. destruct Hr as (Hb & x & E & _). split; [done|]. exists x. apply Hk. by rewrite E, lookup_insert_eq.
  - destruct (Hnew a Ha) as [Hno Hsome]. split; [|done]. destruct (sels s !! a) as [x|] eqn:E; [|done]. by rewrite (Hk1 _ _ E) in Hno.
Qed.

(** the selectors a program makes all have different ids, and none has the id
    0, which stands for no selector: the check that a socket stays with its
    selector compares ids. *)
Theorem selector_ids_unique (n : nat) (k : K) :
  Z.of_nat n <= U64_MAX →
  ∃ rs s, new_selectors n (mkSels 0 ∅ k) = Done (rs, s) ∧ length rs = n ∧ (∀ a, Ok a ∈ rs → is_Some (sels s !! a)) ∧
    (∀ a x, sels s !! a = Some x → 0 < si_id x) ∧
    (∀ a b x y, sels s !! a = Some x → sels s !! b = Some y → si_id x = si_id y → a = b).
Proof.
  intros Hn. assert (wp (new_selectors n) (λ rs s', ids_ok s' ∧ length rs = n ∧ (∀ a x, (∅ : gmap Z SelectorInner) !! a = Some x → sels s' !! a = Some x) ∧
    ∀ a, Ok a ∈ rs → (∅ : gmap Z SelectorInner) !! a = None ∧ is_Some (sels s' !! a)) (mkSels 0 ∅ k)) as (rs & s & E & [Hr Hu] & Hl & _ & Hnew)%wp_done.
  { by apply (wp_new_selectors n (mkSels 0 ∅ k)). }
  exists rs, s. split; [done|]. split; [done|]. split; [intros a Ha; by apply Hnew|]. split; [|done].
  intros a x Hx. specialize (Hr a x Hx). lia.
Qed.

(** ** The awakener *)

Section wake.
Context {X : Type} (callback : Ptr → CompletionStatus → M X unit).

(** More completions after those of the awakener and the sockets. *)
Lemma run_statuses_app awk l l' : ∀ ret x,
  run_statuses callback awk ret (l ++ l') x =
    match run_statuses callback awk ret l x with
    | Done (ret', x') => run_statuses callback awk ret' l' x'
    | Panic => Panic
    | OutOfFuel => OutOfFuel
    end.
Proof.
  induction l as [|st l IH]; intros ret x; cbn; [done|]. destruct (cs_overlapped st) as [o|].
  - unfold mbind, M_bind. destruct (callback o st x) as [[[] x']| |]; cbn; auto.
  - destruct (_ =? _); [apply IH|done].
Qed.

(** C32: a wakeup of an awakener that is registered with a selector makes the next
    [select] of that selector that takes all completions report it: it returns
    [true], and calls back for the completions of the sockets exactly as it would
    have without the wakeup.  A wakeup of an awakener that is not registered does
    nothing and succeeds. *)
Theorem win_wakeup_wakes (a : option AwakenerInner) (s : Sels K) (x : X) :
  match a with
  | None => win_wakeup (a, s) = Done (Ok tt, (a, s))
  | Some inner =>
      ∀ si, sels s !! ai_selector inner = Some si →
      ∃ r s', win_wakeup (a, s) = Done (r, (a, s')) ∧ sels s' = sels s ∧
        (r = Ok tt →
          run_statuses callback (ai_token inner) false (port_queue (sel_kernel s') (si_port si)) x =
            match run_statuses callback (ai_token inner) false (port_queue (sel_kernel s) (si_port si)) x with
            | Done (_, x') => Done (true, x')
            | o => o
            end)
  end.
Proof.
  destruct a as [inner|]; [|done]. intros si Hsi. unfold win_wakeup, on_selectors, Selector_port, the_selector, sel_call, gets, lift, unwrap, mbind, M_bind.
  cbn. rewrite Hsi. cbn. destruct (port_post (si_port si) _ (sel_kernel s)) as [r k'] eqn:E. cbn.
  destruct (port_post_queue _ _ _ _ _ E) as [Hq _].
  destruct r as [[]|e]; cbn; eexists _, _; split; [done|split; [done|]|done|split; [done|]]; [|done].
  intros _. cbn [sel_kernel]. rewrite Hq. cbn [is_ok]. rewrite run_statuses_app. destruct (run_statuses _ _ _ _ _) as [[ret x']| |]; [|done..].
  cbn. by rewrite Z.eqb_refl.
Qed.
End wake.
End thms.

(** ** A port *)

#[export] Instance list_port_ops : PortOps (gmap Z (list CompletionStatus)) := {
  port_new _ k := let p := fresh (dom k) in (Ok p, <[p := []]> k);
  port_post p st k := (Ok tt, <[p := default [] (k !! p) ++ [st]]> k);
  port_add_handle _ _ _ k := (Ok tt, k) }.
#[export] Instance list_port_spec : PortSpec (gmap Z (list CompletionStatus)) := { port_queue k p := default [] (k !! p) }.
#[export] Instance list_port_laws : PortLaws (gmap Z (list CompletionStatus)).
Proof.
  split. cbn. intros p st k r k' [= <- <-]. cbn. rewrite lookup_insert_eq. split; [done|]. intros p' Hne. by rewrite lookup_insert_ne.
Qed.

Lemma selector_ids_unique_witness :
  ∃ rs s, new_selectors 3 (mkSels 0 ∅ (∅ : gmap Z (list CompletionStatus))) = Done (rs, s) ∧ length rs = 3%nat.
Proof.
  destruct (selector_ids_unique 3 (∅ : gmap Z (list CompletionStatus))) as (rs & s & E & Hl & _); [unfold U64_MAX; lia|].
  exists rs, s. split; [exact E|exact Hl].
Defined.

Lemma win_wakeup_wakes_witness :
  let si := mkSelectorInner 1 4 (BufferPool_new 256) in
  let s := mkSels 1 {[ 5 := si ]} (∅ : gmap Z (list CompletionStatus)) in
  ∃ r s', win_wakeup (Some (mkAwakenerInner (mkToken 9) 5), s) = Done (r, (Some (mkAwakenerInner (mkToken 9) 5), s')) ∧
    run_statuses (λ _ _, mret tt) (mkToken 9) false (port_queue (sel_kernel s') 4) tt = Done (true, tt).
Proof.
  intros si s.
  destruct (win_wakeup_wakes (λ _ _, mret tt) (Some (mkAwakenerInner (mkToken 9) 5)) s tt si) as (r & s' & E & _ & H); [reflexivity|].
  exists r, s'. split; [exact E|]. refine (H _). vm_compute in E. injection E as <- _. reflexivity.
Defined.
