(* ===== verification/WinSock.v ===== *)
(** * sys/windows: what the sockets have in common

    A socket of mio on Windows is a reference-counted box ([FromRawArc]) that
    holds the socket, its [Overlapped] structures and, behind a lock, a
    [ReadyBinding] and the states of its operations.  The boxes live on a heap
    ([arcs]); reaching into a box that was freed is [Panic].  The kernel is an
    interface: its calls ([WinSys]) and what it is documented to do ([WinSpec],
    [WinLaws]).  For every [OVERLAPPED] structure the specification knows the
    operations for which a completion is queued or will be ([k_out]). *)

From S2P Require Import Prelude Event Convert Iface Windows.

(** The state of an operation: [tcp.rs] and [udp.rs] have the same type. *)
Inductive State (T U : Type) : Type :=
  | SEmpty
  | SPending (t : T)
  | SReady (u : U)
  | SError (e : io_error).
Arguments SEmpty {T U}.
Arguments SPending {T U} _.
Arguments SReady {T U} _.
Arguments SError {T U} _.

Definition raw_os_error (e : io_error) : option Z := match e with io_os c => Some c | io_custom _ _ => None end.

(** [err.kind()] on Windows: WSAEWOULDBLOCK, WSAEINTR and WSAEINVAL have kinds. *)
Definition win_kind (e : io_error) : ErrorKind :=
  match e with
  | io_custom k _ => k
  | io_os c =>
      if c =? 10035 then WouldBlock else if c =? 10004 then Interrupted else if c =? 10022 then InvalidInput else Uncategorized
  end.

(** ** The kernel *)

(** [k_set_modes]: SetFileCompletionNotificationModes; [k_cancel_io]: CancelIoEx;
    [k_mem k p]: the bytes and the address the kernel wrote for the last receive on
    the [OVERLAPPED] at [p]. *)
Class WinSys (K : Type) : Type := {
  k_mem : K → Ptr → list Z * option SocketAddr;
  k_last_error : K → Z;
  k_set_modes : Z → Z → K → Z * K;
  k_cancel_io : Z → Ptr → K → Z * K;
  k_set_nonblocking : Z → bool → K → io_result unit * K;
  k_close : Z → K → K }.

(** An operation the kernel was given: its socket, the bytes to be sent and, for a
    receive, the room in its buffer. *)
Record Op : Type := mkOp { op_sock : Z; op_data : list Z; op_room : option Z }.

(** [k_out k p]: the operations started on the [OVERLAPPED] at [p] whose
    completion has not been taken from the port; [k_skip k s]: no completion is
    queued for operations on [s] that succeed at once; [k_sent k s]: the bytes
    transferred by completed writes on [s]; [k_live k]: the open sockets;
    [k_received k s]: the receives completed on [s], with their bytes and address;
    [k_posted k s]: the datagrams sent on [s];
    [k_delivers k p n k']: the port hands out a completion for [p] with [n] bytes
    transferred. *)
Class WinSpec (K : Type) : Type := {
  k_out : K → Ptr → list Op;
  k_skip : K → Z → bool;
  k_sent : K → Z → list Z;
  k_live : K → gset Z;
  k_received : K → Z → list (list Z * option SocketAddr);
  k_posted : K → Z → list (list Z * SocketAddr);
  k_delivers : K → Ptr → Z → K → Prop }.

Section kernel.
Context {K : Type} {win : WinSys K} {spec : WinSpec K}.

(** Nothing that concerns datagrams changes. *)
Definition grams_same (k k' : K) : Prop :=
  (∀ p, k_mem k' p = k_mem k p) ∧ (∀ s, k_received k' s = k_received k s) ∧ (∀ s, k_posted k' s = k_posted k s).

(** Nothing that concerns completions changes. *)
Definition k_same (k k' : K) : Prop :=
  (∀ p, k_out k' p = k_out k p) ∧ (∀ s, k_skip k' s = k_skip k s) ∧ (∀ s, k_sent k' s = k_sent k s) ∧
  k_live k' = k_live k ∧ grams_same k k'.

(** Is a completion queued, now or later, for an operation with this result? *)
Definition posts {A} (skip : bool) (r : io_result (option A)) : bool :=
  match r with Ok (Some _) => negb skip | Ok None => true | Err _ => false end.

(** An operation on the [OVERLAPPED] at [p] was issued; [b]: it will complete. *)
Definition issued (k k' : K) (p : Ptr) (b : bool) (o : Op) : Prop :=
  k_out k' p = k_out k p ++ (if b then [o] else []) ∧
  (∀ p', p' ≠ p → k_out k' p' = k_out k p') ∧ (∀ s', k_skip k' s' = k_skip k s') ∧ k_live k' = k_live k.
End kernel.

Class WinLaws (K : Type) `{IocpOps K, WinSys K, WinSpec K} : Prop := {
  kl_add_socket port token s k : k_same k (snd (iocp_add_socket port token s k));
  kl_cancel s p k : k_same k (snd (k_cancel_io s p k));
  kl_nonblocking s b k : k_same k (snd (k_set_nonblocking s b k));
  kl_close s k :
    (∀ p, k_out (k_close s k) p = k_out k p) ∧ k_live (k_close s k) = k_live k ∖ {[s]} ∧
    (∀ s', s' ≠ s → k_skip (k_close s k) s' = k_skip k s' ∧ k_sent (k_close s k) s' = k_sent k s');
  (** bit 0: FILE_SKIP_COMPLETION_PORT_ON_SUCCESS; 1 is TRUE *)
  kl_modes s flags k r k' :
    k_set_modes s flags k = (r, k') → Z.testbit flags 0 = true →
    (∀ p, k_out k' p = k_out k p) ∧ (∀ s', k_sent k' s' = k_sent k s') ∧
    (∀ s', k_skip k' s' = (if decide (s' = s ∧ r = 1) then true else k_skip k s')) ∧ k_live k' = k_live k;
  (** a completion is that of one of the operations under way *)
  kl_delivers k p n k' :
    k_delivers k p n k' →
    ∃ i o, k_out k p !! i = Some o ∧ 0 <= n <= Z.of_nat (length (op_data o)) + default 0 (op_room o) ∧
      k_out k' p = delete i (k_out k p) ∧ (∀ p', p' ≠ p → k_out k' p' = k_out k p') ∧
      (∀ s', k_skip k' s' = k_skip k s') ∧ k_sent k' (op_sock o) = k_sent k (op_sock o) ++ take (Z.to_nat n) (op_data o) ∧
      (∀ s', s' ≠ op_sock o → k_sent k' s' = k_sent k s') ∧ k_live k' = k_live k ∧
      (∀ p', p' ≠ p → k_mem k' p' = k_mem k p') ∧ (∀ s', k_posted k' s' = k_posted k s') ∧
      (∀ s', s' ≠ op_sock o → k_received k' s' = k_received k s') ∧
      match op_room o with
      | Some _ =>
          n <= Z.of_nat (length (fst (k_mem k' p))) ∧
          k_received k' (op_sock o) = k_received k (op_sock o) ++ [(take (Z.to_nat n) (fst (k_mem k' p)), snd (k_mem k' p))]
      | None => k_mem k' p = k_mem k p ∧ k_received k' (op_sock o) = k_received k (op_sock o)
      end }.

(** How a [Vec] of the given capacity grows to hold so many elements. *)
Class VecReserve : Type := { vec_reserve : Z → Z → Z }.

(** [buf.extend_from_slice(data)]. *)
Definition extend_from_slice {reserve : VecReserve} (buf : Buf) (data : list Z) : Buf :=
  let bytes := b_bytes buf ++ data in
  let n := Z.of_nat (length bytes) in
  mkBuf bytes (if n <=? b_cap buf then b_cap buf else vec_reserve (b_cap buf) n).

(** ** The state of a program with sockets *)

(** [FromRawArc<Io>]: [io_selector] and [io_readiness] are its [ReadyBinding],
    [io_inner] is what else its lock protects. *)
Record Io (C : Type → Type) (H I : Type) : Type := mkIo {
  io_socket : Z;
  io_selector : C Z;
  io_readiness : option H;
  io_inner : I }.
Arguments mkIo {C H I} _ _ _ _.
Arguments io_socket {C H I} _.
Arguments io_selector {C H I} _.
Arguments io_readiness {C H I} _.
Arguments io_inner {C H I} _.

(** [regs]: the [registration] of the owner ([TcpStream], [TcpListener] or
    [UdpSocket]) of each box; [pools]: the buffers of the selectors. *)
Record WSys (C : Type → Type) (W R H K I : Type) : Type := mkWSys {
  arcs : ArcHeap (Io C H I);
  regs : gmap positive R;
  pools : gmap Z BufferPool;
  world : W;
  kernel : K }.
Arguments mkWSys {C W R H K I} _ _ _ _ _.
Arguments arcs {C W R H K I} _.
Arguments regs {C W R H K I} _.
Arguments pools {C W R H K I} _.
Arguments world {C W R H K I} _.
Arguments kernel {C W R H K I} _.

Section sock.
Context {C : Type → Type} {cell_ops : LazyCellOps C}.
Context {W R H P : Type} {rd_ops : ReadinessOps W H} {reg_ops : RegistrationOps W R H P} {drop_ops : HandleDropOps W R H}.
Context {K : Type} {iocp_ops : IocpOps K} {win : WinSys K}.
Context {I : Type}.
Abbreviation Io := (Io C H I).
Abbreviation Sys := (WSys C W R H K I).

Definition set_arcs (a : ArcHeap Io) (s : Sys) : Sys := mkWSys a (regs s) (pools s) (world s) (kernel s).
Definition set_world (w : W) (s : Sys) : Sys := mkWSys (arcs s) (regs s) (pools s) w (kernel s).
Definition set_kern (k : K) (s : Sys) : Sys := mkWSys (arcs s) (regs s) (pools s) (world s) k.

(** A call of the kernel. *)
Definition kcall {A} (f : K → A * K) : M Sys A := λ s, let (a, k) := f (kernel s) in Done (a, set_kern k s).
Definition on_arcs {A} (m : M (ArcHeap Io) A) : M Sys A := λ s, '(a, h) ← m (arcs s); Done (a, set_arcs h s).
Definition on_queue {A} (m : M W A) : M Sys A := λ s, '(a, w) ← m (world s); Done (a, set_world w s).

(** [self.inner]: the box behind the handle. *)
Definition the_box (b : positive) : M Sys Io := on_arcs (FromRawArc_deref b).
Definition inner (b : positive) : M Sys I := io ← the_box b; mret (io_inner io).
Definition socket (b : positive) : M Sys Z := io ← the_box b; mret (io_socket io).

(** Writing the contents of a box. *)
Definition write_box (b : positive) (f : Io → Io) : M Sys unit :=
  on_arcs (i ← arc_at b; modify (λ hp, <[b := mkArcInner (f (ai_data i)) (ai_cnt i)]> hp)).
Definition set_inner (f : I → I) (io : Io) : Io := mkIo (io_socket io) (io_selector io) (io_readiness io) (f (io_inner io)).
Definition write_inner (b : positive) (f : I → I) : M Sys unit := write_box b (set_inner f).

(** Code of [ReadyBinding], run on the [iocp] field of a box, with the
    [registration] of its owner. *)
Definition rb_of (b : positive) (io : Io) (s : Sys) : RB C W R H K :=
  mkRB (io_selector io) (io_readiness io) (regs s !! b) (pools s) (world s) (kernel s).
Definition iocp {A} (b : positive) (m : M (RB C W R H K) A) : M Sys A := λ s,
  i ← unwrap (arcs s !! b);
  let io := ai_data i in
  '(a, rb) ← m (rb_of b io s);
  Done (a, mkWSys (<[b := mkArcInner (mkIo (io_socket io) (rb_selector rb) (rb_readiness rb) (io_inner io)) (ai_cnt i)]> (arcs s))
             (partial_alter (λ _, rb_registration rb) b (regs s)) (rb_pools rb) (rb_world rb) (rb_kernel rb)).

(** [add_readiness] of the three sockets. *)
Definition add_readiness (b : positive) (set : Ready.t) : M Sys unit :=
  r ← iocp b readiness;
  iocp b (set_readiness (set |ᵣ r)).

(** [me.iocp.set_readiness(me.iocp.readiness() & !set)]. *)
Definition clear_readiness (b : positive) (set : Ready.t) : M Sys unit :=
  r ← iocp b readiness;
  iocp b (set_readiness (r &ᵣ Ready.not set)).

(** [mem::forget(self.clone())]: the count goes up, nobody owns the handle. *)
Definition forget_clone (b : positive) : M Sys unit := _ ← on_arcs (FromRawArc_clone b); mret tt.

(** Dropping a handle; with the last one the box goes: the fields of its
    [ReadyBinding], what [drop_inner] says, the socket. *)
Definition arc_drop (drop_inner : I → M Sys unit) (b : positive) : M Sys unit :=
  o ← on_arcs (FromRawArc_drop b);
  match o with
  | None => mret tt
  | Some io =>
      _ ← match io_readiness io with Some h => on_queue (rd_drop h) | None => mret tt end;
      _ ← drop_inner (io_inner io);
      _ ← kcall (λ k, (tt, k_close (io_socket io) k));
      mret tt
  end.

(** Dropping the [registration] of an owner. *)
Definition drop_registration (b : positive) : M Sys unit :=
  r ← gets (λ s, regs s !! b);
  match r with
  | Some r =>
      _ ← modify (λ s, mkWSys (arcs s) (delete b (regs s)) (pools s) (world s) (kernel s));
      on_queue (reg_drop r)
  | None => mret tt
  end.

(** ** mod.rs *)

Definition wouldblock : io_error := io_custom WouldBlock "operation would block".

Definition cancel (s : Z) (overlapped : Ptr) : M Sys (io_result unit) :=
  ret ← kcall (k_cancel_io s overlapped);
  e ← gets (k_last_error ∘ kernel);
  mret (if ret =? 0 then Err (io_os e) else Ok tt).

Definition FILE_SKIP_COMPLETION_PORT_ON_SUCCESS : Z := 1.
Definition FILE_SKIP_SET_EVENT_ON_HANDLE : Z := 2.

Definition no_notify_on_instant_completion (handle : Z) : M Sys (io_result unit) :=
  let flags := Z.lor FILE_SKIP_COMPLETION_PORT_ON_SUCCESS FILE_SKIP_SET_EVENT_ON_HANDLE in
  r ← kcall (k_set_modes handle flags);
  e ← gets (k_last_error ∘ kernel);
  mret (if r =? 1 then Ok tt else Err (io_os e)).

(** [overlapped2arc!(e, T, field)]: the box that has, at [offset], the field [e]
    points to.  A pointer that is not to that field would become a wild handle. *)
Definition overlapped2arc (e : option Ptr) (offset : Z) : outcome positive :=
  match e with
  | Some e => if p_off e - offset =? 0 then Done (p_box e) else Panic
  | None => Panic
  end.
End sock.
