(* ===== verification/WinSockInv.v ===== *)
(** * Rules for the code the sockets of Windows share

    [sock_ok b rest io cnt s]: the box [b] is allocated with contents [io] and
    reference count [cnt]; its readiness handle and the registration of its owner
    are owned, next to the handles [rest] of others; the selector it is bound to
    has a pool of buffers.  Each rule of [wp] below says what a piece of code does
    to these and what it leaves alone. *)

From S2P Require Import Prelude Event Convert Iface Windows WindowsThm WinSock.

(** ** Flags *)

Lemma bitor_no_drop a b : is_drop a = false → is_drop b = false → is_drop (a |ᵣ b) = false.
Proof. rewrite !is_drop_bit, rbit_bitor. by intros -> ->. Qed.

Lemma clear_no_drop a b : is_drop (a &ᵣ Ready.not b) = false.
Proof. by rewrite is_drop_bit, rbit_bitand, rbit_not_high, andb_false_r by lia. Qed.

Lemma readable_or a b : Ready.is_readable (a |ᵣ b) = Ready.is_readable a || Ready.is_readable b.
Proof. by rewrite !is_readable_bit, rbit_bitor. Qed.

Lemma writable_or a b : Ready.is_writable (a |ᵣ b) = Ready.is_writable a || Ready.is_writable b.
Proof. by rewrite !is_writable_bit, rbit_bitor. Qed.

Lemma readable_clear_writable a : Ready.is_readable (a &ᵣ Ready.not Ready.writable) = Ready.is_readable a.
Proof. rewrite !is_readable_bit, rbit_bitand, rbit_not by lia. change (rbit Ready.writable 0) with false. by rewrite andb_true_r. Qed.

Lemma writable_clear_readable a : Ready.is_writable (a &ᵣ Ready.not Ready.readable) = Ready.is_writable a.
Proof. rewrite !is_writable_bit, rbit_bitand, rbit_not by lia. change (rbit Ready.readable 1) with false. by rewrite andb_true_r. Qed.

(** ** The kernel *)

Section kernel.
Context {K : Type} {win : WinSys K} {spec : WinSpec K}.
Implicit Types k : K.

Lemma k_same_refl k : k_same k k.
Proof. done. Qed.

Lemma k_same_trans k k1 k2 : k_same k k1 → k_same k1 k2 → k_same k k2.
Proof.
  intros (Ho & Hs & Ht & Hl & Hm & Hr & Hp) (Ho' & Hs' & Ht' & Hl' & Hm' & Hr' & Hp').
  repeat split; intros; by rewrite ?Ho', ?Hs', ?Ht', ?Hl', ?Hm', ?Hr', ?Hp'.
Qed.
End kernel.

Section rules.
Context {C : Type → Type} {cell_ops : LazyCellOps C} {cell_laws : LazyCellLaws C}.
Context {W R H P : Type} {rd_ops : ReadinessOps W H} {reg_ops : RegistrationOps W R H P} {drop_ops : HandleDropOps W R H}.
Context {rd_spec : ReadinessSpec W H} {h_spec : HandleSpec W R H} {h_laws : HandleLaws W R H P}.
Context {K : Type} {iocp_ops : IocpOps K} {win : WinSys K} {spec : WinSpec K} {laws : WinLaws K}.
Context {I : Type}.
Abbreviation Io := (Io C H I).
Abbreviation Sys := (WSys C W R H K I).
Implicit Types s : Sys.
Implicit Types io : Io.

(** The handles a socket owns. *)
Definition sock_handles (io : Io) (reg : option R) : list (R + H) :=
  option_list (inl <$> reg) ++ option_list (inr <$> io_readiness io).

(** The selector at address [i] has a well-formed pool of buffers. *)
Definition has_pool (s : Sys) (i : Z) : Prop := ∃ p, pools s !! i = Some p ∧ pool_ok p.

Record sock_ok (b : positive) (rest : list (R + H)) (io : Io) (cnt : Z) (s : Sys) : Prop := {
  sk_box : arcs s !! b = Some (mkArcInner io cnt);
  sk_own : rd_own (world s) (sock_handles io (regs s !! b) ++ rest);
  sk_pool i : lazy_borrow (io_selector io) = Some i → has_pool s i;
  sk_reg : is_Some (regs s !! b) → is_Some (io_readiness io) }.

(** The readiness the socket shows. *)
Definition cur (io : Io) (s : Sys) : Ready.t := from_option (rd_current (world s)) Ready.none (io_readiness io).

(** Everything but the world. *)
Definition same_but_world (s s' : Sys) : Prop :=
  arcs s' = arcs s ∧ regs s' = regs s ∧ pools s' = pools s ∧ kernel s' = kernel s.

Lemma wp_the_box b rest io cnt s (Q : Io → Sys → Prop) : sock_ok b rest io cnt s → Q io s → wp (the_box b) Q s.
Proof. intros [Hb _ _ _] HQ. unfold wp, the_box, on_arcs, FromRawArc_deref, arc_at, mbind, M_bind. rewrite Hb. cbn. by destruct s. Qed.

Lemma wp_inner b rest io cnt s (Q : I → Sys → Prop) : sock_ok b rest io cnt s → Q (io_inner io) s → wp (inner b) Q s.
Proof. intros Hs HQ. unfold inner. wp_step. eapply wp_the_box; [done|]. by wp_step. Qed.

Lemma wp_socket b rest io cnt s (Q : Z → Sys → Prop) : sock_ok b rest io cnt s → Q (io_socket io) s → wp (socket b) Q s.
Proof. intros Hs HQ. unfold socket. wp_step. eapply wp_the_box; [done|]. by wp_step. Qed.

Lemma wp_kcall {A} (f : K → A * K) s (Q : A → Sys → Prop) :
  (∀ a k, f (kernel s) = (a, k) → Q a (set_kern k s)) → wp (kcall f) Q s.
Proof. intros HQ. unfold wp, kcall. destruct (f (kernel s)) as [a k] eqn:E. by apply HQ. Qed.

Lemma sock_ok_kern b rest io cnt s k : sock_ok b rest io cnt s → sock_ok b rest io cnt (set_kern k s).
Proof. by intros []. Qed.

(** Writing what is behind the lock. *)
Lemma wp_write_inner b rest io cnt s f (Q : unit → Sys → Prop) :
  sock_ok b rest io cnt s →
  (∀ s', sock_ok b rest (set_inner f io) cnt s' → regs s' = regs s → world s' = world s → kernel s' = kernel s → Q tt s') →
  wp (write_inner b f) Q s.
Proof.
  intros [Hb Ho Hp Hrg] HQ. unfold wp, write_inner, write_box, on_arcs, arc_at, modify, mbind, M_bind. rewrite Hb. cbn.
  apply HQ; [|done..]. split; cbn; [apply lookup_insert_eq|done..].
Qed.

Lemma wp_forget_clone b rest io cnt s (Q : unit → Sys → Prop) :
  sock_ok b rest io cnt s → 0 <= cnt < U64_MAX →
  (∀ s', sock_ok b rest io (cnt + 1) s' → regs s' = regs s → world s' = world s → kernel s' = kernel s → Q tt s') →
  wp (forget_clone b) Q s.
Proof.
  intros [Hb Ho Hp Hrg] Hc HQ. unfold wp, forget_clone, on_arcs, FromRawArc_clone, arc_at, modify, mbind, M_bind. rewrite Hb. cbn -[wrap64].
  rewrite wrap64_id by (unfold is_u64; lia). apply HQ; [|done..]. split; cbn; [apply lookup_insert_eq|done..].
Qed.

(** ** Code of [ReadyBinding] *)

(** The state after code of a binding. *)
Definition put_rb (b : positive) (io : Io) (cnt : Z) (rb : RB C W R H K) (s : Sys) : Sys :=
  mkWSys (<[b := mkArcInner (mkIo (io_socket io) (rb_selector rb) (rb_readiness rb) (io_inner io)) cnt]> (arcs s))
    (partial_alter (λ _, rb_registration rb) b (regs s)) (rb_pools rb) (rb_world rb) (rb_kernel rb).

Lemma wp_iocp {A} b (m : M (RB C W R H K) A) rest io cnt s (Q : A → Sys → Prop) :
  sock_ok b rest io cnt s → wp m (λ a rb, Q a (put_rb b io cnt rb s)) (rb_of b io s) → wp (iocp b m) Q s.
Proof.
  intros [Hb _ _ _] Hm. unfold wp, iocp. rewrite Hb. cbn. unfold wp in Hm.
  by destruct (m (rb_of b io s)) as [[a rb]| |].
Qed.

Lemma put_rb_regs b io cnt rb s : regs (put_rb b io cnt rb s) !! b = rb_registration rb.
Proof. cbn. by rewrite lookup_partial_alter_eq. Qed.

(** What is left when the binding only used the world. *)
Lemma put_rb_world b rest io cnt s w :
  sock_ok b rest io cnt s → rd_own w (sock_handles io (regs s !! b) ++ rest) →
  let s' := put_rb b io cnt (mkRB (io_selector io) (io_readiness io) (regs s !! b) (pools s) w (kernel s)) s in
  sock_ok b rest io cnt s' ∧ kernel s' = kernel s ∧ regs s' !! b = regs s !! b ∧ world s' = w.
Proof.
  intros [Hb Ho Hp Hrg] Hw s'. split; [split; cbn|split; [done|split; [|done]]].
  - rewrite lookup_insert_eq. by destruct io.
  - by rewrite lookup_partial_alter_eq.
  - done.
  - by rewrite lookup_partial_alter_eq.
  - apply put_rb_regs.
Qed.

Lemma own_readiness io reg rest h : io_readiness io = Some h → inr h ∈ sock_handles io reg ++ rest.
Proof. intros Hh. unfold sock_handles. rewrite Hh. set_solver. Qed.

Lemma own_registration io r rest : inl r ∈ sock_handles io (Some r) ++ rest.
Proof. unfold sock_handles. set_solver. Qed.

Lemma cur_no_drop b rest io cnt s : sock_ok b rest io cnt s → is_drop (cur io s) = false.
Proof.
  intros [_ Ho _ _]. unfold cur. destruct (io_readiness io) as [h|] eqn:Hh; cbn; [|done].
  eapply own_nodrop; [exact Ho|by apply own_readiness].
Qed.

Lemma wp_on_world {A} (m : M W A) rb a w (Q : A → RB C W R H K → Prop) :
  m (rb_world rb) = Done (a, w) →
  Q a (mkRB (rb_selector rb) (rb_readiness rb) (rb_registration rb) (rb_pools rb) w (rb_kernel rb)) → wp (on_world m) Q rb.
Proof. intros E HQ. unfold wp, on_world. by rewrite E. Qed.

Lemma wp_rb_readiness b rest io cnt s (Q : Ready.t → RB C W R H K → Prop) :
  sock_ok b rest io cnt s → Q (cur io s) (rb_of b io s) → wp readiness Q (rb_of b io s).
Proof.
  intros [_ Ho _ _] HQ. unfold readiness. wp_steps. cbn [rb_readiness rb_of]. unfold cur in HQ.
  destruct (io_readiness io) as [h|] eqn:Hh; cbn in *; [|by wp_steps].
  eapply wp_on_world; [|exact HQ]. eapply own_get; [exact Ho|by apply own_readiness].
Qed.

(** Reading the readiness and setting it to [f] of what it was. *)
Lemma wp_change_readiness b rest io cnt s (f : Ready.t → Ready.t) (Q : unit → Sys → Prop) :
  sock_ok b rest io cnt s → (∀ r, is_drop r = false → is_drop (f r) = false) →
  (∀ s', sock_ok b rest io cnt s' → kernel s' = kernel s → regs s' !! b = regs s !! b →
    (is_Some (io_readiness io) → cur io s' = f (cur io s)) → Q tt s') →
  wp (r ← iocp b readiness; iocp b (set_readiness (f r))) Q s.
Proof.
  intros Hs Hf HQ. wp_step. eapply wp_iocp; [done|]. eapply wp_rb_readiness; [done|].
  destruct (put_rb_world b rest io cnt s (world s) Hs (sk_own _ _ _ _ _ Hs)) as (Hs1 & Hk1 & Hr1 & Hw1).
  set (s1 := put_rb b io cnt (rb_of b io s) s) in *. change (put_rb _ _ _ _ _) with s1 in Hs1, Hk1, Hr1, Hw1.
  eapply wp_iocp; [exact Hs1|]. unfold set_readiness. wp_steps. cbn [rb_readiness rb_of].
  destruct (io_readiness io) as [h|] eqn:Hh.
  - destruct (own_set (world s1) _ h (f (cur io s)) (sk_own _ _ _ _ _ Hs1)) as (w' & E & Ho' & Hc').
    { by apply own_readiness. } { apply Hf. by eapply cur_no_drop. }
    destruct (put_rb_world b rest io cnt s1 w' Hs1 Ho') as (Hs2 & Hk2 & Hr2 & Hw2).
    wp_step. eapply wp_on_world; [exact E|]. cbn beta iota. apply wp_ret. apply HQ; [exact Hs2|by rewrite <- Hk1|by rewrite <- Hr1|].
    intros _. unfold cur at 1. rewrite Hh. exact Hc'.
  - destruct (put_rb_world b rest io cnt s1 (world s1) Hs1 (sk_own _ _ _ _ _ Hs1)) as (Hs2 & Hk2 & Hr2 & Hw2).
    apply wp_ret, HQ; [exact Hs2|by rewrite <- Hk1|by rewrite <- Hr1|]. by intros [].
Qed.

Lemma wp_add_readiness b rest io cnt s set (Q : unit → Sys → Prop) :
  sock_ok b rest io cnt s → is_drop set = false →
  (∀ s', sock_ok b rest io cnt s' → kernel s' = kernel s → regs s' !! b = regs s !! b →
    (is_Some (io_readiness io) → cur io s' = set |ᵣ cur io s) → Q tt s') →
  wp (add_readiness b set) Q s.
Proof. intros Hs Hd HQ. apply (wp_change_readiness b rest io cnt s (Ready.bitor set)); auto using bitor_no_drop. Qed.

Lemma wp_clear_readiness b rest io cnt s set (Q : unit → Sys → Prop) :
  sock_ok b rest io cnt s →
  (∀ s', sock_ok b rest io cnt s' → kernel s' = kernel s → regs s' !! b = regs s !! b →
    (is_Some (io_readiness io) → cur io s' = cur io s &ᵣ Ready.not set) → Q tt s') →
  wp (clear_readiness b set) Q s.
Proof.
  intros Hs HQ. apply (wp_change_readiness b rest io cnt s (λ r, r &ᵣ Ready.not set)); auto using clear_no_drop.
Qed.

(** ** Registration *)

Lemma kl_add_same port token sock (k k' : K) (r : io_result unit) : iocp_add_socket port token sock k = (r, k') → k_same k k'.
Proof. intros E. pose proof (kl_add_socket port token sock k) as Hs. by rewrite E in Hs. Qed.

Lemma wp_binding sock token poll (rb : RB C W R H K) (Q : io_result unit → RB C W R H K → Prop) :
  (∀ res c k', k_same (rb_kernel rb) k' → (lazy_borrow c = lazy_borrow (rb_selector rb) ∨ lazy_borrow c = Some poll) →
    Q res (set_kernel k' (set_selector c rb))) →
  wp (Binding_register_socket sock token poll) Q rb.
Proof.
  intros HQ. unfold Binding_register_socket, check_same_selector. wp_steps. cbn [rb_selector set_selector compose].
  destruct (lazy_fill poll (rb_selector rb)) as [f c] eqn:Ef. cbn [snd] in *.
  assert (lazy_borrow c = lazy_borrow (rb_selector rb) ∨ lazy_borrow c = Some poll) as Hc.
  { destruct (lazy_borrow (rb_selector rb)) as [a|] eqn:Ea.
    - rewrite (lazy_fill_full _ poll a Ea) in Ef. simplify_eq. by left.
    - destruct (lazy_fill_empty _ poll Ea) as (c' & Ef' & Hc'). rewrite Ef in Ef'. simplify_eq. by right. }
  assert (∀ e, Q (Err e) (set_selector c rb)) as Herr.
  { intros e. pose proof (HQ (Err e) c (rb_kernel rb) (k_same_refl _) Hc) as HQ'. by destruct rb. }
  unfold compose. cbn. destruct (lazy_borrow c) as [a|] eqn:Ea; [|by wp_steps].
  destruct (a =? poll); [|by wp_steps]. unfold port_add_socket, wp. cbn.
  destruct (iocp_add_socket poll (usize_from_token token) sock (rb_kernel rb)) as [r k'] eqn:Ek.
  apply (HQ r c k'); [by eapply kl_add_same|by rewrite Ea].
Qed.

Lemma wp_register b rest io cnt s sock poll (p : P) token events opts (Q : io_result unit → Sys → Prop) :
  sock_ok b rest io cnt s → has_pool s poll →
  (∀ res io' s', sock_ok b rest io' cnt s' → io_inner io' = io_inner io → io_socket io' = io_socket io →
    k_same (kernel s) (kernel s') →
    match res with
    | Ok _ => is_Some (io_readiness io') ∧ is_Some (regs s' !! b)
    | Err _ => io_readiness io' = io_readiness io ∧ regs s' !! b = regs s !! b ∧ cur io' s' = cur io s
    end → Q res s') →
  wp (iocp b (register_socket sock poll p token events opts)) Q s.
Proof.
  intros Hs Hpool HQ. eapply wp_iocp; [done|]. unfold register_socket. wp_step. apply wp_binding. intros res c k' Hk Hc.
  destruct Hs as [Hb Ho Hp Hrg].
  assert (∀ i, lazy_borrow c = Some i → has_pool s i) as Hpc.
  { intros i Hi. destruct Hc as [Hc|Hc]; rewrite Hc in Hi; [by apply Hp|by simplify_eq]. }
  destruct res as [u|e].
  - wp_step. destruct (own_new (world s) _ p token (with_hup events) opts Ho) as (r & h & w1 & E1 & Ho1 & _).
    eapply wp_on_world; [exact E1|]. cbn beta iota. wp_steps. cbn [rb_readiness set_kernel set_selector rb_of].
    assert (∃ w2, rd_own w2 (inl r :: inr h :: option_list (inl <$> regs s !! b) ++ rest) ∧
      match io_readiness io with Some o => rd_drop o w1 = Done (tt, w2) | None => w1 = w2 end) as (w2 & Ho2 & E2).
    { unfold sock_handles in Ho1. destruct (io_readiness io) as [o|]; cbn in Ho1; [|rewrite app_nil_r in Ho1; by eauto].
      destruct (own_drop_rd w1 (inl r :: inr h :: option_list (inl <$> regs s !! b) ++ rest) o) as (w2 & E2 & Ho2 & _); [|by eauto].
      eapply own_perm; [|exact Ho1]. solve_Permutation. }
    assert (∃ w3, rd_own w3 (inl r :: inr h :: rest) ∧
      match regs s !! b with Some o => reg_drop o w2 = Done (tt, w3) | None => w2 = w3 end) as (w3 & Ho3 & E3).
    { destruct (regs s !! b) as [o|]; cbn in Ho2; [|by eauto].
      destruct (own_drop_reg w2 (inl r :: inr h :: rest) o) as (w3 & E3 & Ho3 & _); [|by eauto].
      eapply own_perm; [|exact Ho2]. solve_Permutation. }
    set (io' := mkIo (io_socket io) c (Some h) (io_inner io)).
    assert (Q (Ok tt) (put_rb b io cnt (mkRB c (Some h) (Some r) (pools s) w3 k') s)) as HQ'.
    { apply (HQ (Ok tt) io'); [split|done|done|done|].
      - apply lookup_insert_eq.
      - by rewrite put_rb_regs.
      - exact Hpc.
      - by eexists.
      - rewrite put_rb_regs. split; by eexists. }
    destruct (io_readiness io) as [o|]; [eapply wp_on_world; [exact E2|]|subst w2; wp_step]; cbn [rb_readiness rb_registration];
      wp_steps; cbn [rb_readiness rb_registration set_kernel set_selector rb_of];
      (destruct (regs s !! b) as [o'|]; [eapply wp_on_world; [exact E3|]|subst w3; wp_step]; cbn beta iota; apply wp_ret, HQ').
  - wp_step. apply (HQ _ (mkIo (io_socket io) c (io_readiness io) (io_inner io))); [split|done|done|done|].
    + apply lookup_insert_eq.
    + by rewrite put_rb_regs.
    + exact Hpc.
    + by rewrite put_rb_regs.
    + rewrite put_rb_regs. done.
Qed.

(** [reregister_socket] and [deregister]: an operation [f] of the registration,
    after the check of the selector. *)
Definition on_registration (f : R → M W (io_result unit)) (poll : Z) : M (RB C W R H K) (io_result unit) :=
  try! check_same_selector poll;
  reg ← gets rb_registration;
  r ← lift (unwrap reg);
  on_world (f r).

Definition keeps_own (f : R → M W (io_result unit)) : Prop :=
  ∀ w l r, rd_own w l → rd_awake w → inl r ∈ l →
    ∃ res w', f r w = Done (res, w') ∧ rd_own w' l ∧ ∀ h, inr h ∈ l → rd_current w' h = rd_current w h.

Lemma wp_on_registration f poll b rest io cnt s (Q : io_result unit → Sys → Prop) :
  keeps_own f → sock_ok b rest io cnt s → rd_awake (world s) → (lazy_borrow (io_selector io) = Some poll → is_Some (regs s !! b)) →
  (∀ res s', sock_ok b rest io cnt s' → kernel s' = kernel s → regs s' !! b = regs s !! b → cur io s' = cur io s →
    (is_ok res = true → is_Some (regs s !! b)) → Q res s') →
  wp (iocp b (on_registration f poll)) Q s.
Proof.
  intros Hf Hs Haw Hreg HQ. eapply wp_iocp; [done|]. unfold on_registration, check_same_selector. wp_steps.
  assert (∀ e, Q (Err e) (put_rb b io cnt (rb_of b io s) s)) as Herr.
  { intros e. destruct (put_rb_world b rest io cnt s (world s) Hs (sk_own _ _ _ _ _ Hs)) as (Hs1 & Hk1 & Hr1 & Hw1).
    apply HQ; [exact Hs1|done|exact Hr1|done|done]. }
  unfold compose. cbn [rb_selector rb_of]. destruct (lazy_borrow (io_selector io)) as [a|] eqn:Ea; [|by apply wp_ret].
  destruct (a =? poll) eqn:Eap; [|by apply wp_ret]. zbool. subst a. destruct Hreg as [r Hr]; [done|].
  wp_steps. cbn [rb_registration rb_of]. rewrite Hr. eapply wp_lift; [reflexivity|]. cbn beta iota.
  assert (inl r ∈ sock_handles io (regs s !! b) ++ rest) as Hin by (rewrite Hr; apply own_registration).
  destruct (Hf (world s) _ r (sk_own _ _ _ _ _ Hs) Haw Hin) as (res & w' & E & Ho' & Hc').
  eapply wp_on_world; [exact E|]. cbn [rb_selector rb_readiness rb_registration rb_pools rb_kernel rb_of].
  destruct (put_rb_world b rest io cnt s w' Hs Ho') as (Hs1 & Hk1 & Hr1 & Hw1).
  apply HQ; [exact Hs1|done|exact Hr1| |by eauto]. unfold cur. destruct (io_readiness io) as [h|] eqn:Hh; [|done]. cbn.
  apply Hc'. by apply own_readiness.
Qed.

Lemma wp_reregister b rest io cnt s poll (p : P) token events opts (Q : io_result unit → Sys → Prop) :
  sock_ok b rest io cnt s → rd_awake (world s) → (lazy_borrow (io_selector io) = Some poll → is_Some (regs s !! b)) →
  (∀ res s', sock_ok b rest io cnt s' → kernel s' = kernel s → regs s' !! b = regs s !! b → cur io s' = cur io s →
    (is_ok res = true → is_Some (regs s !! b)) → Q res s') →
  wp (iocp b (reregister_socket poll p token events opts)) Q s.
Proof.
  apply (wp_on_registration (λ r, reg_update r p token (with_hup events) opts)). intros w l r. apply own_update.
Qed.

Lemma wp_deregister b rest io cnt s poll (p : P) (Q : io_result unit → Sys → Prop) :
  sock_ok b rest io cnt s → rd_awake (world s) → (lazy_borrow (io_selector io) = Some poll → is_Some (regs s !! b)) →
  (∀ res s', sock_ok b rest io cnt s' → kernel s' = kernel s → regs s' !! b = regs s !! b → cur io s' = cur io s →
    (is_ok res = true → is_Some (regs s !! b)) → Q res s') →
  wp (iocp b (deregister poll p)) Q s.
Proof. apply (wp_on_registration (λ r, reg_deregister r p)). intros w l r. apply own_deregister. Qed.

Lemma wp_registered b rest io cnt s (Q : bool → Sys → Prop) :
  sock_ok b rest io cnt s →
  (∀ s', sock_ok b rest io cnt s' → kernel s' = kernel s → regs s' !! b = regs s !! b → cur io s' = cur io s →
    Q (bool_decide (is_Some (io_readiness io))) s') →
  wp (iocp b (gets registered)) Q s.
Proof.
  intros Hs HQ. eapply wp_iocp; [done|]. wp_step.
  destruct (put_rb_world b rest io cnt s (world s) Hs (sk_own _ _ _ _ _ Hs)) as (Hs1 & Hk1 & Hr1 & Hw1).
  apply HQ; [exact Hs1|done|exact Hr1|done].
Qed.

(** ** Buffers *)

Lemma wp_get_buffer b rest io cnt s size (Q : Buf → Sys → Prop) :
  sock_ok b rest io cnt s →
  (∀ buf s', sock_ok b rest io cnt s' → b_bytes buf = [] → kernel s' = kernel s → regs s' !! b = regs s !! b →
    cur io s' = cur io s → Q buf s') →
  wp (iocp b (get_buffer size)) Q s.
Proof.
  intros Hs HQ. eapply wp_iocp; [done|]. unfold get_buffer. wp_steps. unfold compose. cbn [rb_selector rb_of].
  destruct (lazy_borrow (io_selector io)) as [i|] eqn:Ei.
  - destruct (sk_pool _ _ _ _ _ Hs i Ei) as (p & Hp & Hok). unfold on_pool, wp. cbn. rewrite Hp. cbn.
    destruct (BufferPool_get size p) as [buf p'] eqn:Eg. destruct (pool_get_ok _ _ _ _ Hok Eg) as [Hok' Hb].
    apply HQ; [split|done|done|by rewrite put_rb_regs|done].
    + cbn. rewrite lookup_insert_eq. by destruct io.
    + rewrite put_rb_regs. apply (sk_own _ _ _ _ _ Hs).
    + intros j Hj. assert (j = i) as -> by congruence. exists p'. split; [apply lookup_insert_eq|done].
    + rewrite put_rb_regs. apply (sk_reg _ _ _ _ _ Hs).
  - apply wp_ret. destruct (put_rb_world b rest io cnt s (world s) Hs (sk_own _ _ _ _ _ Hs)) as (Hs1 & Hk1 & Hr1 & Hw1).
    apply HQ; [exact Hs1|done|done|exact Hr1|done].
Qed.

Lemma wp_put_buffer b rest io cnt s buf (Q : unit → Sys → Prop) :
  sock_ok b rest io cnt s →
  (∀ s', sock_ok b rest io cnt s' → kernel s' = kernel s → regs s' !! b = regs s !! b → cur io s' = cur io s → Q tt s') →
  wp (iocp b (put_buffer buf)) Q s.
Proof.
  intros Hs HQ. eapply wp_iocp; [done|]. unfold put_buffer. wp_steps. unfold compose. cbn [rb_selector rb_of].
  destruct (lazy_borrow (io_selector io)) as [i|] eqn:Ei.
  - destruct (sk_pool _ _ _ _ _ Hs i Ei) as (p & Hp & Hok). unfold on_pool, wp. cbn. rewrite Hp. cbn.
    apply HQ; [split|done|by rewrite put_rb_regs|done].
    + cbn. rewrite lookup_insert_eq. by destruct io.
    + rewrite put_rb_regs. apply (sk_own _ _ _ _ _ Hs).
    + intros j Hj. assert (j = i) as -> by congruence. eexists. split; [apply lookup_insert_eq|by apply pool_put_ok].
    + rewrite put_rb_regs. apply (sk_reg _ _ _ _ _ Hs).
  - apply wp_ret. destruct (put_rb_world b rest io cnt s (world s) Hs (sk_own _ _ _ _ _ Hs)) as (Hs1 & Hk1 & Hr1 & Hw1).
    apply HQ; [exact Hs1|done|exact Hr1|done].
Qed.

(** ** mod.rs *)

Lemma wp_cancel b rest io cnt s sock p (Q : io_result unit → Sys → Prop) :
  sock_ok b rest io cnt s →
  (∀ res s', sock_ok b rest io cnt s' → k_same (kernel s) (kernel s') → regs s' = regs s → world s' = world s → Q res s') →
  wp (cancel sock p) Q s.
Proof.
  intros Hs HQ. unfold cancel. wp_step. apply wp_kcall. intros r k E. wp_steps.
  apply HQ; [by apply sock_ok_kern| |done|done]. cbn. pose proof (kl_cancel sock p (kernel s)) as Hk. by rewrite E in Hk.
Qed.

(** On success the socket skips completions of what succeeds at once. *)
Lemma wp_no_notify b rest io cnt s sock (Q : io_result unit → Sys → Prop) :
  sock_ok b rest io cnt s →
  (∀ res s', sock_ok b rest io cnt s' → regs s' = regs s → world s' = world s →
    (∀ p, k_out (kernel s') p = k_out (kernel s) p) → (∀ x, k_sent (kernel s') x = k_sent (kernel s) x) →
    k_skip (kernel s') sock = is_ok res || k_skip (kernel s) sock → k_live (kernel s') = k_live (kernel s) → Q res s') →
  wp (no_notify_on_instant_completion sock) Q s.
Proof.
  intros Hs HQ. unfold no_notify_on_instant_completion. wp_step. apply wp_kcall. intros r k E. wp_steps.
  destruct (kl_modes _ _ _ _ _ E) as (Ho & Ht & Hk & Hl); [done|].
  apply HQ; [by apply sock_ok_kern|done|done|done|done| |done]. cbn. rewrite Hk.
  destruct (r =? 1) eqn:Er; zbool; [by rewrite decide_True|by rewrite decide_False by naive_solver].
Qed.

(** ** Dropping handles *)

Lemma wp_on_queue {A} (m : M W A) s a w (Q : A → Sys → Prop) :
  m (world s) = Done (a, w) → Q a (set_world w s) → wp (on_queue m) Q s.
Proof. intros E HQ. unfold wp, on_queue. by rewrite E. Qed.

Lemma arc_drop_eq b io cnt s :
  arcs s !! b = Some (mkArcInner io cnt) → 1 <= cnt <= U64_MAX →
  on_arcs (FromRawArc_drop b) s =
    Done (if cnt =? 1 then (Some io, set_arcs (delete b (arcs s)) s)
          else (None, set_arcs (<[b := mkArcInner io (cnt - 1)]> (arcs s)) s)).
Proof.
  intros Hb Hc. unfold on_arcs, FromRawArc_drop, arc_at, modify, mbind, M_bind. rewrite Hb. cbn -[wrap64].
  rewrite wrap64_id by (unfold is_u64; lia). destruct (cnt =? 1); cbn; [by rewrite delete_insert_eq|done].
Qed.

(** A handle that is not the last one. *)
Lemma wp_arc_drop_shared b rest io cnt s dr (Q : unit → Sys → Prop) :
  sock_ok b rest io cnt s → 1 < cnt <= U64_MAX →
  (∀ s', sock_ok b rest io (cnt - 1) s' → regs s' = regs s → world s' = world s → kernel s' = kernel s → Q tt s') →
  wp (arc_drop dr b) Q s.
Proof.
  intros [Hb Ho Hp Hrg] Hc HQ. unfold arc_drop. wp_step.
  eapply wp_of_eq; [rewrite (arc_drop_eq _ _ _ _ Hb) by lia; replace (cnt =? 1) with false by lia; reflexivity|]. apply wp_ret.
  apply HQ; [|done..]. split; cbn; [apply lookup_insert_eq|done..].
Qed.

(** The last handle: the box is gone, and so is its readiness handle; then what
    else it held is dropped ([dr]) and the socket closed. *)
Lemma wp_arc_drop_last b rest io s (dr : I → M Sys unit) (Q : unit → Sys → Prop) :
  sock_ok b rest io 1 s →
  (∀ s', arcs s' !! b = None → regs s' = regs s → pools s' = pools s →
    rd_own (world s') (option_list (inl <$> regs s !! b) ++ rest) → kernel s' = kernel s →
    wp (dr (io_inner io)) (λ _ s'', Q tt (set_kern (k_close (io_socket io) (kernel s'')) s'')) s') →
  wp (arc_drop dr b) Q s.
Proof.
  intros [Hb Ho Hp Hrg] HQ. unfold arc_drop. wp_step.
  eapply wp_of_eq; [by rewrite (arc_drop_eq _ _ _ _ Hb)|]. cbn beta iota. set (s1 := set_arcs _ s).
  assert (∃ w, rd_own w (option_list (inl <$> regs s !! b) ++ rest) ∧
    match io_readiness io with Some h => rd_drop h (world s) = Done (tt, w) | None => w = world s end) as (w & How & Ew).
  { unfold sock_handles in Ho. destruct (io_readiness io) as [h|]; cbn in Ho; [|rewrite app_nil_r in Ho; by eauto].
    destruct (own_drop_rd (world s) (option_list (inl <$> regs s !! b) ++ rest) h) as (w & E & How & _); [|by eauto].
    eapply own_perm; [|exact Ho]. solve_Permutation. }
  assert (wp (_ ← dr (io_inner io); _ ← kcall (λ k, (tt, k_close (io_socket io) k)); mret tt) Q (set_world w s1)) as HQ'.
  { wp_step. eapply wp_mono; [apply HQ; [apply lookup_delete_eq|done..]|]. intros [] s'' H''. wp_steps. exact H''. }
  wp_step. destruct (io_readiness io) as [h|]; [eapply wp_on_queue; [exact Ew|]|subst w; apply wp_ret]; exact HQ'.
Qed.

(** The owner's registration goes. *)
Lemma wp_drop_registration b rest l s (Q : unit → Sys → Prop) :
  rd_own (world s) (option_list (inl <$> regs s !! b) ++ l ++ rest) →
  (∀ s', arcs s' = arcs s → regs s' !! b = None → pools s' = pools s → kernel s' = kernel s →
    rd_own (world s') (l ++ rest) → (∀ h, inr h ∈ l → rd_current (world s') h = rd_current (world s) h) → Q tt s') →
  wp (drop_registration b) Q s.
Proof.
  intros Ho HQ. unfold drop_registration. wp_steps. destruct (regs s !! b) as [r|] eqn:Er.
  - wp_steps. cbn in Ho. destruct (own_drop_reg _ _ _ Ho) as (w & E & How & Hc). eapply wp_on_queue; [exact E|].
    apply HQ; [done|apply lookup_delete_eq|done|done|done|]. intros h Hh. apply Hc. set_solver.
  - wp_steps. by apply HQ.
Qed.
(** ** The rest of the program *)

(** What the rest of the program leaves alone: the box and the registration of
    one socket, its operations under way, and its handles. *)
Record others_ok (b : positive) (s s' : Sys) : Prop := {
  ot_arc : arcs s' !! b = arcs s !! b;
  ot_reg : regs s' !! b = regs s !! b;
  ot_pools i : has_pool s i → has_pool s' i;
  ot_out off : k_out (kernel s') (mkPtr b off) = k_out (kernel s) (mkPtr b off);
  ot_sock i : arcs s !! b = Some i →
    k_skip (kernel s') (io_socket (ai_data i)) = k_skip (kernel s) (io_socket (ai_data i)) ∧
    k_sent (kernel s') (io_socket (ai_data i)) = k_sent (kernel s) (io_socket (ai_data i)) ∧
    cur (ai_data i) s' = cur (ai_data i) s;
  ot_own l : (∃ rest, rd_own (world s) (l ++ rest)) → ∃ rest, rd_own (world s') (l ++ rest) }.

Lemma others_sock_ok b rest io cnt s s' :
  others_ok b s s' → sock_ok b rest io cnt s → ∃ rest', sock_ok b rest' io cnt s'.
Proof.
  intros [Ha Hr Hp _ _ Hown] [Hb Hw Hpl Hrg]. destruct (Hown (sock_handles io (regs s !! b))) as [rest' Hw']; [by eexists|].
  exists rest'. split; rewrite ?Ha, ?Hr; auto.
Qed.

(** Running code as part of a program whose state is made by [f]. *)
Lemma run_of_wp {A Prog} (m : M Sys A) (f : A → Sys → Prog) (J : Prog → Prop) s :
  wp m (λ a s', J (f a s')) s → ∃ c', ('(a, s) ← m s; Done (f a s)) = Done c' ∧ J c'.
Proof. intros (a & s' & E & HI)%wp_done. rewrite E. cbn. eauto. Qed.

Lemma cur_write f io s s' : world s' = world s → cur (set_inner f io) s' = cur io s.
Proof. intros Hw. unfold cur. by rewrite Hw. Qed.
End rules.
