(* ===== verification/WinTcp.v ===== *)
(** * sys/windows/tcp.rs: streams and listeners

    Completions are turned into readiness: a stream starts a read of no bytes and
    is readable when that completes; what is written is copied, handed to the
    kernel, and the stream is writable again when all of it is gone.  While an
    operation is in progress the kernel owns a reference to the box; the callback
    of its completion takes it over. *)

From S2P Require Import Prelude Event Convert Iface Windows WinSock.

Definition WSAECONNRESET : Z := 10054.

(** Where the [Overlapped] fields of [StreamIo] and [ListenerIo] lie. *)
Class TcpLayout : Type := { off_read : Z; off_write : Z; off_accept : Z }.
Class TcpLayoutOk `{TcpLayout} : Prop := { off_distinct : off_read ≠ off_write }.

(** [&buf[pos..]]. *)
Definition slice_from (buf : Buf) (pos : Z) : outcome (list Z) :=
  if pos <=? Z.of_nat (length (b_bytes buf)) then Done (drop (Z.to_nat pos) (b_bytes buf)) else Panic.

(** ** The calls of miow and std::net *)

(** Overlapped calls answer with the bytes transferred, if they completed at
    once; [k_recv s n] reads at most [n] bytes without blocking. *)
Class StreamSys (K : Type) : Type := {
  k_connect_overlapped : Z → SocketAddr → Ptr → K → io_result (option Z) * K;
  k_connect_complete : Z → K → io_result unit * K;
  k_read_overlapped : Z → Ptr → K → io_result (option Z) * K;
  k_write_overlapped : Z → list Z → Ptr → K → io_result (option Z) * K;
  k_recv : Z → Z → K → io_result (list Z) * K;
  k_try_clone : Z → K → io_result Z * K }.

Class StreamLaws (K : Type) `{WinSys K, WinSpec K, StreamSys K} : Prop := {
  kl_connect s addr p k r k' :
    k_connect_overlapped s addr p k = (r, k') →
    issued k k' p (posts (k_skip k s) r) (mkOp s [] None) ∧ ∀ s', k_sent k' s' = k_sent k s';
  kl_connect_complete s k : k_same k (snd (k_connect_complete s k));
  kl_read s p k r k' :
    k_read_overlapped s p k = (r, k') →
    issued k k' p (posts (k_skip k s) r) (mkOp s [] None) ∧ ∀ s', k_sent k' s' = k_sent k s';
  (** a write that completes at once has transferred something *)
  kl_write s data p k r k' :
    k_write_overlapped s data p k = (r, k') →
    issued k k' p (posts (k_skip k s) r) (mkOp s data None) ∧
    (∀ s', s' ≠ s → k_sent k' s' = k_sent k s') ∧
    (posts (k_skip k s) r = true ∨ is_ok r = false → k_sent k' s = k_sent k s) ∧
    (∀ n, r = Ok (Some n) → 0 <= n <= Z.of_nat (length data) ∧ (data ≠ [] → 0 < n) ∧
      (k_skip k s = true → k_sent k' s = k_sent k s ++ take (Z.to_nat n) data));
  kl_recv s n k : k_same k (snd (k_recv s n k)) }.

(** ** Streams *)

Record StreamInner : Type := mkStreamInner {
  deferred_connect : option SocketAddr;
  s_read : State unit unit;
  s_write : State (Buf * Z) (Buf * Z);
  instant_notify : bool }.

Definition set_deferred d (me : StreamInner) := mkStreamInner d (s_read me) (s_write me) (instant_notify me).
Definition set_read r (me : StreamInner) := mkStreamInner (deferred_connect me) r (s_write me) (instant_notify me).
Definition set_write w (me : StreamInner) := mkStreamInner (deferred_connect me) (s_read me) w (instant_notify me).
Definition set_instant i (me : StreamInner) := mkStreamInner (deferred_connect me) (s_read me) (s_write me) i.

Section stream.
Context {C : Type → Type} {cell_ops : LazyCellOps C}.
Context {W R H P : Type} {rd_ops : ReadinessOps W H} {reg_ops : RegistrationOps W R H P} {drop_ops : HandleDropOps W R H}.
Context {K : Type} {iocp_ops : IocpOps K} {win : WinSys K} {stream : StreamSys K}.
Context {layout : TcpLayout} {reserve : VecReserve}.
Abbreviation Sys := (WSys C W R H K StreamInner).

Definition read_ptr (b : positive) : Ptr := mkPtr b off_read.
Definition write_ptr (b : positive) : Ptr := mkPtr b off_write.

Definition TcpStream_new (sock : Z) (deferred : option SocketAddr) : M Sys positive :=
  on_arcs (FromRawArc_new (mkIo sock lazy_new None (mkStreamInner deferred SEmpty SEmpty false))).

Definition TcpStream_connect (sock : Z) (addr : SocketAddr) : M Sys (io_result positive) :=
  try! kcall (k_set_nonblocking sock true);
  b ← TcpStream_new sock (Some addr);
  mret (Ok b).

Definition TcpStream_from_stream (sock : Z) : M Sys positive := TcpStream_new sock None.

(** [peer_addr], [local_addr], [shutdown] and the socket options: [call] on the
    socket of the box. *)
Definition TcpStream_forward {A} (call : Z → K → io_result A * K) (b : positive) : M Sys (io_result A) :=
  sock ← socket b; kcall (call sock).

Definition TcpStream_try_clone (b : positive) : M Sys (io_result positive) :=
  r ← TcpStream_forward k_try_clone b;
  match r with
  | Ok s => b ← TcpStream_new s None; mret (Ok b)
  | Err e => mret (Err e)
  end.

Definition schedule_connect (b : positive) (addr : SocketAddr) : M Sys (io_result unit) :=
  sock ← socket b;
  try! kcall (k_connect_overlapped sock addr (read_ptr b));
  _ ← forget_clone b;
  mret (Ok tt).

Definition schedule_read (b : positive) : M Sys unit :=
  me ← inner b;
  match s_read me with
  | SEmpty =>
      _ ← clear_readiness b Ready.readable;
      sock ← socket b;
      res ← kcall (k_read_overlapped sock (read_ptr b));
      match res with
      | Ok o =>
          if bool_decide (is_Some o) && instant_notify me then
            _ ← write_inner b (set_read (SReady tt));
            add_readiness b Ready.readable
          else
            _ ← write_inner b (set_read (SPending tt));
            forget_clone b
      | Err e =>
          let set := if decide (raw_os_error e = Some WSAECONNRESET) then Ready.readable |ᵣ Ready.hup else Ready.readable in
          _ ← write_inner b (set_read (SError e));
          add_readiness b set
      end
  | SReady _ | SError _ => add_readiness b Ready.readable
  | SPending _ => mret tt
  end.

(** The loop of [schedule_write]. *)
Fixpoint write_loop (fuel : nat) (b : positive) (buf : Buf) (pos : Z) : M Sys unit :=
  match fuel with
  | O => out_of_fuel
  | S fuel =>
      data ← lift (slice_from buf pos);
      sock ← socket b;
      ret ← kcall (k_write_overlapped sock data (write_ptr b));
      me ← inner b;
      match ret with
      | Ok (Some transferred_bytes) =>
          if instant_notify me then
            if transferred_bytes =? Z.of_nat (length (b_bytes buf)) - pos then
              _ ← add_readiness b Ready.writable;
              write_inner b (set_write SEmpty)
            else write_loop fuel b buf (pos + transferred_bytes)
          else
            _ ← write_inner b (set_write (SPending (buf, pos)));
            forget_clone b
      | Ok None =>
          _ ← write_inner b (set_write (SPending (buf, pos)));
          forget_clone b
      | Err e =>
          _ ← write_inner b (set_write (SError e));
          _ ← add_readiness b Ready.writable;
          iocp b (put_buffer buf)
      end
  end.

(** Every round but the last transfers a byte. *)
Definition schedule_write (b : positive) (buf : Buf) (pos : Z) : M Sys unit :=
  _ ← clear_readiness b Ready.writable;
  write_loop (S (length (b_bytes buf) - Z.to_nat pos)) b buf pos.

Definition post_register (b : positive) (interest : Ready.t) : M Sys unit :=
  _ ← (if Ready.is_readable interest then schedule_read b else mret tt);
  me ← inner b;
  if Ready.is_writable interest
  then match s_write me with SEmpty => add_readiness b Ready.writable | _ => mret tt end
  else mret tt.

(** The loop over the buffers of [readv], given by their lengths; [got] is what
    the buffers filled so far have received. *)
Fixpoint readv_loop (b : positive) (bufs : list Z) (got : list Z) : M Sys (io_result Z * list Z) :=
  let amt := Z.of_nat (length got) in
  match bufs with
  | [] => mret (Ok amt, got)
  | len :: bufs =>
      sock ← socket b;
      r ← kcall (k_recv sock len);
      match r with
      | Ok data =>
          let n := Z.of_nat (length data) in
          if n <? len then mret (Ok (amt + n), got ++ data) else readv_loop b bufs (got ++ data)
      | Err e =>
          if (0 <? amt) && bool_decide (win_kind e = WouldBlock) then
            _ ← write_inner b (set_read SEmpty);
            _ ← schedule_read b;
            mret (Ok amt, got)
          else if 0 <? amt then
            _ ← write_inner b (set_read (SError e));
            mret (Ok amt, got)
          else
            _ ← write_inner b (set_read SEmpty);
            _ ← schedule_read b;
            mret (Err e, got)
      end
  end.

Definition readv (b : positive) (bufs : list Z) : M Sys (io_result Z * list Z) :=
  me ← inner b;
  match s_read me with
  | SEmpty | SPending _ => mret (Err wouldblock, [])
  | SError e =>
      _ ← write_inner b (set_read SEmpty);
      _ ← schedule_read b;
      mret (Err e, [])
  | SReady _ => readv_loop b bufs []
  end.

Definition read (b : positive) (len : Z) : M Sys (io_result Z * list Z) := readv b [len].

Definition writev (b : positive) (bufs : list (list Z)) : M Sys (io_result Z) :=
  me ← inner b;
  match s_write me with
  | SEmpty =>
      reg ← iocp b (gets registered);
      if negb reg then mret (Err wouldblock)
      else if bool_decide (bufs = []) then mret (Ok 0)
      else
        let len := foldl (λ a x, a + Z.of_nat (length x)) 0 bufs in
        intermediate ← iocp b (get_buffer len);
        _ ← schedule_write b (foldl extend_from_slice intermediate bufs) 0;
        mret (Ok len)
  | _ => mret (Err wouldblock)
  end.

Definition write (b : positive) (buf : list Z) : M Sys (io_result Z) := writev b [buf].
Definition flush (b : positive) : M Sys (io_result unit) := mret (Ok tt).

(** Nothing in [StreamInner] has a drop of its own that mio relies on. *)
Definition stream_arc_drop (b : positive) : M Sys unit := arc_drop (λ _, mret tt) b.

Definition read_done (status : CompletionStatus) : M Sys unit :=
  b ← lift (overlapped2arc (cs_overlapped status) off_read);
  me ← inner b;
  _ ← match s_read me with
      | SPending _ =>
          if cs_bytes status =? 0
          then _ ← write_inner b (set_read (SReady tt)); add_readiness b Ready.readable
          else panic
      | _ =>
          sock ← socket b;
          r ← kcall (k_connect_complete sock);
          match r with
          | Ok _ => _ ← add_readiness b Ready.writable; schedule_read b
          | Err e => _ ← add_readiness b Ready.readable; write_inner b (set_read (SError e))
          end
      end;
  stream_arc_drop b.

Definition write_done (status : CompletionStatus) : M Sys unit :=
  b ← lift (overlapped2arc (cs_overlapped status) off_write);
  me ← inner b;
  match s_write me with
  | SPending (buf, pos) =>
      _ ← write_inner b (set_write SEmpty);
      let new_pos := pos + cs_bytes status in
      _ ← (if new_pos =? Z.of_nat (length (b_bytes buf))
           then add_readiness b Ready.writable
           else schedule_write b buf new_pos);
      stream_arc_drop b
  | _ => panic
  end.

(** The [callback] of the [Overlapped] a completion points to, as set up by
    [TcpStream::new]; reading it reaches into the box. *)
Definition stream_callback (o : Ptr) (status : CompletionStatus) : M Sys unit :=
  _ ← the_box (p_box o);
  if p_off o =? off_read then read_done status
  else if p_off o =? off_write then write_done status
  else panic.

(** ** The [Evented] implementation *)

Definition TcpStream_register (b : positive) (poll : Z) (p : P) (token : Token) (interest : Ready.t) (opts : PollOpt.t)
    : M Sys (io_result unit) :=
  sock ← socket b;
  try! iocp b (register_socket sock poll p token interest opts);
  try! no_notify_on_instant_completion sock;
  _ ← write_inner b (set_instant true);
  me ← inner b;
  match deferred_connect me with
  | Some addr =>
      _ ← write_inner b (set_deferred None);
      schedule_connect b addr
  | None => _ ← post_register b interest; mret (Ok tt)
  end.

Definition TcpStream_reregister (b : positive) (poll : Z) (p : P) (token : Token) (interest : Ready.t) (opts : PollOpt.t)
    : M Sys (io_result unit) :=
  try! iocp b (reregister_socket poll p token interest opts);
  _ ← post_register b interest;
  mret (Ok tt).

Definition TcpStream_deregister (b : positive) (poll : Z) (p : P) : M Sys (io_result unit) :=
  iocp b (deregister poll p).

(** [Drop for TcpStream], then the drop of its fields. *)
Definition TcpStream_drop (b : positive) : M Sys unit :=
  me ← inner b;
  _ ← match s_read me with
      | SPending _ | SEmpty => sock ← socket b; _ ← cancel sock (read_ptr b); mret tt
      | SReady _ | SError _ => mret tt
      end;
  _ ← stream_arc_drop b;
  drop_registration b.
End stream.
