(* ===== verification/WinTcpInv.v ===== *)
(** * The invariant of a TCP stream of Windows

    [core held acc b io cnt k]: the references to the box [b] are those its [held]
    holders and the kernel have, one for each operation under way; the states of
    reading and writing agree with the operations the kernel knows; and what was
    accepted for writing ([acc]) is what the kernel has transferred followed by
    what is still in flight. *)

From S2P Require Import Prelude Event Convert Iface Windows WindowsThm WinSock WinSockInv WinTcp.

Section stream.
Context {C : Type → Type} {cell_ops : LazyCellOps C} {cell_laws : LazyCellLaws C}.
Context {W R H P : Type} {rd_ops : ReadinessOps W H} {reg_ops : RegistrationOps W R H P} {drop_ops : HandleDropOps W R H}.
Context {rd_spec : ReadinessSpec W H} {h_spec : HandleSpec W R H} {h_laws : HandleLaws W R H P}.
Context {K : Type} {iocp_ops : IocpOps K} {win : WinSys K} {spec : WinSpec K} {laws : WinLaws K}.
Context {stream : StreamSys K} {stream_laws : StreamLaws K}.
Context {layout : TcpLayout} {layout_ok : TcpLayoutOk} {reserve : VecReserve}.
Abbreviation Io := (Io C H StreamInner).
Abbreviation Sys := (WSys C W R H K StreamInner).
Implicit Types s : Sys.
Implicit Types io : Io.
Implicit Types k : K.

(** No connect completes at once. *)
Definition connect_pends : Prop := ∀ sock addr p k n k', k_connect_overlapped sock addr p k ≠ (Ok (Some n), k').

Definition n_out (k : K) (p : Ptr) : Z := Z.of_nat (length (k_out k p)).
Definition pend (r : State unit unit) : Z := match r with SPending _ => 1 | _ => 0 end.
(** Besides reads, a connect may be under way on the same [OVERLAPPED]. *)
Definition slack (me : StreamInner) : Z := match deferred_connect me with Some _ => 0 | None => 1 end.
Definition unsent (buf : Buf) (pos : Z) : list Z := drop (Z.to_nat pos) (b_bytes buf).
Definition in_range (buf : Buf) (pos : Z) : Prop := 0 <= pos <= Z.of_nat (length (b_bytes buf)).

Definition write_ok (w : State (Buf * Z) (Buf * Z)) (acc : list Z) (b : positive) (sock : Z) (k : K) : Prop :=
  match w with
  | SEmpty => k_out k (write_ptr b) = [] ∧ acc = k_sent k sock
  | SPending (buf, pos) =>
      k_out k (write_ptr b) = [mkOp sock (unsent buf pos) None] ∧ in_range buf pos ∧ acc = k_sent k sock ++ unsent buf pos
  | SError _ => k_out k (write_ptr b) = [] ∧ k_sent k sock `prefix_of` acc
  | SReady _ => False
  end.

Record core (held : Z) (acc : list Z) (b : positive) (io : Io) (cnt : Z) (k : K) : Prop := {
  co_low : held + n_out k (read_ptr b) + n_out k (write_ptr b) <= cnt;
  co_high : cnt <= held + n_out k (read_ptr b) + n_out k (write_ptr b) + slack (io_inner io);
  co_exact : connect_pends → cnt = held + n_out k (read_ptr b) + n_out k (write_ptr b);
  co_reads : Forall (λ o, o = mkOp (io_socket io) [] None) (k_out k (read_ptr b));
  co_pend : pend (s_read (io_inner io)) <= n_out k (read_ptr b) <= pend (s_read (io_inner io)) + slack (io_inner io);
  co_write : write_ok (s_write (io_inner io)) acc b (io_socket io) k;
  co_skip : instant_notify (io_inner io) = k_skip k (io_socket io) }.

(** The parts of a box that scheduling a read or a write does not touch. *)
Definition same_frame (io io' : Io) : Prop :=
  io_socket io' = io_socket io ∧ io_selector io' = io_selector io ∧ io_readiness io' = io_readiness io ∧
  deferred_connect (io_inner io') = deferred_connect (io_inner io) ∧ instant_notify (io_inner io') = instant_notify (io_inner io).

(** Reading can go on: a read is in flight, or the socket is readable. *)
Definition read_goes_on (io : Io) (s : Sys) : Prop :=
  match s_read (io_inner io) with
  | SEmpty => False
  | SPending _ => True
  | SReady _ | SError _ => Ready.is_readable (cur io s) = true
  end.

Lemma ptr_ne b : read_ptr b ≠ write_ptr b.
Proof. intros [= Hp]. by apply off_distinct. Qed.

Lemma core_bounds held acc b io cnt k : core held acc b io cnt k → 0 <= held → held <= cnt <= held + 4.
Proof.
  intros [Hl Hh _ _ Hp Hw _] Hheld. unfold n_out in *.
  assert (length (k_out k (write_ptr b)) <= 1)%nat.
  { destruct (s_write (io_inner io)) as [|[buf pos]|[]|]; cbn in Hw; [|..|done|]; destruct Hw as [-> _]; cbn; lia. }
  unfold slack, pend in *. destruct (deferred_connect _), (s_read _); lia.
Qed.

(** A core only depends on what the kernel says of the two [OVERLAPPED]s and the
    socket. *)
Lemma core_same held acc b io cnt k k' : k_same k k' → core held acc b io cnt k → core held acc b io cnt k'.
Proof.
  intros (Ho & Hs & Ht & _) [Hl Hh He Hr Hp Hw Hk]. split; unfold n_out in *; rewrite ?Ho, ?Hs; try done.
  unfold write_ok in *. by rewrite Ho, Ht.
Qed.

Lemma core_readiness held acc b io io' cnt k :
  io_inner io' = io_inner io → io_socket io' = io_socket io → core held acc b io cnt k → core held acc b io' cnt k.
Proof. intros Hi Hs []. split; rewrite ?Hi, ?Hs; done. Qed.

(** Changing the state of reading, when no read is in flight before and after. *)
Lemma core_set_read held acc b io cnt k r :
  core held acc b io cnt k → pend r = pend (s_read (io_inner io)) → core held acc b (set_inner (set_read r) io) cnt k.
Proof. intros [] Hr. split; cbn; try done. by rewrite Hr. Qed.

(** An operation on the read [OVERLAPPED] was issued. *)
Lemma core_issue_read held acc b io cnt k k' c r :
  core held acc b io cnt k → pend (s_read (io_inner io)) = 0 →
  issued k k' (read_ptr b) c (mkOp (io_socket io) [] None) → (∀ x, k_sent k' x = k_sent k x) →
  pend r = (if c then 1 else 0) →
  core held acc b (set_inner (set_read r) io) (cnt + if c then 1 else 0) k'.
Proof.
  intros [Hl Hh He Hr Hp Hw Hk] Hr0 (Ho & Ho' & Hs & _) Ht Hpr.
  assert (k_out k' (write_ptr b) = k_out k (write_ptr b)) as How by (apply Ho', not_eq_sym, ptr_ne).
  assert (n_out k' (read_ptr b) = n_out k (read_ptr b) + if c then 1 else 0) as Hn.
  { unfold n_out. rewrite Ho, length_app. destruct c; cbn; lia. }
  assert (n_out k' (write_ptr b) = n_out k (write_ptr b)) as Hnw by (unfold n_out; by rewrite How).
  split; cbn; rewrite ?Hn, ?Hnw; try lia.
  - change (slack _) with (slack (io_inner io)). lia.
  - intros Hcp. specialize (He Hcp). lia.
  - rewrite Ho. apply Forall_app. split; [done|]. destruct c; by repeat constructor.
  - change (slack _) with (slack (io_inner io)). lia.
  - unfold write_ok in *. by rewrite How, Ht.
  - by rewrite Hs.
Qed.

(** A connect was tried; [c]: it will complete; [d]: references handed over.  A
    connect that completes at once leaves a reference nobody takes back. *)
Lemma core_issue_connect held acc b io cnt k k' addr (c : bool) (d : Z) :
  core held acc b io cnt k → deferred_connect (io_inner io) = Some addr →
  issued k k' (read_ptr b) c (mkOp (io_socket io) [] None) → (∀ x, k_sent k' x = k_sent k x) →
  Z.b2z c <= d <= 1 → (connect_pends → d = Z.b2z c) →
  core held acc b (set_inner (set_deferred None) io) (cnt + d) k'.
Proof.
  intros [Hl Hh He Hr Hp Hw Hk] Hd (Ho & Ho' & Hs & _) Ht Hcd Hex.
  assert (k_out k' (write_ptr b) = k_out k (write_ptr b)) as How by (apply Ho', not_eq_sym, ptr_ne).
  assert (n_out k' (read_ptr b) = n_out k (read_ptr b) + Z.b2z c) as Hn.
  { unfold n_out. rewrite Ho, length_app. destruct c; cbn; lia. }
  assert (n_out k' (write_ptr b) = n_out k (write_ptr b)) as Hnw by (unfold n_out; by rewrite How).
  unfold slack in *. rewrite Hd in Hh, Hp. split; cbn; rewrite ?Hn, ?Hnw; try lia.
  - destruct c; cbn in *; lia.
  - intros Hcp. specialize (He Hcp). specialize (Hex Hcp). lia.
  - rewrite Ho. apply Forall_app. split; [done|]. destruct c; by repeat constructor.
  - destruct c; cbn; lia.
  - unfold write_ok in *. by rewrite How, Ht.
  - by rewrite Hs.
Qed.

(** A write that the kernel takes over. *)
Lemma core_issue_write held acc b io cnt k k' buf pos :
  core held acc b io cnt k → s_write (io_inner io) = SEmpty → in_range buf pos →
  issued k k' (write_ptr b) true (mkOp (io_socket io) (unsent buf pos) None) → (∀ x, k_sent k' x = k_sent k x) →
  core held (acc ++ unsent buf pos) b (set_inner (set_write (SPending (buf, pos))) io) (cnt + 1) k'.
Proof.
  intros [Hl Hh He Hr Hp Hw Hk] Hw0 Hrange (Ho & Ho' & Hs & _) Ht. rewrite Hw0 in Hw. cbn in Hw. destruct Hw as [Hwo ->].
  assert (k_out k' (read_ptr b) = k_out k (read_ptr b)) as Hor by (apply Ho', ptr_ne).
  assert (n_out k' (read_ptr b) = n_out k (read_ptr b)) as Hn by (unfold n_out; by rewrite Hor).
  rewrite Hwo in Ho. cbn in Ho.
  assert (n_out k' (write_ptr b) = 1) as Hnw by (unfold n_out; by rewrite Ho).
  assert (n_out k (write_ptr b) = 0) as Hnw0 by (unfold n_out; by rewrite Hwo).
  split; cbn; rewrite ?Hn, ?Hnw, ?Hor; try done; try lia.
  - change (slack _) with (slack (io_inner io)). lia.
  - intros Hcp. specialize (He Hcp). lia.
  - by rewrite Ht.
  - by rewrite Hs.
Qed.

(** A write that is over, or failed, with nothing left in flight. *)
Lemma core_end_write held acc acc' b io cnt k k' w :
  core held acc b io cnt k → s_write (io_inner io) = SEmpty →
  issued k k' (write_ptr b) false (mkOp (io_socket io) [] None) →
  write_ok w acc' b (io_socket io) k' → core held acc' b (set_inner (set_write w) io) cnt k'.
Proof.
  intros [Hl Hh He Hr Hp Hw Hk] Hw0 (Ho & Ho' & Hs & _) Hw'. rewrite app_nil_r in Ho.
  assert (k_out k' (read_ptr b) = k_out k (read_ptr b)) as Hor by (apply Ho', ptr_ne).
  split; cbn; unfold n_out in *; rewrite ?Hor, ?Ho; try done. by rewrite Hs.
Qed.

Lemma unsent_app buf pos n : 0 <= pos → 0 <= n → unsent buf pos = take (Z.to_nat n) (unsent buf pos) ++ unsent buf (pos + n).
Proof.
  intros Hp Hn. unfold unsent. rewrite Z2Nat.inj_add by done. rewrite <- drop_drop. by rewrite take_drop.
Qed.

Lemma unsent_length buf pos : in_range buf pos → Z.of_nat (length (unsent buf pos)) = Z.of_nat (length (b_bytes buf)) - pos.
Proof. intros [H0 H1]. unfold unsent. rewrite length_drop. lia. Qed.

(** A holder gives up its reference. *)
Lemma core_release held acc b io cnt k : core (held + 1) acc b io cnt k → core held acc b io (cnt - 1) k.
Proof. intros []. split; try done; try lia. intros Hcp. specialize (co_exact0 Hcp). lia. Qed.

(** Taking a completion of the read [OVERLAPPED] from the port: its reference is
    now held by the callback. *)
Lemma core_deliver_read held acc b io cnt k k' n r :
  core held acc b io cnt k → k_delivers k (read_ptr b) n k' → pend r = 0 →
  (pend (s_read (io_inner io)) = 0 → r = s_read (io_inner io)) →
  n = 0 ∧ core (held + 1) acc b (set_inner (set_read r) io) cnt k'.
Proof.
  intros [Hl Hh He Hr Hp Hw Hk] Hd Hpr Hr0. destruct (kl_delivers _ _ _ _ Hd) as (i & o & Hi & Hn & Ho & Ho' & Hs & Ht & Ht' & _).
  pose proof (Forall_lookup_1 _ _ _ _ Hr Hi) as ->. cbn in Hn. cbn [op_sock op_data] in Ht.
  assert (k_out k' (write_ptr b) = k_out k (write_ptr b)) as How by (apply Ho', not_eq_sym, ptr_ne).
  assert (n_out k' (read_ptr b) = n_out k (read_ptr b) - 1) as Hnr.
  { unfold n_out. rewrite Ho, length_delete by eauto. apply lookup_lt_Some in Hi. lia. }
  assert (n_out k' (write_ptr b) = n_out k (write_ptr b)) as Hnw by (unfold n_out; by rewrite How).
  assert (0 < n_out k (read_ptr b)) as Hpos by (apply lookup_lt_Some in Hi; unfold n_out; lia).
  split; [lia|]. split; cbn; rewrite ?Hnr, ?Hnw; try lia.
  - change (slack _) with (slack (io_inner io)). lia.
  - intros Hcp. specialize (He Hcp). lia.
  - rewrite Ho. apply Forall_forall. intros e Hin%list_elem_of_delete_inv. rewrite Forall_forall in Hr. by apply Hr.
  - change (slack _) with (slack (io_inner io)). unfold pend, slack in *. repeat case_match; lia.
  - unfold write_ok in *. rewrite How. rewrite Ht. rewrite take_nil, app_nil_r. done.
  - by rewrite Hs.
Qed.

(** Taking the completion of a write: so much more has been sent. *)
Lemma core_deliver_write held acc b io cnt k k' n :
  core held acc b io cnt k → k_delivers k (write_ptr b) n k' →
  k_out k' (read_ptr b) = k_out k (read_ptr b) ∧
  ∃ buf pos, s_write (io_inner io) = SPending (buf, pos) ∧ in_range buf pos ∧ in_range buf (pos + n) ∧
    acc = k_sent k' (io_socket io) ++ unsent buf (pos + n) ∧
    core (held + 1) (k_sent k' (io_socket io)) b (set_inner (set_write SEmpty) io) cnt k'.
Proof.
  intros [Hl Hh He Hr Hp Hw Hk] Hd. destruct (kl_delivers _ _ _ _ Hd) as (i & o & Hi & Hn & Ho & Ho' & Hs & Ht & Ht' & _).
  assert (k_out k' (read_ptr b) = k_out k (read_ptr b)) as Hor by (apply Ho', ptr_ne). split; [done|].
  destruct (s_write (io_inner io)) as [|[buf pos]|[]|e] eqn:Ew; cbn in Hw; [destruct Hw as [Hw _]; by rewrite Hw in Hi| |done|destruct Hw as [Hw _]; by rewrite Hw in Hi].
  destruct Hw as (Hwo & Hrange & Hacc). rewrite Hwo in Hi. destruct i as [|i]; [|done]. cbn in Hi. simplify_eq. cbn [op_sock op_data op_room] in *. cbn in Hn.
  assert (k_out k' (write_ptr b) = []) as How by (by rewrite Ho, Hwo).
  pose proof (unsent_length buf pos Hrange) as Hlen. exists buf, pos. split; [done|]. split; [done|].
  split; [unfold in_range in *; lia|]. split.
  { rewrite Ht, <- app_assoc. f_equal. apply unsent_app; unfold in_range in *; lia. }
  assert (n_out k (write_ptr b) = 1) as Hn1 by (unfold n_out; by rewrite Hwo).
  split; cbn; unfold n_out in *; rewrite ?Hor, ?How, ?Hs; cbn [length]; try done; try lia.
  - change (slack _) with (slack (io_inner io)). lia.
  - intros Hcp. specialize (He Hcp). lia.
Qed.

(** ** Scheduling reads *)

Lemma wp_schedule_read held acc b rest io cnt s (Q : unit → Sys → Prop) :
  sock_ok b rest io cnt s → core held acc b io cnt (kernel s) → 0 <= held <= 2 →
  (∀ io' cnt' s', sock_ok b rest io' cnt' s' → core held acc b io' cnt' (kernel s') → same_frame io io' →
    s_write (io_inner io') = s_write (io_inner io) → regs s' !! b = regs s !! b →
    (is_Some (io_readiness io) → read_goes_on io' s') → Q tt s') →
  wp (schedule_read b) Q s.
Proof.
  intros Hs Hc Hheld HQ. pose proof (core_bounds _ _ _ _ _ _ Hc ltac:(lia)) as Hb.
  unfold schedule_read. wp_step. eapply wp_inner; [done|].
  assert (∀ s', sock_ok b rest io cnt s' → kernel s' = kernel s → regs s' !! b = regs s !! b →
    (is_Some (io_readiness io) → cur io s' = Ready.readable |ᵣ cur io s) →
    (s_read (io_inner io) = SEmpty → False) → Q tt s') as Hready.
  { intros s' Hs' Hk Hr Hcur Hne. apply (HQ io cnt s'); [done|by rewrite Hk|done|done|done|].
    intros Hsome. unfold read_goes_on. rewrite Hcur, readable_or by done. by destruct (s_read _); [destruct Hne|..]. }
  destruct (s_read (io_inner io)) as [|[]|u|e] eqn:Er.
  - wp_step. eapply wp_clear_readiness; [done|]. intros s1 Hs1 Hk1 Hr1 Hcur1. wp_step. eapply wp_socket; [done|].
    wp_step. apply wp_kcall. intros res k2 Ek. rewrite Hk1 in Ek.
    destruct (kl_read _ _ _ _ _ Ek) as [Hiss Hsent]. set (s2 := set_kern k2 s1).
    assert (sock_ok b rest io cnt s2) as Hs2 by by apply sock_ok_kern.
    assert (pend (s_read (io_inner io)) = 0) as Hp0 by (by rewrite Er).
    rewrite <- (co_skip _ _ _ _ _ _ Hc) in Hiss.
    (* the read is over: ready, or an error *)
    assert (∀ r set, pend r = 0 → r ≠ SEmpty → posts (instant_notify (io_inner io)) res = false → is_drop set = false →
      Ready.is_readable set = true →
      wp (_ ← write_inner b (set_read r); add_readiness b set) Q s2) as Hover.
    { intros r set Hpr Hne Hpost Hset Hrd. wp_step. eapply wp_write_inner; [done|]. intros s3 Hs3 Hr3 Hw3 Hk3.
      eapply wp_add_readiness; [done|done|]. intros s4 Hs4 Hk4 Hr4 Hcur4.
      eapply (HQ _ cnt s4); [exact Hs4| |done|done|by rewrite Hr4, Hr3|].
      - rewrite Hk4, Hk3. rewrite Hpost in Hiss.
        pose proof (core_issue_read _ _ _ _ _ _ _ false r Hc Hp0 Hiss Hsent Hpr) as Hc'. by rewrite Z.add_0_r in Hc'.
      - intros Hsome. unfold read_goes_on. cbn [s_read io_inner set_inner set_read]. rewrite Hcur4, readable_or, Hrd by done.
        by destruct r. }
    (* the read is in flight *)
    assert (posts (instant_notify (io_inner io)) res = true →
      wp (_ ← write_inner b (set_read (SPending tt)); forget_clone b) Q s2) as Hpending.
    { intros Hpost. wp_step. eapply wp_write_inner; [done|]. intros s3 Hs3 Hr3 Hw3 Hk3.
      eapply wp_forget_clone; [done|unfold U64_MAX; lia|]. intros s4 Hs4 Hr4 Hw4 Hk4.
      eapply (HQ _ (cnt + 1) s4); [exact Hs4| |done|done|by rewrite Hr4, Hr3|done].
      rewrite Hk4, Hk3. rewrite Hpost in Hiss. by apply (core_issue_read _ _ _ _ _ _ _ true (SPending tt) Hc Hp0 Hiss Hsent). }
    destruct res as [o|e].
    + destruct o as [n|]; cbn in Hover, Hpending.
      * rewrite bool_decide_eq_true_2 by eauto. cbn. destruct (instant_notify (io_inner io)); [by apply Hover|by apply Hpending].
      * rewrite bool_decide_eq_false_2 by (by intros []). by apply Hpending.
    + cbn in Hover. case_decide; by apply Hover.
  - apply wp_ret. by apply (HQ io cnt s); unfold read_goes_on; rewrite ?Er.
  - eapply wp_add_readiness; [done|done|]. intros s' Hs' Hk Hr Hcur. by apply Hready.
  - eapply wp_add_readiness; [done|done|]. intros s' Hs' Hk Hr Hcur. by apply Hready.
Qed.

(** ** Scheduling writes *)

(** What scheduling a write leaves alone. *)
Definition write_frame (b : positive) (io io' : Io) (s s' : Sys) : Prop :=
  k_out (kernel s') (read_ptr b) = k_out (kernel s) (read_ptr b) ∧ same_frame io io' ∧ s_read (io_inner io') = s_read (io_inner io) ∧
  Ready.is_readable (cur io' s') = Ready.is_readable (cur io s).

Lemma cur_same_frame io io' s s' : same_frame io io' → world s' = world s → cur io' s' = cur io s.
Proof. intros (_ & _ & Hr & _) Hw. unfold cur. by rewrite Hr, Hw. Qed.

Lemma cur_unregistered io s : ¬ is_Some (io_readiness io) → cur io s = Ready.none.
Proof. intros Hn. unfold cur. destruct (io_readiness io); [|done]. by destruct Hn. Qed.

(** Making a socket writable does not change whether it is readable. *)
Lemma readable_after_writable io s s' set :
  Ready.is_readable set = false → (is_Some (io_readiness io) → cur io s' = set |ᵣ cur io s) →
  Ready.is_readable (cur io s') = Ready.is_readable (cur io s).
Proof.
  intros Hset Hcur. destruct (decide (is_Some (io_readiness io))) as [Hs|Hn].
  - by rewrite Hcur, readable_or, Hset.
  - by rewrite !cur_unregistered.
Qed.

Lemma write_frame_trans b io io1 io2 s s1 s2 : write_frame b io io1 s s1 → write_frame b io1 io2 s1 s2 → write_frame b io io2 s s2.
Proof.
  intros (? & (? & ? & ? & ? & ?) & ? & ?) (? & (? & ? & ? & ? & ?) & ? & ?).
  split; [|split; [repeat split|split]]; congruence.
Qed.

Lemma wp_write_loop held b rest buf fuel : ∀ acc io cnt s pos (Q : unit → Sys → Prop),
  sock_ok b rest io cnt s → core held acc b io cnt (kernel s) → s_write (io_inner io) = SEmpty → 0 <= held <= 2 →
  in_range buf pos → (length (b_bytes buf) - Z.to_nat pos < fuel)%nat →
  (∀ io' cnt' s', sock_ok b rest io' cnt' s' → core held (acc ++ unsent buf pos) b io' cnt' (kernel s') →
    write_frame b io io' s s' → regs s' !! b = regs s !! b → Q tt s') →
  wp (write_loop fuel b buf pos) Q s.
Proof.
  induction fuel as [|fuel IH]; intros acc io cnt s pos Q Hs Hc Hw Hheld Hrange Hfuel HQ; [lia|].
  pose proof (core_bounds _ _ _ _ _ _ Hc ltac:(lia)) as Hb. pose proof (unsent_length _ _ Hrange) as Hlen.
  cbn [write_loop]. wp_step. eapply wp_lift; [unfold slice_from; by replace (pos <=? _) with true by (unfold in_range in *; lia)|].
  fold (unsent buf pos). wp_step. eapply wp_socket; [done|]. wp_step. apply wp_kcall. intros res k1 Ek.
  destruct (kl_write _ _ _ _ _ _ Ek) as (Hiss & Hoth & Hkeep & Hnow). rewrite <- (co_skip _ _ _ _ _ _ Hc) in Hiss, Hkeep, Hnow.
  assert (sock_ok b rest io cnt (set_kern k1 s)) as Hs1 by by apply sock_ok_kern.
  wp_step. eapply wp_inner; [exact Hs1|].
  pose proof (co_write _ _ _ _ _ _ Hc) as Hwk. rewrite Hw in Hwk. cbn in Hwk. destruct Hwk as [Hwo Hacc].
  assert (∀ o o', issued (kernel s) k1 (write_ptr b) false o → issued (kernel s) k1 (write_ptr b) false o') as Hnil by done.
  assert (k_out k1 (read_ptr b) = k_out (kernel s) (read_ptr b)) as Hor by (destruct Hiss as (_ & Ho' & _); apply Ho', ptr_ne).
  assert (posts (instant_notify (io_inner io)) res = true →
    wp (_ ← write_inner b (set_write (SPending (buf, pos))); forget_clone b) Q (set_kern k1 s)) as Hpending.
  { intros Hpost. wp_step. eapply wp_write_inner; [done|]. intros s2 Hs2 Hr2 Hw2 Hk2.
    eapply wp_forget_clone; [done|unfold U64_MAX; lia|]. intros s3 Hs3 Hr3 Hw3 Hk3.
    eapply (HQ _ (cnt + 1) s3); [exact Hs3| | |by rewrite Hr3, Hr2].
    - rewrite Hk3, Hk2. rewrite Hpost in Hiss, Hkeep. apply (core_issue_write _ _ _ _ _ _ _ _ _ Hc Hw Hrange Hiss).
      intros x. destruct (decide (x = io_socket io)) as [->|Hne]; [apply Hkeep; by left|by apply Hoth].
    - split; [by rewrite Hk3, Hk2|]. split; [done|]. split; [done|]. f_equal. apply cur_same_frame; [done|]. by rewrite Hw3, Hw2. }
  destruct res as [[n|]|e]; cbn [posts is_ok] in *.
  - destruct (Hnow n eq_refl) as (Hn & Hpos & Hsent). destruct (instant_notify (io_inner io)) eqn:Ei; [|by apply Hpending].
    specialize (Hsent eq_refl). cbn [negb] in Hiss.
    destruct (n =? Z.of_nat (length (b_bytes buf)) - pos) eqn:En; zbool.
    + wp_step. eapply wp_add_readiness; [exact Hs1|done|]. intros s2 Hs2 Hk2 Hr2 Hcur2.
      eapply wp_write_inner; [done|]. intros s3 Hs3 Hr3 Hw3 Hk3.
      eapply (HQ _ cnt s3); [exact Hs3| | |by rewrite Hr3, Hr2].
      * rewrite Hk3, Hk2. apply (core_end_write _ acc _ _ _ _ _ _ _ Hc Hw (Hnil _ _ Hiss)). cbn.
        destruct Hiss as (Ho & _ & _). rewrite Ho, Hwo, Hsent, Hacc. split; [done|]. by rewrite take_ge by lia.
      * split; [by rewrite Hk3, Hk2|]. split; [done|]. split; [done|]. rewrite (cur_same_frame io _ s2) by done.
        by rewrite (readable_after_writable io (set_kern k1 s) s2 Ready.writable).
    + assert (unsent buf pos ≠ []) as Hne.
      { intros E0. rewrite E0 in Hlen, Hn. cbn in Hlen, Hn. lia. }
      specialize (Hpos Hne). eapply (IH (acc ++ take (Z.to_nat n) (unsent buf pos)) io cnt); [exact Hs1| |done|done| | |].
      * assert (set_inner (set_write SEmpty) io = io) as <- by (destruct io as [? ? ? []]; cbn in *; by subst).
        apply (core_end_write _ acc _ _ _ _ _ _ _ Hc Hw (Hnil _ _ Hiss)). cbn.
        destruct Hiss as (Ho & _ & _). rewrite Ho, Hwo, Hsent, Hacc. done.
      * unfold in_range in *. lia.
      * unfold in_range in *. lia.
      * intros io' cnt' s' Hs' Hc' Hf' Hr'. apply (HQ io' cnt' s'); [done| |by destruct Hf' as [Hrd' Hf']; split; [rewrite Hrd'|]|done].
        rewrite <- app_assoc, <- unsent_app in Hc' by (unfold in_range in *; lia). done.
  - by apply Hpending.
  - wp_step. eapply wp_write_inner; [exact Hs1|]. intros s2 Hs2 Hr2 Hw2 Hk2. wp_step.
    eapply wp_add_readiness; [done|done|]. intros s3 Hs3 Hk3 Hr3 Hcur3. eapply wp_put_buffer; [done|].
    intros s4 Hs4 Hk4 Hr4 Hcur4. eapply (HQ _ cnt s4); [exact Hs4| | |by rewrite Hr4, Hr3, Hr2].
    + rewrite Hk4, Hk3, Hk2. apply (core_end_write _ acc _ _ _ _ _ _ _ Hc Hw (Hnil _ _ Hiss)). cbn.
      destruct Hiss as (Ho & _ & _). rewrite Ho, Hwo, Hkeep, Hacc by (by right). split; [done|]. by eexists.
    + split; [by rewrite Hk4, Hk3, Hk2|]. split; [done|]. split; [done|]. rewrite Hcur4, (readable_after_writable _ s2 s3 Ready.writable) by done.
      f_equal. apply cur_same_frame; [done|]. by rewrite Hw2.
Qed.

Lemma wp_schedule_write held acc b rest io cnt s buf pos (Q : unit → Sys → Prop) :
  sock_ok b rest io cnt s → core held acc b io cnt (kernel s) → s_write (io_inner io) = SEmpty → 0 <= held <= 2 →
  in_range buf pos →
  (∀ io' cnt' s', sock_ok b rest io' cnt' s' → core held (acc ++ unsent buf pos) b io' cnt' (kernel s') →
    write_frame b io io' s s' → regs s' !! b = regs s !! b → Q tt s') →
  wp (schedule_write b buf pos) Q s.
Proof.
  intros Hs Hc Hw Hheld Hrange HQ. unfold schedule_write. wp_step. eapply wp_clear_readiness; [done|].
  intros s1 Hs1 Hk1 Hr1 Hcur1. eapply wp_write_loop; [exact Hs1|by rewrite Hk1|done|done|done|lia|].
  intros io' cnt' s' Hs' Hc' Hf Hr. apply (HQ io' cnt' s'); [done|done| |by rewrite Hr].
  eapply write_frame_trans; [|exact Hf]. split; [by rewrite Hk1|]. split; [done|]. split; [done|].
  destruct (decide (is_Some (io_readiness io))) as [Hsome|Hn].
  - by rewrite Hcur1, readable_clear_writable.
  - by rewrite !cur_unregistered.
Qed.
End stream.
