(* ===== verification/WinTcpThm.v ===== *)
(** * Theorems about TCP streams on Windows

    A program over one stream: its owner calls the operations of [TcpStream], the
    kernel delivers completions, which run the callbacks, and everything else
    (other sockets, other threads, polls) may change the rest of the state at any
    time in between. *)

From S2P Require Import Prelude Event Convert Iface Windows WindowsThm WinSock WinSockInv WinTcp WinTcpInv.

Section stream.
Context {C : Type → Type} {cell_ops : LazyCellOps C} {cell_laws : LazyCellLaws C}.
Context {W R H P : Type} {rd_ops : ReadinessOps W H} {reg_ops : RegistrationOps W R H P} {drop_ops : HandleDropOps W R H}.
Context {rd_spec : ReadinessSpec W H} {h_spec : HandleSpec W R H} {h_laws : HandleLaws W R H P}.
Context {K : Type} {iocp_ops : IocpOps K} {win : WinSys K} {spec : WinSpec K} {laws : WinLaws K}.
Context {stream : StreamSys K} {stream_laws : StreamLaws K}.
Context {layout : TcpLayout} {layout_ok : TcpLayoutOk} {reserve : VecReserve}.
Abbreviation Io := (Io C H StreamInner).
Abbreviation Sys := (WSys C W R H K StreamInner).
Implicit Types s : Sys.
Implicit Types io : Io.

(** ** Programs *)

Inductive SOp : Type :=
  | ORegister (poll : Z) (p : P) (token : Token) (interest : Ready.t) (opts : PollOpt.t)
  | OReregister (poll : Z) (p : P) (token : Token) (interest : Ready.t) (opts : PollOpt.t)
  | ODeregister (poll : Z) (p : P)
  | OReadv (bufs : list Z)
  | OWritev (bufs : list (list Z))
  | ODrop.

(** [pg_own]: the [TcpStream] is alive; [pg_want]: it is registered with readable
    interest; [pg_acc]: the bytes accepted by its writes. *)
Record Prog : Type := mkProg { pg_sys : Sys; pg_own : bool; pg_want : bool; pg_acc : list Z }.

Definition wants (interest : Ready.t) (r : io_result unit) : bool := is_ok r && Ready.is_readable interest.
Definition accepted (bufs : list (list Z)) (r : io_result Z) : list Z := if is_ok r then concat bufs else [].

Definition run_sop (b : positive) (op : SOp) (c : Prog) : outcome Prog :=
  let s := pg_sys c in
  match op with
  | ORegister poll p token interest opts =>
      '(r, s) ← TcpStream_register b poll p token interest opts s;
      Done (mkProg s (pg_own c) (wants interest r) (pg_acc c))
  | OReregister poll p token interest opts =>
      '(r, s) ← TcpStream_reregister b poll p token interest opts s;
      Done (mkProg s (pg_own c) (wants interest r) (pg_acc c))
  | ODeregister poll p => '(_, s) ← TcpStream_deregister b poll p s; Done (mkProg s (pg_own c) false (pg_acc c))
  | OReadv bufs => '(_, s) ← readv b bufs s; Done (mkProg s (pg_own c) (pg_want c) (pg_acc c))
  | OWritev bufs =>
      '(r, s) ← writev b bufs s; Done (mkProg s (pg_own c) (pg_want c) (pg_acc c ++ accepted bufs r))
  | ODrop => '(_, s) ← TcpStream_drop b s; Done (mkProg s false false (pg_acc c))
  end.

Inductive SEv : Type :=
  | EvOp (op : SOp)
  | EvComplete (p : Ptr) (n : Z) (token : Z) (k' : K)
  | EvOther (s' : Sys).

Definition run_sev (b : positive) (e : SEv) (c : Prog) : outcome Prog :=
  match e with
  | EvOp op => run_sop b op c
  | EvComplete p n token k' =>
      '(_, s) ← stream_callback p (mkStatus (Some p) token n) (set_kern k' (pg_sys c));
      Done (mkProg s (pg_own c) (pg_want c) (pg_acc c))
  | EvOther s' => Done (mkProg s' (pg_own c) (pg_want c) (pg_acc c))
  end.

(** Registering needs a selector with a pool; [reregister] and [deregister] are
    for streams a registration of which succeeded (or for another selector), while no
    poll sleeps. *)
Definition sop_ok (b : positive) (op : SOp) (s : Sys) : Prop :=
  match op with
  | ORegister poll _ _ _ _ => has_pool s poll
  | OReregister poll _ _ _ _ | ODeregister poll _ =>
      rd_awake (world s) ∧ ∀ i, arcs s !! b = Some i → lazy_borrow (io_selector (ai_data i)) = Some poll → is_Some (regs s !! b)
  | _ => True
  end.

Definition enabled (b : positive) (e : SEv) (c : Prog) : Prop :=
  match e with
  | EvOp op => pg_own c = true ∧ sop_ok b op (pg_sys c)
  | EvComplete p n _ k' => (p = read_ptr b ∨ p = write_ptr b) ∧ k_delivers (kernel (pg_sys c)) p n k'
  | EvOther s' => others_ok b (pg_sys c) s'
  end.

Inductive reach (b : positive) : Prog → Prop :=
  | reach_new sock deferred s s' rest :
      rd_own (world s) rest → regs s !! b = None → (∀ off, k_out (kernel s) (mkPtr b off) = []) →
      k_skip (kernel s) sock = false → k_sent (kernel s) sock = [] →
      TcpStream_new sock deferred s = Done (b, s') → reach b (mkProg s' true false [])
  | reach_step c e c' : reach b c → enabled b e c → run_sev b e c = Done c' → reach b c'.

(** ** The invariant *)

(** Reading goes on, or the connect under way will see to it. *)
Definition reads_or_connects (b : positive) (io : Io) (s : Sys) : Prop :=
  read_goes_on io s ∨ (connect_pends → k_out (kernel s) (read_ptr b) ≠ []).

Record live_ok (b : positive) (own want : bool) (acc : list Z) (rest : list (R + H)) (io : Io) (cnt : Z) (s : Sys) : Prop := {
  lo_sock : sock_ok b rest io cnt s;
  lo_core : core (Z.b2z own) acc b io cnt (kernel s);
  lo_pos : 0 < cnt;
  lo_reg : own = false → regs s !! b = None;
  lo_want : want = true → own = true ∧ is_Some (io_readiness io) ∧ reads_or_connects b io s }.

Record gone_ok (b : positive) (own want : bool) (s : Sys) : Prop := {
  go_box : arcs s !! b = None;
  go_own : own = false;
  go_want : want = false;
  go_out : k_out (kernel s) (read_ptr b) = [] ∧ k_out (kernel s) (write_ptr b) = [] }.

Definition stream_inv (b : positive) (c : Prog) : Prop :=
  (∃ rest io cnt, live_ok b (pg_own c) (pg_want c) (pg_acc c) rest io cnt (pg_sys c)) ∨
  gone_ok b (pg_own c) (pg_want c) (pg_sys c).

Lemma b2z_bounds x : 0 <= Z.b2z x <= 1.
Proof. destruct x; cbn; lia. Qed.

(** After code that keeps the holders of the box. *)
Lemma live_intro b own want acc rest io cnt s :
  sock_ok b rest io cnt s → core (Z.b2z own) acc b io cnt (kernel s) → own = true →
  (want = true → is_Some (io_readiness io) ∧ reads_or_connects b io s) → live_ok b own want acc rest io cnt s.
Proof.
  intros Hs Hc -> Hw. split; [done|done| |done|naive_solver].
  pose proof (core_bounds _ _ _ _ _ _ Hc). cbn in *. lia.
Qed.

Lemma goes_on_frame b io io' s s' :
  s_read (io_inner io') = s_read (io_inner io) → Ready.is_readable (cur io' s') = Ready.is_readable (cur io s) →
  k_out (kernel s') (read_ptr b) = k_out (kernel s) (read_ptr b) → reads_or_connects b io s → reads_or_connects b io' s'.
Proof. unfold reads_or_connects, read_goes_on. intros -> -> ->. done. Qed.

(** ** Operations of the owner *)

Lemma wp_post_register acc b rest io cnt s interest (Q : unit → Sys → Prop) :
  sock_ok b rest io cnt s → core 1 acc b io cnt (kernel s) →
  (∀ io' cnt' s', sock_ok b rest io' cnt' s' → core 1 acc b io' cnt' (kernel s') → same_frame io io' →
    regs s' !! b = regs s !! b →
    (is_Some (io_readiness io) → Ready.is_readable interest = true → read_goes_on io' s') → Q tt s') →
  wp (post_register b interest) Q s.
Proof.
  intros Hs Hc HQ. unfold post_register. wp_step.
  set (mid := λ (_ : unit) s1, ∃ io1 cnt1, sock_ok b rest io1 cnt1 s1 ∧ core 1 acc b io1 cnt1 (kernel s1) ∧ same_frame io io1 ∧
    regs s1 !! b = regs s !! b ∧ (is_Some (io_readiness io) → Ready.is_readable interest = true → read_goes_on io1 s1)).
  apply (wp_mono _ mid).
  - destruct (Ready.is_readable interest) eqn:Ei.
    + eapply (wp_schedule_read 1); [done|done|lia|]. unfold mid. intros io1 cnt1 s1 ? ? ? _ ? Hg. exists io1, cnt1.
      split; [done|]. split; [done|]. split; [done|]. split; [done|]. intros Hr _. by apply Hg.
    + apply wp_ret. exists io, cnt. done.
  - intros [] s1 (io1 & cnt1 & Hs1 & Hc1 & Hf1 & Hr1 & Hg1). wp_step. eapply wp_inner; [done|].
    assert (∀ s', sock_ok b rest io1 cnt1 s' → kernel s' = kernel s1 → regs s' !! b = regs s1 !! b →
      Ready.is_readable (cur io1 s') = Ready.is_readable (cur io1 s1) → Q tt s') as HQ1.
    { intros s' Hs' Hk Hr Hcur. apply (HQ io1 cnt1 s'); [done|by rewrite Hk|done|by rewrite Hr|].
      intros Hsome Hi. specialize (Hg1 Hsome Hi). unfold read_goes_on in *. by rewrite Hcur. }
    destruct (Ready.is_writable interest); [|apply wp_ret; by apply HQ1].
    destruct (s_write (io_inner io1)); try (apply wp_ret; by apply HQ1).
    eapply wp_add_readiness; [done|done|]. intros s' Hs' Hk Hr Hcur. apply HQ1; [done..|].
    by apply (readable_after_writable io1 s1 s' Ready.writable).
Qed.

(** The state after an operation of a living owner. *)
Definition op_post (b : positive) (acc : list Z) (rest : list (R + H)) (want : bool) (s' : Sys) : Prop :=
  ∃ io' cnt', live_ok b true want acc rest io' cnt' s'.

Lemma op_post_intro b acc rest want io cnt s :
  sock_ok b rest io cnt s → core 1 acc b io cnt (kernel s) →
  (want = true → is_Some (io_readiness io) ∧ reads_or_connects b io s) → op_post b acc rest want s.
Proof. intros. exists io, cnt. by apply live_intro. Qed.

(** The deferred connect is started. *)
Lemma wp_schedule_connect b acc rest io cnt s addr interest :
  sock_ok b rest io cnt s → core 1 acc b io cnt (kernel s) → deferred_connect (io_inner io) = Some addr → is_Some (io_readiness io) →
  wp (_ ← write_inner b (set_deferred None); schedule_connect b addr) (λ r s', op_post b acc rest (wants interest r) s') s.
Proof.
  intros Hs Hc Ed Hrd. wp_step. eapply wp_write_inner; [done|]. intros s1 Hs1 Hr1 Hw1 Hk1. unfold schedule_connect. wp_step.
  eapply wp_socket; [done|]. wp_step. apply wp_kcall. intros res k2 Ek. rewrite Hk1 in Ek.
  destruct (kl_connect _ _ _ _ _ _ Ek) as [Hiss Hsent]. pose proof (core_bounds _ _ _ _ _ _ Hc ltac:(lia)) as Hb.
  pose proof (sock_ok_kern _ _ _ _ _ k2 Hs1) as Hs2.
  pose proof (λ d, core_issue_connect _ _ _ _ _ _ _ addr _ d Hc Ed Hiss Hsent) as Hc2.
  destruct res as [o|e].
  - wp_step. eapply wp_forget_clone; [done|unfold U64_MAX; lia|]. intros s3 Hs3 Hr3 Hw3 Hk3. wp_step.
    assert (connect_pends → o = None) as Hpend by (intros Hcp; destruct o as [n|]; [by apply Hcp in Ek|done]).
    eapply op_post_intro; [exact Hs3| |].
    + rewrite Hk3. apply Hc2; [destruct (posts _ _); cbn; lia|]. intros Hcp. by rewrite (Hpend Hcp).
    + intros _. split; [done|]. right. intros Hcp. rewrite Hk3. destruct Hiss as (Ho & _). cbn [kernel set_kern].
      rewrite Ho, (Hpend Hcp). intros E0. by apply app_eq_nil in E0 as [_ ?].
  - apply wp_ret. eapply op_post_intro; [exact Hs2| |done]. rewrite <- (Z.add_0_r cnt). by apply Hc2.
Qed.

Lemma wp_op_register b own want acc rest io cnt s poll (p : P) token interest opts :
  live_ok b own want acc rest io cnt s → own = true → has_pool s poll →
  wp (TcpStream_register b poll p token interest opts) (λ r s', op_post b acc rest (wants interest r) s') s.
Proof.
  intros [Hs Hc _ _ _] -> Hpool. unfold TcpStream_register. wp_step. eapply wp_socket; [done|]. wp_step.
  eapply wp_register; [done|done|]. intros res io1 s1 Hs1 Hin1 Hso1 Hk1 Hres.
  assert (core 1 acc b io1 cnt (kernel s1)) as Hc1 by (apply (core_readiness _ _ _ io); [done..|]; by apply (core_same _ _ _ _ _ (kernel s))).
  destruct res as [[]|e]; [|by apply wp_ret, (op_post_intro _ _ _ _ io1 cnt)].
  destruct Hres as [Hrd _]. wp_step. eapply wp_no_notify; [done|]. intros res s2 Hs2 Hr2 Hw2 Ho2 Ht2 Hsk2 _.
  assert (∀ x, k_skip (kernel s2) (io_socket io1) = x → core 1 acc b (set_inner (set_instant x) io1) cnt (kernel s2)) as Hc2.
  { intros x Hx. destruct Hc1 as [? ? ? ? ? Hw ?]. split; cbn; unfold n_out in *; rewrite ?Ho2; try done.
    unfold write_ok in *. cbn. by rewrite Ho2, Ht2. }
  rewrite <- Hso1 in Hsk2. destruct res as [[]|e].
  - cbn [is_ok orb] in Hsk2. wp_step. eapply wp_write_inner; [done|]. intros s3 Hs3 Hr3 Hw3 Hk3.
    specialize (Hc2 true Hsk2). rewrite <- Hk3 in Hc2. wp_step. eapply wp_inner; [done|]. cbn [deferred_connect io_inner set_inner set_instant].
    destruct (deferred_connect (io_inner io1)) as [addr|] eqn:Ed.
    + by eapply wp_schedule_connect.
    + wp_step. eapply wp_post_register; [exact Hs3|exact Hc2|]. intros io4 cnt4 s4 Hs4 Hc4 Hf4 Hr4 Hg4. wp_step.
      eapply op_post_intro; [done|done|]. intros Hwant. destruct Hf4 as (_ & _ & Hrd4 & _). rewrite Hrd4. split; [done|]. left. by apply Hg4.
  - wp_step. rewrite orb_false_l in Hsk2. eapply (op_post_intro _ _ _ _ io1 cnt); [done| |done].
    assert (set_inner (set_instant (instant_notify (io_inner io1))) io1 = io1) as <- by (by destruct io1 as [? ? ? []]).
    apply Hc2. rewrite Hsk2. symmetry. apply (co_skip _ _ _ _ _ _ Hc1).
Qed.

Lemma wp_op_reregister b own want acc rest io cnt s poll (p : P) token interest opts :
  live_ok b own want acc rest io cnt s → own = true →
  rd_awake (world s) → (lazy_borrow (io_selector io) = Some poll → is_Some (regs s !! b)) →
  wp (TcpStream_reregister b poll p token interest opts) (λ r s', op_post b acc rest (wants interest r) s') s.
Proof.
  intros [Hs Hc _ _ _] -> Haw Hreg. unfold TcpStream_reregister. wp_step. eapply wp_reregister; [done|done|done|].
  intros res s1 Hs1 Hk1 Hr1 Hcur1 Hok. rewrite <- Hk1 in Hc. destruct res as [[]|e]; [|by apply wp_ret, (op_post_intro _ _ _ _ io cnt)].
  wp_step. eapply wp_post_register; [done|exact Hc|]. intros io2 cnt2 s2 Hs2 Hc2 Hf2 Hr2 Hg2. wp_step.
  eapply op_post_intro; [done|done|]. intros Hw. destruct Hf2 as (_ & _ & -> & _).
  pose proof (sk_reg _ _ _ _ _ Hs (Hok eq_refl)) as Hsome. split; [done|]. left. by apply Hg2.
Qed.

Lemma wp_op_deregister b own want acc rest io cnt s poll (p : P) :
  live_ok b own want acc rest io cnt s → own = true →
  rd_awake (world s) → (lazy_borrow (io_selector io) = Some poll → is_Some (regs s !! b)) →
  wp (TcpStream_deregister b poll p) (λ _ s', op_post b acc rest false s') s.
Proof.
  intros [Hs Hc _ _ _] -> Haw Hreg. unfold TcpStream_deregister. eapply wp_deregister; [done|done|done|].
  intros res s1 Hs1 Hk1 Hr1 Hcur1 _. rewrite <- Hk1 in Hc. by apply (op_post_intro _ _ _ _ io cnt).
Qed.

(** Restarting a read that is over. *)
Lemma wp_restart_read {A} (m : M Sys A) acc b rest io cnt s (Q : A → Sys → Prop) :
  sock_ok b rest io cnt s → core 1 acc b io cnt (kernel s) → pend (s_read (io_inner io)) = 0 →
  (∀ io' cnt' s', sock_ok b rest io' cnt' s' → core 1 acc b io' cnt' (kernel s') → same_frame io io' →
    (is_Some (io_readiness io) → read_goes_on io' s') → wp m Q s') →
  wp (_ ← write_inner b (set_read SEmpty); _ ← schedule_read b; m) Q s.
Proof.
  intros Hs Hc Hp HQ. wp_step. eapply wp_write_inner; [done|]. intros s1 Hs1 Hr1 Hw1 Hk1. wp_step.
  eapply (wp_schedule_read 1); [exact Hs1|rewrite Hk1; by apply core_set_read|lia|].
  intros io' cnt' s' Hs' Hc' Hf' _ _ Hg'. by apply (HQ io' cnt' s').
Qed.

(** The state [readv] leaves when it does not restart the read. *)
Lemma wp_readv_loop b want acc rest bufs : ∀ got io cnt s,
  live_ok b true want acc rest io cnt s → s_read (io_inner io) = SReady tt →
  wp (readv_loop b bufs got) (λ _ s', op_post b acc rest want s') s.
Proof.
  induction bufs as [|len bufs IH]; intros got io cnt s Hl Hr; cbn [readv_loop].
  - apply wp_ret. by exists io, cnt.
  - destruct Hl as [Hs Hc Hpos Hreg Hw]. wp_step. eapply wp_socket; [done|]. wp_step. apply wp_kcall. intros res k1 Ek.
    pose proof (kl_recv (io_socket io) len (kernel s)) as Hk. rewrite Ek in Hk. cbn in Hk.
    pose proof (sock_ok_kern _ _ _ _ _ k1 Hs) as Hs1. pose proof (core_same _ _ _ _ _ _ _ Hk Hc) as Hc1.
    assert (live_ok b true want acc rest io cnt (set_kern k1 s)) as Hl1.
    { apply live_intro; [done|done|done|]. intros Hwant. destruct (Hw Hwant) as (_ & Hsome & Hrc). split; [done|].
      apply (goes_on_frame b io io s); [done|done| |done]. by destruct Hk as [-> _]. }
    assert (∀ A (a : A), wp (_ ← write_inner b (set_read SEmpty); _ ← schedule_read b; mret a)
      (λ _ s', op_post b acc rest want s') (set_kern k1 s)) as Hrestart.
    { intros A a. eapply wp_restart_read; [done|done|by rewrite Hr|]. intros io' cnt' s' Hs' Hc' Hf' Hg'. wp_step.
      eapply op_post_intro; [done|done|]. intros Hwant. destruct (Hw Hwant) as (_ & Hsome & _).
      destruct Hf' as (_ & _ & -> & _). split; [done|]. left. by apply Hg'. }
    destruct res as [data|e].
    + destruct (_ <? len); [apply wp_ret; by exists io, cnt|by eapply IH].
    + destruct (_ && _); [apply Hrestart|]. destruct (0 <? _); [|apply Hrestart].
      wp_step. eapply wp_write_inner; [done|]. intros s2 Hs2 Hr2 Hw2 Hk2. wp_step.
      eapply op_post_intro; [exact Hs2|rewrite Hk2; apply core_set_read; [done|by rewrite Hr]|].
      intros Hwant. destruct (Hw Hwant) as (_ & Hsome & Hrc). split; [done|]. unfold reads_or_connects, read_goes_on in *.
      rewrite Hr in Hrc. cbn [s_read io_inner set_inner set_read]. rewrite (cur_same_frame io _ s) by (by rewrite ?Hw2).
      rewrite Hk2. destruct Hk as [Ho _]. by rewrite Ho.
Qed.

Lemma wp_op_readv b own want acc rest io cnt s bufs :
  live_ok b own want acc rest io cnt s → own = true → wp (readv b bufs) (λ _ s', op_post b acc rest want s') s.
Proof.
  intros Hl ->. pose proof Hl as [Hs Hc Hpos Hreg Hw]. unfold readv. wp_step. eapply wp_inner; [done|].
  destruct (s_read (io_inner io)) as [|[]|[]|e] eqn:Er; [apply wp_ret; by exists io, cnt..|by eapply wp_readv_loop|].
  eapply wp_restart_read; [done|done|by rewrite Er|]. intros io' cnt' s' Hs' Hc' Hf' Hg'. wp_step.
  eapply op_post_intro; [done|done|]. intros Hwant. destruct (Hw Hwant) as (_ & Hsome & _).
  destruct Hf' as (_ & _ & -> & _). split; [done|]. left. by apply Hg'.
Qed.

Lemma extend_bytes buf bufs : b_bytes (foldl extend_from_slice buf bufs) = b_bytes buf ++ concat bufs.
Proof.
  revert buf. induction bufs as [|x bufs IH]; intros buf; cbn [foldl concat]; [by rewrite app_nil_r|].
  rewrite IH. cbn. by rewrite app_assoc.
Qed.

Lemma wp_op_writev b own want acc rest io cnt s bufs :
  live_ok b own want acc rest io cnt s → own = true →
  wp (writev b bufs) (λ r s', op_post b (acc ++ accepted bufs r) rest want s') s.
Proof.
  intros Hl ->. pose proof Hl as [Hs Hc Hpos Hreg Hw]. unfold writev. wp_step. eapply wp_inner; [done|].
  assert (∀ s', sock_ok b rest io cnt s' → kernel s' = kernel s → cur io s' = cur io s → op_post b (acc ++ []) rest want s') as Hsame.
  { intros s' Hs' Hk Hcur. rewrite app_nil_r. eapply op_post_intro; [done|by rewrite Hk|]. intros Hwant.
    destruct (Hw Hwant) as (_ & Hsome & Hrc). split; [done|]. apply (goes_on_frame b io io s); [done|by rewrite Hcur|by rewrite Hk|done]. }
  destruct (s_write (io_inner io)) as [| | |] eqn:Ew; try by (apply wp_ret, Hsame).
  wp_step. eapply wp_registered; [done|]. intros s1 Hs1 Hk1 Hr1 Hcur1.
  destruct (bool_decide (is_Some (io_readiness io))); cbn [negb]; [|by apply wp_ret, Hsame].
  destruct (bool_decide (bufs = [])) eqn:Eb.
  { apply bool_decide_eq_true in Eb as ->. by apply wp_ret, Hsame. }
  wp_step. eapply wp_get_buffer; [exact Hs1|]. intros buf s2 Hs2 Hb2 Hk2 Hr2 Hcur2. wp_step.
  set (full := foldl extend_from_slice buf bufs).
  assert (unsent full 0 = concat bufs) as Hun by (unfold unsent, full; rewrite extend_bytes, Hb2; by rewrite drop_0).
  rewrite <- Hk1, <- Hk2 in Hc. eapply (wp_schedule_write 1); [exact Hs2|exact Hc|done|lia|unfold in_range; lia|].
  intros io3 cnt3 s3 Hs3 Hc3 Hf3 Hr3. rewrite Hun in Hc3. wp_step. destruct Hf3 as (Hor3 & (_ & _ & Hrd3 & _) & Hsr3 & Hcur3).
  eapply op_post_intro; [done|exact Hc3|]. intros Hwant. destruct (Hw Hwant) as (_ & Hsome & Hrc). rewrite Hrd3. split; [done|].
  destruct Hrc as [Hg|Hcon]; [left|right].
  - unfold read_goes_on in *. by rewrite Hsr3, Hcur3, Hcur2, Hcur1.
  - intros Hcp. rewrite Hor3, Hk2, Hk1. by apply Hcon.
Qed.

(** ** Giving up a reference *)

Lemma wp_release b own acc rest io cnt s (Q : unit → Sys → Prop) :
  sock_ok b rest io cnt s → core (Z.b2z own + 1) acc b io cnt (kernel s) →
  (∀ s', sock_ok b rest io (cnt - 1) s' → core (Z.b2z own) acc b io (cnt - 1) (kernel s') → 0 < cnt - 1 →
    regs s' = regs s → world s' = world s → kernel s' = kernel s → Q tt s') →
  (∀ s', arcs s' !! b = None → own = false → k_out (kernel s') (read_ptr b) = [] → k_out (kernel s') (write_ptr b) = [] →
    regs s' = regs s → rd_own (world s') (option_list (inl <$> regs s !! b) ++ rest) → Q tt s') →
  wp (stream_arc_drop b) Q s.
Proof.
  intros Hs Hc Hshared Hlast. pose proof (core_bounds _ _ _ _ _ _ Hc) as Hb. pose proof (b2z_bounds own).
  destruct (decide (cnt = 1)) as [->|Hne].
  - eapply wp_arc_drop_last; [done|]. intros s' Ha Hr Hp Ho Hk. apply wp_ret. destruct Hc as [Hl _ _ _ _ _ _]. unfold n_out in Hl.
    assert (∀ p, k_out (k_close (io_socket io) (kernel s')) p = k_out (kernel s) p) as Hout by (intros p; rewrite Hk; apply kl_close).
    apply Hlast; [done|destruct own; cbn in *; [lia|done]| | |done|done];
      cbn [kernel set_kern]; rewrite Hout; apply nil_length_inv; lia.
  - eapply wp_arc_drop_shared; [done|unfold U64_MAX; lia|]. intros s' Hs' Hr Hw Hk.
    apply Hshared; [done|rewrite Hk; by apply core_release|lia|done..].
Qed.

(** The state after an event that may free the box. *)
Definition ev_post (b : positive) (own want : bool) (acc : list Z) (s' : Sys) : Prop :=
  (∃ rest io cnt, live_ok b own want acc rest io cnt s') ∨ gone_ok b own want s'.

Lemma wp_op_drop b own want acc rest io cnt s :
  live_ok b own want acc rest io cnt s → own = true → wp (TcpStream_drop b) (λ _ s', ev_post b false false acc s') s.
Proof.
  intros [Hs Hc _ _ _] ->. unfold TcpStream_drop. wp_step. eapply wp_inner; [done|]. wp_step.
  assert (∀ s1, sock_ok b rest io cnt s1 → k_same (kernel s) (kernel s1) →
    wp (_ ← stream_arc_drop b; drop_registration b) (λ _ s', ev_post b false false acc s') s1) as Hdrop.
  { intros s1 Hs1 Hk1. pose proof (core_same _ _ _ _ _ _ _ Hk1 Hc) as Hc1. wp_step.
    eapply (wp_release b false); [done|exact Hc1| |].
    - intros s2 Hs2 Hc2 Hpos Hr2 Hw2 Hk2. destruct Hs2 as [Hb2 Ho2 Hp2 Hg2]. unfold sock_handles in Ho2. rewrite <- app_assoc in Ho2.
      eapply wp_drop_registration; [exact Ho2|]. intros s3 Ha3 Hr3 Hp3 Hk3 Ho3 _. left. exists rest, io, (cnt - 1).
      split; [split|by rewrite Hk3|done|done|done].
      + by rewrite Ha3.
      + by rewrite Hr3.
      + intros i Hi. destruct (Hp2 i Hi) as (p & Hp & Hok). exists p. by rewrite Hp3.
      + rewrite Hr3. by intros [].
    - intros s2 Ha2 _ Hor How Hr2 Ho2. rewrite <- Hr2 in Ho2.
      eapply (wp_drop_registration b rest []); [exact Ho2|]. intros s3 Ha3 Hr3 Hp3 Hk3 Ho3 _. right.
      split; [by rewrite Ha3|done|done|by rewrite Hk3]. }
  destruct (s_read (io_inner io)) as [|[]| |]; try (apply wp_ret; by apply Hdrop).
  all: wp_step; eapply wp_socket; [done|]; wp_step; eapply wp_cancel; [done|]; intros res s1 Hs1 Hk1 Hr1 Hw1; wp_step; by apply Hdrop.
Qed.

(** ** Completions *)

(** The callback ends by dropping the reference the kernel had. *)
Lemma wp_callback_end b own want acc rest io cnt s :
  sock_ok b rest io cnt s → core (Z.b2z own + 1) acc b io cnt (kernel s) → (own = false → regs s !! b = None) →
  (want = true → own = true ∧ is_Some (io_readiness io) ∧ reads_or_connects b io s) →
  wp (stream_arc_drop b) (λ _ s', ev_post b own want acc s') s.
Proof.
  intros Hs Hc Hreg Hw. eapply wp_release; [done|done| |].
  - intros s' Hs' Hc' Hpos Hr Hw' Hk. left. exists rest, io, (cnt - 1). split; [done|done|done|by rewrite Hr|].
    intros Hwant. destruct (Hw Hwant) as (Ho & Hsome & Hrc). split; [done|]. split; [done|].
    apply (goes_on_frame b io io s); [done| |by rewrite Hk|done]. f_equal. unfold cur. by rewrite Hw'.
  - intros s' Ha Hown Hor How Hr Ho. right. split; [done|done| |done].
    destruct want; [|done]. by destruct (Hw eq_refl) as [? _]; simplify_eq.
Qed.

Lemma wp_read_done b own want acc rest io cnt s token n k' :
  live_ok b own want acc rest io cnt s → k_delivers (kernel s) (read_ptr b) n k' →
  wp (read_done (mkStatus (Some (read_ptr b)) token n)) (λ _ s', ev_post b own want acc s') (set_kern k' s).
Proof.
  intros [Hs Hc Hpos Hreg Hw] Hd. pose proof (sock_ok_kern _ _ _ _ _ k' Hs) as Hs1. pose proof (b2z_bounds own) as Hown.
  unfold read_done. wp_step. eapply wp_lift; [cbn; by rewrite Z.sub_diag|]. wp_step. eapply wp_inner; [done|]. wp_step.
  assert (∀ io2 cnt2 s2, sock_ok b rest io2 cnt2 s2 → core (Z.b2z own + 1) acc b io2 cnt2 (kernel s2) → regs s2 !! b = regs s !! b →
    io_readiness io2 = io_readiness io → (is_Some (io_readiness io) → read_goes_on io2 s2) →
    wp (stream_arc_drop b) (λ _ s', ev_post b own want acc s') s2) as Hend.
  { intros io2 cnt2 s2 Hs2 Hc2 Hr2 Hrd2 Hg2. eapply wp_callback_end; [done|done|by rewrite Hr2|].
    intros Hwant. destruct (Hw Hwant) as (? & Hsome & _). rewrite Hrd2. split; [done|]. split; [done|]. left. by apply Hg2. }
  destruct (s_read (io_inner io)) as [|[]|u|e] eqn:Er.
  2: { destruct (core_deliver_read _ _ _ _ _ _ _ _ (SReady tt) Hc Hd) as [-> Hc1]; [done|by rewrite Er|]. cbn.
    wp_step. eapply wp_write_inner; [done|]. intros s2 Hs2 Hr2 Hw2 Hk2. eapply wp_add_readiness; [done|done|].
    intros s3 Hs3 Hk3 Hr3 Hcur3. eapply Hend; [exact Hs3|by rewrite Hk3, Hk2|by rewrite Hr3, Hr2|done|].
    intros Hsome. unfold read_goes_on. cbn [s_read io_inner set_inner set_read]. by rewrite Hcur3, readable_or. }
  all: assert (set_inner (set_read (s_read (io_inner io))) io = io) as Hid by (by destruct io as [? ? ? []]).
  all: destruct (core_deliver_read _ _ _ _ _ _ _ _ (s_read (io_inner io)) Hc Hd) as [_ Hc1]; [by rewrite Er|done|]; rewrite Hid in Hc1.
  all: wp_step; eapply wp_socket; [done|]; wp_step; apply wp_kcall; intros res k2 Ek; cbn [kernel set_kern] in Ek.
  all: pose proof (kl_connect_complete (io_socket io) k') as Hk2; rewrite Ek in Hk2; cbn in Hk2.
  all: pose proof (core_same _ _ _ _ _ _ _ Hk2 Hc1) as Hc2; pose proof (sock_ok_kern _ _ _ _ _ k2 Hs1) as Hs2.
  all: destruct res as [[]|e'].
  all: try (wp_step; eapply wp_add_readiness; [done|done|]; intros s3 Hs3 Hk3 Hr3 Hcur3;
    eapply (wp_schedule_read (Z.b2z own + 1)); [done|rewrite Hk3; exact Hc2|lia|];
    intros io4 cnt4 s4 Hs4 Hc4 (_ & _ & Hrd4 & _) _ Hr4 Hg4; eapply Hend; [exact Hs4|exact Hc4|by rewrite Hr4, Hr3|done|exact Hg4]).
  all: wp_step; eapply wp_add_readiness; [done|done|]; intros s3 Hs3 Hk3 Hr3 Hcur3;
    eapply wp_write_inner; [done|]; intros s4 Hs4 Hr4 Hw4 Hk4;
    eapply Hend; [exact Hs4|rewrite Hk4, Hk3; by apply core_set_read; [|rewrite Er]|by rewrite Hr4, Hr3|done|];
    intros Hsome; unfold read_goes_on; cbn [s_read io_inner set_inner set_read]; rewrite (cur_same_frame io _ s3) by done; by rewrite Hcur3, readable_or.
Qed.

Lemma wp_write_done b own want acc rest io cnt s token n k' :
  live_ok b own want acc rest io cnt s → k_delivers (kernel s) (write_ptr b) n k' →
  wp (write_done (mkStatus (Some (write_ptr b)) token n)) (λ _ s', ev_post b own want acc s') (set_kern k' s).
Proof.
  intros [Hs Hc Hpos Hreg Hw] Hd. pose proof (sock_ok_kern _ _ _ _ _ k' Hs) as Hs1. pose proof (b2z_bounds own) as Hown.
  destruct (core_deliver_write _ _ _ _ _ _ _ _ Hc Hd) as (Hor & buf & pos & Ew & Hrange & Hrange' & Hacc & Hc1).
  unfold write_done. wp_step. eapply wp_lift; [cbn; by rewrite Z.sub_diag|]. wp_step. eapply wp_inner; [done|]. rewrite Ew.
  wp_step. eapply wp_write_inner; [done|]. intros s2 Hs2 Hr2 Hw2 Hk2. cbn [cs_bytes]. wp_step.
  assert (∀ io3 cnt3 s3, sock_ok b rest io3 cnt3 s3 → core (Z.b2z own + 1) acc b io3 cnt3 (kernel s3) → regs s3 !! b = regs s !! b →
    write_frame b (set_inner (set_write SEmpty) io) io3 s2 s3 →
    wp (stream_arc_drop b) (λ _ s', ev_post b own want acc s') s3) as Hend.
  { intros io3 cnt3 s3 Hs3 Hc3 Hr3 (Hor3 & (_ & _ & Hrd3 & _) & Hsr3 & Hcur3). eapply wp_callback_end; [done|done|by rewrite Hr3|].
    intros Hwant. destruct (Hw Hwant) as (? & Hsome & Hrc). rewrite Hrd3. split; [done|]. split; [done|].
    apply (goes_on_frame b io io3 s); [done| |by rewrite Hor3, Hk2|done]. rewrite Hcur3. f_equal. by apply cur_same_frame. }
  destruct (pos + n =? Z.of_nat (length (b_bytes buf))) eqn:En; zbool.
  - eapply wp_add_readiness; [done|done|]. intros s3 Hs3 Hk3 Hr3 Hcur3. eapply Hend; [exact Hs3| |by rewrite Hr3, Hr2|].
    + rewrite Hk3, Hk2. cbn [kernel set_kern]. rewrite Hacc. unfold unsent. rewrite drop_ge by lia. by rewrite app_nil_r.
    + split; [by rewrite Hk3|]. split; [done|]. split; [done|]. by apply (readable_after_writable _ s2 s3 Ready.writable).
  - eapply (wp_schedule_write (Z.b2z own + 1)); [exact Hs2|rewrite Hk2; exact Hc1|done|lia|done|].
    intros io3 cnt3 s3 Hs3 Hc3 Hf3 Hr3. rewrite <- Hacc in Hc3. eapply Hend; [done|done|by rewrite Hr3, Hr2|done].
Qed.

(** ** All events keep the invariant *)

Lemma sop_inv b op c : stream_inv b c → pg_own c = true → sop_ok b op (pg_sys c) → ∃ c', run_sop b op c = Done c' ∧ stream_inv b c'.
Proof.
  intros [(rest & io & cnt & Hl)|Hg] Hown Hok; [|by rewrite (go_own _ _ _ _ Hg) in Hown].
  pose proof (sk_box _ _ _ _ _ (lo_sock _ _ _ _ _ _ _ _ Hl)) as Hb.
  destruct op as [poll p token interest opts|poll p token interest opts|poll p|bufs|bufs|]; cbn [run_sop sop_ok] in *.
  - apply (run_of_wp _ (λ r s, mkProg s (pg_own c) (wants interest r) (pg_acc c))). rewrite Hown. eapply wp_mono; [by eapply wp_op_register|].
    intros r s' (io' & cnt' & Hl'). left. eauto.
  - apply (run_of_wp _ (λ r s, mkProg s (pg_own c) (wants interest r) (pg_acc c))). rewrite Hown. eapply wp_mono; [eapply wp_op_reregister; [done|done|apply Hok|exact (proj2 Hok _ Hb)]|].
    intros r s' (io' & cnt' & Hl'). left. eauto.
  - apply (run_of_wp _ (λ r s, mkProg s (pg_own c) false (pg_acc c))). rewrite Hown. eapply wp_mono; [eapply wp_op_deregister; [done|done|apply Hok|exact (proj2 Hok _ Hb)]|].
    intros r s' (io' & cnt' & Hl'). left. eauto.
  - apply (run_of_wp _ (λ r s, mkProg s (pg_own c) (pg_want c) (pg_acc c))). rewrite Hown. eapply wp_mono; [by eapply wp_op_readv|].
    intros r s' (io' & cnt' & Hl'). left. eauto.
  - apply (run_of_wp _ (λ r s, mkProg s (pg_own c) (pg_want c) (pg_acc c ++ accepted bufs r))). rewrite Hown. eapply wp_mono; [by eapply wp_op_writev|].
    intros r s' (io' & cnt' & Hl'). left. eauto.
  - apply (run_of_wp _ (λ r s, mkProg s false false (pg_acc c))). eapply wp_mono; [by eapply wp_op_drop|].
    intros r s' Hp. exact Hp.
Qed.

Lemma callback_inv b p n token k' c :
  stream_inv b c → p = read_ptr b ∨ p = write_ptr b → k_delivers (kernel (pg_sys c)) p n k' →
  ∃ c', run_sev b (EvComplete p n token k') c = Done c' ∧ stream_inv b c'.
Proof.
  intros [(rest & io & cnt & Hl)|Hg] Hp Hd.
  - cbn [run_sev]. apply (run_of_wp _ (λ _ s, mkProg s (pg_own c) (pg_want c) (pg_acc c))).
    pose proof (sock_ok_kern _ _ _ _ _ k' (lo_sock _ _ _ _ _ _ _ _ Hl)) as Hs1. unfold stream_callback. wp_step.
    assert (p_box p = b) as -> by (by destruct Hp as [-> | ->]). eapply wp_the_box; [done|].
    assert ((off_write =? off_read) = false) as Hne by (apply Z.eqb_neq, not_eq_sym, off_distinct).
    destruct Hp as [-> | ->]; cbn [p_off read_ptr write_ptr]; rewrite ?Hne, Z.eqb_refl; eapply wp_mono;
      [by eapply wp_read_done|done|by eapply wp_write_done|done].
  - exfalso. destruct (kl_delivers _ _ _ _ Hd) as (i & o & Hi & _). destruct (go_out _ _ _ _ Hg) as [Hr Hw].
    destruct Hp as [-> | ->]; by rewrite ?Hr, ?Hw in Hi.
Qed.

Lemma others_inv b s' c :
  stream_inv b c → others_ok b (pg_sys c) s' → stream_inv b (mkProg s' (pg_own c) (pg_want c) (pg_acc c)).
Proof.
  intros Hi Hot. pose proof Hot as [Ha Hr _ Ho Hs _]. destruct Hi as [(rest & io & cnt & [Hsk Hc Hpos Hreg Hwant])|[Hb ? ? [Hro Hwo]]].
  - left. destruct (others_sock_ok _ _ _ _ _ _ Hot Hsk) as [rest' Hsk']. destruct (Hs _ (sk_box _ _ _ _ _ Hsk)) as (Hski & Hse & Hcur).
    cbn in Hski, Hse, Hcur. exists rest', io, cnt. cbn [pg_sys pg_own pg_want pg_acc]. split; [done|..].
    + destruct Hc as [? ? ? ? ? Hwk ?]. split; unfold n_out, read_ptr, write_ptr in *; rewrite ?Ho, ?Hski; try done.
      unfold write_ok, write_ptr in *. by rewrite Ho, Hse.
    + done.
    + by rewrite Hr.
    + intros Hwt. destruct (Hwant Hwt) as (? & Hsome & Hrc). split; [done|]. split; [done|].
      eapply (goes_on_frame b io io (pg_sys c)); [done|by rewrite Hcur|apply Ho|done].
  - right. split; cbn; [by rewrite Ha|done|done|]. unfold read_ptr, write_ptr in *. by rewrite !Ho.
Qed.

Lemma new_inv b sock deferred s s' rest :
  rd_own (world s) rest → regs s !! b = None → (∀ off, k_out (kernel s) (mkPtr b off) = []) →
  k_skip (kernel s) sock = false → k_sent (kernel s) sock = [] →
  TcpStream_new sock deferred s = Done (b, s') → stream_inv b (mkProg s' true false []).
Proof.
  intros Ho Hr Hout Hsk Hse E. unfold TcpStream_new, on_arcs, FromRawArc_new in E. cbn in E. injection E as Eb <-.
  left. exists rest, (mkIo sock lazy_new None (mkStreamInner deferred SEmpty SEmpty false)), 1. cbn. split; [split|..]; cbn; try done.
  - rewrite Eb. apply lookup_insert_eq.
  - by rewrite Hr.
  - intros i. by rewrite lazy_borrow_new.
  - by rewrite Hr; intros [].
  - split; cbn; unfold n_out, read_ptr, write_ptr, slack; rewrite ?Hout; cbn; try done; try (destruct deferred; lia).
Qed.

Lemma reach_inv b c : reach b c → stream_inv b c.
Proof.
  induction 1 as [sock deferred s s' rest Ho Hr Hout Hsk Hse E|c e c' _ IH He E]; [by eapply new_inv|].
  destruct e as [op|p n token k'|s']; cbn [enabled] in He.
  - destruct He as [Hown Hok]. destruct (sop_inv b op c IH Hown Hok) as (c1 & E1 & Hi). change (run_sop b op c = Done c') in E. congruence.
  - destruct He as [Hp Hd]. destruct (callback_inv b p n token k' c IH Hp Hd) as (c1 & E1 & Hi). congruence.
  - cbn in E. simplify_eq. by apply others_inv.
Qed.

(** ** The theorems *)

Definition in_flight (b : positive) (s : Sys) : Prop := k_out (kernel s) (read_ptr b) ≠ [] ∨ k_out (kernel s) (write_ptr b) ≠ [].

(** C20: whatever the owner of a TCP stream does and in whatever order the kernel
    delivers the completions of its operations (reregistering and deregistering only
    after a registration that succeeded, or for another selector, and while no poll
    sleeps; see [sop_ok]), no code touches the box after it was freed, no callback meets an operation it does not expect and no loop goes
    on for ever.  The box stays allocated as long as the stream is alive or an
    operation is in flight, and, if no connect completes at once, no longer. *)
Theorem stream_memory_safe (b : positive) (c : Prog) (e : SEv) :
  reach b c → enabled b e c →
  (∃ c', run_sev b e c = Done c') ∧
  (pg_own c = true ∨ in_flight b (pg_sys c) → is_Some (arcs (pg_sys c) !! b)) ∧
  (connect_pends → is_Some (arcs (pg_sys c) !! b) → pg_own c = true ∨ in_flight b (pg_sys c)).
Proof.
  intros Hr He. pose proof (reach_inv b c Hr) as Hi. split; [|split].
  - destruct e as [op|p n token k'|s']; cbn [enabled] in He; [| |by eexists].
    + destruct He as [Hown Hok]. destruct (sop_inv b op c Hi Hown Hok) as (c1 & E1 & _). by exists c1.
    + destruct He as [Hp Hd]. destruct (callback_inv b p n token k' c Hi Hp Hd) as (c1 & E1 & _). by exists c1.
  - destruct Hi as [(rest & io & cnt & Hl)|[_ Hown _ [Hro Hwo]]].
    + intros _. rewrite (sk_box _ _ _ _ _ (lo_sock _ _ _ _ _ _ _ _ Hl)). by eexists.
    + unfold in_flight. rewrite Hown, Hro, Hwo. naive_solver.
  - intros Hcp Hsome. destruct Hi as [(rest & io & cnt & [_ Hc Hpos _ _])|[Hb _ _ _]]; [|rewrite Hb in Hsome; by destruct Hsome].
    pose proof (co_exact _ _ _ _ _ _ Hc Hcp) as Hex. unfold in_flight, n_out in *.
    destruct (pg_own c); [by left|right]. cbn in Hex.
    destruct (k_out _ (read_ptr b)), (k_out _ (write_ptr b)); cbn in Hex; [lia|by right|by left|by left].
Qed.

(** C21: the bytes the kernel has transferred are always the first of those the
    writes of the stream accepted; unless a write has failed, they are all of them
    between writes, and while a write is in flight what is missing is exactly the
    rest of its buffer; after one has failed nothing is in flight.  The owner's calls
    are restricted by [sop_ok]. *)
Theorem stream_bytes_in_order (b : positive) (c : Prog) (i : ArcInner Io) :
  reach b c → arcs (pg_sys c) !! b = Some i →
  let sent := k_sent (kernel (pg_sys c)) (io_socket (ai_data i)) in
  sent `prefix_of` pg_acc c ∧
  match s_write (io_inner (ai_data i)) with
  | SEmpty => pg_acc c = sent
  | SPending (buf, pos) => pg_acc c = sent ++ drop (Z.to_nat pos) (b_bytes buf)
  | SReady _ => False
  | SError _ => k_out (kernel (pg_sys c)) (write_ptr b) = []
  end.
Proof.
  intros Hr Hb sent. destruct (reach_inv b c Hr) as [(rest & io & cnt & [[Hb' _ _ _] Hc _ _ _])|[Hb' _ _ _]]; [|congruence].
  rewrite Hb in Hb'. simplify_eq. pose proof (co_write _ _ _ _ _ _ Hc) as Hw. cbn [ai_data] in *. fold sent in Hw. clear Hc.
  destruct (s_write (io_inner io)) as [|[buf pos]|[]|e]; cbn in Hw; [|..|done|].
  - destruct Hw as [_ ->]. done.
  - destruct Hw as (_ & _ & ->). split; [by eexists|done].
  - by destruct Hw.
Qed.

(** C22: if no connect completes at once, a stream registered with readable interest
    never hangs: it is readable, or an operation on its read side is in flight whose
    completion makes it go on.  The owner's calls are restricted by [sop_ok]. *)
Theorem stream_read_progress (b : positive) (c : Prog) :
  connect_pends → reach b c → pg_want c = true →
  ∃ i, arcs (pg_sys c) !! b = Some i ∧ is_Some (io_readiness (ai_data i)) ∧
    (Ready.is_readable (cur (ai_data i) (pg_sys c)) = true ∨ k_out (kernel (pg_sys c)) (read_ptr b) ≠ []).
Proof.
  intros Hcp Hr Hw. destruct (reach_inv b c Hr) as [(rest & io & cnt & [[Hb _ _ _] Hc _ _ Hwant])|[_ _ Hno _]]; [|congruence].
  exists (mkArcInner io cnt). split; [done|]. cbn [ai_data]. destruct (Hwant Hw) as (_ & Hsome & Hrc). split; [done|].
  destruct Hrc as [Hg|Hcon]; [|right; by apply Hcon]. unfold read_goes_on in Hg. pose proof (co_pend _ _ _ _ _ _ Hc) as Hp.
  destruct (s_read (io_inner io)); [done| |by left|by left]. right. intros E0. unfold n_out in Hp. rewrite E0 in Hp. cbn in Hp. lia.
Qed.

(** ** What [readv] returns *)

(** Filling buffers of the given lengths from the socket, until one is not
    filled or the socket answers with an error. *)
Fixpoint recv_all (sock : Z) (bufs : list Z) (got : list Z) (k : K) : list Z * option io_error * K :=
  match bufs with
  | [] => (got, None, k)
  | len :: bufs =>
      let (r, k) := k_recv sock len k in
      match r with
      | Ok data => if Z.of_nat (length data) <? len then (got ++ data, None, k) else recv_all sock bufs (got ++ data) k
      | Err e => (got, Some e, k)
      end
  end.

Definition readv_result (x : list Z * option io_error * K) : io_result Z * list Z :=
  match x with
  | ([], Some e, _) => (Err e, [])
  | (got, _, _) => (Ok (Z.of_nat (length got)), got)
  end.

(** Where an error that cannot be returned yet is kept. *)
Definition stashes (x : list Z * option io_error * K) (b : positive) (s s' : Sys) : Prop :=
  match x with
  | (_, None, k') => s' = set_kern k' s
  | (got, Some e, _) =>
      got ≠ [] → win_kind e ≠ WouldBlock → ∃ i, arcs s' !! b = Some i ∧ s_read (io_inner (ai_data i)) = SError e
  end.

Lemma wp_readv_result acc b rest bufs : ∀ got io cnt s,
  sock_ok b rest io cnt s → core 1 acc b io cnt (kernel s) → s_read (io_inner io) = SReady tt →
  let x := recv_all (io_socket io) bufs got (kernel s) in
  wp (readv_loop b bufs got) (λ r s', r = readv_result x ∧ stashes x b s s') s.
Proof.
  induction bufs as [|len bufs IH]; intros got io cnt s Hs Hc Hr; cbn [recv_all readv_loop].
  { apply wp_ret. split; [by destruct got|by destruct s]. }
  wp_step. eapply wp_socket; [done|]. wp_step. apply wp_kcall. intros res k1 Ek. rewrite Ek.
  pose proof (kl_recv (io_socket io) len (kernel s)) as Hk. rewrite Ek in Hk. cbn in Hk.
  pose proof (sock_ok_kern _ _ _ _ _ k1 Hs) as Hs1. pose proof (core_same _ _ _ _ _ _ _ Hk Hc) as Hc1.
  destruct res as [data|e].
  - destruct (_ <? len).
    + apply wp_ret. split; [|done]. cbn. rewrite <- Nat2Z.inj_add, <- length_app. by destruct (got ++ data).
    + eapply wp_mono; [by eapply IH|]. intros r s' [-> Hst]. split; [done|]. cbn [kernel set_kern] in *. unfold stashes in *.
      by destruct (recv_all _ _ _ _) as [[g [e|]] k'].
  - destruct got as [|x got].
    + cbn. eapply wp_restart_read; [done|done|by rewrite Hr|]. intros. by apply wp_ret.
    + assert ((0 <? Z.of_nat (length (x :: got))) = true) as -> by done. cbn [andb]. destruct (bool_decide (win_kind e = WouldBlock)) eqn:Ewb.
      * eapply wp_restart_read; [done|done|by rewrite Hr|]. intros. apply wp_ret. apply bool_decide_eq_true in Ewb. split; [done|]. by intros _ [].
      * wp_step. eapply wp_write_inner; [done|]. intros s2 Hs2 _ _ _. apply wp_ret. split; [done|]. intros _ _.
        eexists. split; [exact (sk_box _ _ _ _ _ Hs2)|done].
Qed.

(** reading from a stream that is ready hands out exactly the bytes the
    socket delivers, in order, until a buffer stays partly empty or the socket
    answers with an error.  An error is returned at once if there are no bytes to
    return; otherwise the bytes are, and the error, unless it only says that there
    is no more for now, is what the next read returns. *)
Theorem stream_readv_spec (b : positive) (c : Prog) (i : ArcInner Io) (bufs : list Z) :
  reach b c → pg_own c = true → arcs (pg_sys c) !! b = Some i → s_read (io_inner (ai_data i)) = SReady tt →
  let x := recv_all (io_socket (ai_data i)) bufs [] (kernel (pg_sys c)) in
  ∃ s', readv b bufs (pg_sys c) = Done (readv_result x, s') ∧
    match x with
    | (_, None, k') => s' = set_kern k' (pg_sys c)
    | (got, Some e, _) => got ≠ [] → win_kind e ≠ WouldBlock → ∀ bufs', ∃ s'', readv b bufs' s' = Done ((Err e, []), s'')
    end.
Proof.
  intros Hr Hown Hb Hrd x. destruct (reach_inv b c Hr) as [(rest & io & cnt & Hl)|[Hb' _ _ _]]; [|congruence].
  pose proof (sk_box _ _ _ _ _ (lo_sock _ _ _ _ _ _ _ _ Hl)) as Hb'. rewrite Hb in Hb'. simplify_eq. cbn [ai_data] in *.
  rewrite Hown in Hl. pose proof (wp_readv_loop b _ _ _ bufs [] _ _ _ Hl Hrd) as Hwp.
  destruct Hl as [Hs Hc _ _ _]. pose proof (wp_readv_result _ _ _ bufs [] _ _ _ Hs Hc Hrd) as Hres. fold x in Hres.
  apply wp_done in Hres as (r & s' & E & -> & Hst).
  exists s'. split.
  { unfold readv, inner, the_box, on_arcs, FromRawArc_deref, arc_at, mbind, M_bind. rewrite Hb. cbn. rewrite Hrd.
    destruct (pg_sys c). exact E. }
  destruct x as [[got [e|]] k']; [|done]. intros Hne Hwb bufs'. destruct (Hst Hne Hwb) as (i & Hi & Her).
  apply wp_done in Hwp as (r1 & s1 & E1 & io1 & cnt1 & [Hs1 Hc1 _ _ _]). rewrite E in E1. simplify_eq.
  pose proof (sk_box _ _ _ _ _ Hs1) as Hb1. rewrite Hi in Hb1. simplify_eq. cbn in Her.
  assert (wp (readv b bufs') (λ r _, r = (Err e, [])) s1) as (r2 & s2 & E2 & ->)%wp_done; [|by eexists].
  unfold readv. wp_step. eapply wp_inner; [done|]. rewrite Her. eapply wp_restart_read; [done|done|by rewrite Her|].
  intros. by apply wp_ret.
Qed.
End stream.
Arguments SOp P : clear implicits.
Arguments Prog C W R H K : clear implicits.
Arguments SEv C W R H P K : clear implicits.
