(* ===== verification/WinListener.v ===== *)
(** * sys/windows/tcp.rs: listeners

    A listener keeps one accept in flight, on a socket made for it in advance;
    when it completes the listener is readable, and [accept] hands the socket out
    and starts the next one. *)

From S2P Require Import Prelude Event Convert Iface Windows WinSock WinTcp.

(** [mod.rs] *)
Inductive Family : Type := FamV4 | FamV6.

(** [k_new_socket]: [TcpBuilder::new_v4] and [new_v6]; [k_accept_overlapped l s p]:
    an accept on [l] into the socket [s], with whether it completed at once;
    [k_accept_remote]: the peer's address from the accept buffer ([parse] and
    [remote]). *)
Class AcceptSys (K : Type) : Type := {
  k_new_socket : Family → K → io_result Z * K;
  k_accept_overlapped : Z → Z → Ptr → K → io_result bool * K;
  k_accept_complete : Z → Z → K → io_result unit * K;
  k_accept_remote : Z → Ptr → K → io_result (option SocketAddr) * K }.

(** The result of an accept, as that of any overlapped call. *)
Definition at_once (r : io_result bool) : io_result (option unit) :=
  result_map (λ b : bool, if b then Some tt else None) r.

Class AcceptLaws (K : Type) `{WinSys K, WinSpec K, AcceptSys K} : Prop := {
  (** a new socket was not open before *)
  kl_new_socket f k r k' :
    k_new_socket f k = (r, k') →
    (∀ p, k_out k' p = k_out k p) ∧
    match r with Ok s => s ∉ k_live k ∧ k_live k' = {[s]} ∪ k_live k | Err _ => k_live k' = k_live k end;
  kl_accept l s p k r k' :
    k_accept_overlapped l s p k = (r, k') → issued k k' p (posts (k_skip k l) (at_once r)) (mkOp l [] None);
  kl_accept_complete l s k : k_same k (snd (k_accept_complete l s k));
  kl_accept_remote l p k : k_same k (snd (k_accept_remote l p k)) }.

Record ListenerInner : Type := mkListenerInner {
  l_family : Family;
  l_accept : State Z (Z * SocketAddr);
  l_instant : bool }.

Definition set_accept a (me : ListenerInner) := mkListenerInner (l_family me) a (l_instant me).
Definition set_l_instant i (me : ListenerInner) := mkListenerInner (l_family me) (l_accept me) i.

Section listener.
Context {C : Type → Type} {cell_ops : LazyCellOps C}.
Context {W R H P : Type} {rd_ops : ReadinessOps W H} {reg_ops : RegistrationOps W R H P} {drop_ops : HandleDropOps W R H}.
Context {K : Type} {iocp_ops : IocpOps K} {win : WinSys K} {acc : AcceptSys K}.
Context {layout : TcpLayout}.
Abbreviation Sys := (WSys C W R H K ListenerInner).

Definition accept_ptr (b : positive) : Ptr := mkPtr b off_accept.

(** Dropping a [net::TcpStream]. *)
Definition close (s : Z) : M Sys unit := kcall (λ k, (tt, k_close s k)).

Definition new_family (sock : Z) (family : Family) : M Sys positive :=
  on_arcs (FromRawArc_new (mkIo sock lazy_new None (mkListenerInner family SEmpty false))).

Definition TcpListener_new (sock : Z) (addr : SocketAddr) : M Sys (io_result positive) :=
  b ← new_family sock (match addr with V4 _ _ => FamV4 | V6 _ _ _ _ => FamV6 end);
  mret (Ok b).

(** [local_addr], [take_error] and the socket options. *)
Definition TcpListener_forward {A} (call : Z → K → io_result A * K) (b : positive) : M Sys (io_result A) :=
  sock ← socket b; kcall (call sock).

Definition TcpListener_try_clone (try_clone : Z → K → io_result Z * K) (b : positive) : M Sys (io_result positive) :=
  r ← TcpListener_forward try_clone b;
  match r with
  | Ok s => me ← inner b; b ← new_family s (l_family me); mret (Ok b)
  | Err e => mret (Err e)
  end.

Definition schedule_accept (b : positive) : M Sys unit :=
  me ← inner b;
  match l_accept me with
  | SEmpty =>
      _ ← clear_readiness b Ready.readable;
      sock ← socket b;
      builder ← kcall (k_new_socket (l_family me));
      res ← match builder with
            | Err e => mret (Err e)
            | Ok s =>
                r ← kcall (k_accept_overlapped sock s (accept_ptr b));
                match r with
                | Ok _ => mret (Ok s)
                | Err e => _ ← close s; mret (Err e)
                end
            end;
      match res with
      | Ok s =>
          _ ← write_inner b (set_accept (SPending s));
          forget_clone b
      | Err e =>
          _ ← write_inner b (set_accept (SError e));
          add_readiness b Ready.readable
      end
  | _ => mret tt
  end.

(** The socket and its peer; [TcpListener::accept] wraps them with
    [TcpStream::new(s, None)]. *)
Definition accept (b : positive) : M Sys (io_result (Z * SocketAddr)) :=
  me ← inner b;
  match l_accept me with
  | SEmpty | SPending _ => mret (Err (io_custom WouldBlock "would block"))
  | SReady (s, a) =>
      _ ← write_inner b (set_accept SEmpty);
      r ← kcall (k_set_nonblocking s true);
      match r with
      | Err e => _ ← close s; mret (Err e)
      | Ok _ => _ ← schedule_accept b; mret (Ok (s, a))
      end
  | SError e =>
      _ ← write_inner b (set_accept SEmpty);
      _ ← schedule_accept b;
      mret (Err e)
  end.

(** Dropping the state drops the socket in it. *)
Definition listener_drop_inner (me : ListenerInner) : M Sys unit :=
  match l_accept me with
  | SPending s => close s
  | SReady (s, _) => close s
  | SEmpty | SError _ => mret tt
  end.
Definition listener_arc_drop (b : positive) : M Sys unit := arc_drop listener_drop_inner b.

Definition accept_done (status : CompletionStatus) : M Sys unit :=
  b ← lift (overlapped2arc (cs_overlapped status) off_accept);
  me ← inner b;
  match l_accept me with
  | SPending s =>
      _ ← write_inner b (set_accept SEmpty);
      sock ← socket b;
      r ← kcall (k_accept_complete sock s);
      r ← match r with
          | Err e => mret (Err e)
          | Ok _ => kcall (k_accept_remote sock (accept_ptr b))
          end;
      let result := match r with
        | Ok (Some remote_addr) => Ok remote_addr
        | Ok None => Err (io_custom Other "could not obtain remote address")
        | Err e => Err e
        end in
      _ ← write_inner b (set_accept (match result with Ok remote_addr => SReady (s, remote_addr) | Err e => SError e end));
      _ ← add_readiness b Ready.readable;
      _ ← (if is_ok result then mret tt else close s);
      listener_arc_drop b
  | _ => panic
  end.

Definition listener_callback (o : Ptr) (status : CompletionStatus) : M Sys unit :=
  _ ← the_box (p_box o);
  if p_off o =? off_accept then accept_done status else panic.

Definition TcpListener_register (b : positive) (poll : Z) (p : P) (token : Token) (interest : Ready.t) (opts : PollOpt.t)
    : M Sys (io_result unit) :=
  sock ← socket b;
  try! iocp b (register_socket sock poll p token interest opts);
  try! no_notify_on_instant_completion sock;
  _ ← write_inner b (set_l_instant true);
  _ ← schedule_accept b;
  mret (Ok tt).

Definition TcpListener_reregister (b : positive) (poll : Z) (p : P) (token : Token) (interest : Ready.t) (opts : PollOpt.t)
    : M Sys (io_result unit) :=
  try! iocp b (reregister_socket poll p token interest opts);
  _ ← schedule_accept b;
  mret (Ok tt).

Definition TcpListener_deregister (b : positive) (poll : Z) (p : P) : M Sys (io_result unit) :=
  iocp b (deregister poll p).

Definition TcpListener_drop (b : positive) : M Sys unit :=
  me ← inner b;
  _ ← match l_accept me with
      | SPending _ => sock ← socket b; _ ← cancel sock (accept_ptr b); mret tt
      | SEmpty | SReady _ | SError _ => mret tt
      end;
  _ ← listener_arc_drop b;
  drop_registration b.
End listener.
