(* ===== verification/WinListenerThm.v ===== *)
(** * Theorems about TCP listeners on Windows

    A program over one listener, as in [WinTcpThm.v]: its owner calls the
    operations of [TcpListener], the kernel delivers completions, and the rest of
    the program changes the rest of the state in between. *)

From S2P Require Import Prelude Event Convert Iface Windows WindowsThm WinSock WinSockInv WinTcp WinListener.

Section listener.
Context {C : Type → Type} {cell_ops : LazyCellOps C} {cell_laws : LazyCellLaws C}.
Context {W R H P : Type} {rd_ops : ReadinessOps W H} {reg_ops : RegistrationOps W R H P} {drop_ops : HandleDropOps W R H}.
Context {rd_spec : ReadinessSpec W H} {h_spec : HandleSpec W R H} {h_laws : HandleLaws W R H P}.
Context {K : Type} {iocp_ops : IocpOps K} {win : WinSys K} {spec : WinSpec K} {laws : WinLaws K}.
Context {acc : AcceptSys K} {acc_laws : AcceptLaws K}.
Context {layout : TcpLayout}.
Abbreviation Io := (Io C H ListenerInner).
Abbreviation Sys := (WSys C W R H K ListenerInner).
Implicit Types s : Sys.
Implicit Types io : Io.
Implicit Types k : K.

(** ** Programs *)

Inductive LOp : Type :=
  | LRegister (poll : Z) (p : P) (token : Token) (interest : Ready.t) (opts : PollOpt.t)
  | LReregister (poll : Z) (p : P) (token : Token) (interest : Ready.t) (opts : PollOpt.t)
  | LDeregister (poll : Z) (p : P)
  | LAccept
  | LDrop.

(** [lp_own]: the [TcpListener] is alive; [lp_want]: it is registered;
    [lp_again]: it was to be registered once more; [lp_given]: the sockets
    [accept] has handed out. *)
Record LProg : Type := mkLProg { lp_sys : Sys; lp_own : bool; lp_want : bool; lp_again : bool; lp_given : list Z }.

Definition handed (r : io_result (Z * SocketAddr)) : list Z := match r with Ok (s, _) => [s] | Err _ => [] end.

Definition run_lop (b : positive) (op : LOp) (c : LProg) : outcome LProg :=
  let s := lp_sys c in
  match op with
  | LRegister poll p token interest opts =>
      '(r, s) ← TcpListener_register b poll p token interest opts s;
      Done (mkLProg s (lp_own c) (is_ok r) (lp_again c || bool_decide (is_Some (regs (lp_sys c) !! b))) (lp_given c))
  | LReregister poll p token interest opts =>
      '(r, s) ← TcpListener_reregister b poll p token interest opts s;
      Done (mkLProg s (lp_own c) (is_ok r) (lp_again c) (lp_given c))
  | LDeregister poll p => '(_, s) ← TcpListener_deregister b poll p s; Done (mkLProg s (lp_own c) false (lp_again c) (lp_given c))
  | LAccept => '(r, s) ← accept b s; Done (mkLProg s (lp_own c) (lp_want c) (lp_again c) (lp_given c ++ handed r))
  | LDrop => '(_, s) ← TcpListener_drop b s; Done (mkLProg s false false (lp_again c) (lp_given c))
  end.

Inductive LEv : Type :=
  | LEvOp (op : LOp)
  | LEvComplete (n : Z) (token : Z) (k' : K)
  | LEvOther (s' : Sys).

Definition run_lev (b : positive) (e : LEv) (c : LProg) : outcome LProg :=
  match e with
  | LEvOp op => run_lop b op c
  | LEvComplete n token k' =>
      '(_, s) ← listener_callback (accept_ptr b) (mkStatus (Some (accept_ptr b)) token n) (set_kern k' (lp_sys c));
      Done (mkLProg s (lp_own c) (lp_want c) (lp_again c) (lp_given c))
  | LEvOther s' => Done (mkLProg s' (lp_own c) (lp_want c) (lp_again c) (lp_given c))
  end.

(** Registering needs a selector with a pool; [reregister] and [deregister] are
    for listeners a registration of which succeeded (or for another selector), while
    no poll sleeps. *)
Definition lop_ok (b : positive) (op : LOp) (s : Sys) : Prop :=
  match op with
  | LRegister poll _ _ _ _ => has_pool s poll
  | LReregister poll _ _ _ _ | LDeregister poll _ =>
      rd_awake (world s) ∧ ∀ i, arcs s !! b = Some i → lazy_borrow (io_selector (ai_data i)) = Some poll → is_Some (regs s !! b)
  | _ => True
  end.

(** The socket an accept waits for, or that waits to be handed out. *)
Definition waiting (a : State Z (Z * SocketAddr)) : gset Z :=
  match a with SPending x => {[x]} | SReady (x, _) => {[x]} | SEmpty | SError _ => ∅ end.
Definition io_socks (io : Io) : gset Z := {[io_socket io]} ∪ waiting (l_accept (io_inner io)).
(** The sockets in the box. *)
Definition held_socks (b : positive) (s : Sys) : gset Z :=
  match arcs s !! b with Some i => io_socks (ai_data i) | None => ∅ end.

Definition lenabled (b : positive) (e : LEv) (c : LProg) : Prop :=
  match e with
  | LEvOp op => lp_own c = true ∧ lop_ok b op (lp_sys c)
  | LEvComplete n _ k' => k_delivers (kernel (lp_sys c)) (accept_ptr b) n k'
  | LEvOther s' =>
      others_ok b (lp_sys c) s' ∧
      (held_socks b (lp_sys c) ⊆ k_live (kernel (lp_sys c)) → held_socks b (lp_sys c) ⊆ k_live (kernel s'))
  end.

Inductive lreach (b : positive) : LProg → Prop :=
  | lreach_new sock addr s s' rest :
      rd_own (world s) rest → regs s !! b = None → k_out (kernel s) (accept_ptr b) = [] → sock ∈ k_live (kernel s) →
      TcpListener_new sock addr s = Done (Ok b, s') → lreach b (mkLProg s' true false false [])
  | lreach_step c e c' : lreach b c → lenabled b e c → run_lev b e c = Done c' → lreach b c'.

(** ** The invariant *)

(** No accept completes at once; no socket refuses to be made non-blocking. *)
Definition accept_pends : Prop := ∀ l x p k k', k_accept_overlapped l x p k ≠ (Ok true, k').
Definition nonblocking_works : Prop := ∀ x k, is_ok (fst (k_set_nonblocking x true k)) = true.

Definition lpend (a : State Z (Z * SocketAddr)) : Z := match a with SPending _ => 1 | _ => 0 end.
Definition acc_out (b : positive) (k : K) : Z := Z.of_nat (length (k_out k (accept_ptr b))).

Record lcore (held : Z) (b : positive) (io : Io) (cnt : Z) (k : K) : Prop := {
  lc_cnt : cnt = held + lpend (l_accept (io_inner io));
  lc_out : acc_out b k <= lpend (l_accept (io_inner io));
  lc_exact : accept_pends → acc_out b k = lpend (l_accept (io_inner io));
  lc_live : io_socks io ⊆ k_live k;
  lc_fresh : io_socket io ∉ waiting (l_accept (io_inner io)) }.

(** What waits to be returned by [accept] is shown. *)
Definition shown (io : Io) (s : Sys) : Prop :=
  match l_accept (io_inner io) with
  | SEmpty | SPending _ => True
  | SReady _ | SError _ => Ready.is_readable (cur io s) = true
  end.

(** The sockets in the box change from those of [io] to [now]; [out] is handed out. *)
Definition accounts (old now : gset Z) (out : gset Z) (k k' : K) : Prop :=
  k_live k' = (k_live k ∖ old) ∪ now ∪ out ∧ out ⊆ old ∧ out ## now ∧ (now ∖ old) ## k_live k.

Lemma accounts_same x k k' : x ⊆ k_live k → k_live k' = k_live k → accounts x x ∅ k k'.
Proof.
  intros Hx Hk. unfold accounts. rewrite Hk. split; [|set_solver]. apply set_eq. intros y.
  destruct (decide (y ∈ x)); set_solver.
Qed.

(** Then [out] comes from the first step. *)
Lemma accounts_trans x y z out k k1 k2 :
  accounts x y out k k1 → accounts y z ∅ k1 k2 → z ## out → accounts x z out k k2.
Proof.
  intros (E1 & Ho1 & Hd1 & Hn1) (E2 & _ & _ & Hn2) Hzo. unfold accounts. rewrite E2, E1. split; [|split; [done|split; [set_solver|]]].
  - apply set_eq. intros a. destruct (decide (a ∈ y)), (decide (a ∈ z)), (decide (a ∈ out)), (decide (a ∈ x)); set_solver.
  - intros a Ha Hk. rewrite E1 in Hn2. destruct (decide (a ∈ y)); set_solver.
Qed.

Lemma lcore_pos held b io cnt k : lcore held b io cnt k → held <= cnt <= held + 1.
Proof. intros [-> _ _ _ _]. destruct (l_accept _); cbn; lia. Qed.

Lemma lcore_kernel held b io io' cnt k k' :
  l_accept (io_inner io') = l_accept (io_inner io) → io_socket io' = io_socket io → k_out k' (accept_ptr b) = k_out k (accept_ptr b) → k_live k' = k_live k →
  lcore held b io cnt k → lcore held b io' cnt k'.
Proof.
  intros Hi Hs Ho Hl []. unfold acc_out in *. split; unfold acc_out, io_socks in *; rewrite ?Hi, ?Hs, ?Ho, ?Hl; done.
Qed.

(** What scheduling an accept leaves alone. *)
Definition laccept_frame (io io' : Io) : Prop :=
  io_socket io' = io_socket io ∧ io_selector io' = io_selector io ∧ io_readiness io' = io_readiness io.

Lemma wp_schedule_accept held b rest io cnt s (Q : unit → Sys → Prop) :
  sock_ok b rest io cnt s → lcore held b io cnt (kernel s) → 0 <= held <= 2 →
  (∀ io' cnt' s', sock_ok b rest io' cnt' s' → lcore held b io' cnt' (kernel s') → laccept_frame io io' →
    regs s' !! b = regs s !! b → accounts (io_socks io) (io_socks io') ∅ (kernel s) (kernel s') →
    (is_Some (io_readiness io) → l_accept (io_inner io) = SEmpty ∨ shown io s → shown io' s') →
    l_accept (io_inner io') ≠ SEmpty → Q tt s') →
  wp (schedule_accept b) Q s.
Proof.
  intros Hs Hc Hheld HQ. unfold schedule_accept. wp_step. eapply wp_inner; [done|].
  assert (l_accept (io_inner io) ≠ SEmpty → wp (mret tt) Q s) as Hskip.
  { intros Hne. apply wp_ret. apply (HQ io cnt s); [done|done|done|done|apply accounts_same; [apply Hc|done]| |done].
    by intros _ [?|?]. }
  destruct (l_accept (io_inner io)) as [|x|x|e] eqn:Ea; [|by apply Hskip..]. clear Hskip.
  pose proof Hc as [Hcnt Hout Hex Hlive _]. unfold io_socks in Hlive. rewrite Ea in Hcnt, Hout, Hlive. cbn in Hcnt, Hout, Hlive.
  assert (k_out (kernel s) (accept_ptr b) = []) as Hnil by (apply nil_length_inv; unfold acc_out in *; lia).
  wp_step. eapply wp_clear_readiness; [done|]. intros s1 Hs1 Hk1 Hr1 _. wp_step. eapply wp_socket; [done|]. wp_step.
  apply wp_kcall. intros bld k2 E2. rewrite Hk1 in E2. destruct (kl_new_socket _ _ _ _ E2) as [Ho2 Hb2].
  pose proof (sock_ok_kern _ _ _ _ _ k2 Hs1) as Hs2.
  (* the accept failed: an error is shown *)
  assert (∀ e k3, (∀ p, k_out k3 p = k_out (kernel s) p) → k_live k3 = k_live (kernel s) →
    wp (_ ← write_inner b (set_accept (SError e)); add_readiness b Ready.readable) Q (set_kern k3 (set_kern k2 s1))) as Hfail.
  { intros e k3 Ho3 Hl3. wp_step. eapply wp_write_inner; [by apply sock_ok_kern|]. intros s4 Hs4 Hr4 _ Hk4.
    eapply wp_add_readiness; [done|done|]. intros s5 Hs5 Hk5 Hr5 Hcur5. cbn [kernel set_kern] in Hk4.
    eapply (HQ _ cnt s5); [exact Hs5| |done|by rewrite Hr5, Hr4| | |done].
    - rewrite Hk5, Hk4. split; cbn; unfold acc_out; rewrite ?Ho3, ?Hnil, ?Hl3; set_solver.
    - rewrite Hk5, Hk4. unfold io_socks. rewrite Ea. cbn. apply accounts_same; [done|by rewrite Hl3].
    - intros Hsome _. unfold shown. cbn [l_accept io_inner set_inner set_accept]. by rewrite Hcur5, readable_or. }
  wp_step. destruct bld as [x|e]; [|wp_step; cbn beta iota; by destruct s1; apply (Hfail e k2)].
  destruct Hb2 as [Hx Hl2]. wp_step. apply wp_kcall. intros r k3 E3. cbn [kernel set_kern] in E3.
  destruct (kl_accept _ _ _ _ _ _ E3) as (Ho3 & _ & _ & Hl3). rewrite Ho2, Hnil in Ho3. destruct r as [o|e].
  - wp_step. wp_step. eapply wp_write_inner; [by apply sock_ok_kern|]. intros s4 Hs4 Hr4 _ Hk4.
    eapply wp_forget_clone; [done|unfold U64_MAX; lia|]. intros s5 Hs5 Hr5 _ Hk5. rewrite Hk4 in Hk5. cbn [kernel set_kern] in Hk5.
    eapply (HQ _ (cnt + 1) s5); [exact Hs5| |done|by rewrite Hr5, Hr4| |done|done].
    + rewrite Hk5. split; cbn; unfold acc_out, io_socks; cbn; rewrite ?Ho3, ?Hl3, ?Hl2; [lia| | |set_solver|set_solver].
      * destruct o, (k_skip k2 (io_socket io)); cbn; lia.
      * intros Hp. destruct o; [by apply Hp in E3|done].
    + rewrite Hk5. unfold accounts, io_socks. rewrite Ea, Hl3, Hl2. cbn. split; [|set_solver]. apply set_eq. intros y.
      destruct (decide (y = io_socket io)); set_solver.
  - wp_step. eapply wp_kcall. intros [] k4 [= <-]. destruct (kl_close x k3) as (Ho4 & Hl4 & _). wp_step. cbn beta iota.
    apply (Hfail e).
    + intros p. rewrite Ho4. destruct (decide (p = accept_ptr b)) as [->|Hne]; [by rewrite Ho3, Hnil|].
      destruct (kl_accept _ _ _ _ _ _ E3) as (_ & Hne' & _). by rewrite Hne', Ho2.
    + rewrite Hl4, Hl3, Hl2. set_solver.
Qed.

(** ** All events keep the invariant *)

Record llive (b : positive) (own want again : bool) (rest : list (R + H)) (io : Io) (cnt : Z) (s : Sys) : Prop := {
  ll_sock : sock_ok b rest io cnt s;
  ll_core : lcore (Z.b2z own) b io cnt (kernel s);
  ll_pos : 0 < cnt;
  ll_reg : own = false → regs s !! b = None;
  ll_both : own = true → is_Some (io_readiness io) → is_Some (regs s !! b);
  ll_unreg : own = true → io_readiness io = None → l_accept (io_inner io) = SEmpty;
  ll_shown : again = false → own = true → is_Some (io_readiness io) → shown io s;
  ll_want : want = true → own = true ∧ is_Some (io_readiness io) ∧ (nonblocking_works → l_accept (io_inner io) ≠ SEmpty) }.

Record lgone (b : positive) (own want : bool) (s : Sys) : Prop := {
  lg_box : arcs s !! b = None;
  lg_own : own = false;
  lg_want : want = false;
  lg_out : k_out (kernel s) (accept_ptr b) = [] }.

Definition linv (b : positive) (c : LProg) : Prop :=
  (∃ rest io cnt, llive b (lp_own c) (lp_want c) (lp_again c) rest io cnt (lp_sys c)) ∨ lgone b (lp_own c) (lp_want c) (lp_sys c).

(** The sockets that come and go in a step, [g] among them handed out. *)
Definition step_accounts (b : positive) (c c' : LProg) : Prop :=
  ∃ g, lp_given c' = lp_given c ++ g ∧
    accounts (held_socks b (lp_sys c)) (held_socks b (lp_sys c')) (list_to_set g) (kernel (lp_sys c)) (kernel (lp_sys c')).

Definition lpost (b : positive) (c c' : LProg) : Prop := linv b c' ∧ step_accounts b c c'.

Lemma held_sock b rest io cnt s : sock_ok b rest io cnt s → held_socks b s = io_socks io.
Proof. intros [Hb _ _ _]. unfold held_socks. by rewrite Hb. Qed.

(** After an operation of a living owner. *)
Lemma lpost_intro b c g want again rest io cnt s :
  sock_ok b rest io cnt s → lcore 1 b io cnt (kernel s) →
  (is_Some (io_readiness io) → is_Some (regs s !! b)) →
  (io_readiness io = None → l_accept (io_inner io) = SEmpty) →
  (again = false → is_Some (io_readiness io) → shown io s) →
  (want = true → is_Some (io_readiness io) ∧ (nonblocking_works → l_accept (io_inner io) ≠ SEmpty)) →
  accounts (held_socks b (lp_sys c)) (io_socks io) (list_to_set g) (kernel (lp_sys c)) (kernel s) →
  lpost b c (mkLProg s true want again (lp_given c ++ g)).
Proof.
  intros Hs Hc Hb Hu Hsh Hw Ha. split.
  - left. exists rest, io, cnt. cbn. pose proof (lcore_pos _ _ _ _ _ Hc). split; auto; [lia|naive_solver].
  - exists g. split; [done|]. cbn [lp_sys]. by rewrite (held_sock _ _ _ _ _ Hs).
Qed.

Lemma app_nil_prog s want again (c : LProg) : mkLProg s true want again (lp_given c) = mkLProg s true want again (lp_given c ++ []).
Proof. by rewrite app_nil_r. Qed.

Section owner.
(** The listener is alive before the operation. *)
Context (b : positive) (c : LProg) (rest : list (R + H)) (io : Io) (cnt : Z).
Abbreviation s := (lp_sys c).
Context (Hl : llive b true (lp_want c) (lp_again c) rest io cnt s).

Lemma keeps_accounts io' k' : io_socks io' = io_socks io → k_live k' = k_live (kernel s) →
  accounts (held_socks b s) (io_socks io') ∅ (kernel s) k'.
Proof.
  intros -> Hk. rewrite (held_sock _ _ _ _ _ (ll_sock _ _ _ _ _ _ _ _ Hl)).
  apply accounts_same; [|done]. apply (lc_live _ _ _ _ _ (ll_core _ _ _ _ _ _ _ _ Hl)).
Qed.

Lemma wp_l_register poll (p : P) token interest opts :
  has_pool s poll →
  wp (TcpListener_register b poll p token interest opts)
    (λ r s', lpost b c (mkLProg s' true (is_ok r) (lp_again c || bool_decide (is_Some (regs s !! b))) (lp_given c))) s.
Proof.
  intros Hpool. pose proof Hl as [Hs Hc _ _ Hboth Hun Hsh _]. unfold TcpListener_register. wp_step. eapply wp_socket; [done|]. wp_step.
  eapply wp_register; [done|done|]. intros res io1 s1 Hs1 Hin1 Hso1 (Ho1 & _ & _ & Hlv1 & _) Hres.
  assert (lcore 1 b io1 cnt (kernel s1)) as Hc1 by (apply (lcore_kernel 1 b io io1 cnt (kernel s)); by rewrite ?Hin1).
  assert (io_socks io1 = io_socks io) as Hsk by (unfold io_socks; by rewrite Hin1, Hso1).
  destruct res as [[]|e].
  2: { destruct Hres as (Hrd & Hrg & Hcur). apply wp_ret. rewrite app_nil_prog. eapply lpost_intro; [done|done|..].
    - by rewrite Hrd, Hrg; apply Hboth.
    - by rewrite Hrd, Hin1; apply Hun.
    - rewrite Hrd. intros [Hag _]%orb_false_iff. unfold shown. rewrite Hin1, Hcur. by apply Hsh.
    - done.
    - by apply keeps_accounts. }
  destruct Hres as [Hrd Hrg]. wp_step. eapply wp_no_notify; [done|]. intros res s2 Hs2 Hr2 Hw2 Ho2 _ _ Hlv2.
  assert (is_Some (regs s2 !! b)) as Hrg2 by by rewrite Hr2.
  assert (lcore 1 b io1 cnt (kernel s2)) as Hc2 by by apply (lcore_kernel 1 b io1 io1 cnt (kernel s1)).
  assert (∀ again, again = lp_again c || bool_decide (is_Some (regs s !! b)) → again = false → l_accept (io_inner io) = SEmpty) as Hfirst.
  { intros again -> [_ Hno%bool_decide_eq_false]%orb_false_iff. apply Hun; [done|]. destruct (io_readiness io); [|done]. by destruct Hno; apply Hboth. }
  destruct res as [[]|e].
  2: { wp_step. rewrite app_nil_prog. eapply (lpost_intro _ _ _ _ _ rest io1 cnt); [done|exact Hc2|..].
    - done.
    - intros E. rewrite E in Hrd. by destruct Hrd.
    - intros Hag _. unfold shown. by rewrite Hin1, (Hfirst _ eq_refl Hag).
    - done.
    - apply keeps_accounts; [done|]. by rewrite Hlv2. }
  wp_step. eapply wp_write_inner; [done|]. intros s3 Hs3 Hr3 Hw3 Hk3. wp_step.
  eapply (wp_schedule_accept 1); [done| |lia|].
  { rewrite Hk3. by apply (lcore_kernel 1 b io1 _ cnt (kernel s2)). }
  intros io4 cnt4 s4 Hs4 Hc4 (_ & _ & Hrd4) Hr4 Ha4 Hsh4 Hne4. wp_step. rewrite app_nil_prog.
  cbn [io_readiness set_inner] in Hrd4, Hsh4. eapply (lpost_intro _ _ _ _ _ rest io4 cnt4); [done|done|..].
  - by rewrite Hr4, Hr3.
  - rewrite Hrd4. intros E. rewrite E in Hrd. by destruct Hrd.
  - intros Hag _. apply Hsh4; [done|]. left. cbn. by rewrite Hin1, (Hfirst _ eq_refl Hag).
  - intros _. by rewrite Hrd4.
  - rewrite Hk3 in Ha4. eapply accounts_trans; [|exact Ha4|set_solver]. apply keeps_accounts; [done|]. by rewrite Hlv2.
Qed.

(** The state is what it was, as far as the listener is concerned. *)
Lemma lpost_same want g s' io' :
  sock_ok b rest io' cnt s' → io' = io → kernel s' = kernel s → regs s' !! b = regs s !! b → cur io s' = cur io s → g = [] →
  (want = true → is_Some (io_readiness io) ∧ (nonblocking_works → l_accept (io_inner io) ≠ SEmpty)) →
  lpost b c (mkLProg s' true want (lp_again c) (lp_given c ++ g)).
Proof.
  intros Hs -> Hk Hr Hcur -> Hw. pose proof Hl as [_ Hc _ _ Hboth Hun Hsh _]. eapply lpost_intro; [done|by rewrite Hk|..].
  - rewrite Hr. by apply Hboth.
  - by apply Hun.
  - intros. unfold shown. rewrite Hcur. by apply Hsh.
  - done.
  - apply keeps_accounts; [done|by rewrite Hk].
Qed.

Lemma wp_l_reregister poll (p : P) token interest opts :
  rd_awake (world s) → (lazy_borrow (io_selector io) = Some poll → is_Some (regs s !! b)) →
  wp (TcpListener_reregister b poll p token interest opts)
    (λ r s', lpost b c (mkLProg s' true (is_ok r) (lp_again c) (lp_given c))) s.
Proof.
  intros Haw Hreg. pose proof Hl as [Hs Hc _ _ Hboth Hun Hsh _]. unfold TcpListener_reregister. wp_step. eapply wp_reregister; [done|done|done|].
  intros res s1 Hs1 Hk1 Hr1 Hcur1 Hok. destruct res as [[]|e]; [|apply wp_ret; rewrite app_nil_prog; by apply (lpost_same _ _ _ io)].
  pose proof (sk_reg _ _ _ _ _ Hs (Hok eq_refl)) as Hrd.
  wp_step. eapply (wp_schedule_accept 1); [done|by rewrite Hk1|lia|].
  intros io2 cnt2 s2 Hs2 Hc2 (_ & _ & Hrd2) Hr2 Ha2 Hsh2 Hne2. wp_step. rewrite app_nil_prog. rewrite Hk1 in Ha2.
  eapply lpost_intro; [done|done|..].
  - rewrite Hr2, Hr1. intros _. by apply Hok.
  - rewrite Hrd2. intros E. rewrite E in Hrd. by destruct Hrd.
  - intros Hag _. apply Hsh2; [done|]. right. unfold shown. rewrite Hcur1. by apply Hsh.
  - intros _. by rewrite Hrd2.
  - by rewrite (held_sock _ _ _ _ _ Hs).
Qed.

Lemma wp_l_deregister poll (p : P) :
  rd_awake (world s) → (lazy_borrow (io_selector io) = Some poll → is_Some (regs s !! b)) →
  wp (TcpListener_deregister b poll p) (λ _ s', lpost b c (mkLProg s' true false (lp_again c) (lp_given c))) s.
Proof.
  intros Haw Hreg. unfold TcpListener_deregister. eapply wp_deregister; [apply Hl|done|done|].
  intros res s1 Hs1 Hk1 Hr1 Hcur1 _. rewrite app_nil_prog. by apply (lpost_same _ _ _ io).
Qed.

(** The next accept, after what the last one left ([g]) was handed out. *)
Lemma wp_next_accept {A} (m : M Sys A) g io1 s1 (Q : A → Sys → Prop) :
  sock_ok b rest io1 cnt s1 → lcore 1 b io1 cnt (kernel s1) → laccept_frame io io1 → l_accept (io_inner io1) = SEmpty →
  regs s1 !! b = regs s !! b → accounts (io_socks io) (io_socks io1) (list_to_set g) (kernel s) (kernel s1) →
  list_to_set g ⊆ k_live (kernel s1) → is_Some (io_readiness io) →
  (∀ s', lpost b c (mkLProg s' true (lp_want c) (lp_again c) (lp_given c ++ g)) → wp m Q s') →
  wp (_ ← schedule_accept b; m) Q s1.
Proof.
  intros Hs1 Hc1 (_ & _ & Hrd1) He1 Hr1 Ha1 Hg Hsome HQ. pose proof Hl as [Hs _ _ _ Hboth Hun _ _].
  wp_step. eapply (wp_schedule_accept 1); [done|done|lia|].
  intros io2 cnt2 s2 Hs2 Hc2 (_ & _ & Hrd2) Hr2 Ha2 Hsh2 Hne2. apply HQ. rewrite Hrd1 in Hrd2, Hsh2. eapply lpost_intro; [done|done|..].
  - rewrite Hrd2, Hr2, Hr1. by apply Hboth.
  - rewrite Hrd2. intros E. rewrite E in Hsome. by destruct Hsome.
  - intros _ _. apply Hsh2; [done|by left].
  - intros _. by rewrite Hrd2.
  - rewrite (held_sock _ _ _ _ _ Hs). eapply accounts_trans; [done|done|]. destruct Ha1 as (_ & _ & Hd1 & _), Ha2 as (_ & _ & _ & Hn2).
    intros x Hx Hxg. destruct (decide (x ∈ io_socks io1)); set_solver.
Qed.

(** Something waits only when the listener was registered. *)
Lemma waits_registered : l_accept (io_inner io) ≠ SEmpty → is_Some (io_readiness io).
Proof. intros Hne. destruct (io_readiness io) eqn:E; [by eexists|]. by destruct Hne; apply (ll_unreg _ _ _ _ _ _ _ _ Hl). Qed.

Lemma wp_l_accept :
  wp (accept b) (λ r s', lpost b c (mkLProg s' true (lp_want c) (lp_again c) (lp_given c ++ handed r))) s.
Proof.
  pose proof Hl as [Hs Hc _ _ Hboth Hun Hsh Hw]. pose proof waits_registered as Hreg. unfold accept. wp_step. eapply wp_inner; [done|].
  assert (lp_want c = true → is_Some (io_readiness io) ∧ (nonblocking_works → l_accept (io_inner io) ≠ SEmpty)) as Hwant by naive_solver.
  pose proof Hc as [Hcnt Hout Hex Hlive Hfresh]. unfold io_socks in Hlive.
  destruct (l_accept (io_inner io)) as [|x|[x a]|e] eqn:Ea; cbn in Hcnt, Hout, Hex, Hlive, Hfresh.
  1,2: apply wp_ret; apply (lpost_same _ _ _ io); try done; by rewrite Ea.
  - wp_step. eapply wp_write_inner; [done|]. intros s1 Hs1 Hr1 Hw1 Hk1. wp_step. apply wp_kcall. intros r k2 E2. rewrite Hk1 in E2.
    pose proof (kl_nonblocking x true (kernel s)) as Hk2. rewrite E2 in Hk2. destruct Hk2 as (Ho2 & _ & _ & Hl2 & _).
    pose proof (sock_ok_kern _ _ _ _ _ k2 Hs1) as Hs2. cbn in Ho2, Hl2. destruct r as [[]|e].
    + eapply (wp_next_accept _ [x]); [exact Hs2| |done|done|by rewrite <- Hr1| | |by apply Hreg|].
      * split; cbn; unfold acc_out in *; rewrite ?Ho2, ?Hl2; set_solver.
      * unfold accounts, io_socks. cbn. rewrite Ea, Hl2. cbn. split; [|set_solver]. apply set_eq. intros y.
        destruct (decide (y = x)), (decide (y = io_socket io)); set_solver.
      * cbn. rewrite Hl2. set_solver.
      * intros s' Hp. by apply wp_ret.
    + wp_step. apply wp_kcall. intros [] k3 [= <-]. wp_step. cbn [kernel set_kern handed].
      destruct (kl_close x k2) as (Ho3 & Hl3 & _).
      eapply (lpost_intro _ _ _ _ _ rest); [by apply sock_ok_kern, sock_ok_kern| |..].
      * split; cbn; unfold acc_out in *; rewrite ?Ho3, ?Ho2, ?Hl3, ?Hl2; set_solver.
      * cbn. rewrite Hr1. by apply Hboth.
      * done.
      * done.
      * intros Hwt. split; [by apply Hwant|]. intros Hnb. specialize (Hnb x (kernel s)). by rewrite E2 in Hnb.
      * rewrite (held_sock _ _ _ _ _ Hs). unfold accounts, io_socks. cbn. rewrite Ea, Hl3, Hl2. cbn. split; [|set_solver].
        apply set_eq. intros y. destruct (decide (y = x)), (decide (y = io_socket io)); set_solver.
  - wp_step. eapply wp_write_inner; [done|]. intros s1 Hs1 Hr1 Hw1 Hk1.
    eapply (wp_next_accept _ []); [exact Hs1| |done|done|by rewrite <- Hr1| | |by apply Hreg|].
    + rewrite Hk1. split; cbn; done.
    + rewrite Hk1. unfold io_socks. cbn. rewrite Ea. cbn. by apply accounts_same.
    + set_solver.
    + intros s' Hp. by apply wp_ret.
Qed.
End owner.

(** ** Giving up a reference *)

(** A holder drops its handle: it was not the last one, or the box goes with all
    the sockets in it. *)
Lemma wp_lrelease b own rest io cnt s (Q : unit → Sys → Prop) :
  sock_ok b rest io cnt s → lcore (Z.b2z own + 1) b io cnt (kernel s) →
  (∀ s', sock_ok b rest io (cnt - 1) s' → lcore (Z.b2z own) b io (cnt - 1) (kernel s') → 0 < cnt - 1 →
    regs s' = regs s → world s' = world s → kernel s' = kernel s → Q tt s') →
  (∀ s', arcs s' !! b = None → own = false → k_out (kernel s') (accept_ptr b) = [] → k_live (kernel s') = k_live (kernel s) ∖ io_socks io →
    regs s' = regs s → rd_own (world s') (option_list (inl <$> regs s !! b) ++ rest) → Q tt s') →
  wp (listener_arc_drop b) Q s.
Proof.
  intros Hs Hc Hshared Hlast. pose proof (lcore_pos _ _ _ _ _ Hc) as Hp. assert (0 <= Z.b2z own <= 1) by (destruct own; cbn; lia).
  destruct (decide (cnt = 1)) as [->|Hne].
  - destruct Hc as [Hcnt Hout _ _ _]. unfold acc_out in Hout.
    assert (own = false) as Hown by (destruct own; cbn in *; [destruct (l_accept _); cbn in *; lia|done]).
    eapply wp_arc_drop_last; [done|]. intros s' Ha Hr Hpl Ho Hk.
    assert (∀ x : gset Z, ∀ k' s'', s'' = set_kern k' s' → x = waiting (l_accept (io_inner io)) → (∀ p, k_out k' p = k_out (kernel s) p) →
      k_live k' = k_live (kernel s) ∖ x → Q tt (set_kern (k_close (io_socket io) (kernel s'')) s'')) as HQ.
    { intros x k' s'' -> -> Ho' Hlv'. destruct (kl_close (io_socket io) k') as (Hoc & Hlc & _). apply Hlast; [done|done| | |done|done]; cbn.
      - rewrite Hoc, Ho'. apply nil_length_inv. destruct (l_accept _); cbn in *; lia.
      - rewrite Hlc, Hlv'. unfold io_socks. set_solver. }
    assert (∀ x, {[x]} = waiting (l_accept (io_inner io)) → wp (close x)
      (λ _ s'', Q tt (set_kern (k_close (io_socket io) (kernel s'')) s'')) s') as Hclose.
    { intros x Hx. apply wp_kcall. intros [] k' [= <-]. destruct (kl_close x (kernel s')) as (Hoc & Hlc & _).
      apply (HQ {[x]} (k_close x (kernel s'))); [done|done| |]; rewrite <- Hk; [exact Hoc|exact Hlc]. }
    unfold listener_drop_inner. destruct (l_accept (io_inner io)) as [|x|[x a]|e]; [|by apply Hclose..|];
      (apply wp_ret; apply (HQ ∅ (kernel s')); [by destruct s'|done|by rewrite Hk|rewrite Hk; set_solver]).
  - eapply wp_arc_drop_shared; [done|unfold U64_MAX; lia|]. intros s' Hs' Hr Hw Hk. apply Hshared; [done| |lia|done..].
    rewrite Hk. destruct Hc. split; try done. lia.
Qed.

Lemma lpost_gone b c s' : 
  arcs s' !! b = None → k_out (kernel s') (accept_ptr b) = [] →
  k_live (kernel s') = k_live (kernel (lp_sys c)) ∖ held_socks b (lp_sys c) → lpost b c (mkLProg s' false false (lp_again c) (lp_given c)).
Proof.
  intros Ha Ho Hlv. split; [by right|]. exists []. cbn. rewrite app_nil_r. split; [done|]. unfold held_socks at 2. rewrite Ha.
  unfold accounts. rewrite Hlv. set_solver.
Qed.

Lemma wp_l_drop b c rest io cnt :
  llive b true (lp_want c) (lp_again c) rest io cnt (lp_sys c) →
  wp (TcpListener_drop b) (λ _ s', lpost b c (mkLProg s' false false (lp_again c) (lp_given c))) (lp_sys c).
Proof.
  intros Hl. pose proof Hl as [Hs Hc _ _ _ _ _ _]. unfold TcpListener_drop. wp_step. eapply wp_inner; [done|]. wp_step.
  assert (∀ s1, sock_ok b rest io cnt s1 → k_same (kernel (lp_sys c)) (kernel s1) →
    wp (_ ← listener_arc_drop b; drop_registration b) (λ _ s', lpost b c (mkLProg s' false false (lp_again c) (lp_given c))) s1) as Hdrop.
  { intros s1 Hs1 (Ho1 & _ & _ & Hl1 & _). wp_step. eapply (wp_lrelease b false); [done|by apply (lcore_kernel 1 b io io cnt (kernel (lp_sys c)))| |].
    - intros s2 Hs2 Hc2 Hpos Hr2 Hw2 Hk2. destruct Hs2 as [Hb2 Ho2 Hp2 Hg2]. unfold sock_handles in Ho2. rewrite <- app_assoc in Ho2.
      eapply wp_drop_registration; [exact Ho2|]. intros s3 Ha3 Hr3 Hp3 Hk3 Ho3 _.
      assert (sock_ok b rest io (cnt - 1) s3) as Hs3.
      { split; [by rewrite Ha3|by rewrite Hr3| |rewrite Hr3; by intros []].
        intros i Hi. destruct (Hp2 i Hi) as (p & Hp & Hok). exists p. by rewrite Hp3. }
      split; [left; exists rest, io, (cnt - 1); split; cbn; by rewrite ?Hk3|].
      exists []. cbn. rewrite app_nil_r. split; [done|]. rewrite (held_sock _ _ _ _ _ Hs3), (held_sock _ _ _ _ _ Hs).
      apply accounts_same; [apply Hc|by rewrite Hk3, Hk2].
    - intros s2 Ha2 _ Ho2 Hl2 Hr2 Hw2. rewrite <- Hr2 in Hw2. eapply (wp_drop_registration b rest []); [exact Hw2|].
      intros s3 Ha3 Hr3 Hp3 Hk3 Ho3 _. apply lpost_gone; [by rewrite Ha3|by rewrite Hk3|].
      by rewrite Hk3, Hl2, Hl1, (held_sock _ _ _ _ _ Hs). }
  destruct (l_accept (io_inner io)); try (apply wp_ret; by apply Hdrop).
  wp_step; eapply wp_socket; [done|]; wp_step; eapply wp_cancel; [done|]; intros res s1 Hs1 Hk1 Hr1 Hw1; wp_step; by apply Hdrop.
Qed.

(** ** Completions *)

(** The end of the callback, when the accept into [x] is over. *)
Lemma wp_accept_end b c rest io x io' cnt s :
  llive b (lp_own c) (lp_want c) (lp_again c) rest io cnt (lp_sys c) → l_accept (io_inner io) = SPending x →
  sock_ok b rest io' cnt s → laccept_frame io io' → lpend (l_accept (io_inner io')) = 0 → l_accept (io_inner io') ≠ SEmpty →
  waiting (l_accept (io_inner io')) ⊆ {[x]} → k_out (kernel s) (accept_ptr b) = [] →
  k_live (kernel s) = k_live (kernel (lp_sys c)) ∖ {[x]} ∪ waiting (l_accept (io_inner io')) →
  regs s !! b = regs (lp_sys c) !! b → (is_Some (io_readiness io) → shown io' s) →
  wp (listener_arc_drop b) (λ _ s', lpost b c (mkLProg s' (lp_own c) (lp_want c) (lp_again c) (lp_given c))) s.
Proof.
  intros [Hs0 Hc Hpos Hreg Hboth Hun Hsh Hw] Ea Hs (Hso & _ & Hrd) Hp Hne Hsub Ho Hl Hr Hshown.
  destruct Hc as [Hcnt Hout Hex Hlive Hfresh]. unfold io_socks in Hlive. rewrite Ea in Hcnt, Hlive, Hfresh. cbn in Hcnt, Hlive, Hfresh.
  assert (accounts (held_socks b (lp_sys c)) (io_socks io') ∅ (kernel (lp_sys c)) (kernel s)) as Hacc.
  { rewrite (held_sock _ _ _ _ _ Hs0). unfold accounts, io_socks. rewrite Ea, Hl, Hso. cbn. split; [|set_solver].
    apply set_eq. intros y. destruct (decide (y = x)), (decide (y = io_socket io)); set_solver. }
  assert (io_socks io' ⊆ k_live (kernel s)) as Hlive' by (unfold io_socks; rewrite Hso, Hl; set_solver).
  eapply (wp_lrelease b (lp_own c)); [done| | |].
  - split; unfold acc_out; rewrite ?Hp, ?Ho, ?Hso; try done; [lia|set_solver].
  - intros s' Hs' Hc' Hpos' Hr' Hw' Hk'. split.
    + left. exists rest, io', (cnt - 1). cbn. split; rewrite ?Hr', ?Hr, ?Hrd; try done.
      * intros Hown Hno. by rewrite (Hun Hown Hno) in Ea.
      * intros _ Hown Hsome. specialize (Hshown Hsome). unfold shown, cur in *. by rewrite Hw'.
      * naive_solver.
    + exists []. cbn. rewrite app_nil_r. split; [done|]. by rewrite (held_sock _ _ _ _ _ Hs'), Hk'.
  - intros s' Ha Hown Ho' Hl' Hr' Hw'. rewrite Hown. assert (lp_want c = false) as -> by (destruct (lp_want c); [naive_solver congruence|done]).
    apply lpost_gone; [done|done|]. rewrite Hl', Hl, (held_sock _ _ _ _ _ Hs0). unfold io_socks. rewrite Hso, Ea. cbn. set_solver.
Qed.

Lemma wp_accept_done b c rest io cnt token n k' :
  llive b (lp_own c) (lp_want c) (lp_again c) rest io cnt (lp_sys c) → k_delivers (kernel (lp_sys c)) (accept_ptr b) n k' →
  wp (accept_done (mkStatus (Some (accept_ptr b)) token n))
    (λ _ s', lpost b c (mkLProg s' (lp_own c) (lp_want c) (lp_again c) (lp_given c))) (set_kern k' (lp_sys c)).
Proof.
  intros Hll Hd. pose proof Hll as [Hs Hc _ _ _ _ _ _]. destruct (kl_delivers _ _ _ _ Hd) as (i & o & Hi & _ & Ho & _ & _ & _ & _ & Hl & _).
  destruct Hc as [Hcnt Hout Hex Hlive Hfresh]. unfold acc_out, io_socks in *. pose proof (lookup_lt_Some _ _ _ Hi) as Hlt.
  destruct (l_accept (io_inner io)) as [|x|xa|e] eqn:Ea; cbn in *; [lia| |lia..].
  assert (k_out k' (accept_ptr b) = []) as Ho'.
  { rewrite Ho. apply nil_length_inv. rewrite length_delete by eauto. lia. }
  unfold accept_done. wp_step. eapply wp_lift; [cbn; by rewrite Z.sub_diag|]. wp_step. eapply wp_inner; [by apply sock_ok_kern|].
  rewrite Ea. wp_step. eapply wp_write_inner; [by apply sock_ok_kern|]. intros s1 Hs1 Hr1 Hw1 Hk1. cbn [kernel set_kern] in Hk1.
  wp_step. eapply wp_socket; [done|]. wp_step. apply wp_kcall. intros r1 k2 E2. rewrite Hk1 in E2.
  pose proof (kl_accept_complete (io_socket io) x k') as Hk2. cbn [io_socket set_inner] in E2. rewrite E2 in Hk2. cbn in Hk2.
  wp_step. apply (wp_mono _ (λ r s3, ∃ k3, s3 = set_kern k3 s1 ∧ k_same k' k3)).
  { destruct r1 as [[]|e]; [|apply wp_ret; by exists k2]. apply wp_kcall. intros r3 k3 E3. exists k3. split; [done|].
    pose proof (kl_accept_remote (io_socket io) (accept_ptr b) k2) as Hk3. cbn in E3. rewrite E3 in Hk3. by eapply k_same_trans. }
  intros r ? (k3 & -> & Ho3 & _ & _ & Hl3 & _). cbn beta zeta. set (res := match r with Ok (Some a) => Ok a | _ => _ end).
  set (a := match res with Ok ra => SReady (x, ra) | Err e => SError e end).
  wp_step. eapply wp_write_inner; [by apply sock_ok_kern|]. intros s4 Hs4 Hr4 Hw4 Hk4. wp_step.
  eapply wp_add_readiness; [done|done|]. intros s5 Hs5 Hk5 Hr5 Hcur5. rewrite Hk4 in Hk5. cbn [kernel set_kern] in Hk5. wp_step.
  assert (regs s5 !! b = regs (lp_sys c) !! b) as Hr by (rewrite Hr5, Hr4; cbn; by rewrite Hr1).
  destruct res as [ra|e]; cbn [is_ok].
  - wp_step. eapply (wp_accept_end b c rest io x); [done|done|exact Hs5|done|done|done|done|by rewrite Hk5, Ho3| |done|].
    + rewrite Hk5, Hl3, Hl. cbn. apply set_eq. intros y. destruct (decide (y = x)); set_solver.
    + intros Hsome. unfold shown. cbn [l_accept io_inner set_inner set_accept a]. by rewrite Hcur5, readable_or.
  - apply wp_kcall. intros [] k6 [= <-]. destruct (kl_close x (kernel s5)) as (Ho6 & Hl6 & _).
    eapply (wp_accept_end b c rest io x); [done|done|by apply sock_ok_kern|done|done|done|set_solver| | |done|].
    + cbn. by rewrite Ho6, Hk5, Ho3.
    + cbn. rewrite Hl6, Hk5, Hl3, Hl. set_solver.
    + intros Hsome. exact (eq_trans (f_equal Ready.is_readable (Hcur5 Hsome)) (readable_or _ _)).
Qed.

Lemma lop_inv b op c : linv b c → lp_own c = true → lop_ok b op (lp_sys c) → ∃ c', run_lop b op c = Done c' ∧ lpost b c c'.
Proof.
  intros [(rest & io & cnt & Hl)|Hg] Hown Hok; [|by rewrite (lg_own _ _ _ _ Hg) in Hown].
  pose proof (sk_box _ _ _ _ _ (ll_sock _ _ _ _ _ _ _ _ Hl)) as Hb. rewrite Hown in Hl.
  destruct op as [poll p token interest opts|poll p token interest opts|poll p| |]; cbn [run_lop lop_ok] in *; rewrite ?Hown.
  - apply (run_of_wp _ (λ r s, mkLProg s true (is_ok r) _ _)). by eapply wp_l_register.
  - apply (run_of_wp _ (λ r s, mkLProg s true (is_ok r) _ _)). eapply wp_l_reregister; [done|apply Hok|]. exact (proj2 Hok _ Hb).
  - apply (run_of_wp _ (λ r s, mkLProg s true false _ _)). eapply wp_l_deregister; [done|apply Hok|]. exact (proj2 Hok _ Hb).
  - apply (run_of_wp _ (λ r s, mkLProg s true _ _ (lp_given c ++ handed r))). by eapply wp_l_accept.
  - apply (run_of_wp _ (λ r s, mkLProg s false false _ _)). by eapply wp_l_drop.
Qed.

Lemma accept_inv b n token k' c :
  linv b c → k_delivers (kernel (lp_sys c)) (accept_ptr b) n k' → ∃ c', run_lev b (LEvComplete n token k') c = Done c' ∧ lpost b c c'.
Proof.
  intros [(rest & io & cnt & Hl)|Hg] Hd.
  - cbn [run_lev]. apply (run_of_wp _ (λ _ s, mkLProg s (lp_own c) (lp_want c) (lp_again c) (lp_given c))). unfold listener_callback. wp_step.
    eapply wp_the_box; [by apply sock_ok_kern, Hl|]. cbn [p_off accept_ptr]. rewrite Z.eqb_refl. by eapply wp_accept_done.
  - exfalso. destruct (kl_delivers _ _ _ _ Hd) as (i & o & Hi & _). by rewrite (lg_out _ _ _ _ Hg) in Hi.
Qed.

Lemma lothers_inv b s' c :
  linv b c → lenabled b (LEvOther s') c → linv b (mkLProg s' (lp_own c) (lp_want c) (lp_again c) (lp_given c)).
Proof.
  intros Hi [Hot Hlv]. pose proof Hot as [Ha Hr _ Ho Hs _]. destruct Hi as [(rest & io & cnt & [Hsk Hc Hpos Hreg Hboth Hun Hsh Hwant])|[Hb ? ? Hout]].
  - left. destruct (others_sock_ok _ _ _ _ _ _ Hot Hsk) as [rest' Hsk']. destruct (Hs _ (sk_box _ _ _ _ _ Hsk)) as (_ & _ & Hcur).
    cbn in Hcur. exists rest', io, cnt. cbn [lp_sys lp_own lp_want lp_again lp_given]. split; rewrite ?Hr; try done.
    + destruct Hc as [? ? ? ? ?]. split; unfold acc_out in *; unfold accept_ptr in *; rewrite ?Ho; try done.
      rewrite <- (held_sock _ _ _ _ _ Hsk). apply Hlv. by rewrite (held_sock _ _ _ _ _ Hsk).
    + intros. unfold shown. rewrite Hcur. by apply Hsh.
  - right. split; cbn; [by rewrite Ha|done|done|]. unfold accept_ptr in *. by rewrite !Ho.
Qed.

Lemma lreach_inv b c : lreach b c → linv b c.
Proof.
  induction 1 as [sock addr s s' rest Ho Hr Hout Hlv E|c e c' _ IH He E].
  - unfold TcpListener_new, new_family, on_arcs, FromRawArc_new in E. cbn in E. injection E as Eb <-.
    set (fam := match addr with V4 _ _ => FamV4 | V6 _ _ _ _ => FamV6 end).
    left. exists rest, (mkIo sock lazy_new None (mkListenerInner fam SEmpty false)), 1. cbn.
    split; [split|..]; cbn; [rewrite Eb; apply lookup_insert_eq|by rewrite Hr| |by rewrite Hr; intros []|..]; try done.
    + intros i. by rewrite lazy_borrow_new.
    + split; cbn; unfold acc_out, io_socks; cbn; rewrite ?Hout; set_solver.
  - destruct e as [op|n token k'|s']; cbn [lenabled] in He.
    + destruct He as [Hown Hok]. destruct (lop_inv b op c IH Hown Hok) as (c1 & E1 & Hi & _). change (run_lop b op c = Done c') in E. congruence.
    + destruct (accept_inv b n token k' c IH He) as (c1 & E1 & Hi & _). congruence.
    + cbn in E. simplify_eq. by apply lothers_inv.
Qed.

(** ** The theorems *)

(** C25: nothing the owner of a listener does, and no completion, touches the box
    of the listener after it was freed or meets a state it does not expect.  The
    sockets it opens for its accepts are neither leaked nor closed by mistake: in
    every step the open sockets are the ones before, less those the box held, with
    those it holds now and those handed out, which are among the former and are
    not held any more; a socket that comes in was not open before.  The owner's calls
    are restricted by [lop_ok]. *)
Theorem listener_sockets_accounted (b : positive) (c : LProg) (e : LEv) :
  lreach b c → lenabled b e c →
  held_socks b (lp_sys c) ⊆ k_live (kernel (lp_sys c)) ∧
  ∃ c', run_lev b e c = Done c' ∧ ((∃ s', e = LEvOther s') ∨ step_accounts b c c').
Proof.
  intros Hr He. pose proof (lreach_inv b c Hr) as Hi. split.
  - destruct Hi as [(rest & io & cnt & Hl)|Hg].
    + rewrite (held_sock _ _ _ _ _ (ll_sock _ _ _ _ _ _ _ _ Hl)). apply (lc_live _ _ _ _ _ (ll_core _ _ _ _ _ _ _ _ Hl)).
    + unfold held_socks. rewrite (lg_box _ _ _ _ Hg). set_solver.
  - destruct e as [op|n token k'|s']; cbn [lenabled] in He; [| |by eauto].
    + destruct He as [Hown Hok]. destruct (lop_inv b op c Hi Hown Hok) as (c1 & E1 & _ & Ha). eauto.
    + destruct (accept_inv b n token k' c Hi He) as (c1 & E1 & _ & Ha). eauto.
Qed.

(** a listener that was registered, once, is readable, or an accept is in
    flight whose completion makes it so, provided that no accept completes at once
    and accepted sockets can be made non-blocking; and its box is freed as soon as
    the listener is dropped and no accept is in flight. *)
Theorem listener_progress (b : positive) (c : LProg) :
  accept_pends → nonblocking_works → lreach b c →
  (lp_want c = true → lp_again c = false →
    ∃ i, arcs (lp_sys c) !! b = Some i ∧
      (Ready.is_readable (cur (ai_data i) (lp_sys c)) = true ∨ k_out (kernel (lp_sys c)) (accept_ptr b) ≠ [])) ∧
  (is_Some (arcs (lp_sys c) !! b) ↔ lp_own c = true ∨ k_out (kernel (lp_sys c)) (accept_ptr b) ≠ []).
Proof.
  intros Hap Hnb Hr. destruct (lreach_inv b c Hr) as [(rest & io & cnt & [Hs Hc Hpos _ _ _ Hsh Hw])|[Hb Hown Hwant Ho]].
  - pose proof (lc_exact _ _ _ _ _ Hc Hap) as Hex. unfold acc_out in Hex. rewrite (sk_box _ _ _ _ _ Hs). split.
    + intros Hwant Hag. eexists. split; [done|]. cbn. destruct (Hw Hwant) as (Hown & Hsome & Hne). specialize (Hsh Hag Hown Hsome).
      unfold shown in Hsh. destruct (l_accept (io_inner io)); [by destruct Hne|right|by left..]. by destruct (k_out _ _).
    + split; [intros _|by eexists]. destruct (lp_own c) eqn:Eo; [by left|right]. rewrite (lc_cnt _ _ _ _ _ Hc) in Hpos. cbn in Hpos.
      destruct (k_out _ _); [cbn in Hex; lia|done].
  - split; [congruence|]. rewrite Hb, Hown, Ho. split; [by intros []|naive_solver].
Qed.
End listener.
Arguments LOp P : clear implicits.
Arguments LProg C W R H K : clear implicits.
Arguments LEv C W R H P K : clear implicits.
