(* ===== verification/WinUdp.v ===== *)
(** * sys/windows/udp.rs

    A receive is kept in flight; when it completes the socket is readable and the
    datagram waits in its buffer for [recv_from].  [send_to] copies a datagram and
    hands it to the kernel; the next can be sent when that is over. *)

From S2P Require Import Prelude Event Convert Iface Windows WinSock.

Definition WSAEMSGSIZE : Z := 10040.

(** Where the [Overlapped] fields of [Io] lie. *)
Class UdpLayout : Type := { off_recv : Z; off_send : Z }.
Class UdpLayoutOk `{UdpLayout} : Prop := { off_udp_distinct : off_recv ≠ off_send }.

(** The overlapped calls of miow; [k_recv_from_overlapped s n p]: a receive into a
    buffer of [n] bytes, which the kernel fills, with the address ([k_mem]). *)
Class UdpSys (K : Type) : Type := {
  k_send_to_overlapped : Z → list Z → SocketAddr → Ptr → K → io_result (option Z) * K;
  k_recv_from_overlapped : Z → Z → Ptr → K → io_result (option Z) * K }.

Class UdpLaws (K : Type) `{WinSys K, WinSpec K, UdpSys K} : Prop := {
  kl_send_to s data a p k r k' :
    k_send_to_overlapped s data a p k = (r, k') →
    issued k k' p (posts (k_skip k s) r) (mkOp s data None) ∧
    (∀ p', k_mem k' p' = k_mem k p') ∧ (∀ s', k_received k' s' = k_received k s') ∧
    k_posted k' s = k_posted k s ++ (if is_ok r then [(data, a)] else []);
  kl_recv_from s n p k r k' :
    k_recv_from_overlapped s n p k = (r, k') →
    issued k k' p (posts (k_skip k s) r) (mkOp s [] (Some n)) ∧
    (posts (k_skip k s) r = true ∨ is_ok r = false → ∀ s', k_received k' s' = k_received k s') ∧
    (∀ s', k_posted k' s' = k_posted k s') }.

Record UdpInner : Type := mkUdpInner {
  u_read : State Buf Buf;
  u_write : State Buf (Buf * Z) }.

Definition set_uread r (me : UdpInner) := mkUdpInner r (u_write me).
Definition set_uwrite w (me : UdpInner) := mkUdpInner (u_read me) w.

Section udp.
Context {C : Type → Type} {cell_ops : LazyCellOps C}.
Context {W R H P : Type} {rd_ops : ReadinessOps W H} {reg_ops : RegistrationOps W R H P} {drop_ops : HandleDropOps W R H}.
Context {K : Type} {iocp_ops : IocpOps K} {win : WinSys K} {udp : UdpSys K}.
Context {layout : UdpLayout} {reserve : VecReserve}.
Abbreviation Sys := (WSys C W R H K UdpInner).

Definition recv_ptr (b : positive) : Ptr := mkPtr b off_recv.
Definition send_ptr (b : positive) : Ptr := mkPtr b off_send.

Definition UdpSocket_new (sock : Z) : M Sys (io_result positive) :=
  b ← on_arcs (FromRawArc_new (mkIo sock lazy_new None (mkUdpInner SEmpty SEmpty)));
  mret (Ok b).

(** [local_addr], [take_error] and the socket options: [call] on the socket. *)
Definition UdpSocket_forward {A} (call : Z → K → io_result A * K) (b : positive) : M Sys (io_result A) :=
  sock ← socket b; kcall (call sock).

Definition UdpSocket_try_clone (try_clone : Z → K → io_result Z * K) (b : positive) : M Sys (io_result positive) :=
  r ← UdpSocket_forward try_clone b;
  match r with Ok s => UdpSocket_new s | Err e => mret (Err e) end.

Definition send_to (b : positive) (buf : list Z) (target : SocketAddr) : M Sys (io_result (option Z)) :=
  me ← inner b;
  match u_write me with
  | SEmpty =>
      reg ← iocp b (gets registered);
      if negb reg then mret (Ok None)
      else
        _ ← clear_readiness b Ready.writable;
        owned_buf ← iocp b (get_buffer (64 * 1024));
        (* [Write for Vec] takes all of the bytes *)
        let owned_buf := extend_from_slice owned_buf buf in
        let amt := Z.of_nat (length buf) in
        sock ← socket b;
        try! kcall (k_send_to_overlapped sock (b_bytes owned_buf) target (send_ptr b));
        _ ← write_inner b (set_uwrite (SPending owned_buf));
        _ ← forget_clone b;
        mret (Ok (Some amt))
  | _ => mret (Ok None)
  end.

(** The buffer is as long as its capacity while the kernel has it; its bytes are
    the kernel's until then. *)
Definition udp_schedule_read (b : positive) : M Sys unit :=
  me ← inner b;
  match u_read me with
  | SEmpty =>
      _ ← clear_readiness b Ready.readable;
      buf ← iocp b (get_buffer (64 * 1024));
      sock ← socket b;
      res ← kcall (k_recv_from_overlapped sock (b_cap buf) (recv_ptr b));
      match res with
      | Ok _ =>
          _ ← write_inner b (set_uread (SPending buf));
          forget_clone b
      | Err e =>
          _ ← write_inner b (set_uread (SError e));
          _ ← add_readiness b Ready.readable;
          iocp b (put_buffer buf)
      end
  | _ => mret tt
  end.

(** Receiving into a buffer of the given length, with what is written to it. *)
Definition recv_from (b : positive) (len : Z) : M Sys (io_result (option (Z * SocketAddr)) * list Z) :=
  me ← inner b;
  match u_read me with
  | SEmpty | SPending _ => mret (Ok None, [])
  | SReady data =>
      let n := Z.of_nat (length (b_bytes data)) in
      if len <? n then mret (Err (io_os WSAEMSGSIZE), [])
      else
        addr ← gets (λ s, snd (k_mem (kernel s) (recv_ptr b)));
        let r :=
          match addr with
          | Some addr => (Ok (Some (n, addr)), b_bytes data)
          | None => (Err (io_custom Other "failed to parse socket address"), [])
          end in
        _ ← write_inner b (set_uread SEmpty);
        _ ← iocp b (put_buffer data);
        _ ← udp_schedule_read b;
        mret r
  | SError e =>
      _ ← write_inner b (set_uread SEmpty);
      _ ← udp_schedule_read b;
      mret (Err e, [])
  end.

Definition udp_post_register (b : positive) (interest : Ready.t) : M Sys unit :=
  _ ← (if Ready.is_readable interest then udp_schedule_read b else mret tt);
  me ← inner b;
  if Ready.is_writable interest
  then match u_write me with SEmpty => add_readiness b Ready.writable | _ => mret tt end
  else mret tt.

Definition UdpSocket_register (b : positive) (poll : Z) (p : P) (token : Token) (interest : Ready.t) (opts : PollOpt.t)
    : M Sys (io_result unit) :=
  sock ← socket b;
  try! iocp b (register_socket sock poll p token interest opts);
  _ ← udp_post_register b interest;
  mret (Ok tt).

Definition UdpSocket_reregister (b : positive) (poll : Z) (p : P) (token : Token) (interest : Ready.t) (opts : PollOpt.t)
    : M Sys (io_result unit) :=
  try! iocp b (reregister_socket poll p token interest opts);
  _ ← udp_post_register b interest;
  mret (Ok tt).

Definition UdpSocket_deregister (b : positive) (poll : Z) (p : P) : M Sys (io_result unit) :=
  iocp b (deregister poll p).

Definition udp_arc_drop (b : positive) : M Sys unit := arc_drop (λ _, mret tt) b.

Definition UdpSocket_drop (b : positive) : M Sys unit :=
  me ← inner b;
  _ ← match u_read me with
      | SPending _ => sock ← socket b; _ ← cancel sock (recv_ptr b); mret tt
      | SEmpty | SReady _ | SError _ => mret tt
      end;
  _ ← udp_arc_drop b;
  drop_registration b.

Definition send_done (status : CompletionStatus) : M Sys unit :=
  b ← lift (overlapped2arc (cs_overlapped status) off_send);
  _ ← write_inner b (set_uwrite SEmpty);
  _ ← add_readiness b Ready.writable;
  udp_arc_drop b.

(** A length beyond the capacity would reach outside of the buffer. *)
Definition set_len (buf : Buf) (mem : list Z) (n : Z) : outcome Buf :=
  if n <=? b_cap buf then Done (mkBuf (take (Z.to_nat n) mem) (b_cap buf)) else Panic.

Definition recv_done (status : CompletionStatus) : M Sys unit :=
  b ← lift (overlapped2arc (cs_overlapped status) off_recv);
  me ← inner b;
  match u_read me with
  | SPending buf =>
      mem ← gets (λ s, fst (k_mem (kernel s) (recv_ptr b)));
      buf ← lift (set_len buf mem (cs_bytes status));
      _ ← write_inner b (set_uread (SReady buf));
      _ ← add_readiness b Ready.readable;
      udp_arc_drop b
  | _ => panic
  end.

Definition udp_callback (o : Ptr) (status : CompletionStatus) : M Sys unit :=
  _ ← the_box (p_box o);
  if p_off o =? off_recv then recv_done status
  else if p_off o =? off_send then send_done status
  else panic.
End udp.
