(* ===== verification/WinUdpThm.v ===== *)
(** * Theorems about UDP sockets on Windows

    A program over one socket, as in [WinTcpThm.v]: its owner calls the operations
    of [UdpSocket], the kernel delivers completions, and the rest of the program
    changes the rest of the state in between. *)

From S2P Require Import Prelude Event Convert Iface Windows WindowsThm WinSock WinSockInv WinUdp.

Section udp.
Context {C : Type → Type} {cell_ops : LazyCellOps C} {cell_laws : LazyCellLaws C}.
Context {W R H P : Type} {rd_ops : ReadinessOps W H} {reg_ops : RegistrationOps W R H P} {drop_ops : HandleDropOps W R H}.
Context {rd_spec : ReadinessSpec W H} {h_spec : HandleSpec W R H} {h_laws : HandleLaws W R H P}.
Context {K : Type} {iocp_ops : IocpOps K} {win : WinSys K} {spec : WinSpec K} {laws : WinLaws K}.
Context {udp : UdpSys K} {udp_laws : UdpLaws K}.
Context {layout : UdpLayout} {layout_ok : UdpLayoutOk} {reserve : VecReserve}.
Abbreviation Io := (Io C H UdpInner).
Abbreviation Sys := (WSys C W R H K UdpInner).
Implicit Types s : Sys.
Implicit Types io : Io.
Implicit Types k : K.

Abbreviation Gram := (list Z * SocketAddr)%type.

(** ** Programs *)

Inductive UOp : Type :=
  | URegister (poll : Z) (p : P) (token : Token) (interest : Ready.t) (opts : PollOpt.t)
  | UReregister (poll : Z) (p : P) (token : Token) (interest : Ready.t) (opts : PollOpt.t)
  | UDeregister (poll : Z) (p : P)
  | USendTo (data : list Z) (target : SocketAddr)
  | URecvFrom (len : Z)
  | UDrop.

(** [up_own]: the [UdpSocket] is alive; [up_want]: it is registered with readable
    interest; [up_again]: it was to be registered once more; [up_got]: the
    datagrams [recv_from] has returned; [up_acc]: those [send_to] has accepted. *)
Record UProg : Type := mkUProg {
  up_sys : Sys; up_own : bool; up_want : bool; up_again : bool; up_got : list Gram; up_acc : list Gram }.

Definition returned (r : io_result (option (Z * SocketAddr)) * list Z) : list Gram :=
  match r with (Ok (Some (_, a)), data) => [(data, a)] | _ => [] end.
Definition sent (data : list Z) (target : SocketAddr) (r : io_result (option Z)) : list Gram :=
  match r with Ok (Some _) => [(data, target)] | _ => [] end.
Definition uwants (interest : Ready.t) (r : io_result unit) : bool := is_ok r && Ready.is_readable interest.

Definition run_uop (b : positive) (op : UOp) (c : UProg) : outcome UProg :=
  let s := up_sys c in
  match op with
  | URegister poll p token interest opts =>
      '(r, s) ← UdpSocket_register b poll p token interest opts s;
      Done (mkUProg s (up_own c) (uwants interest r) (up_again c || bool_decide (is_Some (regs (up_sys c) !! b))) (up_got c) (up_acc c))
  | UReregister poll p token interest opts =>
      '(r, s) ← UdpSocket_reregister b poll p token interest opts s;
      Done (mkUProg s (up_own c) (uwants interest r) (up_again c) (up_got c) (up_acc c))
  | UDeregister poll p =>
      '(_, s) ← UdpSocket_deregister b poll p s; Done (mkUProg s (up_own c) false (up_again c) (up_got c) (up_acc c))
  | USendTo data target =>
      '(r, s) ← send_to b data target s;
      Done (mkUProg s (up_own c) (up_want c) (up_again c) (up_got c) (up_acc c ++ sent data target r))
  | URecvFrom len =>
      '(r, s) ← recv_from b len s; Done (mkUProg s (up_own c) (up_want c) (up_again c) (up_got c ++ returned r) (up_acc c))
  | UDrop => '(_, s) ← UdpSocket_drop b s; Done (mkUProg s false false (up_again c) (up_got c) (up_acc c))
  end.

Inductive UEv : Type :=
  | UEvOp (op : UOp)
  | UEvComplete (p : Ptr) (n : Z) (token : Z) (k' : K)
  | UEvOther (s' : Sys).

Definition run_uev (b : positive) (e : UEv) (c : UProg) : outcome UProg :=
  match e with
  | UEvOp op => run_uop b op c
  | UEvComplete p n token k' =>
      '(_, s) ← udp_callback p (mkStatus (Some p) token n) (set_kern k' (up_sys c));
      Done (mkUProg s (up_own c) (up_want c) (up_again c) (up_got c) (up_acc c))
  | UEvOther s' => Done (mkUProg s' (up_own c) (up_want c) (up_again c) (up_got c) (up_acc c))
  end.

(** Registering needs a selector with a pool; [reregister] and [deregister] are
    for sockets a registration of which succeeded (or for another selector), while no
    poll sleeps. *)
Definition uop_ok (b : positive) (op : UOp) (s : Sys) : Prop :=
  match op with
  | URegister poll _ _ _ _ => has_pool s poll
  | UReregister poll _ _ _ _ | UDeregister poll _ =>
      rd_awake (world s) ∧ ∀ i, arcs s !! b = Some i → lazy_borrow (io_selector (ai_data i)) = Some poll → is_Some (regs s !! b)
  | _ => True
  end.

(** The kernel writes to the memory of a receive only while it is in flight. *)
Definition grams_kept (b : positive) (s s' : Sys) : Prop :=
  (k_out (kernel s) (recv_ptr b) = [] → k_mem (kernel s') (recv_ptr b) = k_mem (kernel s) (recv_ptr b)) ∧
  ∀ i, arcs s !! b = Some i →
    k_received (kernel s') (io_socket (ai_data i)) = k_received (kernel s) (io_socket (ai_data i)) ∧
    k_posted (kernel s') (io_socket (ai_data i)) = k_posted (kernel s) (io_socket (ai_data i)).

Definition uenabled (b : positive) (e : UEv) (c : UProg) : Prop :=
  match e with
  | UEvOp op => up_own c = true ∧ uop_ok b op (up_sys c)
  | UEvComplete p n _ k' => (p = recv_ptr b ∨ p = send_ptr b) ∧ k_delivers (kernel (up_sys c)) p n k'
  | UEvOther s' => others_ok b (up_sys c) s' ∧ grams_kept b (up_sys c) s'
  end.

Inductive ureach (b : positive) : UProg → Prop :=
  | ureach_new sock s s' rest :
      rd_own (world s) rest → regs s !! b = None → (∀ off, k_out (kernel s) (mkPtr b off) = []) →
      k_skip (kernel s) sock = false → k_received (kernel s) sock = [] → k_posted (kernel s) sock = [] →
      UdpSocket_new sock s = Done (Ok b, s') → ureach b (mkUProg s' true false false [] [])
  | ureach_step c e c' : ureach b c → uenabled b e c → run_uev b e c = Done c' → ureach b c'.

(** ** The invariant *)

Definition upend {T U} (x : State T U) : Z := match x with SPending _ => 1 | _ => 0 end.
(** The datagram that waits for [recv_from]. *)
Definition arrived (r : State Buf Buf) (b : positive) (k : K) : list (list Z * option SocketAddr) :=
  match r with SReady buf => [(b_bytes buf, snd (k_mem k (recv_ptr b)))] | _ => [] end.
(** A datagram whose address can be parsed. *)
Definition addressed (x : list Z * option SocketAddr) : option Gram := (λ a, (fst x, a)) <$> snd x.

Record ucore (held : Z) (got acc : list Gram) (b : positive) (io : Io) (cnt : Z) (k : K) : Prop := {
  uc_cnt : cnt = held + upend (u_read (io_inner io)) + upend (u_write (io_inner io));
  uc_read : k_out k (recv_ptr b) =
    match u_read (io_inner io) with SPending buf => [mkOp (io_socket io) [] (Some (b_cap buf))] | _ => [] end;
  uc_write : k_out k (send_ptr b) =
    match u_write (io_inner io) with SPending buf => [mkOp (io_socket io) (b_bytes buf) None] | _ => [] end;
  uc_sends : match u_write (io_inner io) with SEmpty | SPending _ => True | _ => False end;
  uc_skip : k_skip k (io_socket io) = false;
  uc_recv : ∃ old, k_received k (io_socket io) = old ++ arrived (u_read (io_inner io)) b k ∧ got = omap addressed old;
  uc_post : k_posted k (io_socket io) = acc }.

Definition ushown (io : Io) (s : Sys) : Prop :=
  match u_read (io_inner io) with
  | SEmpty | SPending _ => True
  | SReady _ | SError _ => Ready.is_readable (cur io s) = true
  end.

Definition udp_frame (io io' : Io) : Prop :=
  io_socket io' = io_socket io ∧ io_selector io' = io_selector io ∧ io_readiness io' = io_readiness io ∧
  u_write (io_inner io') = u_write (io_inner io).

Lemma udp_ptr_ne b : recv_ptr b ≠ send_ptr b.
Proof. intros [= Hp]. by apply off_udp_distinct. Qed.

Lemma ucore_pos held got acc b io cnt k : ucore held got acc b io cnt k → held <= cnt <= held + 2.
Proof. intros [-> _ _ _ _ _ _]. destruct (u_read _), (u_write _); cbn; lia. Qed.

Lemma ucore_same held got acc b io cnt k k' : k_same k k' → ucore held got acc b io cnt k → ucore held got acc b io cnt k'.
Proof.
  intros (Ho & Hs & _ & _ & Hm & Hr & Hp) []. split; rewrite ?Ho, ?Hs, ?Hp; try done. rewrite Hr.
  unfold arrived in *. by rewrite Hm.
Qed.

Lemma ucore_readiness held got acc b io io' cnt k :
  io_inner io' = io_inner io → io_socket io' = io_socket io → ucore held got acc b io cnt k → ucore held got acc b io' cnt k.
Proof. intros Hi Hs []. split; rewrite ?Hi, ?Hs; done. Qed.

(** A datagram, or an error, is taken. *)
Lemma ucore_take held got acc b io cnt k :
  ucore held got acc b io cnt k → upend (u_read (io_inner io)) = 0 →
  ucore held (got ++ omap addressed (arrived (u_read (io_inner io)) b k)) acc b (set_inner (set_uread SEmpty) io) cnt k.
Proof.
  intros [Hc Hr Hw Hws Hs (old & Ho & ->) Hp] H0. split; cbn; try done; [lia|by rewrite Hr; destruct (u_read _)|].
  exists (old ++ arrived (u_read (io_inner io)) b k). rewrite omap_app, app_nil_r. done.
Qed.

(** A datagram is handed to the kernel, or the kernel refuses it. *)
Lemma ucore_send got acc b io cnt k buf data target r k' :
  ucore 1 got acc b io cnt k → u_write (io_inner io) = SEmpty → b_bytes buf = data →
  k_send_to_overlapped (io_socket io) data target (send_ptr b) k = (r, k') →
  ucore 1 got (acc ++ (if is_ok r then [(data, target)] else [])) b
    (set_inner (set_uwrite (if is_ok r then SPending buf else SEmpty)) io) (cnt + Z.b2z (is_ok r)) k'.
Proof.
  intros [Hcnt Hr Hwr Hws Hsk (old & Ho & Hgot) Hp] Ew Hbytes E. destruct (kl_send_to _ _ _ _ _ _ _ E) as ((Ho4 & Ho4' & Hsk4 & _) & Hm4 & Hrc4 & Hp4).
  rewrite Hsk in Ho4. rewrite Hwr, Ew in Ho4. cbn in Ho4.
  assert (k_out k' (recv_ptr b) = k_out k (recv_ptr b)) as Hor by (apply Ho4', udp_ptr_ne). rewrite Ew in Hcnt. cbn [upend] in Hcnt.
  split; cbn [u_read u_write io_inner io_socket set_inner set_uwrite]; rewrite ?Hor, ?Hsk4, ?Hrc4; try done.
  - destruct r; cbn [is_ok Z.b2z]; cbn [upend]; lia.
  - rewrite Ho4. destruct r as [[n|]|]; cbn [is_ok]; by rewrite ?Hbytes.
  - by destruct r.
  - exists old. unfold arrived. by rewrite Hm4.
  - by rewrite Hp4, Hp.
Qed.

(** The completion of a receive: the datagram is in the buffer. *)
Lemma ucore_received held got acc b io cnt k k' n :
  ucore held got acc b io cnt k → k_delivers k (recv_ptr b) n k' →
  ∃ buf, u_read (io_inner io) = SPending buf ∧ n <= b_cap buf ∧
    ucore (held + 1) got acc b (set_inner (set_uread (SReady (mkBuf (take (Z.to_nat n) (fst (k_mem k' (recv_ptr b)))) (b_cap buf)))) io) cnt k'.
Proof.
  intros [Hcnt Hr Hwr Hws Hsk (old & Ho & Hgot) Hp] Hd.
  destruct (kl_delivers _ _ _ _ Hd) as (i & o & Hi & Hn & Ho1 & Ho1' & Hsk1 & _ & _ & _ & _ & Hp1 & _ & Hrc1).
  rewrite Hr in Hi, Ho1. destruct (u_read (io_inner io)) as [|buf|x|e]; [done| |done..]. destruct i; [|done]. cbn in Hi. injection Hi as <-.
  cbn in Hn, Hcnt, Ho1, Ho, Hrc1. exists buf. split; [done|]. split; [lia|].
  assert (k_out k' (send_ptr b) = k_out k (send_ptr b)) as How by (apply Ho1', not_eq_sym, udp_ptr_ne).
  split; cbn; rewrite ?How, ?Hsk1, ?Hp1; try done; [lia|]. exists old. destruct Hrc1 as [_ ->]. by rewrite Ho, app_nil_r.
Qed.

(** The completion of a send. *)
Lemma ucore_sent held got acc b io cnt k k' n :
  ucore held got acc b io cnt k → k_delivers k (send_ptr b) n k' →
  ucore (held + 1) got acc b (set_inner (set_uwrite SEmpty) io) cnt k'.
Proof.
  intros [Hcnt Hr Hwr Hws Hsk (old & Ho & Hgot) Hp] Hd.
  destruct (kl_delivers _ _ _ _ Hd) as (i & o & Hi & Hn & Ho1 & Ho1' & Hsk1 & _ & _ & _ & Hm1 & Hp1 & Hrcx & Hrc1).
  rewrite Hwr in Hi, Ho1. destruct (u_write (io_inner io)) as [|buf|x|e]; [done| |done..]. destruct i; [|done]. cbn in Hi. injection Hi as <-.
  cbn in Hcnt, Ho1, Hrc1. destruct Hrc1 as [Hm1' Hrc1].
  assert (k_out k' (recv_ptr b) = k_out k (recv_ptr b)) as Hor by (apply Ho1', udp_ptr_ne).
  split; cbn; rewrite ?Hor, ?Hsk1, ?Hp1, ?Hrc1; try done; [lia|]. exists old. unfold arrived in *. rewrite Hm1 by apply udp_ptr_ne. done.
Qed.

Lemma wp_udp_schedule_read held got acc b rest io cnt s (Q : unit → Sys → Prop) :
  sock_ok b rest io cnt s → ucore held got acc b io cnt (kernel s) → 0 <= held <= 2 →
  (∀ io' cnt' s', sock_ok b rest io' cnt' s' → ucore held got acc b io' cnt' (kernel s') → udp_frame io io' →
    regs s' !! b = regs s !! b → (is_Some (io_readiness io) → u_read (io_inner io) = SEmpty ∨ ushown io s → ushown io' s') →
    u_read (io_inner io') ≠ SEmpty → Q tt s') →
  wp (udp_schedule_read b) Q s.
Proof.
  intros Hs Hc Hheld HQ. pose proof (ucore_pos _ _ _ _ _ _ _ Hc) as Hb. unfold udp_schedule_read. wp_step. eapply wp_inner; [done|].
  assert (u_read (io_inner io) ≠ SEmpty → wp (mret tt) Q s) as Hskip.
  { intros Hne. apply wp_ret. apply (HQ io cnt s); [done|done|done|done| |done]. by intros _ [?|?]. }
  destruct (u_read (io_inner io)) as [|x|x|e] eqn:Er; [|by apply Hskip..]. clear Hskip.
  wp_step. eapply wp_clear_readiness; [done|]. intros s1 Hs1 Hk1 Hr1 _. wp_step.
  eapply wp_get_buffer; [done|]. intros buf s2 Hs2 Hb2 Hk2 Hr2 _. wp_step. eapply wp_socket; [done|]. wp_step.
  apply wp_kcall. intros res k3 E3. rewrite Hk2, Hk1 in E3. pose proof (sock_ok_kern _ _ _ _ _ k3 Hs2) as Hs3.
  destruct (kl_recv_from _ _ _ _ _ _ E3) as ((Ho3 & Ho3' & Hsk3 & _) & Hrc3 & Hp3). destruct Hc as [Hcnt Hr Hw Hws Hsk (old & Ho & Hgot) Hp].
  rewrite Hsk in Ho3, Hrc3. rewrite Hr, Er in Ho3. rewrite Er in Hcnt, Ho. cbn in Hcnt, Ho, Ho3.
  assert (k_out k3 (send_ptr b) = k_out (kernel s) (send_ptr b)) as How by (apply Ho3', not_eq_sym, udp_ptr_ne).
  destruct res as [o|e].
  - assert (posts false (Ok o) = true) as Hpost by (by destruct o). rewrite Hpost in Ho3, Hrc3.
    wp_step. eapply wp_write_inner; [done|]. intros s4 Hs4 Hr4 _ Hk4. eapply wp_forget_clone; [done|unfold U64_MAX; lia|].
    intros s5 Hs5 Hr5 _ Hk5. rewrite Hk4 in Hk5. cbn [kernel set_kern] in Hk5.
    eapply (HQ _ (cnt + 1) s5); [exact Hs5| |done|by rewrite Hr5, Hr4; cbn; rewrite Hr2, Hr1|done|done].
    rewrite Hk5. split; cbn; rewrite ?How, ?Hsk3, ?Hp3; try done; [lia|]. exists old. by rewrite Hrc3 by (by left).
  - cbn in Ho3, Hrc3. wp_step. eapply wp_write_inner; [done|]. intros s4 Hs4 Hr4 _ Hk4. wp_step.
    eapply wp_add_readiness; [done|done|]. intros s5 Hs5 Hk5 Hr5 Hcur5. eapply wp_put_buffer; [done|].
    intros s6 Hs6 Hk6 Hr6 Hcur6. rewrite Hk5, Hk4 in Hk6. cbn [kernel set_kern] in Hk6.
    eapply (HQ _ cnt s6); [exact Hs6| |done|by rewrite Hr6, Hr5, Hr4; cbn; rewrite Hr2, Hr1| |done].
    + rewrite Hk6. split; cbn; rewrite ?How, ?Hsk3, ?Hp3; try done. exists old. by rewrite Hrc3 by (by right).
    + intros Hsome _. unfold ushown. cbn [u_read io_inner set_inner set_uread]. by rewrite Hcur6, Hcur5, readable_or.
Qed.

(** ** Operations of the owner *)

Record ulive (b : positive) (own want again : bool) (got acc : list Gram) (rest : list (R + H)) (io : Io) (cnt : Z) (s : Sys) : Prop := {
  ul_sock : sock_ok b rest io cnt s;
  ul_core : ucore (Z.b2z own) got acc b io cnt (kernel s);
  ul_pos : 0 < cnt;
  ul_reg : own = false → regs s !! b = None;
  ul_both : own = true → is_Some (io_readiness io) → is_Some (regs s !! b);
  ul_unreg : own = true → io_readiness io = None → u_read (io_inner io) = SEmpty;
  ul_shown : again = false → own = true → is_Some (io_readiness io) → ushown io s;
  ul_want : want = true → own = true ∧ is_Some (io_readiness io) ∧ u_read (io_inner io) ≠ SEmpty }.

Record ugone (b : positive) (own want : bool) (s : Sys) : Prop := {
  ug_box : arcs s !! b = None;
  ug_own : own = false;
  ug_want : want = false;
  ug_out : k_out (kernel s) (recv_ptr b) = [] ∧ k_out (kernel s) (send_ptr b) = [] }.

Definition uinv (b : positive) (c : UProg) : Prop :=
  (∃ rest io cnt, ulive b (up_own c) (up_want c) (up_again c) (up_got c) (up_acc c) rest io cnt (up_sys c)) ∨
  ugone b (up_own c) (up_want c) (up_sys c).

Lemma uinv_intro b want again got acc rest io cnt s :
  sock_ok b rest io cnt s → ucore 1 got acc b io cnt (kernel s) →
  (is_Some (io_readiness io) → is_Some (regs s !! b)) →
  (io_readiness io = None → u_read (io_inner io) = SEmpty) →
  (again = false → is_Some (io_readiness io) → ushown io s) →
  (want = true → is_Some (io_readiness io) ∧ u_read (io_inner io) ≠ SEmpty) →
  uinv b (mkUProg s true want again got acc).
Proof.
  intros Hs Hc Hb Hu Hsh Hw. left. exists rest, io, cnt. cbn. pose proof (ucore_pos _ _ _ _ _ _ _ Hc). split; auto; [lia|naive_solver].
Qed.

(** [post_register] after the registration is in place; [first]: nothing waits
    that the registration does not show. *)
Lemma wp_udp_post_register got acc b rest io cnt s interest (Q : unit → Sys → Prop) :
  sock_ok b rest io cnt s → ucore 1 got acc b io cnt (kernel s) →
  (∀ io' cnt' s', sock_ok b rest io' cnt' s' → ucore 1 got acc b io' cnt' (kernel s') → udp_frame io io' →
    regs s' !! b = regs s !! b → (is_Some (io_readiness io) → u_read (io_inner io) = SEmpty ∨ ushown io s → ushown io' s') →
    (Ready.is_readable interest = true → u_read (io_inner io') ≠ SEmpty) → Q tt s') →
  wp (udp_post_register b interest) Q s.
Proof.
  intros Hs Hc HQ. unfold udp_post_register. wp_step.
  set (mid := λ (_ : unit) s1, ∃ io1 cnt1, sock_ok b rest io1 cnt1 s1 ∧ ucore 1 got acc b io1 cnt1 (kernel s1) ∧ udp_frame io io1 ∧
    regs s1 !! b = regs s !! b ∧ (is_Some (io_readiness io) → u_read (io_inner io) = SEmpty ∨ ushown io s → ushown io1 s1) ∧
    (Ready.is_readable interest = true → u_read (io_inner io1) ≠ SEmpty)).
  apply (wp_mono _ mid).
  - destruct (Ready.is_readable interest) eqn:Ei.
    + eapply (wp_udp_schedule_read 1); [done|done|lia|]. intros io1 cnt1 s1 ? ? ? ? ? ?. by exists io1, cnt1.
    + apply wp_ret. exists io, cnt. split_and!; try done. intros _ [E|?]; [|done]. unfold ushown. by rewrite E.
  - intros [] s1 (io1 & cnt1 & Hs1 & Hc1 & Hf1 & Hr1 & Hsh1 & Hne1). wp_step. eapply wp_inner; [done|].
    assert (wp (mret tt) Q s1) as Hret by (apply wp_ret; by apply (HQ io1 cnt1 s1)).
    destruct (Ready.is_writable interest); [|done]. destruct (u_write (io_inner io1)); [|done..].
    eapply wp_add_readiness; [done|done|]. intros s2 Hs2 Hk2 Hr2 Hcur2. apply (HQ io1 cnt1 s2); [done|by rewrite Hk2|done|by rewrite Hr2| |done].
    intros Hsome Hx. specialize (Hsh1 Hsome Hx). unfold ushown in *. destruct Hf1 as (_ & _ & Hrd1 & _).
    destruct (u_read (io_inner io1)); [done|done|..]; by rewrite Hcur2, readable_or, Hsh1 by (by rewrite Hrd1).
Qed.

Section owner.
Context (b : positive) (want again : bool) (got acc : list Gram) (rest : list (R + H)) (io : Io) (cnt : Z) (s : Sys).
Context (Hl : ulive b true want again got acc rest io cnt s).

Lemma wp_u_register poll (p : P) token interest opts :
  has_pool s poll →
  wp (UdpSocket_register b poll p token interest opts)
    (λ r s', uinv b (mkUProg s' true (uwants interest r) (again || bool_decide (is_Some (regs s !! b))) got acc)) s.
Proof.
  intros Hpool. pose proof Hl as [Hs Hc _ _ Hboth Hun Hsh _]. unfold UdpSocket_register. wp_step. eapply wp_socket; [done|]. wp_step.
  eapply wp_register; [done|done|]. intros res io1 s1 Hs1 Hin1 Hso1 Hk1 Hres.
  assert (ucore 1 got acc b io1 cnt (kernel s1)) as Hc1 by (apply (ucore_readiness _ _ _ _ io); [done..|]; by apply (ucore_same _ _ _ _ _ _ (kernel s))).
  destruct res as [[]|e].
  - destruct Hres as [Hrd Hrg]. wp_step. eapply wp_udp_post_register; [done|done|].
    intros io2 cnt2 s2 Hs2 Hc2 (_ & _ & Hrd2 & _) Hr2 Hsh2 Hne2. wp_step. eapply uinv_intro; [done|done|..]; rewrite ?Hrd2, ?Hr2; try done.
    + intros E. rewrite E in Hrd. by destruct Hrd.
    + intros [_ Hno%bool_decide_eq_false]%orb_false_iff _. apply Hsh2; [done|]. left. rewrite Hin1. apply Hun; [done|].
      destruct (io_readiness io); [|done]. by destruct Hno; apply Hboth.
    + intros Hi. split; [done|]. by apply Hne2.
  - destruct Hres as (Hrd & Hrg & Hcur). apply wp_ret. eapply uinv_intro; [done|done|..]; rewrite ?Hrd, ?Hrg, ?Hin1; auto; [|done].
    intros [Hag _]%orb_false_iff. unfold ushown. rewrite Hin1, Hcur. by apply Hsh.
Qed.

(** The state is what it was, as far as the socket is concerned. *)
Lemma uinv_same want' s' :
  sock_ok b rest io cnt s' → k_same (kernel s) (kernel s') → regs s' !! b = regs s !! b →
  (ushown io s → ushown io s') → (want' = true → is_Some (io_readiness io) ∧ u_read (io_inner io) ≠ SEmpty) →
  uinv b (mkUProg s' true want' again got acc).
Proof.
  intros Hs Hk Hr Hsh' Hw. pose proof Hl as [_ Hc _ _ Hboth Hun Hsh _]. eapply uinv_intro; [done|by eapply ucore_same|..]; rewrite ?Hr; auto.
Qed.

Lemma ushown_cur s' : cur io s' = cur io s → ushown io s → ushown io s'.
Proof. unfold ushown. by intros ->. Qed.

Lemma wp_u_reregister poll (p : P) token interest opts :
  rd_awake (world s) → (lazy_borrow (io_selector io) = Some poll → is_Some (regs s !! b)) →
  wp (UdpSocket_reregister b poll p token interest opts) (λ r s', uinv b (mkUProg s' true (uwants interest r) again got acc)) s.
Proof.
  intros Haw Hreg. pose proof Hl as [Hs Hc _ _ Hboth Hun Hsh _]. unfold UdpSocket_reregister. wp_step. eapply wp_reregister; [done|done|done|].
  intros res s1 Hs1 Hk1 Hr1 Hcur1 Hok. destruct res as [[]|e].
  2: { apply wp_ret. apply uinv_same; [done|by rewrite Hk1|done|by apply ushown_cur|done]. }
  pose proof (sk_reg _ _ _ _ _ Hs (Hok eq_refl)) as Hrd. rewrite <- Hk1 in Hc. wp_step. eapply wp_udp_post_register; [done|exact Hc|].
  intros io2 cnt2 s2 Hs2 Hc2 (_ & _ & Hrd2 & _) Hr2 Hsh2 Hne2. wp_step. eapply uinv_intro; [done|done|..]; rewrite ?Hrd2, ?Hr2, ?Hr1; auto.
  - intros E. rewrite E in Hrd. by destruct Hrd.
  - intros Hag _. apply Hsh2; [done|]. right. apply ushown_cur; [done|]. by apply Hsh.
Qed.

Lemma wp_u_deregister poll (p : P) :
  rd_awake (world s) → (lazy_borrow (io_selector io) = Some poll → is_Some (regs s !! b)) →
  wp (UdpSocket_deregister b poll p) (λ _ s', uinv b (mkUProg s' true false again got acc)) s.
Proof.
  intros Haw Hreg. unfold UdpSocket_deregister. eapply wp_deregister; [apply Hl|done|done|].
  intros res s1 Hs1 Hk1 Hr1 Hcur1 _. apply uinv_same; [done|by rewrite Hk1|done|by apply ushown_cur|done].
Qed.

(** The next receive, after what the last one left was taken. *)
Lemma wp_next_recv {A} (m : M Sys A) got' io1 s1 (Q : A → Sys → Prop) :
  sock_ok b rest io1 cnt s1 → ucore 1 got' acc b io1 cnt (kernel s1) → udp_frame io io1 → u_read (io_inner io1) = SEmpty →
  regs s1 !! b = regs s !! b → is_Some (io_readiness io) →
  (∀ s', uinv b (mkUProg s' true want again got' acc) → wp m Q s') →
  wp (_ ← udp_schedule_read b; m) Q s1.
Proof.
  intros Hs1 Hc1 (_ & _ & Hrd1 & _) He1 Hr1 Hsome HQ. pose proof Hl as [_ _ _ _ Hboth _ _ _].
  wp_step. eapply (wp_udp_schedule_read 1); [done|done|lia|].
  intros io2 cnt2 s2 Hs2 Hc2 (_ & _ & Hrd2 & _) Hr2 Hsh2 Hne2. apply HQ. rewrite Hrd1 in Hrd2, Hsh2.
  eapply uinv_intro; [done|done|..]; rewrite ?Hrd2, ?Hr2, ?Hr1; auto. intros E. rewrite E in Hsome. by destruct Hsome.
Qed.

Lemma wp_u_recv_from len :
  wp (recv_from b len) (λ r s', uinv b (mkUProg s' true want again (got ++ returned r) acc)) s.
Proof.
  pose proof Hl as [Hs Hc _ _ Hboth Hun Hsh Hw]. unfold recv_from. wp_step. eapply wp_inner; [done|].
  assert (∀ x, x = [] → uinv b (mkUProg s true want again (got ++ x) acc)) as Hsame.
  { intros x ->. rewrite app_nil_r. apply uinv_same; [done|apply k_same_refl|done|done|]. naive_solver. }
  assert (u_read (io_inner io) ≠ SEmpty → is_Some (io_readiness io)) as Hreg.
  { intros Hne. destruct (io_readiness io) eqn:E; [by eexists|]. by destruct Hne; apply Hun. }
  pose proof (ucore_take _ _ _ _ _ _ _ Hc) as Ht.
  destruct (u_read (io_inner io)) as [|x|data|e] eqn:Er; [by apply wp_ret, Hsame..| |].
  - destruct (len <? _); [by apply wp_ret, Hsame|]. wp_steps. eapply wp_write_inner; [done|]. intros s1 Hs1 Hr1 Hw1 Hk1. wp_step.
    eapply wp_put_buffer; [done|]. intros s2 Hs2 Hk2 Hr2 _. specialize (Ht eq_refl). cbn [arrived] in Ht.
    eapply (wp_next_recv _ _ (set_inner (set_uread SEmpty) io)); [done|rewrite Hk2, Hk1; exact Ht|done|done|by rewrite Hr2, Hr1|by apply Hreg|].
    intros s' Hi. apply wp_ret. by destruct (snd (k_mem (kernel s) (recv_ptr b))).
  - wp_step. eapply wp_write_inner; [done|]. intros s1 Hs1 Hr1 Hw1 Hk1. specialize (Ht eq_refl). cbn [arrived omap list_omap] in Ht.
    eapply (wp_next_recv _ _ (set_inner (set_uread SEmpty) io)); [done|rewrite Hk1; exact Ht|done|done|by rewrite Hr1|by apply Hreg|].
    intros s' Hi. by apply wp_ret.
Qed.

Lemma wp_u_send_to data target :
  wp (send_to b data target) (λ r s', uinv b (mkUProg s' true want again got (acc ++ sent data target r))) s.
Proof.
  pose proof Hl as [Hs Hc _ _ Hboth Hun Hsh Hw]. unfold send_to. wp_step. eapply wp_inner; [done|].
  assert (∀ x s', x = [] → sock_ok b rest io cnt s' → kernel s' = kernel s → regs s' !! b = regs s !! b →
    (ushown io s → ushown io s') → uinv b (mkUProg s' true want again got (acc ++ x))) as Hsame.
  { intros x s' -> Hs' Hk Hr Hcur. rewrite app_nil_r. apply uinv_same; [done|by rewrite Hk|done|done|]. naive_solver. }
  destruct (u_write (io_inner io)) as [|x|x|e] eqn:Ew; [|by apply wp_ret, Hsame..].
  wp_step. eapply wp_registered; [done|]. intros s1 Hs1 Hk1 Hr1 Hcur1.
  destruct (bool_decide (is_Some (io_readiness io))) eqn:Erd; cbn [negb]; [|apply wp_ret, Hsame; auto using ushown_cur].
  apply bool_decide_eq_true in Erd. wp_step. eapply wp_clear_readiness; [done|]. intros s2 Hs2 Hk2 Hr2 Hcur2. wp_step.
  eapply wp_get_buffer; [done|]. intros buf s3 Hs3 Hb3 Hk3 Hr3 Hcur3. rewrite Hk2, Hk1 in Hk3. rewrite Hr2, Hr1 in Hr3.
  assert (∀ s', cur io s' = cur io s3 → ushown io s → ushown io s') as Hkeep.
  { intros s' Hcur. unfold ushown. by rewrite Hcur, Hcur3, Hcur2, readable_clear_writable, Hcur1 by done. }
  cbn zeta. wp_step. eapply wp_socket; [done|]. wp_step. apply wp_kcall. intros r k4 E4. rewrite Hk3 in E4.
  assert (b_bytes (extend_from_slice buf data) = data) as Hbytes by (cbn; by rewrite Hb3). rewrite Hbytes in E4.
  pose proof (ucore_send _ _ _ _ _ _ _ _ _ _ _ Hc Ew Hbytes E4) as Hc4.
  pose proof (sock_ok_kern _ _ _ _ _ k4 Hs3) as Hs4. destruct r as [o|e]; cbn [is_ok Z.b2z] in Hc4.
  - wp_step. eapply wp_write_inner; [done|]. intros s5 Hs5 Hr5 Hw5 Hk5. wp_step. pose proof (ucore_pos _ _ _ _ _ _ _ Hc4).
    eapply wp_forget_clone; [done|unfold U64_MAX; lia|]. intros s6 Hs6 Hr6 Hw6 Hk6. wp_step.
    assert (regs s6 !! b = regs s !! b) as Hr' by (rewrite Hr6, Hr5; exact Hr3).
    eapply uinv_intro; [exact Hs6|rewrite Hk6, Hk5; exact Hc4|cbn; rewrite Hr'; auto|cbn; auto| |cbn; naive_solver].
    intros Hag _. apply (Hkeep s6); [|by apply Hsh]. unfold cur. rewrite Hw6, Hw5. done.
  - wp_step. assert (set_inner (set_uwrite SEmpty) io = io) as Eio by (destruct io as [? ? ? []]; cbn in *; by subst).
    rewrite Eio, Z.add_0_r in Hc4. eapply uinv_intro; [exact Hs4|exact Hc4|cbn; rewrite Hr3; auto|auto| |naive_solver].
    intros Hag _. apply Hkeep; [done|]. by apply Hsh.
Qed.
End owner.

(** ** Giving up a reference *)

Lemma wp_urelease b own got acc rest io cnt s (Q : unit → Sys → Prop) :
  sock_ok b rest io cnt s → ucore (Z.b2z own + 1) got acc b io cnt (kernel s) →
  (∀ s', sock_ok b rest io (cnt - 1) s' → ucore (Z.b2z own) got acc b io (cnt - 1) (kernel s') → 0 < cnt - 1 →
    regs s' = regs s → world s' = world s → kernel s' = kernel s → Q tt s') →
  (∀ s', arcs s' !! b = None → own = false → k_out (kernel s') (recv_ptr b) = [] → k_out (kernel s') (send_ptr b) = [] →
    regs s' = regs s → rd_own (world s') (option_list (inl <$> regs s !! b) ++ rest) → Q tt s') →
  wp (udp_arc_drop b) Q s.
Proof.
  intros Hs Hc Hshared Hlast. pose proof (ucore_pos _ _ _ _ _ _ _ Hc) as Hb. assert (0 <= Z.b2z own <= 1) by (destruct own; cbn; lia).
  destruct (decide (cnt = 1)) as [->|Hne].
  - eapply wp_arc_drop_last; [done|]. intros s' Ha Hr Hp Ho Hk. apply wp_ret. destruct Hc as [Hcnt Hrd Hwr _ _ _ _].
    assert (∀ p, k_out (k_close (io_socket io) (kernel s')) p = k_out (kernel s) p) as Hout by (intros p; rewrite Hk; apply kl_close).
    apply Hlast; [done|destruct own; cbn in *; [|done]| | |done|done]; cbn [kernel set_kern]; rewrite ?Hout, ?Hrd, ?Hwr;
      destruct (u_read _), (u_write _); cbn in Hcnt; try done; lia.
  - eapply wp_arc_drop_shared; [done|unfold U64_MAX; lia|]. intros s' Hs' Hr Hw Hk. apply Hshared; [done| |lia|done..].
    rewrite Hk. destruct Hc. split; try done. lia.
Qed.

Lemma wp_u_drop b want again got acc rest io cnt s :
  ulive b true want again got acc rest io cnt s → wp (UdpSocket_drop b) (λ _ s', uinv b (mkUProg s' false false again got acc)) s.
Proof.
  intros [Hs Hc _ _ _ _ _ _]. unfold UdpSocket_drop. wp_step. eapply wp_inner; [done|]. wp_step.
  assert (∀ s1, sock_ok b rest io cnt s1 → k_same (kernel s) (kernel s1) →
    wp (_ ← udp_arc_drop b; drop_registration b) (λ _ s', uinv b (mkUProg s' false false again got acc)) s1) as Hdrop.
  { intros s1 Hs1 Hk1. pose proof (ucore_same _ _ _ _ _ _ _ _ Hk1 Hc) as Hc1. wp_step. eapply (wp_urelease b false); [done|exact Hc1| |].
    - intros s2 Hs2 Hc2 Hpos Hr2 Hw2 Hk2. destruct Hs2 as [Hb2 Ho2 Hp2 Hg2]. unfold sock_handles in Ho2. rewrite <- app_assoc in Ho2.
      eapply wp_drop_registration; [exact Ho2|]. intros s3 Ha3 Hr3 Hp3 Hk3 Ho3 _.
      left. exists rest, io, (cnt - 1). cbn. split; rewrite ?Hk3; try done. split; [by rewrite Ha3|by rewrite Hr3| |rewrite Hr3; by intros []].
      intros i Hi. destruct (Hp2 i Hi) as (p & Hp & Hok). exists p. by rewrite Hp3.
    - intros s2 Ha2 _ Hor How Hr2 Hw2. rewrite <- Hr2 in Hw2. eapply (wp_drop_registration b rest []); [exact Hw2|].
      intros s3 Ha3 Hr3 Hp3 Hk3 Ho3 _. right. split; cbn; [by rewrite Ha3|done|done|by rewrite Hk3]. }
  destruct (u_read (io_inner io)); try (apply wp_ret; by apply Hdrop).
  wp_step; eapply wp_socket; [done|]; wp_step; eapply wp_cancel; [done|]; intros res s1 Hs1 Hk1 Hr1 Hw1; wp_step; by apply Hdrop.
Qed.

(** ** Completions *)

Lemma wp_udp_end b own want again got acc rest io io0 cnt s s0 :
  ulive b own want again got acc rest io0 cnt s0 → sock_ok b rest io cnt s → ucore (Z.b2z own + 1) got acc b io cnt (kernel s) →
  regs s !! b = regs s0 !! b → io_readiness io = io_readiness io0 → (is_Some (io_readiness io0) → ushown io0 s0 ∨ u_read (io_inner io) ≠ u_read (io_inner io0) → ushown io s) →
  (u_read (io_inner io) = SEmpty ↔ u_read (io_inner io0) = SEmpty) →
  wp (udp_arc_drop b) (λ _ s', uinv b (mkUProg s' own want again got acc)) s.
Proof.
  intros [_ _ _ Hreg Hboth Hun Hsh Hw] Hs Hc Hr Hrd Hsh' Hne. eapply wp_urelease; [done|done| |].
  - intros s' Hs' Hc' Hpos' Hr' Hw' Hk'. left. exists rest, io, (cnt - 1). cbn. split; rewrite ?Hr', ?Hr, ?Hrd; try done.
    + naive_solver.
    + intros Hag Hown Hsome. specialize (Hsh' Hsome (or_introl (Hsh Hag Hown Hsome))). unfold ushown, cur in *. by rewrite Hw'.
    + naive_solver.
  - intros s' Ha Hown Hor How Hr' Ho. right. split; cbn; [done|done| |done].
    destruct want; [|done]. destruct (Hw eq_refl) as [? _]. congruence.
Qed.

Lemma wp_recv_done b own want again got acc rest io cnt s token n k' :
  ulive b own want again got acc rest io cnt s → k_delivers (kernel s) (recv_ptr b) n k' →
  wp (recv_done (mkStatus (Some (recv_ptr b)) token n)) (λ _ s', uinv b (mkUProg s' own want again got acc)) (set_kern k' s).
Proof.
  intros Hl Hd. destruct (ucore_received _ _ _ _ _ _ _ _ _ (ul_core _ _ _ _ _ _ _ _ _ _ Hl) Hd) as (buf & Er & Hn & Hc1).
  pose proof (sock_ok_kern _ _ _ _ _ k' (ul_sock _ _ _ _ _ _ _ _ _ _ Hl)) as Hs1.
  unfold recv_done. wp_step. eapply wp_lift; [cbn; by rewrite Z.sub_diag|]. wp_step. eapply wp_inner; [done|]. rewrite Er. wp_steps.
  eapply wp_lift; [unfold set_len; cbn [cs_bytes]; by replace (n <=? b_cap buf) with true by lia|]. cbn [kernel set_kern].
  wp_step. eapply wp_write_inner; [done|]. intros s2 Hs2 Hr2 Hw2 Hk2. wp_step. eapply wp_add_readiness; [done|done|]. intros s3 Hs3 Hk3 Hr3 Hcur3.
  eapply wp_udp_end; [exact Hl|exact Hs3|rewrite Hk3, Hk2; exact Hc1|by rewrite Hr3, Hr2|done| |cbn; rewrite Er; naive_solver].
  intros Hsome _. unfold ushown. cbn [u_read io_inner set_inner set_uread]. by rewrite Hcur3, readable_or.
Qed.

Lemma wp_send_done b own want again got acc rest io cnt s token n k' :
  ulive b own want again got acc rest io cnt s → k_delivers (kernel s) (send_ptr b) n k' →
  wp (send_done (mkStatus (Some (send_ptr b)) token n)) (λ _ s', uinv b (mkUProg s' own want again got acc)) (set_kern k' s).
Proof.
  intros Hl Hd. pose proof (ucore_sent _ _ _ _ _ _ _ _ _ (ul_core _ _ _ _ _ _ _ _ _ _ Hl) Hd) as Hc1.
  pose proof (sock_ok_kern _ _ _ _ _ k' (ul_sock _ _ _ _ _ _ _ _ _ _ Hl)) as Hs1.
  unfold send_done. wp_step. eapply wp_lift; [cbn; by rewrite Z.sub_diag|]. wp_step. eapply wp_write_inner; [done|]. intros s2 Hs2 Hr2 Hw2 Hk2.
  wp_step. eapply wp_add_readiness; [done|done|]. intros s3 Hs3 Hk3 Hr3 Hcur3.
  eapply wp_udp_end; [exact Hl|exact Hs3|rewrite Hk3, Hk2; exact Hc1|by rewrite Hr3, Hr2|done| |done].
  intros Hsome [Hsh|[]]; [|done]. unfold ushown in *. cbn [u_read io_inner set_inner set_uwrite] in *.
  assert (Ready.is_readable (cur io s) = true → Ready.is_readable (cur (set_inner (set_uwrite SEmpty) io) s3) = true) as Hk.
  { intros E. rewrite Hcur3, readable_or by done. rewrite (cur_write _ io (set_kern k' s) s2) by done. change (cur io (set_kern k' s)) with (cur io s).
    by rewrite E, orb_true_r. }
  destruct (u_read (io_inner io)); auto.
Qed.

(** ** All events keep the invariant *)

Lemma uop_inv b op c : uinv b c → up_own c = true → uop_ok b op (up_sys c) → ∃ c', run_uop b op c = Done c' ∧ uinv b c'.
Proof.
  intros [(rest & io & cnt & Hl)|Hg] Hown Hok; [|by rewrite (ug_own _ _ _ _ Hg) in Hown].
  pose proof (sk_box _ _ _ _ _ (ul_sock _ _ _ _ _ _ _ _ _ _ Hl)) as Hb. rewrite Hown in Hl.
  destruct op as [poll p token interest opts|poll p token interest opts|poll p|data target|len|]; cbn [run_uop uop_ok] in *; rewrite ?Hown.
  - apply (run_of_wp _ (λ r s, mkUProg s true (uwants interest r) _ _ _)). by eapply wp_u_register.
  - apply (run_of_wp _ (λ r s, mkUProg s true (uwants interest r) _ _ _)). eapply wp_u_reregister; [done|apply Hok|]. exact (proj2 Hok _ Hb).
  - apply (run_of_wp _ (λ r s, mkUProg s true false _ _ _)). eapply wp_u_deregister; [done|apply Hok|]. exact (proj2 Hok _ Hb).
  - apply (run_of_wp _ (λ r s, mkUProg s true _ _ _ (up_acc c ++ sent data target r))). by eapply wp_u_send_to.
  - apply (run_of_wp _ (λ r s, mkUProg s true _ _ (up_got c ++ returned r) _)). by eapply wp_u_recv_from.
  - apply (run_of_wp _ (λ r s, mkUProg s false false _ _ _)). by eapply wp_u_drop.
Qed.

Lemma ucallback_inv b p n token k' c :
  uinv b c → p = recv_ptr b ∨ p = send_ptr b → k_delivers (kernel (up_sys c)) p n k' →
  ∃ c', run_uev b (UEvComplete p n token k') c = Done c' ∧ uinv b c'.
Proof.
  intros [(rest & io & cnt & Hl)|Hg] Hp Hd.
  - cbn [run_uev]. apply (run_of_wp _ (λ _ s, mkUProg s (up_own c) (up_want c) (up_again c) (up_got c) (up_acc c))).
    pose proof (sock_ok_kern _ _ _ _ _ k' (ul_sock _ _ _ _ _ _ _ _ _ _ Hl)) as Hs1. unfold udp_callback. wp_step.
    assert (p_box p = b) as -> by (by destruct Hp as [-> | ->]). eapply wp_the_box; [done|].
    assert ((off_send =? off_recv) = false) as Hne by (apply Z.eqb_neq, not_eq_sym, off_udp_distinct).
    destruct Hp as [-> | ->]; cbn [p_off recv_ptr send_ptr]; rewrite ?Hne, Z.eqb_refl; [by eapply wp_recv_done|by eapply wp_send_done].
  - exfalso. destruct (kl_delivers _ _ _ _ Hd) as (i & o & Hi & _). destruct (ug_out _ _ _ _ Hg) as [Hr Hw].
    destruct Hp as [-> | ->]; by rewrite ?Hr, ?Hw in Hi.
Qed.

Lemma uothers_inv b s' c :
  uinv b c → uenabled b (UEvOther s') c → uinv b (mkUProg s' (up_own c) (up_want c) (up_again c) (up_got c) (up_acc c)).
Proof.
  intros Hi [Hot [Hmem Hgr]]. pose proof Hot as [Ha Hr _ Ho Hs _].
  destruct Hi as [(rest & io & cnt & [Hsk Hc Hpos Hreg Hboth Hun Hsh Hwant])|[Hb ? ? Hout]].
  - left. destruct (others_sock_ok _ _ _ _ _ _ Hot Hsk) as [rest' Hsk']. destruct (Hs _ (sk_box _ _ _ _ _ Hsk)) as (Hskip & _ & Hcur).
    destruct (Hgr _ (sk_box _ _ _ _ _ Hsk)) as [Hrc Hpo]. cbn in Hskip, Hcur, Hrc, Hpo.
    exists rest', io, cnt. cbn [up_sys up_own up_want up_again up_got up_acc]. split; rewrite ?Hr; try done.
    + destruct Hc as [? Hrd ? ? ? Hold ?]. split; unfold recv_ptr, send_ptr in *; rewrite ?Ho, ?Hskip, ?Hpo, ?Hrc; try done.
      unfold arrived, recv_ptr in *. destruct (u_read (io_inner io)); try done. by rewrite Hmem.
    + intros. unfold ushown. rewrite Hcur. by apply Hsh.
  - right. split; cbn; [by rewrite Ha|done|done|]. unfold recv_ptr, send_ptr in *. by rewrite !Ho.
Qed.

Lemma ureach_inv b c : ureach b c → uinv b c.
Proof.
  induction 1 as [sock s s' rest Ho Hr Hout Hsk Hrc Hpo E|c e c' _ IH He E].
  - unfold UdpSocket_new, on_arcs, FromRawArc_new in E. cbn in E. injection E as Eb <-.
    left. exists rest, (mkIo sock lazy_new None (mkUdpInner SEmpty SEmpty)), 1. cbn.
    split; [split|..]; cbn; [rewrite Eb; apply lookup_insert_eq|by rewrite Hr| |by rewrite Hr; intros []|..]; try done.
    + intros i. by rewrite lazy_borrow_new.
    + split; cbn; unfold recv_ptr, send_ptr; rewrite ?Hout; try done. by exists [].
  - destruct e as [op|p n token k'|s']; cbn [uenabled] in He.
    + destruct He as [Hown Hok]. destruct (uop_inv b op c IH Hown Hok) as (c1 & E1 & Hi). change (run_uop b op c = Done c') in E. congruence.
    + destruct He as [Hp Hd]. destruct (ucallback_inv b p n token k' c IH Hp Hd) as (c1 & E1 & Hi). congruence.
    + cbn in E. simplify_eq. by apply uothers_inv.
Qed.

(** ** The theorems *)

Definition uflight (b : positive) (s : Sys) : Prop := k_out (kernel s) (recv_ptr b) ≠ [] ∨ k_out (kernel s) (send_ptr b) ≠ [].

(** C26: whatever the owner of a UDP socket does and in whatever order the kernel
    delivers completions, no code touches the box after it was freed, no callback
    meets a state it does not expect and no buffer is made longer than it is; the
    box is allocated exactly as long as the socket is alive or an operation is in
    flight.  The owner's calls are restricted by [uop_ok]. *)
Theorem udp_memory_safe (b : positive) (c : UProg) (e : UEv) :
  ureach b c → uenabled b e c →
  (∃ c', run_uev b e c = Done c') ∧
  (is_Some (arcs (up_sys c) !! b) ↔ up_own c = true ∨ uflight b (up_sys c)).
Proof.
  intros Hr He. pose proof (ureach_inv b c Hr) as Hi. split.
  - destruct e as [op|p n token k'|s']; cbn [uenabled] in He; [| |by eexists].
    + destruct He as [Hown Hok]. destruct (uop_inv b op c Hi Hown Hok) as (c1 & E1 & _). by exists c1.
    + destruct He as [Hp Hd]. destruct (ucallback_inv b p n token k' c Hi Hp Hd) as (c1 & E1 & _). by exists c1.
  - destruct Hi as [(rest & io & cnt & [Hs Hc Hpos _ _ _ _ _])|[Hb Hown _ [Hro Hwo]]].
    + rewrite (sk_box _ _ _ _ _ Hs). split; [intros _|by eexists]. destruct (up_own c); [by left|right].
      destruct Hc as [Hcnt Hrd Hwr _ _ _ _]. unfold uflight. rewrite Hrd, Hwr.
      destruct (u_read _), (u_write _); cbn in Hcnt; try lia; by (left + right).
    + unfold uflight. rewrite Hb, Hown, Hro, Hwo. split; [by intros []|naive_solver].
Qed.

(** C27: what the receives have put into the buffers of the socket (a datagram, or as
    much of it as the buffer of that receive has room for) is returned by
    [recv_from] at most once, with nothing more cut off, in the order of arrival and
    with the address it came from: the contents received are the ones returned, less
    those whose address cannot be parsed, followed by the one that is waiting; and
    the datagrams handed to the kernel are exactly those [send_to] has accepted, in
    order.  The owner's calls are restricted by [uop_ok]. *)
Theorem udp_datagrams_in_order (b : positive) (c : UProg) (i : ArcInner Io) :
  ureach b c → arcs (up_sys c) !! b = Some i →
  let k := kernel (up_sys c) in
  let sock := io_socket (ai_data i) in
  k_posted k sock = up_acc c ∧
  ∃ old, k_received k sock = old ++ arrived (u_read (io_inner (ai_data i))) b k ∧ up_got c = omap addressed old.
Proof.
  intros Hr Hb. destruct (ureach_inv b c Hr) as [(rest & io & cnt & [[Hb' _ _ _] Hc _ _ _ _ _ _])|[Hb' _ _ _]]; [|congruence].
  rewrite Hb in Hb'. injection Hb' as ->. split; [apply Hc|apply Hc].
Qed.

(** A UDP socket that was registered, once, with readable interest never
    hangs: it is readable, or a receive is in flight. *)
Theorem udp_read_progress (b : positive) (c : UProg) :
  ureach b c → up_want c = true → up_again c = false →
  ∃ i, arcs (up_sys c) !! b = Some i ∧ is_Some (io_readiness (ai_data i)) ∧
    (Ready.is_readable (cur (ai_data i) (up_sys c)) = true ∨ k_out (kernel (up_sys c)) (recv_ptr b) ≠ []).
Proof.
  intros Hr Hw Hag. destruct (ureach_inv b c Hr) as [(rest & io & cnt & [[Hb _ _ _] Hc _ _ _ _ Hsh Hwant])|[_ _ Hno _]]; [|congruence].
  exists (mkArcInner io cnt). split; [done|]. cbn [ai_data]. destruct (Hwant Hw) as (Hown & Hsome & Hne). split; [done|].
  specialize (Hsh Hag Hown Hsome). unfold ushown in Hsh. rewrite (uc_read _ _ _ _ _ _ _ Hc).
  destruct (u_read (io_inner io)); [done|by right|by left..].
Qed.

(** C28: receiving from a socket on which a datagram waits: a buffer that is too
    small gets the error WSAEMSGSIZE and changes nothing, so that the datagram can
    be received later; a buffer that is large enough gets all its bytes, with
    their number and the sender's address.  The owner's calls are restricted by
    [uop_ok]. *)
Theorem udp_recv_from_spec (b : positive) (c : UProg) (i : ArcInner Io) (buf : Buf) (len : Z) :
  ureach b c → up_own c = true → arcs (up_sys c) !! b = Some i → u_read (io_inner (ai_data i)) = SReady buf →
  let data := b_bytes buf in
  ∃ r s', recv_from b len (up_sys c) = Done (r, s') ∧
    if len <? Z.of_nat (length data) then r = (Err (io_os WSAEMSGSIZE), []) ∧ s' = up_sys c
    else r = match snd (k_mem (kernel (up_sys c)) (recv_ptr b)) with
             | Some addr => (Ok (Some (Z.of_nat (length data), addr)), data)
             | None => (Err (io_custom Other "failed to parse socket address"), [])
             end.
Proof.
  intros Hr Hown Hb Hrd data. destruct (ureach_inv b c Hr) as [(rest & io & cnt & Hl)|[Hb' _ _ _]]; [|congruence]. rewrite Hown in Hl.
  pose proof Hl as [Hs Hc _ _ _ _ _ _]. pose proof (sk_box _ _ _ _ _ Hs) as Hb'. rewrite Hb in Hb'. injection Hb' as ->. cbn [ai_data] in Hrd.
  apply (wp_done _ (λ r s', if len <? Z.of_nat (length data) then _ else _)). unfold recv_from. wp_step. eapply wp_inner; [done|]. rewrite Hrd.
  fold data. destruct (len <? _); [by apply wp_ret|]. wp_steps. eapply wp_write_inner; [done|]. intros s1 Hs1 _ _ Hk1. wp_step.
  eapply wp_put_buffer; [done|]. intros s2 Hs2 Hk2 _ _. wp_step. eapply (wp_udp_schedule_read 1); [done| |lia|].
  - rewrite Hk2, Hk1. apply ucore_take; [exact Hc|by rewrite Hrd].
  - intros. by apply wp_ret.
Qed.
End udp.
Arguments UOp P : clear implicits.
Arguments UProg C W R H K : clear implicits.
Arguments UEv C W R H P K : clear implicits.
