(* ===== verification/WinDemo.v ===== *)
(** * A kernel for the sockets of Windows

    A concrete kernel that satisfies the laws of [WinSock.v], [WinTcp.v],
    [WinListener.v] and [WinUdp.v] and makes the models of the sockets run.  A list
    of answers says what the next overlapped operations do; when it is used up they
    stay in flight until their completion is taken, in the order of issue, with all
    bytes transferred.  Incoming bytes and datagrams are lists. *)

From S2P Require Import Prelude Event Convert Iface Windows WinSock WinTcp WinListener WinUdp.

Inductive Answer : Type := APend | ADone | AErr (e : io_error).

Abbreviation RGram := (list Z * option SocketAddr)%type.

Record DK : Type := mkDK {
  dk_out : Ptr → list Op;
  dk_skip : Z → bool;
  dk_sent : Z → list Z;
  dk_live : gset Z;
  dk_mem : Ptr → RGram;
  dk_received : Z → list RGram;
  dk_posted : Z → list (list Z * SocketAddr);
  dk_in : list Z;
  dk_grams : list RGram;
  dk_answers : list Answer }.

Definition dk0 (live : gset Z) (input : list Z) (grams : list RGram) (answers : list Answer) : DK :=
  mkDK (λ _, []) (λ _, false) (λ _, []) live (λ _, ([], None)) (λ _, []) (λ _, []) input grams answers.

Definition dk_upd {A B} `{EqDecision A} (a : A) (f : B → B) (g : A → B) : A → B := λ x, if decide (x = a) then f (g x) else g x.

Definition on_out f k := mkDK (f (dk_out k)) (dk_skip k) (dk_sent k) (dk_live k) (dk_mem k) (dk_received k) (dk_posted k) (dk_in k) (dk_grams k) (dk_answers k).
Definition on_skip f k := mkDK (dk_out k) (f (dk_skip k)) (dk_sent k) (dk_live k) (dk_mem k) (dk_received k) (dk_posted k) (dk_in k) (dk_grams k) (dk_answers k).
Definition on_sent f k := mkDK (dk_out k) (dk_skip k) (f (dk_sent k)) (dk_live k) (dk_mem k) (dk_received k) (dk_posted k) (dk_in k) (dk_grams k) (dk_answers k).
Definition on_live f k := mkDK (dk_out k) (dk_skip k) (dk_sent k) (f (dk_live k)) (dk_mem k) (dk_received k) (dk_posted k) (dk_in k) (dk_grams k) (dk_answers k).
Definition on_posted f k := mkDK (dk_out k) (dk_skip k) (dk_sent k) (dk_live k) (dk_mem k) (dk_received k) (f (dk_posted k)) (dk_in k) (dk_grams k) (dk_answers k).
Definition on_in f k := mkDK (dk_out k) (dk_skip k) (dk_sent k) (dk_live k) (dk_mem k) (dk_received k) (dk_posted k) (f (dk_in k)) (dk_grams k) (dk_answers k).
Definition on_answers f k := mkDK (dk_out k) (dk_skip k) (dk_sent k) (dk_live k) (dk_mem k) (dk_received k) (dk_posted k) (dk_in k) (dk_grams k) (f (dk_answers k)).
(** A datagram was received by the operation on [p]. *)
Definition on_gram p s g rest k :=
  mkDK (dk_out k) (dk_skip k) (dk_sent k) (dk_live k) (dk_upd p (λ _, g) (dk_mem k)) (dk_upd s (λ l, l ++ [g]) (dk_received k)) (dk_posted k) (dk_in k) rest (dk_answers k).

(** An operation; [instant]: it may complete at once. *)
Definition dk_issue (instant : bool) (p : Ptr) (o : Op) (k : DK) : io_result (option Z) * DK :=
  let n := Z.of_nat (length (op_data o)) in
  let k1 := on_answers tail k in
  let pending := on_out (dk_upd p (λ l, l ++ [o])) k1 in
  match dk_answers k with
  | AErr e :: _ => (Err e, k1)
  | ADone :: _ =>
      if negb instant then (Ok None, pending)
      else if dk_skip k (op_sock o) then (Ok (Some n), on_sent (dk_upd (op_sock o) (λ l, l ++ op_data o)) k1)
      else (Ok (Some n), pending)
  | _ => (Ok None, pending)
  end.

(** The completion that comes next for [p], and the kernel afterwards. *)
Definition dk_take (p : Ptr) (k : DK) : option (Z * DK) :=
  match dk_out k p with
  | [] => None
  | mkOp s data room :: l =>
      let k1 := on_sent (dk_upd s (λ x, x ++ data)) (on_out (dk_upd p (λ _, l)) k) in
      match room with
      | None => Some (Z.of_nat (length data), k1)
      | Some r =>
          match dk_grams k with
          | (d, a) :: rest =>
              let d := take (Z.to_nat r) d in
              if decide (data = [] ∧ 0 <= r) then Some (Z.of_nat (length d), on_gram p s (d, a) rest k1) else None
          | [] => None
          end
      end
  end.

#[export] Instance dk_iocp : IocpOps DK := {
  iocp_add_socket _ _ _ k :=
    match dk_answers k with
    | AErr e :: l => (Err e, on_answers tail k)
    | _ => (Ok tt, k)
    end }.
#[export] Instance dk_win : WinSys DK := {
  k_mem := dk_mem;
  k_last_error _ := 0;
  k_set_modes s _ k := (1, on_skip (dk_upd s (λ _, true)) k);
  k_cancel_io _ _ k := (1, k);
  k_set_nonblocking _ _ k := (Ok tt, k);
  k_close s k := on_live (λ l, l ∖ {[s]}) k }.
#[export] Instance dk_spec : WinSpec DK := {
  k_out := dk_out;
  k_skip := dk_skip;
  k_sent := dk_sent;
  k_live := dk_live;
  k_received := dk_received;
  k_posted := dk_posted;
  k_delivers k p n k' := dk_take p k = Some (n, k') }.

Lemma dk_upd_eq {A B} `{EqDecision A} (a : A) (f : B → B) (g : A → B) : dk_upd a f g a = f (g a).
Proof. unfold dk_upd. by rewrite decide_True. Qed.
Lemma dk_upd_ne {A B} `{EqDecision A} (a x : A) (f : B → B) (g : A → B) : x ≠ a → dk_upd a f g x = g x.
Proof. intros. unfold dk_upd. by rewrite decide_False. Qed.

Lemma dk_taken k p n k' : dk_take p k = Some (n, k') →
  ∃ o, k_out k p !! 0%nat = Some o ∧ 0 <= n <= Z.of_nat (length (op_data o)) + default 0 (op_room o) ∧
    k_out k' p = delete 0%nat (k_out k p) ∧ (∀ p', p' ≠ p → k_out k' p' = k_out k p') ∧
    (∀ s', k_skip k' s' = k_skip k s') ∧ k_sent k' (op_sock o) = k_sent k (op_sock o) ++ take (Z.to_nat n) (op_data o) ∧
    (∀ s', s' ≠ op_sock o → k_sent k' s' = k_sent k s') ∧ k_live k' = k_live k ∧
    (∀ p', p' ≠ p → k_mem k' p' = k_mem k p') ∧ (∀ s', k_posted k' s' = k_posted k s') ∧
    (∀ s', s' ≠ op_sock o → k_received k' s' = k_received k s') ∧
    match op_room o with
    | Some _ =>
        n <= Z.of_nat (length (fst (k_mem k' p))) ∧
        k_received k' (op_sock o) = k_received k (op_sock o) ++ [(take (Z.to_nat n) (fst (k_mem k' p)), snd (k_mem k' p))]
    | None => k_mem k' p = k_mem k p ∧ k_received k' (op_sock o) = k_received k (op_sock o)
    end.
Proof.
  unfold dk_take. intros E. cbn. destruct (dk_out k p) as [|[s data room] l] eqn:Eo; [done|]. exists (mkOp s data room).
  destruct room as [r|]; cbn.
  - destruct (dk_grams k) as [|[d a] rest]; [done|]. case_decide as Hd; [|done]. destruct Hd as [-> Hr]. simplify_eq. cbn.
    rewrite !dk_upd_eq. cbn. rewrite Nat2Z.id, firstn_all, take_nil. rewrite length_take.
    split_and!; try done; try lia; intros; by rewrite ?dk_upd_ne.
  - simplify_eq. cbn. rewrite !dk_upd_eq, Nat2Z.id, firstn_all. split_and!; try done; try lia; intros; by rewrite ?dk_upd_ne.
Qed.

#[export] Instance dk_laws : WinLaws DK.
Proof.
  split; try done.
  - intros port token s k. cbn. by destruct (dk_answers k) as [|[] ?].
  - intros s flags k r k' [= <- <-] _. cbn. split; [done|]. split; [done|]. split; [|done]. intros s'. unfold dk_upd.
    destruct (decide (s' = s)) as [->|Hne]; [by rewrite decide_True|by rewrite decide_False by naive_solver].
  - intros k p n k' E. exists 0%nat. by apply dk_taken.
Qed.

(** What an operation does to everything but the list of answers. *)
Lemma dk_issued i p o k r k' : dk_issue i p o k = (r, k') →
  issued k k' p (posts (dk_skip k (op_sock o)) r) o ∧ (∀ s', s' ≠ op_sock o → dk_sent k' s' = dk_sent k s') ∧
  (posts (dk_skip k (op_sock o)) r = true ∨ is_ok r = false → dk_sent k' (op_sock o) = dk_sent k (op_sock o)) ∧
  (∀ n, r = Ok (Some n) → i = true ∧ n = Z.of_nat (length (op_data o)) ∧
    (dk_skip k (op_sock o) = true → dk_sent k' (op_sock o) = dk_sent k (op_sock o) ++ op_data o)) ∧
  grams_same k k'.
Proof.
  unfold dk_issue. set (pending := on_out _ _).
  assert (issued k pending p true o ∧ grams_same k pending) as Hpend.
  { unfold issued. cbn. rewrite dk_upd_eq. split; [|done]. split_and!; try done. intros. by rewrite dk_upd_ne. }
  intros E. assert (r = Ok None ∧ k' = pending ∨ (∃ e, r = Err e) ∧ k' = on_answers tail k ∨
    i = true ∧ r = Ok (Some (Z.of_nat (length (op_data o)))) ∧
      k' = (if dk_skip k (op_sock o) then on_sent (dk_upd (op_sock o) (λ l, l ++ op_data o)) (on_answers tail k) else pending)) as Hcases.
  { destruct (dk_answers k) as [|[| |e] l]; simplify_eq; eauto. destruct i; cbn in E; simplify_eq; eauto.
    destruct (dk_skip k (op_sock o)); simplify_eq; eauto. }
  destruct Hcases as [[-> ->]|[[[e ->] ->]|(-> & -> & ->)]].
  - naive_solver.
  - unfold issued. cbn. rewrite app_nil_r. naive_solver.
  - destruct (dk_skip k (op_sock o)) eqn:Es.
    + unfold issued. cbn. rewrite app_nil_r, !dk_upd_eq. split_and!; try done; [intros; by rewrite dk_upd_ne|by intros []|].
      by intros n [= <-].
    + destruct Hpend as [H1 H2]. split; [done|]. split; [done|]. split; [done|]. split; [|done].
      intros n [= <-]. done.
Qed.

#[export] Instance dk_stream : StreamSys DK := {
  k_connect_overlapped s _ p := dk_issue false p (mkOp s [] None);
  k_connect_complete _ k := (Ok tt, k);
  k_read_overlapped s p := dk_issue true p (mkOp s [] None);
  k_write_overlapped s data p := dk_issue true p (mkOp s data None);
  k_recv _ n k :=
    match dk_in k with
    | [] => (Err (io_os 10035), k)
    | input => (Ok (take (Z.to_nat n) input), on_in (drop (Z.to_nat n)) k)
    end;
  k_try_clone _ k := (Err (io_os 0), k) }.

(** An operation without bytes sends none. *)
Lemma dk_sends_nothing i p s room k r k' : dk_issue i p (mkOp s [] room) k = (r, k') → ∀ s', dk_sent k' s' = dk_sent k s'.
Proof.
  intros E s'. destruct (dk_issued _ _ _ _ _ _ E) as (_ & Hs & Hk & Hn & _). cbn in *.
  destruct (decide (s' = s)) as [->|Hne]; [|by apply Hs].
  destruct r as [[n|]|]; [|apply Hk; by left|apply Hk; by right]. destruct (Hn n eq_refl) as (_ & _ & Hn').
  destruct (dk_skip k s) eqn:Es; [by rewrite Hn', app_nil_r|]. apply Hk. by left.
Qed.

#[export] Instance dk_stream_laws : StreamLaws DK.
Proof.
  split.
  - intros s addr p k r k' E. split; [apply (dk_issued _ _ _ _ _ _ E)|exact (dk_sends_nothing _ _ _ _ _ _ _ E)].
  - done.
  - intros s p k r k' E. split; [apply (dk_issued _ _ _ _ _ _ E)|exact (dk_sends_nothing _ _ _ _ _ _ _ E)].
  - intros s data p k r k' E. destruct (dk_issued _ _ _ _ _ _ E) as (Hi & Hs & Hk & Hn & _). split; [done|]. split; [done|]. split; [done|].
    intros n Hr. destruct (Hn n Hr) as (_ & -> & Hn'). cbn in *. split; [lia|]. split; [by destruct data|]. by rewrite Nat2Z.id, firstn_all.
  - intros s n k. cbn. by destruct (dk_in k).
Qed.

#[export] Instance dk_accept : AcceptSys DK := {
  k_new_socket _ k :=
    match dk_answers k with
    | AErr e :: _ => (Err e, on_answers tail k)
    | _ => let s := fresh (dk_live k) in (Ok s, on_live (λ l, {[s]} ∪ l) k)
    end;
  k_accept_overlapped l s p k :=
    let (r, k) := dk_issue false p (mkOp l [] None) k in (result_map (λ o : option Z, bool_decide (is_Some o)) r, k);
  k_accept_complete _ _ k := (Ok tt, k);
  k_accept_remote _ _ k := (Ok (Some (V4 (127, 0, 0, 1) 4000)), k) }.

#[export] Instance dk_accept_laws : AcceptLaws DK.
Proof.
  split; try done.
  - cbn. intros f k r k' E. assert (fresh (dk_live k) ∉ dk_live k) as Hf by apply is_fresh.
    destruct (dk_answers k) as [|[| |e] l]; simplify_eq; by cbn.
  - cbn. intros l s p k r k' E. destruct (dk_issue false p _ k) as [r' k1] eqn:Ei. simplify_eq.
    destruct (dk_issued _ _ _ _ _ _ Ei) as (Hi & _). by destruct r' as [[n|]|e].
Qed.

#[export] Instance dk_udp : UdpSys DK := {
  k_send_to_overlapped s data a p k :=
    let (r, k) := dk_issue true p (mkOp s data None) k in
    (r, if is_ok r then on_posted (dk_upd s (λ l, l ++ [(data, a)])) k else k);
  k_recv_from_overlapped s n p k := dk_issue true p (mkOp s [] (Some n)) k }.

#[export] Instance dk_udp_laws : UdpLaws DK.
Proof.
  split.
  - cbn. intros s data a p k r k' E. destruct (dk_issue true p _ k) as [r' k1] eqn:Ei. simplify_eq.
    destruct (dk_issued _ _ _ _ _ _ Ei) as (Hi & _ & _ & _ & Hm & Hr & Hp). cbn in *.
    destruct r as [o|e]; cbn [is_ok]; (split; [done|split; [done|split; [done|]]]); cbn; rewrite ?dk_upd_eq, ?app_nil_r, Hp; done.
  - cbn. intros s n p k r k' E. destruct (dk_issued _ _ _ _ _ _ E) as (Hi & _ & _ & _ & Hm & Hr & Hp). by split_and!.
Qed.

#[export] Instance dk_layout : TcpLayout := { off_read := 8; off_write := 40; off_accept := 8 }.
#[export] Instance dk_layout_ok : TcpLayoutOk.
Proof. done. Qed.
#[export] Instance dk_udp_layout : UdpLayout := { off_recv := 8; off_send := 40 }.
#[export] Instance dk_udp_layout_ok : UdpLayoutOk.
Proof. done. Qed.
#[export] Instance exact_reserve : VecReserve := { vec_reserve _ n := n }.
