(* ===== verification/WinTcpEx.v ===== *)
(** * TCP streams on Windows: concrete runs

    Runs of the model on the kernel of [WinDemo.v]: the hypotheses of the theorems
    of [WinTcpThm.v] hold there, and some behaviour that the comments of [tcp.rs]
    do not promise is shown. *)

From S2P Require Import Prelude Event Convert Iface Windows WindowsThm WinSock WinSockInv WinTcp WinTcpInv WinTcpThm WinListener WinUdp WinDemo.

Abbreviation DSys := (WSys option Ready.t unit unit DK StreamInner).
Abbreviation DProg := (Prog option Ready.t unit unit DK).
Abbreviation DEv := (SEv option Ready.t unit unit unit DK).

(** One selector, at address 5, and no sockets. *)
Definition demo_sys (input : list Z) (answers : list Answer) : DSys :=
  mkWSys ∅ ∅ {[5 := BufferPool_new 256]} Ready.none (dk0 {[7]} input [] answers).

Definition demo_start (sock : Z) (deferred : option SocketAddr) (input : list Z) (answers : list Answer) : outcome DProg :=
  '(_, s) ← TcpStream_new sock deferred (demo_sys input answers); Done (mkProg s true false []).

(** A script: each event may depend on the state. *)
Fixpoint run_script (es : list (DProg → DEv)) (c : DProg) : outcome DProg :=
  match es with [] => Done c | e :: es => c ← run_sev 1 (e c) c; run_script es c end.

Definition op (o : SOp unit) : DProg → DEv := λ _, EvOp o.
Definition reg : DProg → DEv := op (ORegister 5 tt (mkToken 9) (Ready.readable |ᵣ Ready.writable) PollOpt.edge).
Definition rereg : DProg → DEv := op (OReregister 5 tt (mkToken 9) Ready.readable PollOpt.edge).
(** The next completion for the read or the write side. *)
Definition completes (p : Ptr) : DProg → DEv := λ c,
  match dk_take p (kernel (pg_sys c)) with
  | Some (n, k') => EvComplete p n 9 k'
  | None => EvOther (pg_sys c)
  end.

Fixpoint script_ok (es : list (DProg → DEv)) (c : DProg) : Prop :=
  match es with
  | [] => True
  | e :: es => enabled 1 (e c) c ∧ match run_sev 1 (e c) c with Done c' => script_ok es c' | _ => True end
  end.

Lemma script_reach es : ∀ c c', reach 1 c → script_ok es c → run_script es c = Done c' → reach 1 c'.
Proof.
  induction es as [|e es IH]; intros c c' Hr Hok E; cbn in Hok, E; [by simplify_eq|]. destruct Hok as [He Hok].
  destruct (run_sev 1 (e c) c) as [c1| |] eqn:E1; cbn in E; try done. eapply IH; [|done|done]. by eapply reach_step.
Qed.

Lemma demo_reach sock deferred input answers c : demo_start sock deferred input answers = Done c → reach 1 c.
Proof.
  intros E. unfold demo_start in E. destruct (TcpStream_new sock deferred (demo_sys input answers)) as [[b s]| |] eqn:En; [|done|done].
  cbn in E. simplify_eq. assert (b = 1%positive) as ->.
  { unfold TcpStream_new, on_arcs, FromRawArc_new in En. cbn -[fresh] in En. injection En as <- _. vm_compute. reflexivity. }
  by eapply (reach_new 1 sock deferred (demo_sys input answers) s []).
Qed.

(** Register, then write three bytes: the write is in flight. *)
Definition demo_writing : list (DProg → DEv) := [reg; op (OWritev [[1; 2]; [3]])].

Definition result_of (o : outcome DProg) : DProg :=
  match o with Done c => c | _ => mkProg (demo_sys [] []) false false [] end.
Definition start0 : DProg := Eval vm_compute in result_of (demo_start 7 None [4; 5; 6] []).
Definition writing : DProg := Eval vm_compute in result_of (run_script demo_writing start0).
Definition readable_now : DProg := Eval vm_compute in result_of (run_script [reg; completes (read_ptr 1)] start0).

Lemma start0_reach : reach 1 start0.
Proof. by apply (demo_reach 7 None [4; 5; 6] []). Qed.

Lemma reg_ok c : pg_own c = true → pools (pg_sys c) !! 5 = Some (BufferPool_new 256) → enabled 1 (reg c) c.
Proof. intros Ho Hp. split; [done|]. eexists. split; [exact Hp|]. split; [cbn; lia|constructor]. Qed.

Lemma writing_reach : reach 1 writing.
Proof.
  apply (script_reach demo_writing start0); [apply start0_reach| |vm_compute; reflexivity].
  split; [by apply reg_ok|]. by vm_compute.
Qed.

Lemma readable_reach : reach 1 readable_now.
Proof.
  apply (script_reach [reg; completes (read_ptr 1)] start0); [apply start0_reach| |vm_compute; reflexivity].
  split; [by apply reg_ok|]. cbn [run_sev]. vm_compute. split; [split; [by left|reflexivity]|done].
Qed.

Lemma demo_connect_pends : connect_pends (K := DK).
Proof. intros sock addr p k n k' E. cbn in E. unfold dk_issue in E. by destruct (dk_answers k) as [|[] ?]. Qed.

Lemma stream_memory_safe_witness :
  (∃ c', run_sev 1 (completes (write_ptr 1) writing) writing = Done c') ∧ is_Some (arcs (pg_sys writing) !! 1%positive).
Proof.
  destruct (stream_memory_safe (cell_ops := option_lazy_ops) 1 writing (completes (write_ptr 1) writing)) as (H1 & H2 & _).
  - apply writing_reach.
  - vm_compute. split; [by right|reflexivity].
  - split; [exact H1|]. apply H2. by left.
Defined.

Lemma stream_bytes_in_order_witness :
  ∃ i, arcs (pg_sys writing) !! 1%positive = Some i ∧ k_sent (kernel (pg_sys writing)) 7 `prefix_of` [1; 2; 3].
Proof.
  eexists. split; [vm_compute; reflexivity|].
  exact (proj1 (stream_bytes_in_order (cell_ops := option_lazy_ops) 1 writing _ writing_reach eq_refl)).
Defined.

Lemma stream_read_progress_witness :
  ∃ i, arcs (pg_sys writing) !! 1%positive = Some i ∧ is_Some (io_readiness (ai_data i)) ∧
    (Ready.is_readable (cur (ai_data i) (pg_sys writing)) = true ∨ k_out (kernel (pg_sys writing)) (read_ptr 1) ≠ []).
Proof. exact (stream_read_progress (cell_ops := option_lazy_ops) 1 writing demo_connect_pends writing_reach eq_refl). Defined.

Lemma stream_readv_spec_witness :
  ∃ s', readv 1 [2; 2] (pg_sys readable_now) = Done ((Ok 3, [4; 5; 6]), s').
Proof.
  destruct (stream_readv_spec (cell_ops := option_lazy_ops) 1 readable_now _ [2; 2] readable_reach eq_refl eq_refl eq_refl) as (s' & H1 & _).
  exists s'. exact H1.
Defined.

(** ** Behaviour worth knowing *)

(** An error of a write is never reported: the state stays [Error], and every
    later write only says that it would block. *)
Example write_error_is_swallowed :
  let c := result_of (demo_start 7 None [] [APend; AErr (io_os 10053)]) in
  let c := result_of (run_script [reg; op (OWritev [[1]]); op (OWritev [[2]]); op (OWritev [[3]])] c) in
  match writev 1 [[4]] (pg_sys c) with
  | Done (r, s) => r = Err wouldblock ∧ cur (mkIo 7 (Some 5) (Some tt) (mkStreamInner None SEmpty SEmpty true)) s = Ready.writable
  | _ => False
  end.
Proof. vm_compute. done. Qed.

(** The first registration fills the binding before the port is asked.  When the
    port refuses, a later [reregister] finds the binding in order and unwraps a
    registration that does not exist. *)
Example reregister_after_failed_register_panics :
  let c := result_of (demo_start 7 None [] [AErr (io_os 87)]) in
  run_script [reg; rereg] c = Panic.
Proof. vm_compute. reflexivity. Qed.

(** Registering again while the connect is in flight starts a read on a socket
    that is not connected; its error is what the first read of the connected
    stream returns. *)
Example reregister_while_connecting :
  let c := result_of (demo_start 7 (Some (V4 (127, 0, 0, 1) 80)) [4; 5; 6] [APend; AErr (io_os 10057)]) in
  let c := result_of (run_script [reg; rereg; completes (read_ptr 1)] c) in
  match readv 1 [3] (pg_sys c) with
  | Done (r, _) => r = (Err (io_os 10057), [])
  | _ => False
  end.
Proof. vm_compute. reflexivity. Qed.

(** A buffer taken from the pool for a write is not put back when the write
    succeeds. *)
Example write_keeps_the_buffer :
  let s0 := pg_sys (result_of (demo_start 7 None [] [])) in
  let c := mkProg (mkWSys (arcs s0) (regs s0) {[5 := BufferPool_put (mkBuf [] 64) (BufferPool_new 256)]} (world s0) (kernel s0)) true false [] in
  let c := result_of (run_script [reg; op (OWritev [[1]]); completes (write_ptr 1)] c) in
  bp_pool <$> pools (pg_sys c) !! 5 = Some [] ∧ k_sent (kernel (pg_sys c)) 7 = [1].
Proof. vm_compute. done. Qed.
