(* ===== verification/WinListenerEx.v ===== *)
(** * TCP listeners on Windows: concrete runs

    Runs of the model on the kernel of [WinDemo.v]: the hypotheses of the theorems
    of [WinListenerThm.v] hold there, and what happens to a listener when the
    assumptions of its progress do not. *)

From S2P Require Import Prelude Event Convert Iface Windows WindowsThm WinSock WinSockInv WinTcp WinListener WinListenerThm WinUdp WinDemo.

Abbreviation DLSys := (WSys option Ready.t unit unit DK ListenerInner).
Abbreviation DLProg := (LProg option Ready.t unit unit DK).
Abbreviation DLEv := (LEv option Ready.t unit unit unit DK).

(** One selector, at address 5, and the listening socket 7. *)
Definition demo_lsys (answers : list Answer) : DLSys :=
  mkWSys ∅ ∅ {[5 := BufferPool_new 256]} Ready.none (dk0 {[7]} [] [] answers).

Definition lresult_of (o : outcome DLProg) : DLProg :=
  match o with Done c => c | _ => mkLProg (demo_lsys []) false false false [] end.

Fixpoint run_lscript (es : list (DLProg → DLEv)) (c : DLProg) : outcome DLProg :=
  match es with [] => Done c | e :: es => c ← run_lev 1 (e c) c; run_lscript es c end.

Definition lop (o : LOp unit) : DLProg → DLEv := λ _, LEvOp o.
Definition lreg : DLProg → DLEv := lop (LRegister 5 tt (mkToken 9) Ready.readable PollOpt.edge).
(** The accept in flight completes. *)
Definition accepted_one : DLProg → DLEv := λ c,
  match dk_take (accept_ptr 1) (kernel (lp_sys c)) with
  | Some (n, k') => LEvComplete n 9 k'
  | None => LEvOther (lp_sys c)
  end.

Fixpoint lscript_ok (es : list (DLProg → DLEv)) (c : DLProg) : Prop :=
  match es with
  | [] => True
  | e :: es => lenabled 1 (e c) c ∧ match run_lev 1 (e c) c with Done c' => lscript_ok es c' | _ => True end
  end.

Lemma lscript_reach es : ∀ c c', lreach 1 c → lscript_ok es c → run_lscript es c = Done c' → lreach 1 c'.
Proof.
  induction es as [|e es IH]; intros c c' Hr Hok E; cbn in Hok, E; [by simplify_eq|]. destruct Hok as [He Hok].
  destruct (run_lev 1 (e c) c) as [c1| |] eqn:E1; cbn in E; try done. eapply IH; [|done|done]. by eapply lreach_step.
Qed.

Definition lstart : DLProg := Eval vm_compute in lresult_of
  ('(_, s) ← TcpListener_new 7 (V4 (0, 0, 0, 0) 80) (demo_lsys []); Done (mkLProg s true false false [])).
(** Registered, and a first connection has arrived. *)
Definition larrived : DLProg := Eval vm_compute in lresult_of (run_lscript [lreg; accepted_one] lstart).

Lemma lstart_reach : lreach 1 lstart.
Proof.
  eapply (lreach_new (cell_ops := option_lazy_ops) 1 7 (V4 (0, 0, 0, 0) 80) (demo_lsys []) _ []); [done|done|done|set_solver|].
  vm_compute. reflexivity.
Qed.

Lemma larrived_reach : lreach 1 larrived.
Proof.
  apply (lscript_reach [lreg; accepted_one] lstart); [apply lstart_reach| |vm_compute; reflexivity].
  split; [split; [done|]; eexists; split; [reflexivity|split; [cbn; lia|constructor]]|]. vm_compute. done.
Qed.

Lemma demo_accept_pends : accept_pends (K := DK).
Proof.
  intros l x p k k' E. cbn in E. unfold dk_issue in E.
  destruct (dk_answers k) as [|[] ?]; cbn in E; rewrite ?bool_decide_eq_false_2 in E by (by intros []); done.
Qed.

Lemma listener_sockets_accounted_witness :
  ∃ c', run_lev 1 (LEvOp LAccept) larrived = Done c' ∧ step_accounts 1 larrived c' ∧ lp_given c' = [8].
Proof.
  destruct (listener_sockets_accounted (cell_ops := option_lazy_ops) 1 larrived (LEvOp LAccept) larrived_reach) as (_ & c' & E & H).
  - done.
  - exists c'. split; [exact E|]. split; [destruct H as [[s' H]|H]; [discriminate H|exact H]|].
    vm_compute in E. injection E as <-. reflexivity.
Defined.

Lemma listener_progress_witness : ∃ i, arcs (lp_sys larrived) !! 1%positive = Some i ∧
  (Ready.is_readable (cur (ai_data i) (lp_sys larrived)) = true ∨ k_out (kernel (lp_sys larrived)) (accept_ptr 1) ≠ []).
Proof.
  exact (proj1 (listener_progress (cell_ops := option_lazy_ops) 1 larrived demo_accept_pends (λ _ _, eq_refl) larrived_reach) eq_refl eq_refl).
Defined.

(** ** When the assumptions fail *)

(** An accept that succeeds at once: registering told the kernel to queue no
    completion in that case, but [schedule_accept] waits for one.  The connection
    is never reported, and the box is not freed when the listener is dropped. *)
Definition hasty_accept : AcceptSys DK := {|
  k_new_socket := k_new_socket;
  k_accept_overlapped l s p k :=
    let (r, k) := dk_issue true p (mkOp l [] None) k in (result_map (λ o : option Z, bool_decide (is_Some o)) r, k);
  k_accept_complete := k_accept_complete;
  k_accept_remote := k_accept_remote |}.

Example instant_accept_is_lost :
  match ('(b, s) ← TcpListener_new 7 (V4 (0, 0, 0, 0) 80) (demo_lsys [ADone]);
         '(r1, s) ← TcpListener_register (acc := hasty_accept) 1 5 tt (mkToken 9) Ready.readable PollOpt.edge s;
         '(r2, s) ← accept (acc := hasty_accept) 1 s;
         '(_, s') ← TcpListener_drop 1 s;
         Done (r1, r2, dk_out (kernel s) (accept_ptr 1), world s, s')) with
  | Done (r1, r2, out, shows, s') =>
      r1 = Ok tt ∧ r2 = Err (io_custom WouldBlock "would block") ∧ out = [] ∧ shows = Ready.none ∧ is_Some (arcs s' !! 1%positive)
  | _ => False
  end.
Proof. vm_compute. split_and!; try done. by eexists. Qed.

(** A socket that cannot be made non-blocking: [accept] returns the error before
    the next accept is started, and nothing starts it later. *)
Definition refusing : WinSys DK := {|
  k_mem := k_mem; k_last_error := k_last_error; k_set_modes := k_set_modes; k_cancel_io := k_cancel_io;
  k_set_nonblocking _ _ k := (Err (io_os 10055), k);
  k_close := k_close |}.

Example failed_accept_stops_the_listener :
  match ('(r, s) ← accept (win := refusing) 1 (lp_sys larrived);
         '(r', s) ← accept (win := refusing) 1 s;
         Done (r, r', dk_out (kernel s) (accept_ptr 1))) with
  | Done (r, r', out) => r = Err (io_os 10055) ∧ r' = Err (io_custom WouldBlock "would block") ∧ out = []
  | _ => False
  end.
Proof. vm_compute. done. Qed.

(** Registering once more while a connection waits: the new registration does not
    show it. *)
Example registered_again_hides_the_connection :
  match run_lscript [lreg] larrived with
  | Done c => world (lp_sys c) = Ready.none ∧ lp_want c = true ∧ dk_out (kernel (lp_sys c)) (accept_ptr 1) = []
  | _ => False
  end.
Proof. vm_compute. done. Qed.
