(* ===== verification/WinUdpEx.v ===== *)
(** * UDP sockets on Windows: concrete runs

    Runs of the model on the kernel of [WinDemo.v]: the hypotheses of the theorems
    of [WinUdpThm.v] hold there, and some behaviour that the comments of [udp.rs]
    do not promise is shown. *)

From S2P Require Import Prelude Event Convert Iface Windows WindowsThm WinSock WinSockInv WinTcp WinListener WinUdp WinUdpThm WinDemo.

Abbreviation DUSys := (WSys option Ready.t unit unit DK UdpInner).
Abbreviation DUProg := (UProg option Ready.t unit unit DK).
Abbreviation DUEv := (UEv option Ready.t unit unit unit DK).

Definition peer : SocketAddr := V4 (127, 0, 0, 1) 53.

(** One selector, at address 5, whose pool holds [bufs]. *)
Definition demo_usys (bufs : list Buf) (grams : list RGram) (answers : list Answer) : DUSys :=
  mkWSys ∅ ∅ {[5 := mkBufferPool bufs 256]} Ready.none (dk0 {[7]} [] grams answers).

Definition uresult_of (o : outcome DUProg) : DUProg :=
  match o with Done c => c | _ => mkUProg (demo_usys [] [] []) false false false [] [] end.

Fixpoint run_uscript (es : list (DUProg → DUEv)) (c : DUProg) : outcome DUProg :=
  match es with [] => Done c | e :: es => c ← run_uev 1 (e c) c; run_uscript es c end.

Definition uop (o : UOp unit) : DUProg → DUEv := λ _, UEvOp o.
Definition ureg : DUProg → DUEv := uop (URegister 5 tt (mkToken 9) (Ready.readable |ᵣ Ready.writable) PollOpt.edge).
Definition ucompletes (p : Ptr) : DUProg → DUEv := λ c,
  match dk_take p (kernel (up_sys c)) with
  | Some (n, k') => UEvComplete p n 9 k'
  | None => UEvOther (up_sys c)
  end.

Fixpoint uscript_ok (es : list (DUProg → DUEv)) (c : DUProg) : Prop :=
  match es with
  | [] => True
  | e :: es => uenabled 1 (e c) c ∧ match run_uev 1 (e c) c with Done c' => uscript_ok es c' | _ => True end
  end.

Lemma uscript_reach es : ∀ c c', ureach 1 c → uscript_ok es c → run_uscript es c = Done c' → ureach 1 c'.
Proof.
  induction es as [|e es IH]; intros c c' Hr Hok E; cbn in Hok, E; [by simplify_eq|]. destruct Hok as [He Hok].
  destruct (run_uev 1 (e c) c) as [c1| |] eqn:E1; cbn in E; try done. eapply IH; [|done|done]. by eapply ureach_step.
Qed.

Definition ustart_with (bufs : list Buf) (grams : list RGram) (answers : list Answer) : DUProg :=
  uresult_of ('(_, s) ← UdpSocket_new 7 (demo_usys bufs grams answers); Done (mkUProg s true false false [] [])).

Definition ustart : DUProg := Eval vm_compute in ustart_with [] [([1; 2; 3], Some peer); ([4], Some peer)] [].
(** Registered, a datagram sent and one received. *)
Definition udp_script : list (DUProg → DUEv) := [ureg; uop (USendTo [9; 9] peer); ucompletes (recv_ptr 1)].
Definition uarrived : DUProg := Eval vm_compute in uresult_of (run_uscript udp_script ustart).

Lemma ustart_reach : ureach 1 ustart.
Proof.
  eapply (ureach_new (cell_ops := option_lazy_ops) 1 7 (demo_usys [] [([1; 2; 3], Some peer); ([4], Some peer)] []) _ []); try done.
Qed.

Lemma uarrived_reach : ureach 1 uarrived.
Proof.
  apply (uscript_reach udp_script ustart); [apply ustart_reach| |vm_compute; reflexivity].
  split; [split; [done|]; eexists; split; [reflexivity|split; [cbn; lia|constructor]]|]. vm_compute. split; [done|]. split; [|done].
  split; [by left|reflexivity].
Qed.

Lemma udp_memory_safe_witness : ∃ c', run_uev 1 (ucompletes (send_ptr 1) uarrived) uarrived = Done c'.
Proof.
  refine (proj1 (udp_memory_safe (cell_ops := option_lazy_ops) 1 uarrived (ucompletes (send_ptr 1) uarrived) uarrived_reach _)).
  vm_compute. split; [by right|reflexivity].
Defined.

Lemma udp_datagrams_in_order_witness :
  k_posted (kernel (up_sys uarrived)) 7 = [([9; 9], peer)] ∧
  ∃ old, k_received (kernel (up_sys uarrived)) 7 = old ++ [([1; 2; 3], Some peer)] ∧ [] = omap addressed old.
Proof. exact (udp_datagrams_in_order (cell_ops := option_lazy_ops) 1 uarrived _ uarrived_reach eq_refl). Defined.

Lemma udp_read_progress_witness : ∃ i, arcs (up_sys uarrived) !! 1%positive = Some i ∧ is_Some (io_readiness (ai_data i)) ∧
  (Ready.is_readable (cur (ai_data i) (up_sys uarrived)) = true ∨ k_out (kernel (up_sys uarrived)) (recv_ptr 1) ≠ []).
Proof. exact (udp_read_progress (cell_ops := option_lazy_ops) 1 uarrived uarrived_reach eq_refl eq_refl). Defined.

Lemma udp_recv_from_spec_witness :
  (∃ r s', recv_from 1 2 (up_sys uarrived) = Done (r, s') ∧ r = (Err (io_os 10040), []) ∧ s' = up_sys uarrived) ∧
  (∃ r s', recv_from 1 3 (up_sys uarrived) = Done (r, s') ∧ r = (Ok (Some (3, peer)), [1; 2; 3])).
Proof.
  split.
  - exact (udp_recv_from_spec (cell_ops := option_lazy_ops) 1 uarrived _ _ 2 uarrived_reach eq_refl eq_refl eq_refl).
  - exact (udp_recv_from_spec (cell_ops := option_lazy_ops) 1 uarrived _ _ 3 uarrived_reach eq_refl eq_refl eq_refl).
Defined.

(** ** Behaviour worth knowing *)

(** The pool hands out what it has: a receive that asks for 64 KiB gets the buffer
    of two bytes a failed TCP write has put back, and the datagram is cut off. *)
Example small_pooled_buffer_truncates :
  match run_uscript [ureg; ucompletes (recv_ptr 1); uop (URecvFrom 100)] (ustart_with [mkBuf [] 2] [([1; 2; 3], Some peer)] []) with
  | Done c => up_got c = [([1; 2], peer)]
  | _ => False
  end.
Proof. vm_compute. reflexivity. Qed.

(** After a send the kernel refuses, the socket is not writable although nothing
    is in flight that could make it so. *)
Example failed_send_hides_writable :
  match run_uscript [ureg; uop (USendTo [9] peer)] (ustart_with [] [] [APend; AErr (io_os 10051)]) with
  | Done c => Ready.is_writable (world (up_sys c)) = false ∧ dk_out (kernel (up_sys c)) (send_ptr 1) = []
  | _ => False
  end.
Proof. vm_compute. done. Qed.
