(* ===== verification/WinPoll.v ===== *)
(** * Poll on Windows

    [Poll::poll] with the completion-port selector: the callbacks of the completions
    run inside [select] and set readiness on the same readiness queue the poll then
    looks at, so that a completed operation is reported by the very poll that took
    its completion from the port.  The sockets are those of [WinTcp], [WinListener]
    and [WinUdp], here on the readiness queue itself. *)

From S2P Require Import Prelude Event Convert DList Iface ReadyQueue QueueInv QueueOps QueuePoll Poll PollThm Handles.
From S2P Require Import Windows WinSock WinTcp WinListener WinUdp WinDemo.

Section poll.
Context {C : Type → Type} {cell_ops : LazyCellOps C}.
Context {A : Type} {awk_ops : AwakenerOps A} {reliable : AwakenerReliable A}.
Context {K : Type} {iocp_ops : IocpOps K} {win : WinSys K}.
Abbreviation RI := RegistrationInner.

Section generic.
Context {I : Type}.
Abbreviation Sys := (WSys C (Queue A) RI RI K I).
Abbreviation Io := (Io C RI I).
Context (callback : Ptr → CompletionStatus → M Sys unit).
Implicit Types s : Sys.

(** [Poll::poll].  [get_many]: the answer of the completion port; [others]: what
    other threads do to the queue through their handles while this thread waits for
    it. *)
Definition win_poll (others : Queue A → Queue A) (WAIT_TIMEOUT : Z) (get_many : Z → option Duration → K → io_result (list CompletionStatus) * K)
    (events : WinEvents) (timeout : option Duration) : M Sys (io_result Z * WinEvents) :=
  timeout ← on_queue (poll_timeout timeout);
  r ← select callback WAIT_TIMEOUT (λ n to, _ ← on_queue (modify others); kcall (get_many n to)) events AWAKEN timeout;
  let '(awoken, evs) := r in
  match awoken with
  | Err e => mret (Err e, evs)
  | Ok awoken =>
      _ ← (if awoken : bool then on_queue (modify (λ q, set_awakener (awk_cleanup (awakener q)) q)) else mret tt);
      evs ← on_queue (queue_poll WinEvents_push_event evs);
      mret (Ok (WinEvents_len evs), evs)
  end.

(** ** Boxes and their nodes *)

(** The box [b] is shared, and its readiness handle is [h]. *)
Definition held (b : positive) (io : Io) (h : RI) (cnt : Z) s : Prop :=
  arcs s !! b = Some (mkArcInner io cnt) ∧ io_readiness io = Some h ∧ 1 < cnt <= U64_MAX.

(** The node of [h] has a registration for [token] with the flag [bit] in its
    interest; [ev]: what is known of its events; [in_list]: it is queued. *)
Definition node_with (h : RI) (token : Token) (bit : Z) (ev : Ready.t → Prop) (in_list : list loc → Prop) (q : Queue A) : Prop :=
  ∃ al rl cnt n, queue_good q al rl cnt ∧ heap q !! h_node h = Some n ∧ 0 < cnt (h_node h) ∧
    n_token n = token ∧ rbit (n_interest n) bit = true ∧ ev (from_usize (events n)) ∧ in_list rl.

Definition listening h token bit : Queue A → Prop := node_with h token bit (λ _, True) (λ _, True).
Definition announced h token bit : Queue A → Prop := node_with h token bit (λ r, rbit r bit = true) (λ rl, h_node h ∈ rl).

Lemma wp_the_box_held b io h cnt s (Q : Io → Sys → Prop) : held b io h cnt s → Q io s → wp (the_box b) Q s.
Proof.
  intros [Ha _] HQ. unfold wp, the_box, on_arcs, FromRawArc_deref, arc_at, mbind, M_bind. rewrite Ha. cbn. by destruct s.
Qed.

Lemma wp_write_inner_held b io h cnt s f (Q : unit → Sys → Prop) :
  held b io h cnt s →
  (∀ s', held b (set_inner f io) h cnt s' → world s' = world s → Q tt s') → wp (write_inner b f) Q s.
Proof.
  intros (Ha & Hr & Hc) HQ. unfold wp, write_inner, write_box, on_arcs, arc_at, mbind, M_bind, modify. rewrite Ha. cbn.
  apply HQ; [|done]. split; [by cbn; rewrite lookup_insert_eq|done].
Qed.

(** Code of the binding that changes at most the queue. *)
Lemma wp_iocp_held {X} b io h cnt s (m : M (RB C (Queue A) RI RI K) X) x q' (Q : X → Sys → Prop) :
  held b io h cnt s →
  m (rb_of b io s) = Done (x, mkRB (io_selector io) (io_readiness io) (regs s !! b) (pools s) q' (kernel s)) →
  (∀ s', held b io h cnt s' → world s' = q' → Q x s') → wp (iocp b m) Q s.
Proof.
  intros (Ha & Hr & Hc) E HQ. unfold wp, iocp. rewrite Ha. cbn [unwrap mbind outcome_bind ai_data ai_cnt]. rewrite E. cbn.
  apply HQ; [|done]. split; [|done]. cbn. rewrite lookup_insert_eq. by destruct io.
Qed.

Lemma set_announces h set token bit q : listening h token bit q → is_drop set = false → rbit set bit = true →
  ∃ r0 q', rd_readiness h q = Done (r0, q) ∧ rd_set_readiness h (set |ᵣ r0) q = Done (Ok tt, q') ∧ announced h token bit q'.
Proof.
  intros (al & rl & ct & n & Hg & Hn & Hct & Htok & Hint & _ & _) Hd Hb.
  pose proof (no_drop _ _ _ _ (qi_node _ _ _ (proj1 Hg) _ _ Hn)) as Hnd. rewrite bool_decide_eq_false_2 in Hnd by lia.
  exists (from_usize (events n)). set (r := set |ᵣ from_usize (events n)).
  assert (is_drop r = false) as Hdr by (rewrite is_drop_bit in *; unfold r; by rewrite rbit_bitor, Hd, Hnd).
  assert (rbit r bit = true) as Hrb by (unfold r; by rewrite rbit_bitor, Hb).
  assert (is_empty r = false) as Hne.
  { apply not_true_iff_false. unfold is_empty. intros He%Z.eqb_eq. unfold rbit in Hrb. rewrite He, Z.bits_0 in Hrb. done. }
  assert (wp (inner_set_readiness h r) (λ res q', res = Ok tt ∧ announced h token bit q') q) as (res & q' & E & -> & Hann)%wp_done.
  { eapply wp_set_live; [exact Hg|exact Hn|done|done|]. intros res q' Hg' Hs. rewrite Hne in Hg'. split.
    - destruct (se_wake _ _ _ _ _ _ _ Hs) as [_ ->]. case_match; [apply awk_reliable|done].
    - assert (nodes q' !! h_node h = Some (set_events r (info n))) as Hi by (by rewrite (se_nodes _ _ _ _ _ _ _ Hs), lookup_insert_eq).
      unfold nodes in Hi. rewrite lookup_fmap in Hi. apply fmap_Some in Hi as (n' & Hn' & Hi).
      unfold info, set_events in Hi. cbn in Hi. injection Hi as Hda Hev.
      exists al, (enqueue (h_node h) rl), ct, n'. split; [done|]. split; [done|]. split; [done|]. unfold n_token, n_interest. rewrite <- Hda.
      split; [done|]. split; [done|]. rewrite <- Hev. split; [exact Hrb|]. apply enqueue_in. by left. }
  exists q'. split; [|done]. cbn. unfold SetReadiness_readiness, inner_readiness, mbind, M_bind, read_node. by rewrite Hn.
Qed.

(** Adding to the readiness of a box queues its node. *)
Lemma wp_add_readiness_held b io h cnt s set token bit (Q : unit → Sys → Prop) :
  held b io h cnt s → listening h token bit (world s) → is_drop set = false → rbit set bit = true →
  (∀ s', held b io h cnt s' → announced h token bit (world s') → Q tt s') → wp (add_readiness b set) Q s.
Proof.
  intros Hh Hl Hd Hb HQ. destruct (set_announces h set token bit _ Hl Hd Hb) as (r0 & q' & E1 & E2 & Hann).
  pose proof (proj1 (proj2 Hh)) as Hr. unfold add_readiness. wp_step. eapply (wp_iocp_held b io h cnt s _ r0 (world s)); [done| |].
  { unfold readiness, rb_of, mbind, M_bind, gets. cbn. rewrite Hr. unfold on_world. cbn in *. by rewrite E1. }
  intros s1 Hh1 Hw1. cbn beta. eapply (wp_iocp_held b io h cnt s1 _ tt q'); [done| |].
  { unfold set_readiness, rb_of, mbind, M_bind, gets. cbn. rewrite Hr, Hw1. unfold on_world. cbn in *. by rewrite E2. }
  intros s2 Hh2 Hw2. apply HQ; [done|]. by rewrite Hw2.
Qed.

(** A box that is shared survives the drop of a handle. *)
Lemma wp_arc_drop_held b io h cnt s dr (Q : unit → Sys → Prop) :
  held b io h cnt s → (∀ s', world s' = world s → Q tt s') → wp (arc_drop dr b) Q s.
Proof.
  intros (Ha & _ & Hc) HQ. unfold wp, arc_drop, on_arcs, FromRawArc_drop, arc_at, mbind, M_bind, modify. rewrite Ha. cbn -[wrap64].
  replace (cnt =? 1) with false by lia. cbn. by apply HQ.
Qed.

(** The code [m] of a callback comes to add [flag] to the readiness of the box [b],
    and leaves the queue alone before and after. *)
Definition adds (m : M Sys unit) (b : positive) (h : RI) (flag : Ready.t) s : Prop := ∀ Q : unit → Sys → Prop,
  (∀ io cnt s1 rest, held b io h cnt s1 → world s1 = world s →
    (∀ s2, held b io h cnt s2 → wp rest (λ _ s3, world s3 = world s2) s2) → wp (_ ← add_readiness b flag; rest) Q s1) →
  wp m Q s.

Lemma adds_announces m b h flag token bit s : adds m b h flag s → listening h token bit (world s) →
  is_drop flag = false → rbit flag bit = true → wp m (λ _ s', announced h token bit (world s')) s.
Proof.
  intros Hm Hl Hd Hb. apply Hm. intros io cnt s1 rest Hh Hw Hrest. wp_step. eapply wp_add_readiness_held; [exact Hh|by rewrite Hw|done|done|].
  intros s2 Hh2 Ha. eapply wp_mono; [by apply Hrest|]. by intros _ s3 ->.
Qed.

(** ** Registration *)

(** A binding registered for the first time listens for what was asked. *)
Lemma register_socket_listens sock poll p token events opts bit (rb : RB C (Queue A) RI RI K) al rl ct :
  queue_good (rb_world rb) al rl ct → rb_readiness rb = None → rb_registration rb = None → rbit events bit = true →
  wp (register_socket sock poll p token events opts)
    (λ r rb', r = Ok tt → ∃ h, rb_readiness rb' = Some h ∧ listening h token bit (rb_world rb')) rb.
Proof.
  intros Hg Hr Hreg Hb. unfold register_socket. wp_step.
  assert (wp (Binding_register_socket sock token poll) (λ _ rb', rb_world rb' = rb_world rb ∧ rb_readiness rb' = None ∧ rb_registration rb' = None) rb) as Hbind.
  { unfold wp, Binding_register_socket, check_same_selector, port_add_socket, mbind, M_bind, modify, gets. cbn.
    destruct (lazy_borrow _) as [prev|]; cbn; [|done]. destruct (prev =? poll); cbn; [|done].
    destruct (iocp_add_socket _ _ _ _) as [x k]. by cbn. }
  eapply wp_mono; [exact Hbind|]. intros r rb1 (Hw1 & Hr1 & Hg1). destruct r as [u|e]; [|wp_step; done]. wp_step.
  assert (wp (Registration_new p token (with_hup events) opts) (λ x q', listening x.2 token bit q') (rb_world rb1)) as ([r h] & q' & E & Hl)%wp_done.
  { rewrite Hw1. eapply wp_registration_new; [exact Hg|]. intros l q' Hx Hg' Hn _ _. cbn [snd].
    assert (nodes q' !! l = Some (mkInfo (mkData token (with_hup events) opts) 0)) as Hi by (by rewrite Hn, lookup_insert_eq).
    unfold nodes in Hi. rewrite lookup_fmap in Hi. apply fmap_Some in Hi as (n & Hnn & Hi). injection Hi as Hda _.
    exists (l :: al), rl, (upd ct l 2), n. split; [exact Hg'|]. split; [exact Hnn|]. rewrite upd_same. split; [lia|].
    unfold n_token, n_interest. rewrite <- Hda. cbn [rd_token rd_interest]. split; [done|]. split; [|done].
    unfold with_hup. case_match; [|done]. by rewrite rbit_bitor, Hb. }
  unfold wp, on_world. cbn [reg_new queue_registration_ops]. rewrite E. cbn. rewrite Hr1, Hg1. cbn. intros _. exists h. done.
Qed.

(** ** The poll *)

(** What is announced is reported. *)
Lemma announced_event h token bit q : announced h token bit q → 0 <= bit < 4 →
  ∃ al rl cnt e, queue_good q al rl cnt ∧ e ∈ visited_events (nodes q) rl ∧ Event.token e = token ∧ rbit (Event.kind e) bit = true.
Proof.
  intros (al & rl & ct & n & Hg & Hn & Hct & Htok & Hint & Hev & Hin) Hbit. exists al, rl, ct.
  pose proof (no_drop _ _ _ _ (qi_node _ _ _ (proj1 Hg) _ _ Hn)) as Hnd. rewrite bool_decide_eq_false_2 in Hnd by lia.
  assert (rbit (info_events (info n)) bit = true) as Hb.
  { unfold info_events. rewrite rbit_bitand, rbit_bitor. cbn. unfold n_interest in Hint. by rewrite Hint, Hev. }
  exists (Event.new (info_events (info n)) token). split; [done|]. split; [|done].
  apply list_elem_of_omap. exists (h_node h). split; [done|]. rewrite (nodes_lookup _ _ _ Hn). cbn. unfold node_event, info_dead.
  replace (is_drop (info_events (info n))) with false.
  - replace (Ready.is_none (info_events (info n))) with false; [by rewrite <- Htok|].
    symmetry. rewrite is_none_flags, is_readable_bit, is_writable_bit, is_error_bit, is_hup_bit. apply negb_false_iff.
    assert (bit = 0 ∨ bit = 1 ∨ bit = 2 ∨ bit = 3) as [->|[->|[->| ->]]] by lia; rewrite Hb; by rewrite ?orb_true_r.
  - unfold info_events. rewrite is_drop_bit, rbit_bitand. change (i_events (info n)) with (events n). rewrite is_drop_bit in Hnd.
    by rewrite Hnd, andb_false_r.
Qed.

(** What handling the completions leaves: the flag announced on the queue. *)
Definition announces (statuses : list CompletionStatus) (h : RI) (token : Token) (bit : Z) s : Prop :=
  wp (run_statuses callback AWAKEN false statuses) (λ _ s', announced h token bit (world s')) s.

Lemma listening_sleep h token bit timeout q : listening h token bit q →
  ∃ to q', poll_timeout timeout q = Done (to, q') ∧ listening h token bit q'.
Proof.
  intros (al & rl & ct & n & Hg & Hn & Hrest). rewrite poll_timeout_eq. case_decide as Hh; (eexists _, _; split; [reflexivity|]); [|by exists al, rl, ct, n].
  exists al, [], ct, n. split; [by eapply sleep_good|]. split; [done|].
  destruct Hrest as (? & ? & ? & _). done.
Qed.

Lemma announced_cleanup h token bit q : announced h token bit q → announced h token bit (set_awakener (awk_cleanup (awakener q)) q).
Proof.
  intros (al & rl & ct & n & [[Hall Hown Hsl Hrd Hrs Hnd Hcur Hno] Hz] & Hrest). exists al, rl, ct, n. split; [|done].
  split; [by split|done].
Qed.

(** A poll whose completions announce a flag reports it, in an event with the token
    of the registration. *)
Lemma win_poll_reports others WAIT_TIMEOUT get_many events timeout h token bit s :
  listening h token bit (world s) → (∀ q, listening h token bit q → listening h token bit (others q)) → 0 <= bit < 4 →
  (∀ to q k statuses, listening h token bit q → get_many (we_statuses events) to (kernel s) = (Ok statuses, k) →
    announces statuses h token bit (mkWSys (arcs s) (regs s) (pools s) q k)) →
  (∀ to, is_ok (get_many (we_statuses events) to (kernel s)).1) →
  ∃ n evs s', win_poll others WAIT_TIMEOUT get_many events timeout s = Done ((Ok n, evs), s') ∧
    ∃ e, e ∈ we_events evs ∧ Event.token e = token ∧ rbit (Event.kind e) bit = true.
Proof.
  intros Hl Hoth Hbit Hcb Hok. destruct (listening_sleep h token bit timeout _ Hl) as (to & q1 & E1 & Hl1).
  unfold win_poll, mbind, M_bind, on_queue at 1. rewrite E1. cbn [mbind outcome_bind]. unfold select, mbind, M_bind, kcall, on_queue at 1, modify at 1.
  cbn [mbind outcome_bind world kernel set_world set_kern we_statuses]. specialize (Hok to). destruct (get_many (we_statuses events) to (kernel s)) as [[statuses|e] k] eqn:Eg; [|done].
  specialize (Hcb to (others q1) k statuses (Hoth _ Hl1) Eg). unfold announces in Hcb. apply wp_done in Hcb as (ret & s2 & E2 & Hann).
  change (set_kern k (set_world (others q1) (set_world q1 s))) with (mkWSys (arcs s) (regs s) (pools s) (others q1) k). rewrite E2. cbn [mret M_ret].
  assert (∃ s3, (if ret then on_queue (modify (λ q, set_awakener (awk_cleanup (awakener q)) q)) else mret tt) s2 = Done (tt, s3) ∧
    announced h token bit (world s3)) as (s3 & E3 & Hann3).
  { destruct ret; [|by eauto]. eexists. split; [reflexivity|]. cbn. by apply announced_cleanup. }
  rewrite E3. destruct (announced_event _ _ _ _ Hann3 Hbit) as (al & rl & ct & e & Hg & He & Htok & Hb).
  assert (wp (queue_poll WinEvents_push_event (mkWinEvents (we_statuses events) []))
    (λ evs _, evs = foldl (λ d e, WinEvents_push_event e d) (mkWinEvents (we_statuses events) []) (visited_events (nodes (world s3)) rl)) (world s3))
    as (evs & q4 & E4 & ->)%wp_done by (by eapply wp_queue_poll).
  unfold on_queue. rewrite E4. cbn [mbind outcome_bind]. eexists _, _, _. split; [reflexivity|]. exists e. split; [|done].
  assert (∀ l d, we_events (foldl (λ d e, WinEvents_push_event e d) d l) = we_events d ++ l) as Hfold.
  { intros l. induction l as [|x l IH]; intros d; cbn; [by rewrite app_nil_r|]. rewrite IH. cbn. by rewrite <- app_assoc. }
  rewrite Hfold. cbn. done.
Qed.

(** The port answers with one completion, for the [OVERLAPPED] at [o]. *)
Definition one_completion (get_many : Z → option Duration → K → io_result (list CompletionStatus) * K) (o : Ptr) (bytes : Z) (k : K) : Prop :=
  ∀ n to, ∃ tok k', get_many n to k = (Ok [mkStatus (Some o) tok bytes], k').

Lemma one_completion_reported others WAIT_TIMEOUT get_many events timeout b h token flag bit o bytes s :
  flag = Ready.mk (2 ^ bit) → 0 <= bit < 4 → listening h token bit (world s) → (∀ q, listening h token bit q → listening h token bit (others q)) →
  one_completion get_many o bytes (kernel s) →
  (∀ q k tok, adds (callback o (mkStatus (Some o) tok bytes)) b h flag (mkWSys (arcs s) (regs s) (pools s) q k)) →
  ∃ n evs s', win_poll others WAIT_TIMEOUT get_many events timeout s = Done ((Ok n, evs), s') ∧
    ∃ e, e ∈ we_events evs ∧ Event.token e = token ∧ Ready.contains (Event.kind e) flag = true.
Proof.
  intros -> Hbit Hl Hoth Hone Hcb. destruct (win_poll_reports others WAIT_TIMEOUT get_many events timeout h token bit s Hl Hoth Hbit) as (n & evs & s' & E & e & He & Ht & Hb).
  - intros to q k statuses Hq Eg. destruct (Hone (we_statuses events) to) as (tok & k' & Eg'). rewrite Eg' in Eg. injection Eg as <- <-.
    unfold announces. cbn [run_statuses cs_overlapped]. wp_step.
    eapply wp_mono; [eapply adds_announces; [apply Hcb|exact Hq| |]|by intros [] s' Ha].
    + rewrite is_drop_bit. by destruct (decide (bit = 0 ∨ bit = 1 ∨ bit = 2 ∨ bit = 3)) as [[->|[->|[->| ->]]]|]; [..|lia].
    + by destruct (decide (bit = 0 ∨ bit = 1 ∨ bit = 2 ∨ bit = 3)) as [[->|[->|[->| ->]]]|]; [..|lia].
  - intros to. destruct (Hone (we_statuses events) to) as (tok & k' & ->). done.
  - exists n, evs, s'. split; [done|]. exists e. split; [done|]. split; [done|]. rewrite contains_flag by lia. done.
Qed.
End generic.

Lemma wp_unbind {St X Y} (m : M St X) (f : X → M St Y) (Q : Y → St → Prop) s :
  wp (m ≫= f) Q s → wp m (λ a s', wp (f a) Q s') s.
Proof. unfold wp, mbind, M_bind. by destruct (m s) as [[a s']| |]. Qed.

(** From a completion to the state behind the lock of its box. *)
Ltac to_inner Hh :=
  wp_step; eapply wp_lift; [cbn; by rewrite Z.sub_diag|]; unfold inner; wp_step; wp_step;
  eapply wp_the_box_held; [exact Hh|]; wp_step.
(** ** Streams *)

Section stream.
Context {stream : StreamSys K} {layout : TcpLayout} {layout_ok : TcpLayoutOk} {reserve : VecReserve}.
Abbreviation Sys := (WSys C (Queue A) RI RI K StreamInner).

(** The operation a completion ends: a read, or a write of the rest of its buffer. *)
Definition stream_ends (b : positive) (me : StreamInner) (o : Ptr) (bytes : Z) (flag : Ready.t) : Prop :=
  (o = read_ptr b ∧ s_read me = SPending tt ∧ bytes = 0 ∧ flag = Ready.readable) ∨
  (o = write_ptr b ∧ flag = Ready.writable ∧
    ∃ buf pos, s_write me = SPending (buf, pos) ∧ pos + bytes = Z.of_nat (length (b_bytes buf))).

Lemma stream_adds b io h cnt o bytes flag tok (s : Sys) :
  held b io h cnt s → stream_ends b (io_inner io) o bytes flag → adds (stream_callback o (mkStatus (Some o) tok bytes)) b h flag s.
Proof.
  intros Hh Hends Q HQ. unfold stream_callback.
  destruct Hends as [(-> & Hp & -> & ->)|(-> & -> & buf & pos & Hp & Hlen)]; wp_step; (eapply wp_the_box_held; [exact Hh|]).
  - cbn [p_off read_ptr]. rewrite Z.eqb_refl. unfold read_done. to_inner Hh. rewrite Hp.
    cbn [cs_bytes]. wp_step. cbn. wp_step. eapply wp_write_inner_held; [exact Hh|]. intros s1 Hh1 Hw1.
    apply wp_unbind. eapply HQ; [exact Hh1|done|]. intros s2 Hh2. eapply wp_arc_drop_held; [exact Hh2|done].
  - cbn [p_off write_ptr]. replace (off_write =? off_read) with false by (pose proof off_distinct; lia). rewrite Z.eqb_refl.
    unfold write_done. to_inner Hh. rewrite Hp. wp_step. eapply wp_write_inner_held; [exact Hh|]. intros s1 Hh1 Hw1.
    cbn [cs_bytes]. rewrite Hlen, Z.eqb_refl. eapply HQ; [exact Hh1|done|]. intros s2 Hh2. eapply wp_arc_drop_held; [exact Hh2|done].
Qed.

(** C23: when a read of a TCP stream completes, or a write with its whole buffer, and
    the port hands out this completion alone, the very poll that takes it from the
    port reports an event for the stream, with the token it is registered with, that
    says readable or writable; provided the stream still holds its box ([held]), its
    registration is interested in that, and what other threads do meanwhile keeps it
    so. *)
Theorem stream_completion_reported (others : Queue A → Queue A) (WAIT_TIMEOUT : Z) (get_many : Z → option Duration → K → io_result (list CompletionStatus) * K)
    (events : WinEvents) (timeout : option Duration) (b : positive) (io : Io C RI StreamInner) (h : RI) (cnt : Z)
    (token : Token) (o : Ptr) (bytes : Z) (flag : Ready.t) (s : Sys) :
  held b io h cnt s → stream_ends b (io_inner io) o bytes flag → one_completion get_many o bytes (kernel s) →
  (flag = Ready.readable → listening h token 0 (world s)) → (flag = Ready.writable → listening h token 1 (world s)) →
  (∀ bit q, listening h token bit q → listening h token bit (others q)) →
  ∃ n evs s', win_poll stream_callback others WAIT_TIMEOUT get_many events timeout s = Done ((Ok n, evs), s') ∧
    ∃ e, e ∈ we_events evs ∧ Event.token e = token ∧ Ready.contains (Event.kind e) flag = true.
Proof.
  intros Hh Hends Hone Hlr Hlw Hoth. assert ((flag = Ready.readable ∨ flag = Ready.writable)) as [->| ->] by (destruct Hends as [(_ & _ & _ & ->)|(_ & -> & _)]; auto).
  - apply (one_completion_reported stream_callback others WAIT_TIMEOUT get_many events timeout b h token Ready.readable 0 o bytes);
      [done|lia|by apply Hlr|by apply Hoth|done|]. intros q k tok. by eapply stream_adds.
  - apply (one_completion_reported stream_callback others WAIT_TIMEOUT get_many events timeout b h token Ready.writable 1 o bytes);
      [done|lia|by apply Hlw|by apply Hoth|done|]. intros q k tok. by eapply stream_adds.
Qed.
End stream.

(** ** Listeners *)

Section listener.
Context {acc : AcceptSys K} {layout : TcpLayout}.
Abbreviation Sys := (WSys C (Queue A) RI RI K ListenerInner).

Lemma wp_kcall_held {I X} (f : K → X * K) b (io : Io C RI I) h cnt (s : WSys C (Queue A) RI RI K I) (Q : X → WSys C (Queue A) RI RI K I → Prop) :
  held b io h cnt s → (∀ x s', held b io h cnt s' → world s' = world s → Q x s') → wp (kcall f) Q s.
Proof. intros Hh HQ. unfold wp, kcall. destruct (f (kernel s)) as [x k]. by apply HQ. Qed.

Lemma accept_adds b io h cnt sock bytes tok (s : Sys) :
  held b io h cnt s → l_accept (io_inner io) = SPending sock →
  adds (listener_callback (accept_ptr b) (mkStatus (Some (accept_ptr b)) tok bytes)) b h Ready.readable s.
Proof.
  intros Hh Hp Q HQ. unfold listener_callback. wp_step. eapply wp_the_box_held; [exact Hh|]. cbn [p_off accept_ptr]. rewrite Z.eqb_refl. unfold accept_done.
  to_inner Hh. rewrite Hp. wp_step. eapply wp_write_inner_held; [exact Hh|]. intros s1 Hh1 Hw1. unfold socket. wp_step. wp_step.
  eapply wp_the_box_held; [exact Hh1|]. wp_step. wp_step. eapply wp_kcall_held; [exact Hh1|]. intros r1 s2 Hh2 Hw2. wp_step.
  assert (∀ (result : io_result SocketAddr) s3, held b (set_inner (set_accept SEmpty) io) h cnt s3 → world s3 = world s1 → wp (
      _ ← write_inner b (set_accept (match result with Ok remote_addr => SReady (sock, remote_addr) | Err e => SError e end));
      _ ← add_readiness b Ready.readable;
      _ ← (if is_ok result then mret tt else close sock);
      listener_arc_drop b) Q s3) as Hrest.
  { intros result s3 Hh3 Hw3. wp_step. eapply wp_write_inner_held; [exact Hh3|]. intros s4 Hh4 Hw4.
    eapply HQ; [exact Hh4|congruence|]. intros s5 Hh5. wp_step.
    destruct (is_ok result); [wp_step; eapply wp_arc_drop_held; [eassumption|done]|].
    eapply wp_kcall_held; [exact Hh5|]. intros [] s6 Hh6 Hw6. eapply wp_arc_drop_held; [eassumption|congruence]. }
  destruct r1 as [u|e].
  - eapply wp_kcall_held; [exact Hh2|]. intros r2 s3 Hh3 Hw3. eapply Hrest; [done|congruence].
  - wp_step. eapply Hrest; done.
Qed.

(** When an accept completes, with a connection or an error, the poll that takes its
    completion from the port reports the listener readable. *)
Theorem accept_completion_reported (others : Queue A → Queue A) (WAIT_TIMEOUT : Z) (get_many : Z → option Duration → K → io_result (list CompletionStatus) * K)
    (events : WinEvents) (timeout : option Duration) (b : positive) (io : Io C RI ListenerInner) (h : RI) (cnt : Z)
    (token : Token) (sock bytes : Z) (s : Sys) :
  held b io h cnt s → l_accept (io_inner io) = SPending sock → one_completion get_many (accept_ptr b) bytes (kernel s) →
  listening h token 0 (world s) → (∀ q, listening h token 0 q → listening h token 0 (others q)) →
  ∃ n evs s', win_poll listener_callback others WAIT_TIMEOUT get_many events timeout s = Done ((Ok n, evs), s') ∧
    ∃ e, e ∈ we_events evs ∧ Event.token e = token ∧ Ready.contains (Event.kind e) Ready.readable = true.
Proof.
  intros Hh Hp Hone Hl Hoth.
  apply (one_completion_reported listener_callback others WAIT_TIMEOUT get_many events timeout b h token Ready.readable 0 (accept_ptr b) bytes);
    [done|lia|done|done|done|]. intros q k tok. by eapply accept_adds.
Qed.
End listener.

(** ** UDP sockets *)

Section udp.
Context {udp : UdpSys K} {layout : UdpLayout} {layout_ok : UdpLayoutOk} {reserve : VecReserve}.
Abbreviation Sys := (WSys C (Queue A) RI RI K UdpInner).

(** The operation a completion ends: a receive into a buffer that is large enough, or
    a send. *)
Definition udp_ends (b : positive) (me : UdpInner) (o : Ptr) (bytes : Z) (flag : Ready.t) : Prop :=
  (o = recv_ptr b ∧ flag = Ready.readable ∧ ∃ buf, u_read me = SPending buf ∧ bytes <= b_cap buf) ∨
  (o = send_ptr b ∧ flag = Ready.writable).

Lemma udp_adds b io h cnt o bytes flag tok (s : Sys) :
  held b io h cnt s → udp_ends b (io_inner io) o bytes flag → adds (udp_callback o (mkStatus (Some o) tok bytes)) b h flag s.
Proof.
  intros Hh Hends Q HQ. unfold udp_callback.
  destruct Hends as [(-> & -> & buf & Hp & Hcap)|(-> & ->)]; wp_step; (eapply wp_the_box_held; [exact Hh|]).
  - cbn [p_off recv_ptr]. rewrite Z.eqb_refl. unfold recv_done. to_inner Hh.
    rewrite Hp. do 2 wp_step. cbn beta. wp_step. eapply wp_lift; [unfold set_len; cbn [cs_bytes]; by replace (bytes <=? b_cap buf) with true by lia|].
    wp_step. eapply wp_write_inner_held; [exact Hh|]. intros s1 Hh1 Hw1.
    eapply HQ; [exact Hh1|done|]. intros s2 Hh2. eapply wp_arc_drop_held; [exact Hh2|done].
  - cbn [p_off send_ptr]. replace (off_send =? off_recv) with false by (pose proof off_udp_distinct; lia). rewrite Z.eqb_refl.
    unfold send_done. wp_step. eapply wp_lift; [cbn; by rewrite Z.sub_diag|]. wp_step. eapply wp_write_inner_held; [exact Hh|]. intros s1 Hh1 Hw1.
    eapply HQ; [exact Hh1|done|]. intros s2 Hh2. eapply wp_arc_drop_held; [exact Hh2|done].
Qed.

(** The same for the receives and sends of a UDP socket. *)
Theorem udp_completion_reported (others : Queue A → Queue A) (WAIT_TIMEOUT : Z) (get_many : Z → option Duration → K → io_result (list CompletionStatus) * K)
    (events : WinEvents) (timeout : option Duration) (b : positive) (io : Io C RI UdpInner) (h : RI) (cnt : Z)
    (token : Token) (o : Ptr) (bytes : Z) (flag : Ready.t) (s : Sys) :
  held b io h cnt s → udp_ends b (io_inner io) o bytes flag → one_completion get_many o bytes (kernel s) →
  (flag = Ready.readable → listening h token 0 (world s)) → (flag = Ready.writable → listening h token 1 (world s)) →
  (∀ bit q, listening h token bit q → listening h token bit (others q)) →
  ∃ n evs s', win_poll udp_callback others WAIT_TIMEOUT get_many events timeout s = Done ((Ok n, evs), s') ∧
    ∃ e, e ∈ we_events evs ∧ Event.token e = token ∧ Ready.contains (Event.kind e) flag = true.
Proof.
  intros Hh Hends Hone Hlr Hlw Hoth. assert ((flag = Ready.readable ∨ flag = Ready.writable)) as [->| ->] by (destruct Hends as [(_ & -> & _)|(_ & ->)]; auto).
  - apply (one_completion_reported udp_callback others WAIT_TIMEOUT get_many events timeout b h token Ready.readable 0 o bytes);
      [done|lia|by apply Hlr|by apply Hoth|done|]. intros q k tok. by eapply udp_adds.
  - apply (one_completion_reported udp_callback others WAIT_TIMEOUT get_many events timeout b h token Ready.writable 1 o bytes);
      [done|lia|by apply Hlw|by apply Hoth|done|]. intros q k tok. by eapply udp_adds.
Qed.
End udp.
End poll.

(** ** A stream on the demonstration kernel *)

Abbreviation DSys := (WSys option (Queue counter) RegistrationInner RegistrationInner DK StreamInner).
#[export] Instance counter_reliable : AwakenerReliable counter.
Proof. split. done. Qed.

(** A stream is made and registered for reading and writing; a read is in flight. *)
Definition registered_stream : outcome DSys :=
  '(b, s) ← TcpStream_new 7 None (mkWSys ∅ ∅ {[5 := BufferPool_new 256]} q0 (dk0 {[7]} [4; 5; 6] [] []));
  '(_, s) ← TcpStream_register b 5 7 (mkToken 9) (Ready.readable |ᵣ Ready.writable) PollOpt.edge s;
  Done s.
Definition the_stream : DSys :=
  match registered_stream with Done s => s | _ => mkWSys ∅ ∅ ∅ q0 (dk0 ∅ [] [] []) end.
(** The port hands out the completion of that read. *)
Definition read_completes (n : Z) (timeout : option Duration) (k : DK) : io_result (list CompletionStatus) * DK :=
  match dk_take (read_ptr 1) k with
  | Some (bytes, k) => (Ok [mkStatus (Some (read_ptr 1)) 9 bytes], k)
  | None => (Err (io_os 258), k)
  end.

(** What this run does to the readiness queue. *)
Definition stream_hops : list HOp :=
  [HNew (mkToken 9) (Ready.readable |ᵣ Ready.writable |ᵣ Ready.hup) PollOpt.edge; HSetReadiness 1 Ready.none; HSetReadiness 1 Ready.writable].

Lemma the_stream_listening bit : (bit = 0 ∨ bit = 1) → listening (mkHandle 7 2%positive) (mkToken 9) bit (world the_stream).
Proof.
  intros Hbit. destruct (po_queue _ (demo_ops_ok stream_hops eq_refl ltac:(cbn; lia))) as (al & rl & Hg).
  assert (world the_stream = p_queue (demo_pool stream_hops)) as -> by (vm_compute; reflexivity).
  eexists al, rl, _, _. split; [exact Hg|]. split; [vm_compute; reflexivity|]. split; [vm_compute; reflexivity|].
  destruct Hbit as [->| ->]; (split; [vm_compute; reflexivity|]; split; [vm_compute; reflexivity|done]).
Qed.

Lemma stream_completion_reported_witness :
  ∃ n evs s', win_poll stream_callback Datatypes.id 258 read_completes (WinEvents_with_capacity 16) None the_stream = Done ((Ok n, evs), s') ∧
    ∃ e, e ∈ we_events evs ∧ Event.token e = mkToken 9 ∧ Ready.contains (Event.kind e) Ready.readable = true.
Proof.
  eapply (stream_completion_reported Datatypes.id 258 read_completes (WinEvents_with_capacity 16) None 1%positive _ (mkHandle 7 2%positive) 2
    (mkToken 9) (read_ptr 1) 0 Ready.readable the_stream).
  - split; [vm_compute; reflexivity|]. split; [vm_compute; reflexivity|]. split; [lia|vm_compute; discriminate].
  - left. split; [reflexivity|]. split; [vm_compute; reflexivity|]. split; reflexivity.
  - intros n to. eexists 9, _. vm_compute. reflexivity.
  - intros _. apply the_stream_listening. by left.
  - intros _. apply the_stream_listening. by right.
  - intros bit q Hq. exact Hq.
Defined.

(** The same poll reports that the stream is writable, too. *)
Example the_stream_events :
  match win_poll stream_callback Datatypes.id 258 read_completes (WinEvents_with_capacity 16) None the_stream with
  | Done ((Ok n, evs), _) => n = 1 ∧ we_events evs = [Event.new (Ready.readable |ᵣ Ready.writable) (mkToken 9)]
  | _ => False
  end.
Proof. vm_compute. auto. Qed.
