(* ===== verification/WinLoop.v ===== *)
(** * The event loop on Windows

    [EventLoop::run_once] over the polls of [WinPoll]: the callbacks of completed
    operations run inside the loop's own poll and set readiness on the loop's own
    queue.  For the loop they are like another thread that sets readiness through
    handles, so an iteration on Windows does what [LoopThm] shows of iterations;
    the callbacks of streams are such callbacks. *)

From S2P Require Import Prelude Event Convert DList Iface Timer TimerInv TimerOps TimerPoll TimerSpec TimerThm.
From S2P Require Import ReadyQueue QueueInv QueueOps QueuePoll Poll PollThm Handles Channel ChannelThm UnixIo.
From S2P Require Import EventLoop EventLoopThm LoopInv LoopOps LoopPoll LoopNew LoopThm LoopEx.
From S2P Require Import Windows WinSock WinTcp WinListener WinUdp WinDemo WinPoll.

(** ** The buffer of events *)

#[export] Instance win_events_ops : SysEventsOps WinEvents := {
  ev_with_capacity := WinEvents_with_capacity;
  ev_len := WinEvents_len;
  ev_is_empty := WinEvents_is_empty;
  ev_get := WinEvents_get;
  ev_push := WinEvents_push_event }.
#[export] Instance win_events_spec : SysEventsSpec WinEvents := { ev_list := we_events }.
#[export] Instance win_events_laws : SysEventsLaws WinEvents.
Proof. split; [done..|]. intros e v. exists (Event.kind e). by destruct e. Qed.

Section loop.
Context {S : Type → Type} {slab_ops : SlabOps S} {slab_spec : SlabSpec S} {slab_laws : SlabLaws S}.
Context {C : Type → Type} {cell_ops : LazyCellOps C} {cell_laws : LazyCellLaws C}.
Context {A : Type} {awk_ops : AwakenerOps A}.
Context {K I : Type}.
Context {TO MSG : Type} (clock : nat → Instant).
Abbreviation RI := RegistrationInner.
(** The sockets and the kernel, with and without the readiness queue. *)
Abbreviation Sockets := (WSys C unit RI RI K I).
Abbreviation Sys := (WSys C (Queue A) RI RI K I).
Abbreviation EL := (EventLoop S C A WinEvents Sockets TO MSG).
Implicit Types (el : EL) (q : Queue A) (k : Sockets).

Definition with_queue q k : Sys := mkWSys (arcs k) (regs k) (pools k) q (kernel k).
Definition without_queue (s : Sys) : Sockets := mkWSys (arcs s) (regs s) (pools s) tt (kernel s).

Context (callback : Ptr → CompletionStatus → M Sys unit) (WAIT_TIMEOUT : Z).
Context (get_many : Z → option Duration → K → io_result (list CompletionStatus) * K).

(** The loop's call of [Poll::poll]. *)
Definition win_io_poll (o : Others) (timeout : option Duration) : M EL (io_result Z) := λ el,
  let '(q, c, sh) := o (entered timeout (el_queue el), el_notify el, el_shared el) in
  '((r, evs), s) ← win_poll callback (λ _, q) WAIT_TIMEOUT get_many (ev_inner (el_events el)) timeout
                     (with_queue (el_queue el) (selector (el_poll el)));
  Done (r, mkEventLoop (el_run el) (mkPoll (without_queue s) (world s)) (mkEvents evs) (el_timer el) sh c (el_config el) (el_clock el)).

(** ** Callbacks as another thread *)

(** Readiness set through handles, one after the other. *)
Definition apply_sets (sets : list (RI * Ready.t)) q : Queue A :=
  foldl (λ q x, match inner_set_readiness x.1 x.2 q with Done (_, q) => q | _ => q end) q sets.
Definition set_act (x : RI * Ready.t) : Act MSG := ASet x.1 x.2.

Lemma others_sets th (sets : list (RI * Ready.t)) : ∀ q (c : Chan C MSG RI RI unit) sh,
  others_of th (set_act <$> sets) (q, c, sh) = (apply_sets sets q, c, sh).
Proof.
  induction sets as [|[h r] sets IH]; intros q c sh; [done|]. cbn in *. unfold share_queue.
  destruct (inner_set_readiness h r q) as [[x q']| |]; apply IH.
Qed.

Lemma others_app th acts acts' (s : Shares (C:=C) (A:=A) (MSG:=MSG)) :
  others_of th (acts ++ acts') s = others_of th acts' (others_of th acts s).
Proof. apply foldl_app. Qed.

Lemma sets_ok u (sets : list (RI * Ready.t)) :
  Forall (λ x, x.1 ∈ u ∧ is_drop x.2 = false) sets → Forall (act_ok u) (set_act <$> sets).
Proof. intros Hs. by apply Forall_fmap. Qed.

Lemma poll_timeout_done timeout q : ∃ to q', poll_timeout timeout q = Done (to, q').
Proof. rewrite poll_timeout_eq. case_decide; eauto. Qed.

(** The callbacks of these completions return, and set readiness through handles
    of [u], whatever the queue is. *)
Definition completes (u : list RI) (statuses : list CompletionStatus) k : Prop :=
  ∀ q hn ht ni ti rl, qok q u hn ht ni ti rl →
    wp (run_statuses callback AWAKEN false statuses) (λ _ s', ∃ sets : list (RI * Ready.t),
      Forall (λ x, x.1 ∈ u ∧ is_drop x.2 = false) sets ∧ world s' = apply_sets sets q) (with_queue q k).

(** So do those of whatever the port hands out next. *)
Definition port_ok (u : list RI) el : Prop :=
  let k := selector (el_poll el) in
  ∀ timeout statuses kern, get_many (we_statuses (ev_inner (el_events el))) timeout (kernel k) = (Ok statuses, kern) →
    completes u statuses (mkWSys (arcs k) (regs k) (pools k) tt kern).

(** A poll, once it is known with which timeout and which queue it enters the
    selector. *)
Lemma win_poll_done others events timeout (s : Sys) to q1 :
  poll_timeout timeout (world s) = Done (to, q1) →
  win_poll callback others WAIT_TIMEOUT get_many events timeout s =
    let '(r, kern) := get_many (we_statuses events) to (kernel s) in
    let s1 := mkWSys (arcs s) (regs s) (pools s) (others q1) kern in
    let events := mkWinEvents (we_statuses events) [] in
    let finish awoken s1 :=
      let q := if awoken : bool then set_awakener (awk_cleanup (awakener (world s1))) (world s1) else world s1 in
      '(evs, q) ← queue_poll WinEvents_push_event events q;
      Done ((Ok (WinEvents_len evs), evs), set_world q s1) in
    match r with
    | Ok statuses => '(awoken, s2) ← run_statuses callback AWAKEN false statuses s1; finish awoken s2
    | Err e => if decide (e = io_os WAIT_TIMEOUT) then finish false s1 else Done ((Err e, events), s1)
    end.
Proof.
  intros Et. unfold win_poll, mbind, M_bind, on_queue at 1. rewrite Et. cbn [mbind outcome_bind]. unfold select, mbind, M_bind, kcall, on_queue, modify.
  cbn. destruct (get_many _ _ _) as [[statuses|e] kern]. 
  - change (set_kern kern (set_world (others q1) (set_world q1 s))) with (mkWSys (arcs s) (regs s) (pools s) (others q1) kern).
    destruct (run_statuses _ _ _ _ _) as [[awoken s2]| |]; cbn; [|done..].
    destruct awoken; cbn; by destruct (queue_poll _ _ _) as [[evs q2]| |].
  - case_decide; cbn; [|done]. by destruct (queue_poll _ _ _) as [[evs q2]| |].
Qed.

(** A selector that gives one answer. *)
Definition answers (r : io_result bool) k : SelectorOps Sockets WinEvents :=
  {| sel_select evs _ _ _ := Done ((r, mkWinEvents (we_statuses evs) []), k) |}.

Lemma Poll_poll_answers r k others (events : Events WinEvents) timeout (p : Poll A Sockets) to q1 :
  poll_timeout timeout (readiness_queue p) = Done (to, q1) →
  Poll_poll (sel_ops := answers r k) others events timeout p =
    let evs := mkWinEvents (we_statuses (ev_inner events)) [] in
    match r with
    | Ok awoken =>
        let q := if awoken : bool then set_awakener (awk_cleanup (awakener (others q1))) (others q1) else others q1 in
        '(evs, q) ← queue_poll WinEvents_push_event evs q;
        Done ((Ok (WinEvents_len evs), mkEvents evs), mkPoll k q)
    | Err e => Done ((Err e, mkEvents evs), mkPoll k (others q1))
    end.
Proof.
  intros Et. unfold Poll_poll, Poll.on_queue. rewrite Et. cbn. destruct r as [awoken|e]; [|done].
  destruct awoken; cbn; by destruct (queue_poll _ _ _) as [[evs q2]| |].
Qed.

Lemma win_io_poll_is_io_poll acts timeout N u el :
  LoopOk clock N u [] el → Forall (act_ok u) acts → port_ok u el →
  ∃ r k sets, Forall (act_ok u) (set_act <$> sets) ∧
    win_io_poll (others_of (timer_handle el) acts) timeout el =
    io_poll (sel_ops := answers r k) (others_of (timer_handle el) (acts ++ (set_act <$> sets))) timeout el.
Proof.
  intros (hn & ht & ni & ti & rl & Hl) Ha Hport.
  assert (shares_ok clock false N u (el_timer el) (entered timeout (el_queue el), el_notify el, el_shared el)) as Hs0.
  { exists hn, ht, ni, ti, rl. cbn. split; [|done]. destruct Hl. split; try done. by apply entered_qok. }
  destruct (others_ok clock acts N u (el_timer el) false _ Hs0 Ha) as [(hn1 & ht1 & ni1 & ti1 & rl1 & Hl1 & _) _].
  fold (timer_handle el) in Hl1. destruct (poll_timeout_done timeout (el_queue el)) as (to & q1 & Et).
  unfold win_io_poll, io_poll. unfold entered in *. rewrite Et in *. setoid_rewrite others_app.
  destruct (others_of (timer_handle el) acts (q1, el_notify el, el_shared el)) as [[q c] sh] eqn:Eo. setoid_rewrite others_sets.
  destruct (get_many (we_statuses (ev_inner (el_events el))) to (kernel (selector (el_poll el)))) as [[statuses|e] kern] eqn:Eg.
  - specialize (Hport _ _ _ Eg q hn1 ht1 ni1 ti1 rl1 (la_q _ _ _ _ _ _ _ _ _ _ _ _ Hl1)).
    apply wp_done in Hport as (awoken & s' & Er & sets & Hsets & Hw). exists (Ok awoken), (without_queue s'), sets.
    split; [by apply sets_ok|]. rewrite (win_poll_done _ _ _ (with_queue _ _) _ _ Et), (Poll_poll_answers _ _ _ _ _ (el_poll el) _ _ Et).
    cbn [kernel with_queue]. rewrite Eg. unfold with_queue in Er. cbn in Er. cbn -[queue_poll run_statuses]. rewrite Er. cbn -[queue_poll].
    rewrite Hw. destruct awoken; by destruct (queue_poll _ _ _) as [[evs q2]| |].
  - exists (if decide (e = io_os WAIT_TIMEOUT) then Ok false else Err e),
      (mkWSys (arcs (selector (el_poll el))) (regs (selector (el_poll el))) (pools (selector (el_poll el))) tt kern), [].
    split; [constructor|]. rewrite (win_poll_done _ _ _ (with_queue _ _) _ _ Et), (Poll_poll_answers _ _ _ _ _ (el_poll el) _ _ Et).
    cbn [kernel with_queue]. rewrite Eg. case_decide; [|done]. cbn -[queue_poll]. by destruct (queue_poll _ _ _) as [[evs q2]| |].
Qed.

Lemma win_io_poll_ok acts timeout N u el :
  LoopOk clock N u [] el → Forall (act_ok u) acts → timeout_wf timeout → port_ok u el →
  wp (win_io_poll (others_of (timer_handle el) acts) timeout) (polled_loop clock (existsb is_wake acts) N u el) el.
Proof.
  intros Hl Ha Hto Hport. destruct (win_io_poll_is_io_poll acts timeout N u el Hl Ha Hport) as (r & k & sets & Hs & E).
  assert (SelectorTotal Sockets WinEvents (H := answers r k)) as Htot by (split; cbn; eauto).
  pose proof (io_poll_ok (sel_ops := answers r k) clock (acts ++ (set_act <$> sets)) timeout N u el Hl (proj2 (Forall_app _ _ _) (conj Ha Hs)) Hto) as Hw.
  unfold wp. rewrite E. replace (existsb is_wake acts) with (existsb is_wake (acts ++ (set_act <$> sets))); [exact Hw|].
  rewrite existsb_app. replace (existsb is_wake (set_act <$> sets)) with false; [apply orb_false_r|]. clear. by induction sets.
Qed.

(** ** Iterations *)

Section handler.
Context {HS : Type} (own : HS → list RI) (log : HS → list MSG).
Context (handler : Handler (S:=S) (C:=C) (A:=A) (V:=WinEvents) (Sel:=Sockets) (TO:=TO) (MSG:=MSG) (HS:=HS)).
Context (Hh : handler_ok clock own log handler).

Definition win_run_once (fuel : nat) (o : Others) (timeout : option Duration) : M (HS * EL) (io_result unit) :=
  run_once_with clock handler win_kind (win_io_poll o timeout) fuel.

(** C24: an iteration of the event loop on Windows, whose poll runs the callbacks of
    the operations that completed, whatever the port hands out and whatever other
    threads do meanwhile: with callbacks that set readiness through handles of the
    handler it does not panic, keeps the invariant of the loop and hands over the
    messages that wait, in order, exactly as on other platforms. *)
Theorem win_run_once_delivers (fuel : nat) (acts : list (Act MSG)) (timeout : option Duration) (N : Z) (st : HS * EL) :
  loop_ok clock own N [] st → Forall (act_ok (own st.1)) acts → timeout_wf timeout → port_ok (own st.1) st.2 →
  let o := others_of (timer_handle st.2) acts in
  let run := win_run_once fuel o timeout st in
  ∃ r el1, win_io_poll o timeout st.2 = Done (r, el1) ∧ more_messages (el_notify st.2) (el_notify el1) ∧
    (N + handled r < U64_MAX →
      run ≠ Panic ∧
      (calm clock own handler → slab_capacity (entries (el_timer st.2)) < Z.of_nat fuel → ∃ res st', run = Done (res, st')) ∧
      ∀ res st', run = Done (res, st') →
        loop_ok clock own (N + handled r) [] st' ∧
        ∃ d later, log st'.1 = log st.1 ++ d ∧ messages (st.1, el1) ++ later = d ++ messages st' ∧
          match r with
          | Ok _ => res = Ok tt ∧ (per_tick st `min` length (messages (st.1, el1)) ≤ length d)%nat
          | Err e => d = [] ∧ res = (if decide (win_kind e = Interrupted) then Ok tt else Err e)
          end).
Proof. intros Hl Ha Hto Hp. eapply (run_once_with_delivers clock own log handler Hh win_kind); by apply win_io_poll_ok. Qed.
End handler.
End loop.

(** ** The callbacks of sockets *)

Section sockets.
Context {C : Type → Type} {cell_ops : LazyCellOps C}.
Context {A : Type} {awk_ops : AwakenerOps A} {reliable : AwakenerReliable A}.
Context {K : Type} {iocp_ops : IocpOps K} {win : WinSys K} {I : Type}.
Abbreviation Sockets := (WSys C unit RegistrationInner RegistrationInner K I).
Abbreviation Sys := (WSys C (Queue A) RegistrationInner RegistrationInner K I).
Context (callback : Ptr → CompletionStatus → M Sys unit).

(** A box of the sockets, as in [held]. *)
Definition sock_held (b : positive) (io : Io C RegistrationInner I) (h : RegistrationInner) (cnt : Z) (k : Sockets) : Prop :=
  arcs k !! b = Some (mkArcInner io cnt) ∧ io_readiness io = Some h ∧ 1 < cnt <= U64_MAX.

(** What a wakeup of the loop puts into the port. *)
Definition is_wakeup (status : CompletionStatus) : Prop := cs_overlapped status = None ∧ cs_token status = usize_from_token AWAKEN.

Lemma wp_wakeups wakes rest ret (s : Sys) Q : Forall is_wakeup wakes →
  (∀ ret, wp (run_statuses callback AWAKEN ret rest) Q s) → wp (run_statuses callback AWAKEN ret (wakes ++ rest)) Q s.
Proof.
  intros Hw HQ. revert ret. induction Hw as [|x wakes [Hx Ht] _ IH]; intros ret; [apply HQ|].
  cbn [run_statuses app]. rewrite Hx, Ht, Z.eqb_refl. apply IH.
Qed.

(** Adding a flag is setting readiness through the handle of the box. *)
Lemma adds_sets m b h flag (s : Sys) u hn ht ni ti rl : adds m b h flag s → qok (world s) u hn ht ni ti rl → h ∈ u → is_drop flag = false →
  wp m (λ _ s', ∃ r, is_drop r = false ∧ world s' = apply_sets [(h, r)] (world s)) s.
Proof.
  intros Hm Hq Hu Hd. apply Hm. intros io cnt s1 rest (Ha & Hr & Hc) Hw Hrest. wp_step. unfold add_readiness. wp_step.
  pose proof Hq as [(al & Hg) Hlive _ _ _ _]. destruct (Hlive h Hu) as [n Hn].
  pose proof (no_drop _ _ _ _ (qi_node _ _ _ (proj1 Hg) _ _ Hn)) as Hnd.
  assert (0 < cnt_of (loop_handles hn ht u) (h_node h)) as Hpos by (apply cnt_of_in; unfold loop_handles; set_solver).
  rewrite bool_decide_eq_false_2 in Hnd by lia. set (r := flag |ᵣ from_usize (events n)).
  assert (is_drop r = false) as Hdr by (rewrite is_drop_bit in *; unfold r; by rewrite rbit_bitor, Hd, Hnd).
  eapply (wp_iocp_held b io h cnt s1 _ (from_usize (events n)) (world s1)); [done| |].
  { unfold readiness, rb_of, mbind, M_bind, gets. cbn. rewrite Hr, Hw. unfold on_world. cbn.
    unfold SetReadiness_readiness, inner_readiness, mbind, M_bind, read_node. by rewrite Hn. }
  intros s2 Hh2 Hw2. cbn beta.
  assert (wp (inner_set_readiness h r) (λ res q', res = Ok tt) (world s)) as (res & q' & E & ->)%wp_done.
  { eapply wp_set_live; [exact Hg|exact Hn|done|done|]. intros res q' _ Hs.
    destruct (se_wake _ _ _ _ _ _ _ Hs) as [_ ->]. case_match; [apply awk_reliable|done]. }
  eapply (wp_iocp_held b io h cnt s2 _ tt q'); [done| |].
  { unfold set_readiness, rb_of, mbind, M_bind, gets. cbn. rewrite (proj1 (proj2 Hh2)), Hw2, Hw. unfold on_world. cbn in *. fold r. by rewrite E. }
  intros s3 Hh3 Hw3. eapply wp_mono; [by apply Hrest|]. intros _ s4 ->. exists r. split; [done|]. cbn. by rewrite E, Hw3.
Qed.

(** The port hands out the completion of one operation that adds a flag, and any
    number of wakeups. *)
Lemma one_completes u (k : Sockets) b h flag o bytes tok before after :
  (∀ q : Queue A, adds (callback o (mkStatus (Some o) tok bytes)) b h flag (with_queue q k)) →
  h ∈ u → is_drop flag = false → Forall is_wakeup before → Forall is_wakeup after →
  completes callback u (before ++ mkStatus (Some o) tok bytes :: after) k.
Proof.
  intros Hadds Hu Hd Hb Ha q hn ht ni ti rl Hq. apply wp_wakeups; [done|]. intros ret. cbn [run_statuses cs_overlapped]. wp_step.
  eapply wp_mono; [eapply adds_sets; [apply Hadds|exact Hq|done|done]|]. intros [] s' (r & Hr & Hw).
  rewrite <- (app_nil_r after). apply wp_wakeups; [done|]. intros ret'. cbn. exists [(h, r)]. split; [by repeat constructor|done].
Qed.
End sockets.

(** The completions of streams, listeners and UDP sockets are such completions: those
    the theorems of [WinPoll] are about. *)
Section instances.
Context {C : Type → Type} {cell_ops : LazyCellOps C}.
Context {A : Type} {awk_ops : AwakenerOps A} {reliable : AwakenerReliable A}.
Context {K : Type} {iocp_ops : IocpOps K} {win : WinSys K} {stream : StreamSys K} {acc : AcceptSys K} {udp : UdpSys K}.
Context {layout : TcpLayout} {layout_ok : TcpLayoutOk} {ulayout : UdpLayout} {ulayout_ok : UdpLayoutOk} {reserve : VecReserve}.
Abbreviation RI := RegistrationInner.

Theorem stream_completes (u : list RI) (k : WSys C unit RI RI K StreamInner) b io h cnt o bytes flag tok before after :
  sock_held b io h cnt k → stream_ends b (io_inner io) o bytes flag → h ∈ u →
  Forall is_wakeup before → Forall is_wakeup after →
  completes (A:=A) stream_callback u (before ++ mkStatus (Some o) tok bytes :: after) k.
Proof.
  intros Hh He Hu. apply (one_completes _ u k b h flag); [|done|by destruct He as [(_ & _ & _ & ->)|(_ & -> & _)]].
  intros q. eapply stream_adds; [exact Hh|done].
Qed.

(** A loop whose port hands out no more than that completion and wakeups. *)
Theorem stream_port_ok {S : Type → Type} {TO MSG : Type} get_many (u : list RI) (el : EventLoop S C A WinEvents (WSys C unit RI RI K StreamInner) TO MSG)
    b io h cnt o bytes flag :
  sock_held b io h cnt (selector (el_poll el)) → stream_ends b (io_inner io) o bytes flag → h ∈ u →
  (∀ n timeout statuses kern, get_many n timeout (kernel (selector (el_poll el))) = (Ok statuses, kern) →
    ∃ before tok after, statuses = before ++ mkStatus (Some o) tok bytes :: after ∧ Forall is_wakeup before ∧ Forall is_wakeup after) →
  port_ok stream_callback get_many u el.
Proof.
  intros Hh He Hu Hport. unfold port_ok. intros timeout statuses kern E. destruct (Hport _ _ _ _ E) as (before & tok & after & -> & Hb & Ha).
  by eapply stream_completes.
Qed.

Theorem accept_completes (u : list RI) (k : WSys C unit RI RI K ListenerInner) b io h cnt sock bytes tok before after :
  sock_held b io h cnt k → l_accept (io_inner io) = SPending sock → h ∈ u →
  Forall is_wakeup before → Forall is_wakeup after →
  completes (A:=A) listener_callback u (before ++ mkStatus (Some (accept_ptr b)) tok bytes :: after) k.
Proof.
  intros Hh He Hu. apply (one_completes _ u k b h Ready.readable); [|done..]. intros q. eapply accept_adds; [exact Hh|done].
Qed.

Theorem udp_completes (u : list RI) (k : WSys C unit RI RI K UdpInner) b io h cnt o bytes flag tok before after :
  sock_held b io h cnt k → udp_ends b (io_inner io) o bytes flag → h ∈ u →
  Forall is_wakeup before → Forall is_wakeup after →
  completes (A:=A) udp_callback u (before ++ mkStatus (Some o) tok bytes :: after) k.
Proof.
  intros Hh He Hu. apply (one_completes _ u k b h flag); [|done|by destruct He as [(_ & -> & _)|(_ & ->)]].
  intros q. eapply udp_adds; [exact Hh|done].
Qed.
End instances.

(** ** A loop with a stream

    The stream of [WinPoll] is registered with the queue of a loop that is then made
    by [configured] and hands out a sender. *)

Abbreviation WinSockets := (WSys option unit RegistrationInner RegistrationInner DK StreamInner).
Abbreviation WinDemoLoop := (EventLoop map_slab option counter WinEvents WinSockets string Z).
Definition the_poll : Poll counter WinSockets := mkPoll (without_queue the_stream) (world the_stream).
Definition win_loop : outcome WinDemoLoop :=
  match configured small_config (Ok the_poll) 0 with
  | Done (Ok el) => '(_, el) ← EventLoop_channel el; Done el
  | _ => Panic
  end.

(** Making a loop does not poll; the lemmas about it are for loops with some selector. *)
#[local] Instance unpolled_ops : SelectorOps WinSockets WinEvents := answers (Ok false) (selector the_poll).
#[local] Instance unpolled_total : SelectorTotal WinSockets WinEvents.
Proof. split. cbn. eauto. Qed.

Definition stream_handles : list RegistrationInner := [mkHandle 7 2%positive; mkHandle 7 2%positive].

Lemma the_stream_own : ∃ rl, qown (world the_stream) stream_handles rl.
Proof.
  destruct (po_queue _ (demo_ops_ok stream_hops eq_refl ltac:(cbn; lia))) as (al & rl & Hg). exists rl.
  assert (world the_stream = p_queue (demo_pool stream_hops)) as -> by (vm_compute; reflexivity).
  assert (stream_handles = p_handles (demo_pool stream_hops)) as -> by (vm_compute; reflexivity).
  split; [by exists al|]. intros h Hh. assert (h = mkHandle 7 2%positive) as -> by (unfold stream_handles in Hh; vm_compute in Hh; set_solver).
  vm_compute. eauto.
Qed.

Lemma win_loop_made : ∃ el, win_loop = Done el ∧ LoopOk late_clock 10 stream_handles [] el.
Proof.
  destruct the_stream_own as [rl Hq].
  destruct (configured_loop (S:=map_slab) (C:=option) (V:=WinEvents) (TO:=string) (MSG:=Z) late_clock small_config the_poll 0 100 10 stream_handles rl)
    as (el & E & Hl & _ & _ & _ & Hs & _ & Hst);
    [exact Hq|done|lia|cbn; lia|cbn; lia|by vm_compute|exact late_readings|unfold U64_MAX; lia|].
  unfold win_loop. rewrite E.
  pose proof (loop_channel_ok late_clock 10 stream_handles [] el Hl ltac:(rewrite Hs; done)) as ([] & el1 & E1 & Hl1 & _)%wp_done.
  rewrite E1. cbn [mbind outcome_bind]. eauto.
Qed.

Definition win_loop_el : WinDemoLoop :=
  match win_loop with
  | Done el => el
  | _ => mkEventLoop true the_poll (mkEvents (WinEvents_with_capacity 0)) (timer sys0) (shared sys0) (sync_channel 0 tt) small_config 0
  end.
Lemma win_loop_ok : LoopOk late_clock 10 stream_handles [] win_loop_el.
Proof. destruct win_loop_made as (el & E & Hl). unfold win_loop_el. by rewrite E. Qed.

(** The handler keeps the events and the messages it was given. *)
Abbreviation WinNotes := (list (Token * Ready.t) * list Z)%type.
Definition win_recorder : Handler (S:=map_slab) (C:=option) (A:=counter) (V:=WinEvents) (Sel:=WinSockets) (TO:=string) (MSG:=Z) (HS:=WinNotes) :=
  mkHandler (λ t r st, Done (tt, ((st.1.1 ++ [(t, r)], st.1.2), st.2))) (λ msg st, Done (tt, ((st.1.1, st.1.2 ++ [msg]), st.2)))
    (λ _, mret tt) (mret tt) (mret tt).
Definition win_owns (hs : WinNotes) : list RegistrationInner := stream_handles.

Lemma win_recorder_ok : handler_ok late_clock win_owns snd win_recorder.
Proof.
  split; cbn; intros; [|by apply (behaves_state late_clock win_owns snd true (λ hs : WinNotes, (hs.1, hs.2 ++ [msg])))|by apply behaves_ret..].
  apply (behaves_state late_clock win_owns snd true (λ hs : WinNotes, (hs.1 ++ [(t, r)], hs.2))); [done|]. intros hs. by rewrite app_nil_r.
Qed.

(** The read of the stream completes and the loop is woken up; another thread has
    sent two messages. *)
Definition wakeup_status : CompletionStatus := mkStatus None (usize_from_token AWAKEN) 0.
Definition read_and_wakeup (n : Z) (timeout : option Duration) (k : DK) : io_result (list CompletionStatus) * DK :=
  match read_completes n timeout k with (Ok l, k) => (Ok (l ++ [wakeup_status]), k) | r => r end.
Definition two_messages : list (Act Z) := [ASend 1; ASend 2].
Definition win_start : WinNotes * WinDemoLoop := (([], []), win_loop_el).
Definition win_once := win_run_once late_clock stream_callback 258 read_and_wakeup win_recorder 20
  (others_of (timer_handle win_loop_el) two_messages) None win_start.

(** The box of the stream. *)
Definition win_box : Io option RegistrationInner StreamInner :=
  match arcs (selector (el_poll win_loop_el)) !! 1%positive with
  | Some i => ai_data i
  | None => mkIo 0 None None (mkStreamInner None SEmpty SEmpty false)
  end.

Lemma read_and_wakeup_one k bytes k' n timeout statuses kern :
  dk_take (read_ptr 1) k = Some (bytes, k') → read_and_wakeup n timeout k = (Ok statuses, kern) →
  ∃ before tok after, statuses = before ++ mkStatus (Some (read_ptr 1)) tok bytes :: after ∧ Forall is_wakeup before ∧ Forall is_wakeup after.
Proof.
  intros Ek E. unfold read_and_wakeup, read_completes in E. rewrite Ek in E. injection E as <- _.
  exists [], 9, [wakeup_status]. by repeat constructor.
Qed.

Lemma win_port_ok : port_ok stream_callback read_and_wakeup stream_handles win_loop_el.
Proof.
  apply (stream_port_ok read_and_wakeup stream_handles win_loop_el 1%positive win_box (mkHandle 7 2%positive) 2 (read_ptr 1) 0 Ready.readable).
  - split; [vm_compute; reflexivity|]. split; [vm_compute; reflexivity|]. split; [lia|vm_compute; discriminate].
  - left. split; [reflexivity|]. split; [vm_compute; reflexivity|]. split; reflexivity.
  - left.
  - assert (∃ k', dk_take (read_ptr 1) (kernel (selector (el_poll win_loop_el))) = Some (0, k')) as [k' Ek]
      by (eexists; vm_compute; reflexivity).
    intros n timeout statuses kern. exact (read_and_wakeup_one _ 0 k' n timeout statuses kern Ek).
Qed.

Lemma win_run_once_delivers_witness :
  ∃ st' d later, win_once = Done (Ok tt, st') ∧ LoopOk late_clock 12 stream_handles [] st'.2 ∧
    st'.1.2 = d ∧ [1; 2] ++ later = d ++ m_queue (mpsc (el_notify st'.2)) ∧ (2 ≤ length d)%nat.
Proof.
  destruct (win_run_once_delivers late_clock stream_callback 258 read_and_wakeup win_owns snd win_recorder win_recorder_ok 20 two_messages None 10
    win_start win_loop_ok ltac:(repeat constructor) I win_port_ok) as (r & el1 & Ep & _ & H).
  assert (Ep' := Ep). vm_compute in Ep'. injection Ep' as <- <-.
  destruct H as (_ & _ & H); [vm_compute; reflexivity|].
  destruct (win_run_once late_clock stream_callback 258 read_and_wakeup win_recorder 20 (others_of (timer_handle win_start.2) two_messages) None win_start)
    as [[res st']| |] eqn:E; [|vm_compute in E; discriminate..].
  destruct (H res st' eq_refl) as (Hl & d & later & Hlog & Hq & -> & Hd).
  exists st', d, later. split; [exact E|]. split; [exact Hl|]. split; [exact Hlog|]. split; [exact Hq|exact Hd].
Defined.

(** The handler is told of the stream, in the same iteration. *)
Example win_once_events :
  match win_once with
  | Done (Ok _, (hs, _)) => hs = ([(mkToken 9, Ready.readable |ᵣ Ready.writable)], [1; 2])
  | _ => False
  end.
Proof. vm_compute. reflexivity. Qed.
