(* ===== verification/IosDeploy.v ===== *)
(** * ci/ios/deploy_and_run_on_ios_simulator.rs: running tests on the iOS simulator

    The script of the continuous integration that wraps a test binary as an app,
    starts a simulator, runs the app there and judges its output.  The processes it
    starts and the file system are the interface [Host]; the script keeps a trace
    of what it asked of them and what they answered.  It can stop early with a
    panic or [process::exit], so it has a monad of its own. *)

From S2P Require Import Prelude Iface.
From Stdlib Require Import Ascii.

(** ** Strings, as their UTF-8 bytes *)

Module Str.

Fixpoint starts_with (pat s : string) : bool :=
  match pat, s with
  | EmptyString, _ => true
  | String a pat, String b s => Ascii.eqb a b && starts_with pat s
  | _, EmptyString => false
  end.

(** [str::contains]. *)
Fixpoint contains (pat s : string) : bool :=
  starts_with pat s || match s with EmptyString => false | String _ s => contains pat s end.

Definition newline : ascii := "010"%char.
Definition return_ : ascii := "013"%char.
Definition slash : ascii := "/"%char.

(** The pieces between the occurrences of [c]; the first piece and the rest. *)
Fixpoint split_first (c : ascii) (s : string) : string * list string :=
  match s with
  | EmptyString => ("", [])
  | String a s =>
      let (p, ps) := split_first c s in
      if Ascii.eqb a c then ("", p :: ps) else (String a p, ps)
  end.
Definition split (c : ascii) (s : string) : list string := let (p, ps) := split_first c s in p :: ps.

(** [split_terminator]: as [split], without an empty last piece. *)
Definition split_terminator (c : ascii) (s : string) : list string :=
  let ps := split c s in
  match last ps with Some "" => removelast ps | _ => ps end.

(** A line without the carriage return at its end. *)
Fixpoint strip_return (s : string) : string :=
  match s with
  | EmptyString => ""
  | String a EmptyString => if Ascii.eqb a return_ then "" else s
  | String a s => String a (strip_return s)
  end.

(** [str::lines]. *)
Definition lines (s : string) : list string := strip_return <$> split_terminator newline s.

(** The first character of a non-empty byte sequence: how many bytes it has and
    whether they are well formed; if not, how many belong to the malformed prefix
    that is replaced as a whole. *)
Definition byte (c : option ascii) : Z := match c with Some c => Z.of_nat (nat_of_ascii c) | None => 0 end.
Definition cont (b : Z) : bool := (128 <=? b) && (b <=? 191).
Definition second_ok (b0 b1 : Z) : bool :=
  if b0 =? 224 then (160 <=? b1) && (b1 <=? 191)
  else if b0 =? 237 then (128 <=? b1) && (b1 <=? 159)
  else if b0 =? 240 then (144 <=? b1) && (b1 <=? 191)
  else if b0 =? 244 then (128 <=? b1) && (b1 <=? 143)
  else cont b1.
Definition width (b0 : Z) : nat :=
  if b0 <? 128 then 1 else if b0 <? 194 then 0 else if b0 <? 224 then 2
  else if b0 <? 240 then 3 else if b0 <? 245 then 4 else 0.
Definition first_char (s : string) : bool * nat :=
  let b i := byte (String.get i s) in
  match width (b 0%nat) with
  | 1 => (true, 1)
  | 2 => if second_ok (b 0%nat) (b 1%nat) then (true, 2) else (false, 1)
  | 3 => if second_ok (b 0%nat) (b 1%nat) then (if cont (b 2%nat) then (true, 3) else (false, 2)) else (false, 1)
  | 4 => if second_ok (b 0%nat) (b 1%nat)
         then (if cont (b 2%nat) then (if cont (b 3%nat) then (true, 4) else (false, 3)) else (false, 2))
         else (false, 1)
  | _ => (false, 1)
  end%nat.

Fixpoint take_str (n : nat) (s : string) : string :=
  match n, s with S n, String a s => String a (take_str n s) | _, _ => "" end.
Fixpoint drop_str (n : nat) (s : string) : string :=
  match n, s with S n, String _ s => drop_str n s | _, _ => s end.

(** The characters of [s] and whether they are well formed; every step takes a
    byte, so the length of [s] is enough fuel. *)
Fixpoint chars (fuel : nat) (s : string) : list (bool * string) :=
  match fuel, s with
  | S fuel, String _ _ => let (ok, n) := first_char s in (ok, take_str n s) :: chars fuel (drop_str n s)
  | _, _ => []
  end.
Definition utf8_chars (s : string) : list (bool * string) := chars (String.length s) s.

(** [String::from_utf8] and [String::from_utf8_lossy]. *)
Definition from_utf8 (s : string) : option string := if forallb fst (utf8_chars s) then Some s else None.
Definition replacement : string := String "239"%char (String "191"%char (String "189"%char EmptyString)).
Definition from_utf8_lossy (s : string) : string :=
  String.concat "" ((λ c : bool * string, if c.1 then c.2 else replacement) <$> utf8_chars s).

(** [Path::file_name] and [Path::join]. *)
Definition components (path : string) : list string :=
  List.filter (λ c, negb (String.eqb c "" || String.eqb c ".")) (split slash path).
Definition file_name (path : string) : option string :=
  match last (components path) with Some ".." => None | o => o end.
Definition join (base path : string) : string :=
  if starts_with "/" path then path
  else if starts_with "/" (take_str 1 (drop_str (String.length base - 1) base)) then base +:+ path
  else base +:+ "/" +:+ path.

End Str.

(** ** The host and the script's state *)

Record Output : Type := mkOutput { o_success : bool; o_stdout : string; o_stderr : string }.
Definition Argv : Type := list string.

(** [Command::status] (was the exit status a success?), [Command::output] and the
    functions of [std::fs]. *)
Class Host (K : Type) : Type := {
  k_status : Argv → K → io_result bool * K;
  k_output : Argv → K → io_result Output * K;
  k_remove_dir_all : string → K → io_result unit * K;
  k_create_dir : string → K → io_result unit * K;
  k_copy : string → string → K → io_result Z * K;
  k_file_create : string → K → io_result Z * K;
  k_write_all : Z → string → K → io_result unit * K }.

#[export] Instance result_eq_dec {E A} `{EqDecision E, EqDecision A} : EqDecision (result E A).
Proof. solve_decision. Defined.

(** What the script asked and was answered. *)
Inductive Ev : Type :=
  | EvStatus (argv : Argv) (r : io_result bool)
  | EvOutput (argv : Argv) (r : io_result Output)
  | EvRemoveDir (dir : string) (r : io_result unit)
  | EvCreateDir (dir : string) (r : io_result unit)
  | EvCopy (from to : string) (r : io_result Z)
  | EvFileCreate (path : string) (r : io_result Z)
  | EvWriteAll (file : Z) (bytes : string) (r : io_result unit).

(** How the process ends before the end of [main]. *)
Inductive stop : Type := Exited (code : Z) | Panicked.

Section script.
Context {K : Type} {host : Host K}.

Record St : Type := mkSt { host_state : K; printed : list string; trace : list Ev }.
Definition Script (A : Type) : Type := St → (stop + A) * St.

#[export] Instance script_ret : MRet Script := λ A a s, (inr a, s).
#[export] Instance script_bind : MBind Script := λ A B f m s,
  match m s with (inr a, s) => f a s | (inl e, s) => (inl e, s) end.

Definition halt {A} (e : stop) : Script A := λ s, (inl e, s).
Definition assert (b : bool) : Script unit := if b then mret tt else halt Panicked.
Definition unwrap_ {A} (o : option A) : Script A := match o with Some a => mret a | None => halt Panicked end.
Definition println (line : string) : Script unit := λ s, (inr tt, mkSt (host_state s) (printed s ++ [line]) (trace s)).
Definition ask {A} (f : K → A * K) (ev : A → Ev) : Script A := λ s,
  let (r, k) := f (host_state s) in (inr r, mkSt k (printed s) (trace s ++ [ev r])).

(** The macro [t!]. *)
Definition t {A} (m : Script (io_result A)) : Script A :=
  r ← m; match r with Ok a => mret a | Err _ => halt Panicked end.

Definition status (argv : Argv) : Script (io_result bool) := ask (k_status argv) (EvStatus argv).
Definition output (argv : Argv) : Script (io_result Output) := ask (k_output argv) (EvOutput argv).

(** ** The script *)

Definition quoted (s : string) : string := String (ascii_of_nat 34) s +:+ String (ascii_of_nat 34) "".
(** [{:?}] of a [Command] whose arguments need no escapes. *)
Definition command_fmt (argv : Argv) : string := String.concat " " (quoted <$> argv).
Definition tab : string := String "009"%char "".
Definition nl : string := String Str.newline "".

Definition check_status (argv : Argv) : Script unit :=
  _ ← println (tab +:+ "running: " +:+ command_fmt argv);
  ok ← t (status argv);
  assert ok.

Definition plist (crate_name : string) : string := "
        <?xml version=" +:+ quoted "1.0" +:+ " encoding=" +:+ quoted "UTF-8" +:+ "?>
        <!DOCTYPE plist PUBLIC
                " +:+ quoted "-//Apple//DTD PLIST 1.0//EN" +:+ "
                " +:+ quoted "http://www.apple.com/DTDs/PropertyList-1.0.dtd" +:+ ">
        <plist version=" +:+ quoted "1.0" +:+ ">
            <dict>
                <key>CFBundleExecutable</key>
                <string>" +:+ crate_name +:+ "</string>
                <key>CFBundleIdentifier</key>
                <string>com.rust.unittests</string>
            </dict>
        </plist>
    ".

Definition package_as_simulator_app (crate_name test_binary_path : string) : Script unit :=
  _ ← println "Packaging simulator app";
  _ ← ask (k_remove_dir_all "ios_simulator_app") (EvRemoveDir "ios_simulator_app");
  _ ← t (ask (k_create_dir "ios_simulator_app") (EvCreateDir "ios_simulator_app"));
  _ ← (let to := Str.join "ios_simulator_app" crate_name in
       t (ask (k_copy test_binary_path to) (EvCopy test_binary_path to)));
  f ← t (ask (k_file_create "ios_simulator_app/Info.plist") (EvFileCreate "ios_simulator_app/Info.plist"));
  t (ask (k_write_all f (plist crate_name)) (EvWriteAll f (plist crate_name))).

Definition simctl_list : Argv := ["xcrun"; "simctl"; "list"].
Definition simctl_create : Argv :=
  ["xcrun"; "simctl"; "create"; "rust_ios"; "com.apple.CoreSimulator.SimDeviceType.iPhone-SE";
   "com.apple.CoreSimulator.SimRuntime.iOS-10-2"].
Definition simctl_shutdown : Argv := ["xcrun"; "simctl"; "shutdown"; "rust_ios"].
Definition simctl_erase : Argv := ["xcrun"; "simctl"; "erase"; "rust_ios"].
Definition simctl_boot : Argv := ["xcrun"; "simctl"; "boot"; "rust_ios"].
Definition simctl_install : Argv := ["xcrun"; "simctl"; "install"; "booted"; "ios_simulator_app/"].
Definition simctl_launch : Argv :=
  ["xcrun"; "simctl"; "launch"; "--console"; "booted"; "com.rust.unittests"; "--color"; "never";
   "--test-threads"; "1"; "--nocapture"].

(** The variables [simulator_exists], [simulator_booted] and [found_rust_sim]. *)
Record Found : Type := mkFound { simulator_exists : bool; simulator_booted : bool; found_rust_sim : bool }.

(** The loop over the lines; [None]: the panic about duplicates. *)
Fixpoint look (ls : list string) (v : Found) : option Found :=
  match ls with
  | [] => Some v
  | line :: ls =>
      if Str.contains "rust_ios" line
      then if found_rust_sim v then None else look ls (mkFound true (Str.contains "(Booted)" line) true)
      else look ls v
  end.

Definition start_simulator : Script unit :=
  _ ← println "Looking for iOS simulator";
  o ← t (output simctl_list);
  _ ← assert (o_success o);
  stdout ← unwrap_ (Str.from_utf8 (o_stdout o));
  v ← unwrap_ (look (Str.lines stdout) (mkFound false false false));
  _ ← (if negb (simulator_exists v)
       then _ ← println "Creating iOS simulator"; check_status simctl_create
       else if simulator_booted v
       then _ ← println "Shutting down already-booted simulator"; check_status simctl_shutdown
       else mret tt);
  _ ← println "Starting iOS simulator";
  _ ← check_status simctl_erase;
  check_status simctl_boot.

Definition install_app_to_simulator : Script unit :=
  _ ← println "Installing app to simulator";
  check_status simctl_install.

Definition passed (stdout : string) : bool :=
  match List.find (Str.contains "test result") (Str.lines stdout) with
  | Some l => Str.contains " 0 failed" l
  | None => false
  end.

Definition run_app_on_simulator : Script unit :=
  _ ← println "Running app";
  o ← t (output simctl_launch);
  _ ← println ("stdout --" +:+ nl +:+ Str.from_utf8_lossy (o_stdout o) +:+ nl);
  _ ← println ("stderr --" +:+ nl +:+ Str.from_utf8_lossy (o_stderr o) +:+ nl);
  _ ← println "Shutting down simulator";
  _ ← check_status simctl_shutdown;
  if negb (passed (Str.from_utf8_lossy (o_stdout o))) then halt Panicked else mret tt.

(** [main], for the arguments of the process. *)
Definition main (args : list string) : Script unit :=
  if negb (bool_decide (length args = 2%nat))
  then arg0 ← unwrap_ (args !! 0%nat);
       _ ← println ("Usage: " +:+ arg0 +:+ " <executable>");
       halt (Exited (-1))
  else
    test_binary_path ← unwrap_ (args !! 1%nat);
    crate_name ← unwrap_ (Str.file_name test_binary_path);
    _ ← package_as_simulator_app crate_name test_binary_path;
    _ ← start_simulator;
    _ ← install_app_to_simulator;
    run_app_on_simulator.
End script.
Arguments St K : clear implicits.
Arguments Script K A : clear implicits.

(** ** Traces

    [runs m Q]: from every state [m] ends, with a result and a new part of the
    trace that satisfy [Q]. *)

Section traces.
Context {K : Type} {host : Host K}.

Definition runs {A} (m : Script K A) (Q : stop + A → list Ev → Prop) : Prop :=
  ∀ s, ∃ tr, trace (m s).2 = trace s ++ tr ∧ Q (m s).1 tr.

Lemma runs_mono {A} (m : Script K A) (Q R : stop + A → list Ev → Prop) :
  runs m Q → (∀ r tr, Q r tr → R r tr) → runs m R.
Proof. intros Hm HQ s. destruct (Hm s) as (tr & ? & ?). eauto. Qed.
Lemma runs_ret {A} (a : A) (Q : stop + A → list Ev → Prop) : Q (inr a) [] → runs (mret a) Q.
Proof. intros HQ s. exists []. by rewrite app_nil_r. Qed.
Lemma runs_halt {A} e (Q : stop + A → list Ev → Prop) : Q (inl e) [] → runs (halt e) Q.
Proof. intros HQ s. exists []. by rewrite app_nil_r. Qed.
Lemma runs_println line (Q : stop + unit → list Ev → Prop) : Q (inr tt) [] → runs (println line) Q.
Proof. intros HQ s. exists []. by rewrite app_nil_r. Qed.
Lemma runs_ask {A} (f : K → A * K) ev (Q : stop + A → list Ev → Prop) : (∀ r, Q (inr r) [ev r]) → runs (ask f ev) Q.
Proof. intros HQ s. unfold ask. destruct (f (host_state s)) as [r k]. exists [ev r]. split; [done|apply HQ]. Qed.
Lemma runs_bind {A B} (m : Script K A) (f : A → Script K B) (Q : stop + B → list Ev → Prop) :
  runs m (λ r tr, match r with inl e => Q (inl e) tr | inr a => runs (f a) (λ r tr', Q r (tr ++ tr')) end) → runs (m ≫= f) Q.
Proof.
  intros Hm s. destruct (Hm s) as (tr & Htr & HQ). unfold mbind, script_bind. destruct (m s) as [[e|a] s1]; cbn in *; [by eauto|].
  destruct (HQ s1) as (tr' & Htr' & HQ'). exists (tr ++ tr'). by rewrite Htr', Htr, app_assoc.
Qed.
Lemma runs_assert (b : bool) (Q : stop + unit → list Ev → Prop) : (if b then Q (inr tt) [] else Q (inl Panicked) []) → runs (assert b) Q.
Proof. unfold assert. destruct b; [apply runs_ret|apply runs_halt]. Qed.
Lemma runs_unwrap {A} (o : option A) (Q : stop + A → list Ev → Prop) :
  match o with Some a => Q (inr a) [] | None => Q (inl Panicked) [] end → runs (unwrap_ o) Q.
Proof. unfold unwrap_. destruct o; [apply runs_ret|apply runs_halt]. Qed.
Lemma runs_t {A} (f : K → io_result A * K) ev (Q : stop + A → list Ev → Prop) :
  (∀ r, Q match r with Ok a => inr a | Err _ => inl Panicked end [ev r]) → runs (t (ask f ev)) Q.
Proof. intros HQ. unfold t. apply runs_bind, runs_ask. intros [a|e]; [apply runs_ret, (HQ (Ok a))|apply runs_halt, (HQ (Err e))]. Qed.
Lemma runs_check argv (Q : stop + unit → list Ev → Prop) :
  (∀ r, Q (if decide (r = Ok true) then inr tt else inl Panicked) [EvStatus argv r]) → runs (check_status argv) Q.
Proof.
  intros HQ. unfold check_status. apply runs_bind, runs_println, runs_bind, runs_t. intros r. specialize (HQ r).
  case_decide as Hr; [subst; by apply runs_ret|]. destruct r as [[]|e]; [done|by apply runs_halt|done].
Qed.
End traces.

(** One step of a script under [runs]. *)
Ltac runs_step :=
  lazymatch goal with
  | |- runs (mbind _ _) _ => apply runs_bind
  | |- runs (mret _) _ => apply runs_ret
  | |- runs (halt _) _ => apply runs_halt
  | |- runs (println _) _ => apply runs_println
  | |- runs (t _) _ => apply runs_t; intros []; cbn beta iota
  | |- runs (check_status _) _ => apply runs_check; intros ?; case_decide; cbn beta iota
  | |- runs (ask _ _) _ => apply runs_ask; intros ?; cbn beta iota
  end.

Section verdict.
Context {K : Type} {host : Host K}.

(** The answer is what the script needs to go on: the calls succeed (whether there
    was a directory to remove does not matter), the list of simulators is readable
    and has at most one for the tests, and the output of the app says that no test
    failed. *)
Definition listed (o : Output) : option Found :=
  stdout ← Str.from_utf8 (o_stdout o); look (Str.lines stdout) (mkFound false false false).
Definition fine (e : Ev) : bool :=
  match e with
  | EvStatus _ r => bool_decide (r = Ok true)
  | EvOutput argv (Ok o) =>
      if decide (argv = simctl_list) then o_success o && bool_decide (is_Some (listed o))
      else passed (Str.from_utf8_lossy (o_stdout o))
  | EvOutput _ (Err _) => false
  | EvRemoveDir _ _ => true
  | EvCreateDir _ r => is_ok r
  | EvCopy _ _ r => is_ok r
  | EvFileCreate _ r => is_ok r
  | EvWriteAll _ _ r => is_ok r
  end.

(** A part of the script that leaves a trace in [good] if all goes well, and
    otherwise stops at an answer that is not fine. *)
Definition step_of (good : list Ev → Prop) (r : stop + unit) (tr : list Ev) : Prop :=
  match r with
  | inr _ => good tr ∧ forallb fine tr = true
  | inl e => e = Panicked ∧ forallb fine tr = false
  end.
Definition does (m : Script K unit) (good : list Ev → Prop) : Prop := runs m (step_of good).

Lemma does_bind m1 m2 g1 g2 :
  does m1 g1 → does m2 g2 → does (_ ← m1; m2) (λ tr, ∃ t1 t2, tr = t1 ++ t2 ∧ g1 t1 ∧ g2 t2).
Proof.
  intros H1 H2. unfold does. runs_step. eapply runs_mono; [exact H1|]. intros [e|[]] t1; [done|]. intros [Hg1 Hf1].
  eapply runs_mono; [exact H2|]. intros [e|[]] t2; unfold step_of; rewrite forallb_app, Hf1; cbn; naive_solver.
Qed.

Lemma does_check argv : does (check_status argv) (λ tr, tr = [EvStatus argv (Ok true)]).
Proof.
  unfold does, step_of. runs_step; cbn.
  - subst. done.
  - by rewrite bool_decide_eq_false_2.
Qed.

Lemma does_println line m g : does m g → does (_ ← println line; m) g.
Proof. intros Hm. unfold does. do 2 runs_step. exact Hm. Qed.

Definition package_trace (crate_name path : string) (tr : list Ev) : Prop := ∃ r n f,
  tr = [EvRemoveDir "ios_simulator_app" r; EvCreateDir "ios_simulator_app" (Ok tt);
        EvCopy path (Str.join "ios_simulator_app" crate_name) (Ok n);
        EvFileCreate "ios_simulator_app/Info.plist" (Ok f); EvWriteAll f (plist crate_name) (Ok tt)].

Lemma package_does crate_name path : does (package_as_simulator_app crate_name path) (package_trace crate_name path).
Proof.
  apply does_println. unfold does, step_of, package_trace. runs_step. runs_step. do 3 (runs_step; runs_step; [|done]).
  runs_step; [|done]. cbn. split; [|done]. repeat match goal with u : () |- _ => destruct u end. eauto.
Qed.

(** What the script does before it erases and boots the simulator. *)
Definition prepare (v : Found) : list Ev :=
  if negb (simulator_exists v) then [EvStatus simctl_create (Ok true)]
  else if simulator_booted v then [EvStatus simctl_shutdown (Ok true)] else [].
Definition start_trace (tr : list Ev) : Prop := ∃ o v,
  o_success o = true ∧ listed o = Some v ∧
  tr = [EvOutput simctl_list (Ok o)] ++ prepare v ++ [EvStatus simctl_erase (Ok true); EvStatus simctl_boot (Ok true)].

Lemma start_does : does start_simulator start_trace.
Proof.
  apply does_println. unfold does. runs_step. apply runs_t. intros [o|e]; [|done]. runs_step. apply runs_assert.
  destruct (o_success o) eqn:Eo; [|split; [done|]; cbn; by rewrite Eo].
  assert (∀ w, listed o = w → fine (EvOutput simctl_list (Ok o)) = bool_decide (is_Some w)) as Hfine.
  { intros w <-. cbn. rewrite decide_True, Eo by done. done. }
  runs_step. apply runs_unwrap. destruct (Str.from_utf8 (o_stdout o)) as [stdout|] eqn:Eu.
  2: { split; [done|]. cbn -[fine]. rewrite (Hfine None); [done|]. unfold listed. by rewrite Eu. }
  assert (listed o = look (Str.lines stdout) (mkFound false false false)) as El by (unfold listed; by rewrite Eu).
  runs_step. apply runs_unwrap. destruct (look _ _) as [v|] eqn:Ev; [|split; [done|]; cbn -[fine]; by rewrite (Hfine None)].
  eapply runs_mono; [eapply (does_bind _ _ (λ tr, tr = prepare v)); [|apply does_println, does_bind; apply does_check]|].
  - unfold prepare. destruct (negb _); [apply does_println, does_check|].
    destruct (simulator_booted v); [apply does_println, does_check|]. unfold does. by runs_step.
  - intros [e|[]] tr; unfold step_of; cbn [app forallb].
    + intros [-> Htr]. split; [done|]. by rewrite Htr, andb_false_r.
    + intros [(t1 & t2 & -> & -> & t3 & t4 & -> & -> & ->) Htr]. split; [by exists o, v|]. rewrite (Hfine (Some v)) by done. exact Htr.
Qed.

Definition run_trace (tr : list Ev) : Prop := ∃ o,
  passed (Str.from_utf8_lossy (o_stdout o)) = true ∧ tr = [EvOutput simctl_launch (Ok o); EvStatus simctl_shutdown (Ok true)].

Lemma run_app_does : does run_app_on_simulator run_trace.
Proof.
  apply does_println. unfold does. runs_step. apply runs_t. intros [o|e]; [|done]. do 6 runs_step. runs_step.
  assert (fine (EvOutput simctl_launch (Ok o)) = passed (Str.from_utf8_lossy (o_stdout o))) as Hfine by done.
  eapply runs_mono; [apply does_check|]. intros [e|[]] tr; unfold step_of; cbn -[fine].
  - intros [-> ->]. by rewrite andb_false_r.
  - intros [-> _]. destruct (passed _) eqn:Ep; cbn [negb].
    + apply runs_ret. cbn -[fine]. rewrite Hfine. split; [by exists o|done].
    + apply runs_halt. cbn -[fine]. by rewrite Hfine.
Qed.

(** The calls of a script that ends well. *)
Definition deploy_trace (crate_name path : string) (tr : list Ev) : Prop := ∃ t1 t2 t3,
  tr = t1 ++ t2 ++ EvStatus simctl_install (Ok true) :: t3 ∧
  package_trace crate_name path t1 ∧ start_trace t2 ∧ run_trace t3.

Lemma deploy_does crate_name path :
  does (_ ← package_as_simulator_app crate_name path; _ ← start_simulator; _ ← install_app_to_simulator; run_app_on_simulator)
    (deploy_trace crate_name path).
Proof.
  eapply runs_mono; [apply does_bind; [apply package_does|]; apply does_bind; [apply start_does|]; apply does_bind;
    [apply does_println, does_check|apply run_app_does]|].
  intros [e|[]] tr; [done|]. intros [(t1 & t2 & -> & H1 & t3 & t4 & -> & H3 & t5 & t6 & -> & -> & H6) Hf]. split; [|done].
  by exists t1, t3, t6.
Qed.

(** C40: the script ends normally, with exit status 0, exactly if it was asked to do
    something and all it asked of the host was answered as it needs, the tests among
    it: then it was given one executable, packaged it, prepared and booted the
    simulator as its state required, installed and ran the app, whose first result
    line has no failed tests, and shut the simulator down, in this order. *)
Theorem deploy_verdict (args : list string) (s : St K) :
  trace s = [] →
  ((main args s).1 = inr tt ↔ trace (main args s).2 ≠ [] ∧ forallb fine (trace (main args s).2) = true) ∧
  ((main args s).1 = inr tt → ∃ arg0 path crate_name, args = [arg0; path] ∧ Str.file_name path = Some crate_name ∧
    deploy_trace crate_name path (trace (main args s).2)).
Proof.
  intros Hs. assert (runs (main args) (λ r tr,
    (tr = [] ∧ r ≠ inr tt) ∨ ∃ arg0 path crate_name, args = [arg0; path] ∧ Str.file_name path = Some crate_name ∧
      step_of (deploy_trace crate_name path) r tr)) as Hm.
  { unfold main. case_bool_decide as Hl; cbn [negb].
    - destruct args as [|arg0 [|path []]]; try done. runs_step. apply runs_unwrap. cbn. runs_step. apply runs_unwrap.
      destruct (Str.file_name path) as [c|] eqn:Ec; [|by left]. eapply runs_mono; [apply deploy_does|]. cbn. intros r tr Hd. right. eauto 10.
    - runs_step. apply runs_unwrap. case_match; [|by left]. do 2 runs_step. runs_step. by left. }
  destruct (Hm s) as (tr & Htr & Hr). rewrite Hs in Htr. destruct (main args s) as [r s']. cbn in Htr, Hr. cbn [fst snd]. rewrite Htr.
  destruct Hr as [[-> Hr]|(arg0 & path & c & -> & Hc & Hst)]; [naive_solver|].
  assert (r = inr tt ↔ tr ≠ [] ∧ forallb fine tr = true) as Hiff.
  { destruct r as [e|[]]; unfold step_of in Hst; [|destruct Hst as [(t1 & t2 & t3 & -> & _) ->]].
    - destruct Hst as [-> Hf]. rewrite Hf. naive_solver.
    - split; [|done]. intros _. split; [|done]. by destruct t1, t2. }
  split; [done|]. intros ->. exists arg0, path, c. destruct Hst as [Hst _]. done.
Qed.
End verdict.

(** ** The simulator is shut down again *)

Section shutdown.
Context {K : Type} {host : Host K}.

Definition no_launch (e : Ev) : Prop := match e with EvOutput argv _ => argv ≠ simctl_launch | _ => True end.
Definition silent {A} (m : Script K A) : Prop := runs m (λ _ tr, Forall no_launch tr).

Lemma silent_bind {A B} (m : Script K A) (f : A → Script K B) : silent m → (∀ a, silent (f a)) → silent (m ≫= f).
Proof.
  intros Hm Hf. unfold silent. runs_step. eapply runs_mono; [exact Hm|]. intros [e|a] tr Htr; [done|].
  eapply runs_mono; [apply Hf|]. intros r tr' Htr'. by apply Forall_app_2.
Qed.
Lemma silent_ret {A} (a : A) : silent (mret a).
Proof. by apply runs_ret, Forall_nil. Qed.
Lemma silent_println line : silent (println line).
Proof. by apply runs_println, Forall_nil. Qed.
Lemma silent_t {A} (f : K → io_result A * K) ev : (∀ r, no_launch (ev r)) → silent (t (ask f ev)).
Proof. intros Hev. apply runs_t. intros r. by apply Forall_singleton. Qed.
Lemma silent_ask {A} (f : K → A * K) ev : (∀ r, no_launch (ev r)) → silent (ask f ev).
Proof. intros Hev. apply runs_ask. intros r. by apply Forall_singleton. Qed.
Lemma silent_check argv : silent (check_status argv).
Proof. apply runs_check. intros r. by apply Forall_singleton. Qed.
Lemma silent_assert b : silent (assert b).
Proof. apply runs_assert. destruct b; by apply Forall_nil. Qed.
Lemma silent_unwrap {A} (o : option A) : silent (unwrap_ o).
Proof. apply runs_unwrap. destruct o; by apply Forall_nil. Qed.

Ltac silent_steps :=
  repeat lazymatch goal with
  | |- silent (mbind _ _) => apply silent_bind; [|intros ?]
  | |- silent (println _) => apply silent_println
  | |- silent (check_status _) => apply silent_check
  | |- silent (assert _) => apply silent_assert
  | |- silent (unwrap_ _) => apply silent_unwrap
  | |- silent (mret _) => apply silent_ret
  | |- silent (t _) => apply silent_t; intros; done
  | |- silent (ask _ _) => apply silent_ask; intros; done
  | |- _ => first [case_match | progress cbv zeta]
  end.
Lemma package_silent crate_name path : silent (package_as_simulator_app crate_name path).
Proof. unfold package_as_simulator_app. silent_steps. Qed.
Lemma start_silent : silent start_simulator.
Proof. unfold start_simulator, output. silent_steps. Qed.

(** Once the app gave its output, only the shutdown follows. *)
Definition shuts (tr : list Ev) : Prop := ∀ pre o post,
  tr = pre ++ EvOutput simctl_launch (Ok o) :: post → ∃ r, post = [EvStatus simctl_shutdown r].

Lemma shuts_silent tr : Forall no_launch tr → shuts tr.
Proof. intros Htr pre o post ->. apply Forall_app in Htr as [_ Htr]. by inversion Htr. Qed.
Lemma shuts_app t1 t2 : Forall no_launch t1 → shuts t2 → shuts (t1 ++ t2).
Proof.
  intros H1 H2 pre o post E. revert pre E. induction H1 as [|e t1 He _ IH]; intros pre E; [by eapply H2|].
  destruct pre as [|e' pre]; cbn in E; injection E as -> E; [done|by eapply IH].
Qed.
Lemma shuts_bind {A B} (m : Script K A) (f : A → Script K B) :
  silent m → (∀ a, runs (f a) (λ _, shuts)) → runs (m ≫= f) (λ _, shuts).
Proof.
  intros Hm Hf. runs_step. eapply runs_mono; [exact Hm|]. intros [e|a] tr Htr; [by apply shuts_silent|].
  eapply runs_mono; [apply Hf|]. intros r tr' Htr'. by apply shuts_app.
Qed.

Lemma run_app_shuts : runs run_app_on_simulator (λ _, shuts).
Proof.
  apply shuts_bind; [apply silent_println|]. intros []. runs_step. apply runs_t. intros [o|e].
  2: { intros pre o post E. destruct pre as [|? []]; discriminate. }
  do 6 runs_step. runs_step. apply runs_check. intros r.
  assert (shuts [EvOutput simctl_launch (Ok o); EvStatus simctl_shutdown r]) as Hsh.
  { intros [|e1 [|e2 [|e3 pre]]] o' post E; simplify_eq/=. by eexists. }
  case_decide; [|done]. destruct (negb _); [by apply runs_halt|by apply runs_ret].
Qed.

(** Whatever the tests did: once the app was launched and gave its output, the
    script asks to shut the simulator down, and does nothing else after. *)
Theorem launched_then_shut_down (args : list string) (s : St K) (pre post : list Ev) (o : Output) :
  trace s = [] → trace (main args s).2 = pre ++ EvOutput simctl_launch (Ok o) :: post →
  ∃ r, post = [EvStatus simctl_shutdown r].
Proof.
  intros Hs Htr. assert (runs (main args) (λ _, shuts)) as Hm.
  { unfold main. case_bool_decide; cbn [negb].
    - apply shuts_bind; [apply silent_unwrap|]. intros path. apply shuts_bind; [apply silent_unwrap|]. intros c.
      apply shuts_bind; [apply package_silent|]. intros []. apply shuts_bind; [apply start_silent|]. intros [].
      apply shuts_bind; [apply silent_bind; [apply silent_println|intros; apply silent_check]|]. intros []. apply run_app_shuts.
    - apply shuts_bind; [apply silent_unwrap|]. intros a. apply shuts_bind; [apply silent_println|]. intros [].
      by apply runs_halt, shuts_silent, Forall_nil. }
  destruct (Hm s) as (tr & E & Hsh). rewrite Hs, Htr in E. by eapply Hsh.
Qed.
End shutdown.

(** ** Lossy conversion *)

Lemma take_drop_str n s : Str.take_str n s +:+ Str.drop_str n s = s.
Proof. revert s. induction n as [|n IH]; intros [|a s]; [done..|].
  change (String a (Str.take_str n s +:+ Str.drop_str n s) = String a s). by rewrite IH.
Qed.
Lemma drop_str_length n s : String.length (Str.drop_str n s) = (String.length s - n)%nat.
Proof. revert s. induction n as [|n IH]; intros [|a s]; [done..|]. apply IH. Qed.
Lemma first_char_takes s : (1 ≤ (Str.first_char s).2)%nat.
Proof. unfold Str.first_char. repeat case_match; cbn; lia. Qed.
Lemma concat_empty (l : list string) a : String.concat "" (a :: l) = a +:+ String.concat "" l.
Proof. destruct l as [|b l]; [|done]. cbn. induction a as [|c a IH]; [done|]. change (String c a = String c (a +:+ EmptyString)). by rewrite <- IH. Qed.

Lemma chars_concat fuel s : (String.length s ≤ fuel)%nat → String.concat "" (snd <$> Str.chars fuel s) = s.
Proof.
  revert s. induction fuel as [|fuel IH]; intros s Hl; [by destruct s; cbn in *; [|lia]|].
  destruct s as [|a s]; [done|]. cbn [Str.chars]. pose proof (first_char_takes (String a s)) as Hn.
  destruct (Str.first_char (String a s)) as [ok n]. cbn [snd] in Hn. rewrite fmap_cons, concat_empty.
  rewrite IH; [apply take_drop_str|]. rewrite drop_str_length. cbn in *. lia.
Qed.

(** Text that is valid UTF-8 is the same for the strict and the lossy conversion. *)
Theorem lossy_is_strict (s s' : string) : Str.from_utf8 s = Some s' → s' = s ∧ Str.from_utf8_lossy s = s.
Proof.
  unfold Str.from_utf8, Str.from_utf8_lossy. intros H. destruct (forallb fst (Str.utf8_chars s)) eqn:Ef; simplify_eq. split; [done|].
  rewrite <- (chars_concat (String.length s') s' (Nat.le_refl _)) at 2. f_equal. fold (Str.utf8_chars s').
  apply list_fmap_ext. intros i [ok c] Hi. rewrite forallb_forall in Ef.
  specialize (Ef _ (proj1 (list_elem_of_In _ _) (list_elem_of_lookup_2 _ _ _ Hi))). cbn in *. by subst.
Qed.

(** ** The simulator

    What [simctl] documents of its commands, for the simulator of the tests. *)

Inductive Sim : Type := Missing | Off | On.

Class SimctlSpec (K : Type) : Type := { sim : K → Sim }.
Class Simctl (K : Type) {host : Host K} {spec : SimctlSpec K} : Prop := {
  (** The list has a line for the simulator if it exists, which says if it is booted. *)
  simctl_lists k : ∃ o k', k_output simctl_list k = (Ok o, k') ∧ sim k' = sim k ∧ o_success o = true ∧
    ∃ stdout, Str.from_utf8 (o_stdout o) = Some stdout ∧
    (λ l, Str.contains "(Booted)" l) <$> List.filter (Str.contains "rust_ios") (Str.lines stdout) =
      match sim k with Missing => [] | Off => [false] | On => [true] end;
  simctl_creates k : sim k = Missing → ∃ k', k_status simctl_create k = (Ok true, k') ∧ sim k' = Off;
  simctl_shuts_down k : sim k = On → ∃ k', k_status simctl_shutdown k = (Ok true, k') ∧ sim k' = Off;
  simctl_erases k : sim k = Off → ∃ k', k_status simctl_erase k = (Ok true, k') ∧ sim k' = Off;
  simctl_boots k : sim k = Off → ∃ k', k_status simctl_boot k = (Ok true, k') ∧ sim k' = On }.

Section simulator.
Context {K : Type} {host : Host K} {spec : SimctlSpec K} {laws : Simctl K}.

Lemma look_filter ls v : look ls v =
  match List.filter (Str.contains "rust_ios") ls with
  | [] => Some v
  | [l] => if found_rust_sim v then None else Some (mkFound true (Str.contains "(Booted)" l) true)
  | _ => None
  end.
Proof.
  revert v. induction ls as [|l ls IH]; intros v; [done|]. cbn [look List.filter]. destruct (Str.contains "rust_ios" l); [|apply IH].
  destruct (found_rust_sim v) eqn:E; [by destruct (List.filter _ ls)|]. rewrite IH. cbn. by destruct (List.filter _ ls) as [|? []].
Qed.

(** The script goes on. *)
Definition ends {A} (m : Script K A) (Q : A → St K → Prop) (s : St K) : Prop :=
  match m s with (inr a, s') => Q a s' | (inl _, _) => False end.
Lemma ends_bind {A B} (m : Script K A) (f : A → Script K B) Q s : ends m (λ a, ends (f a) Q) s → ends (m ≫= f) Q s.
Proof. unfold ends, mbind, script_bind. by destruct (m s) as [[e|a] s']. Qed.
Lemma ends_check argv s k' (Q : unit → St K → Prop) : k_status argv (host_state s) = (Ok true, k') →
  (∀ s', host_state s' = k' → Q tt s') → ends (check_status argv) Q s.
Proof.
  intros E HQ. unfold ends, check_status, t, status, ask, mbind, script_bind. cbn. rewrite E. cbn. by apply HQ.
Qed.

Lemma ends_println line s (Q : unit → St K → Prop) : (∀ s', host_state s' = host_state s → Q tt s') → ends (println line) Q s.
Proof. intros HQ. by apply HQ. Qed.
Lemma ends_say line argv s k' (Q : unit → St K → Prop) : k_status argv (host_state s) = (Ok true, k') →
  (∀ s', host_state s' = k' → Q tt s') → ends (_ ← println line; check_status argv) Q s.
Proof. intros E HQ. apply ends_bind, ends_println. intros s1 H1. eapply ends_check; [by rewrite H1|done]. Qed.

(** Whether the simulator is missing, off or booted: the script ends up with a
    freshly erased, booted simulator, and no command it uses is refused. *)
Theorem start_simulator_boots (s : St K) : ∃ s', start_simulator s = (inr tt, s') ∧ sim (host_state s') = On.
Proof.
  assert (ends start_simulator (λ _ s', sim (host_state s') = On) s) as He.
  { apply ends_bind, ends_println. intros s0 H0. apply ends_bind. unfold ends at 1, t, output, ask, mbind at 1, script_bind at 1. rewrite H0.
    destruct (simctl_lists (host_state s)) as (o & k1 & -> & Hk1 & Ho & stdout & Hu & Hl). cbn [mret script_ret].
    set (s1 := mkSt k1 _ _). apply ends_bind. rewrite Ho. apply ends_bind. rewrite Hu. apply ends_bind.
    assert (∀ s1 : St K, sim (host_state s1) = Off → ends (_ ← println "Starting iOS simulator"; _ ← check_status simctl_erase;
      check_status simctl_boot) (λ _ s', sim (host_state s') = On) s1) as Hend.
    { intros s2 H2. apply ends_bind, ends_println. intros s3 H3. apply ends_bind. rewrite <- H3 in H2.
      destruct (simctl_erases _ H2) as (k4 & E4 & H4). eapply ends_check; [exact E4|]. intros s4 <-.
      destruct (simctl_boots _ H4) as (k5 & E5 & H5). eapply ends_check; [exact E5|]. by intros s5 <-. }
    rewrite look_filter. destruct (sim (host_state s)) eqn:Es; destruct (List.filter _ _) as [|l []]; try discriminate Hl;
      apply ends_bind; cbn [negb simulator_exists simulator_booted found_rust_sim].
    - destruct (simctl_creates k1 Hk1) as (k2 & E2 & H2). eapply ends_say; [exact E2|]. intros s2 <-. by apply Hend.
    - injection Hl as ->. by apply Hend.
    - injection Hl as ->. destruct (simctl_shuts_down k1 Hk1) as (k2 & E2 & H2).
      eapply ends_say; [exact E2|]. intros s2 <-. by apply Hend. }
  unfold ends in He. destruct (start_simulator s) as [[e|[]] s']; [done|]. by exists s'.
Qed.
End simulator.

(** ** A host for runs

    A simulator that refuses commands in the wrong state, and an app with a fixed
    output. *)

Record DemoHost : Type := mkDemo { d_sim : Sim; d_app : string }.
Definition demo_change (before : list Sim) (after : Sim) (k : DemoHost) : io_result bool * DemoHost :=
  if existsb (λ x, match x, d_sim k with Missing, Missing | Off, Off | On, On => true | _, _ => false end) before
  then (Ok true, mkDemo after (d_app k)) else (Ok false, k).
Definition demo_status (argv : Argv) (k : DemoHost) : io_result bool * DemoHost :=
  if decide (argv = simctl_create) then demo_change [Missing] Off k
  else if decide (argv = simctl_shutdown) then demo_change [On] Off k
  else if decide (argv = simctl_erase) then demo_change [Off] Off k
  else if decide (argv = simctl_boot) then demo_change [Off] On k
  else demo_change [On] On k.
Definition demo_list (x : Sim) : string :=
  "== Devices ==" +:+ nl +:+
  match x with
  | Missing => ""
  | Off => "    rust_ios (6F) (Shutdown)" +:+ nl
  | On => "    rust_ios (6F) (Booted)" +:+ nl
  end.
#[export] Instance demo_host : Host DemoHost := {
  k_status := demo_status;
  k_output argv k := (Ok (mkOutput true (if decide (argv = simctl_list) then demo_list (d_sim k) else d_app k) ""), k);
  k_remove_dir_all _ k := (Err (io_custom Other "no such directory"), k);
  k_create_dir _ k := (Ok tt, k);
  k_copy _ _ k := (Ok 4096, k);
  k_file_create _ k := (Ok 3, k);
  k_write_all _ _ k := (Ok tt, k) }.
#[export] Instance demo_simctl_spec : SimctlSpec DemoHost := { sim := d_sim }.
#[export] Instance demo_simctl : Simctl DemoHost.
Proof.
  split.
  - intros [x app]. eexists _, _. split; [reflexivity|]. split; [done|]. split; [done|]. exists (demo_list x). by destruct x.
  - intros [x app] Hx. cbn in Hx. subst. eexists. split; reflexivity.
  - intros [x app] Hx. cbn in Hx. subst. eexists. split; reflexivity.
  - intros [x app] Hx. cbn in Hx. subst. eexists. split; reflexivity.
  - intros [x app] Hx. cbn in Hx. subst. eexists. split; reflexivity.
Qed.

Definition app_output (result : string) : string :=
  "running 2 tests" +:+ nl +:+ "test a ... ok" +:+ nl +:+ "test result: " +:+ result +:+ nl.
Definition run_demo (args : list string) (x : Sim) (result : string) : (stop + unit) * St DemoHost :=
  main args (mkSt (mkDemo x (app_output result)) [] []).
Definition demo_args : list string := ["deploy"; "target/debug/mio-0af3"].

Lemma start_simulator_boots_witness : ∃ s', start_simulator (mkSt (mkDemo Missing "") [] []) = (inr tt, s') ∧ sim (host_state s') = On.
Proof. apply (start_simulator_boots (mkSt (mkDemo Missing "") [] [])). Defined.

Definition demo_start : St DemoHost := mkSt (mkDemo On (app_output "ok. 2 passed; 0 failed")) [] [].
Lemma deploy_verdict_witness :
  ∃ arg0 path crate_name, demo_args = [arg0; path] ∧ Str.file_name path = Some crate_name ∧
    deploy_trace crate_name path (trace (main demo_args demo_start).2).
Proof. apply (proj2 (deploy_verdict demo_args demo_start eq_refl)). vm_compute. reflexivity. Defined.

(** The same script, with passing and with failing tests, whatever the state of the
    simulator was: it is off in the end. *)
Example demo_runs (x : Sim) :
  let good := run_demo demo_args x "ok. 2 passed; 0 failed" in
  let bad := run_demo demo_args x "FAILED. 1 passed; 10 failed" in
  good.1 = inr tt ∧ d_sim (host_state good.2) = Off ∧ bad.1 = inl Panicked ∧ d_sim (host_state bad.2) = Off.
Proof. destruct x; vm_compute; auto. Qed.

(** A path without a file name, and the wrong number of arguments. *)
Example demo_errors :
  (run_demo ["deploy"; "target/.."] On "").1 = inl Panicked ∧ (run_demo ["deploy"] On "").1 = inl (Exited (-1)) ∧
  Str.file_name "/usr/bin/./" = Some "bin" ∧ Str.file_name "/" = None.
Proof. vm_compute. auto. Qed.

(** The verdict is about the first line with a result: the output of a test, which
    [--nocapture] lets through, can hide a failure. *)
Example output_of_a_test_hides_failure :
  (run_demo demo_args On ("0 failed so far" +:+ nl +:+ "test result: FAILED. 1 passed; 1 failed")).1 = inr tt.
Proof. vm_compute. reflexivity. Qed.
