(* ===== verification/SourceTests.v ===== *)
(** * The unit tests of the source

    The tests inside [timer.rs], [poll.rs] and [sys/windows/from_raw_arc.rs],
    translated call by call, run on the model.  A failed assertion is a panic, so a
    test passes if its run is [Done].  [readiness_node_count], which the test of
    [poll.rs] uses on three registrations, is shown to be right for all programs. *)

From S2P Require Import Prelude Event Convert DList Iface Timer TimerInv TimerSpec TimerThm.
From S2P Require Import ReadyQueue QueueInv QueueOps QueuePoll Poll PollThm Windows.

(** [assert_eq!(left, right)] *)
Definition assert_eq {S A} `{EqDecision A} (left right : A) : M S unit :=
  if decide (left = right) then mret tt else panic.
(** [assert!(cond)] *)
Definition assert {S} (cond : bool) : M S unit := if cond then mret tt else panic.
(** [r.unwrap()] *)
Definition unwrap_ok {S E A} (r : result E A) : M S A := match r with Ok a => mret a | Err _ => panic end.

(** ** timer.rs *)

Module timer_test.
Definition TICK : Z := 100.
Definition SLOTS : Z := 16.
Definition CAPACITY : Z := 32.

Section tests.
Context {S : Type → Type} {slab_ops : SlabOps S}.
Context {C : Type → Type} {cell_ops : LazyCellOps C}.
Context {R H W : Type} {rd_ops : ReadinessOps W H}.
Abbreviation TestTimer := (Timer S C string R H).
Abbreviation TM := (M (Sys S C string R H W)).

Definition count (t : TestTimer) : Z := slab_len (entries t).
Definition new_timer (now : Instant) : outcome TestTimer := Timer_new TICK SLOTS CAPACITY now.
Definition ms_to_tick (t : TestTimer) (ms : Z) : outcome Z := div64 ms (tick_ms t).

(** [t.set_timeout_at(Duration::from_millis(ms), state).unwrap()] *)
Definition set_at (ms : Z) (state : string) : TM Timeout := r ← set_timeout_at (from_millis ms) state; unwrap_ok r.
(** [tick = ms_to_tick(&t, ms)] *)
Definition to_tick (ms : Z) : TM Z := s ← get; lift (ms_to_tick (timer s) ms).
(** [assert_eq!(expected, t.poll_to(tick))] *)
Definition polls (expected : option string) (tick : Z) : TM unit := o ← poll_to tick; assert_eq expected o.
(** [t.cancel_timeout(&to)] *)
Definition cancel (to : Timeout) : TM (option string) := λ s,
  '(o, t) ← cancel_timeout to (timer s); Done (o, with_timer s t).
(** [assert_eq!(n, count(&t))] *)
Definition counts (n : Z) : TM unit := s ← get; assert_eq n (count (timer s)).

Definition test_timeout_next_tick : TM unit :=
  _ ← set_at 100 "a";
  tick ← to_tick 50; _ ← polls None tick;
  tick ← to_tick 100; _ ← polls (Some "a"%string) tick; _ ← polls None tick;
  tick ← to_tick 150; _ ← polls None tick;
  tick ← to_tick 200; _ ← polls None tick;
  counts 0.

Definition test_clearing_timeout : TM unit :=
  to ← set_at 100 "a";
  o ← cancel to; a ← lift (unwrap o); _ ← assert_eq "a"%string a;
  tick ← to_tick 100; _ ← polls None tick;
  tick ← to_tick 200; _ ← polls None tick;
  counts 0.

(** [rcv.sort()] orders the two strings that were received. *)
Definition sort2 (a b : string) : list string := if String.leb a b then [a; b] else [b; a].

Definition test_multiple_timeouts_same_tick : TM unit :=
  _ ← set_at 100 "a"; _ ← set_at 100 "b";
  tick ← to_tick 100;
  o1 ← poll_to tick; r1 ← lift (unwrap o1);
  o2 ← poll_to tick; r2 ← lift (unwrap o2);
  _ ← polls None tick;
  _ ← assert_eq (sort2 r1 r2) ["a"; "b"]%string;
  tick ← to_tick 200; _ ← polls None tick;
  counts 0.

Definition test_multiple_timeouts_diff_tick : TM unit :=
  _ ← set_at 110 "a"; _ ← set_at 220 "b"; _ ← set_at 230 "c"; _ ← set_at 440 "d"; _ ← set_at 560 "e";
  tick ← to_tick 100; _ ← polls (Some "a"%string) tick; _ ← polls None tick;
  tick ← to_tick 200; _ ← polls (Some "c"%string) tick; _ ← polls (Some "b"%string) tick; _ ← polls None tick;
  tick ← to_tick 300; _ ← polls None tick;
  tick ← to_tick 400; _ ← polls (Some "d"%string) tick; _ ← polls None tick;
  tick ← to_tick 500; _ ← polls None tick;
  tick ← to_tick 600; _ ← polls (Some "e"%string) tick;
  polls None tick.

Definition test_catching_up : TM unit :=
  _ ← set_at 110 "a"; _ ← set_at 220 "b"; _ ← set_at 230 "c"; _ ← set_at 440 "d";
  tick ← to_tick 600;
  _ ← polls (Some "a"%string) tick; _ ← polls (Some "c"%string) tick; _ ← polls (Some "b"%string) tick;
  _ ← polls (Some "d"%string) tick;
  polls None tick.

Definition test_timeout_hash_collision : TM unit :=
  _ ← set_at 100 "a"; _ ← set_at (100 + TICK * SLOTS) "b";
  tick ← to_tick 100; _ ← polls (Some "a"%string) tick; _ ← counts 1;
  tick ← to_tick 200; _ ← polls None tick; _ ← counts 1;
  tick ← to_tick (100 + TICK * SLOTS); _ ← polls (Some "b"%string) tick;
  counts 0.

Definition test_clearing_timeout_between_triggers : TM unit :=
  a ← set_at 100 "a"; _ ← set_at 100 "b"; _ ← set_at 200 "c";
  tick ← to_tick 100; _ ← polls (Some "b"%string) tick; _ ← counts 2;
  _ ← cancel a; _ ← counts 1;
  _ ← polls None tick;
  tick ← to_tick 200; _ ← polls (Some "c"%string) tick;
  counts 0.

(** A test on a fresh timer. *)
Definition passes (test : TM unit) (w : W) : outcome bool :=
  t ← new_timer 0;
  '(_, _) ← test (mkSys t (mkShared USIZE_MAX false) w);
  Done true.
End tests.

Definition all : list (M (Sys map_slab option string unit unit Ready.t) unit) :=
  [test_timeout_next_tick; test_clearing_timeout; test_multiple_timeouts_same_tick;
   test_multiple_timeouts_diff_tick; test_catching_up; test_timeout_hash_collision;
   test_clearing_timeout_between_triggers].

Example all_pass : (λ test, passes test Ready.none) <$> all = replicate 7 (Done true).
Proof. vm_compute. reflexivity. Qed.
End timer_test.

(** ** poll.rs *)

Module poll_test.
Section count.
Context {A : Type} {awk_ops : AwakenerOps A}.
Implicit Types q : Queue A.

(** The loop [while let Some(node) = cur]; the fuel is the number of nodes there
    are, which is enough if the list has no cycle. *)
Fixpoint count_from (fuel : nat) (cur : option loc) (cnt : Z) : M (Queue A) Z :=
  match cur with
  | None => mret cnt
  | Some node =>
      match fuel with
      | O => out_of_fuel
      | S fuel => n ← read_node node; count_from fuel (next_all_nodes n) (cnt + 1)
      end
  end.

Definition readiness_node_count : M (Queue A) Z := q ← get; count_from (size (heap q)) (head_all_nodes q) 0.

Lemma count_from_suffix (h : gmap loc ReadinessNode) hd l q : dlist next_all_nodes prev_all_nodes h hd l → heap q = h →
  ∀ l2 l1 cnt fuel, l = l1 ++ l2 → (length l2 ≤ fuel)%nat →
  count_from fuel (head l2) cnt q = Done (cnt + Z.of_nat (length l2), q).
Proof.
  intros (_ & _ & Hc) Hq l2. induction l2 as [|x l2 IH]; intros l1 cnt fuel -> Hf; destruct fuel as [|fuel]; cbn in *;
    [by rewrite Z.add_0_r|by rewrite Z.add_0_r|lia|].
  destruct (Hc l1 x l2 eq_refl) as (n & Hn & Hnx & _). unfold mbind, M_bind, read_node. rewrite Hq, Hn. cbn. rewrite Hnx.
  rewrite (IH (l1 ++ [x]) (cnt + 1) fuel) by (rewrite <- ?app_assoc; done || lia). do 2 f_equal. lia.
Qed.

Lemma node_count_ok q al rl cnt : queue_good q al rl cnt → readiness_node_count q = Done (Z.of_nat (length al), q).
Proof.
  intros [Hi _]. unfold readiness_node_count, mbind, M_bind, get. pose proof (qi_all _ _ _ Hi) as Hd. rewrite (dlist_hd _ _ _ _ _ Hd). cbn.
  rewrite (count_from_suffix _ _ _ _ Hd eq_refl al [] 0 (size (heap q)) eq_refl); [done|].
  rewrite <- (size_dom (D:=gset loc)), <- (size_list_to_set (C:=gset loc)) by (by eapply dlist_NoDup).
  apply subseteq_size. intros l Hl. apply elem_of_dom, (qi_own _ _ _ Hi). by apply elem_of_list_to_set in Hl.
Qed.

Lemma run_hops_app ops1 ops2 (p : Pool A) : run_hops (ops1 ++ ops2) p = run_hops ops1 p ≫= run_hops ops2.
Proof. revert p. induction ops1 as [|op ops IH]; intros p; cbn; [done|]. destruct (run_hop op p); [apply IH|done..]. Qed.


(** [registrations.push(Registration::new(..))], [n] times. *)
Fixpoint new_registrations (n : nat) (rs : list (RegistrationInner * RegistrationInner)) : M (Queue A) (list (RegistrationInner * RegistrationInner)) :=
  match n with
  | O => mret rs
  | S n => q ← get; r ← Registration_new (q_id q) (mkToken 0) Ready.readable PollOpt.edge; new_registrations n (rs ++ [r])
  end.
(** [drop(registrations)] *)
Fixpoint drop_registrations (rs : list (RegistrationInner * RegistrationInner)) : M (Queue A) unit :=
  match rs with
  | [] => mret tt
  | (registration, set_readiness) :: rs =>
      _ ← Registration_drop registration; _ ← SetReadiness_drop set_readiness; drop_registrations rs
  end.

Definition test_nodes_do_not_leak {Sel V} `{SysEventsOps V, SelectorOps Sel V} : M (Poll A Sel) unit :=
  registrations ← on_queue (new_registrations 3 []);
  _ ← on_queue (drop_registrations registrations);
  '(r, _) ← Poll_poll Datatypes.id (Events_with_capacity (V:=V) 1024) (Some (from_millis 300));
  num ← unwrap_ok r;
  _ ← assert_eq 0 num;
  cnt ← on_queue readiness_node_count;
  assert_eq 0 cnt.
End count.


Example test_nodes_pass :
  match test_nodes_do_not_leak (mkPoll (mkScript []) q0) with Done _ => true | _ => false end = true.
Proof. vm_compute. reflexivity. Qed.
End poll_test.

(** ** from_raw_arc.rs *)

Module arc_test.
Definition smoke : M (ArcHeap Z) unit :=
  a ← FromRawArc_new 1;
  d ← FromRawArc_deref a; _ ← assert_eq d 1;
  b ← FromRawArc_clone a; d ← FromRawArc_deref b; _ ← assert_eq d 1; _ ← FromRawArc_drop b;
  _ ← FromRawArc_drop a; mret tt.

(** The data is a reference to a flag, which its [drop] sets; the flag is the value
    that is tracked here: it is set exactly when an [Arc] drops the data. *)
Definition dropped {T} (r : option T) : bool := match r with Some _ => true | None => false end.

Definition drops : M (ArcHeap unit) unit :=
  a ← FromRawArc_new tt;
  b ← FromRawArc_clone a; flag ← FromRawArc_drop b;
  _ ← FromRawArc_deref a; _ ← assert (negb (dropped flag));
  flag ← FromRawArc_drop a;
  assert (dropped flag).

Example arc_tests_pass : smoke ∅ = Done (tt, ∅) ∧ drops ∅ = Done (tt, ∅).
Proof. vm_compute. auto. Qed.
End arc_test.
